(* ===== verification/_CoqProject ===== *)
-Q . S2P
Prelude.v
GoStrings.v
GoTime.v
Regex.v
Domain.v
GoValue.v
RuntimeSpec.v
RuntimeSpecFacts.v
ProductSpec.v
ProductSpecFacts.v
SelectionFacts.v
ProductRuns.v
Graph.v
Crypto.v
Money.v
Tx.v
Table.v
Triple.v
Ledger.v
Schema.v
Http.v
Payments.v
PaymentFacts.v
RefundFacts.v
Posting.v
Orders.v
PaymentHistory.v
Accounts.v
AccountFacts.v
Bills.v
Recovery.v
Subscriptions.v
SubscriptionFacts.v
Billing.v
BillingFacts.v
BillingBooks.v
Metering.v
Names.v
Health.v
DeployDb.v
Deploy.v
DeployFacts.v
DeployPorts.v
DeployRuns.v
Catalog.v
ProductTests.v
TestNames.v
CatalogFacts.v
CatalogHistory.v
CatalogRuns.v
Control.v
ControlFacts.v
ControlRuns.v
Releases.v
ReleaseFacts.v
ReleaseRuns.v
