(* ===== verification/Prelude.v ===== *)
(** * CloudMeter: verification library (root file)

    CloudMeter is a hosting platform in Go: an HTTP control plane
    (src/internal/httpapi, started by src/apps/api), a worker (src/apps/worker)
    that runs loops over PostgreSQL and Docker, a router and an egress proxy in
    front of the applications, and SQL migrations (src/migrations) whose
    constraints and triggers carry part of the logic.  Handlers and loops share
    nothing but the database: each works in one transaction (or a few), and
    the jobs that handlers insert are what the loops pick up.

    ** How the program is modelled

    A handler or a pass of a loop is a program of the monad [tx D R] (Tx): [D]
    is the part of the database it works on, [R] its answer.  [run] executes it
    under an oracle that decides for each interaction with PostgreSQL whether
    it succeeds, fails, or (a commit) takes effect although the client sees an
    error; a transaction that does not commit leaves the database as it was.
    A table is the list of its rows (Table), a row a record, a nullable column
    an option; constraints, unique indexes and triggers that the modelled
    statements can violate are checks of the statement, in the order in which
    they matter, and the checks that a theorem relies on are never assumed.
    Two program logics carry the proofs: [wp] (Tx) for runs without faults, and
    [triple]/[ends] (Triple) for runs under any faults.  Interleavings are step
    relations whose steps are whole transactions under any oracle, and
    invariants are proved along [rtc] of these relations.

    ** The parts

    Foundations: GoStrings, GoTime, GoValue and Regex are the parts of Go's
    standard library that the program uses (bytes of strings, calendar,
    decoded JSON with float64 numbers, anchored regular expressions by
    derivatives); Crypto is MD5, SHA-256 and HMAC; Graph is reachability in a
    finite graph; Domain is internal/domain/state.go; Tx, Table, Triple are the
    transactions; Schema and Http are the tables and the requests the account
    handlers share.

    Money: Ledger holds wallets and the append-only entries with their triggers,
    Posting the statements by which every writer moves money (the interface
    [wp_post] between the ledger and its clients).  Money, Payments and Orders
    are payment_features.go, epay_callback.go, payment_operations.go and
    payment_provider.go; Accounts is adjustWallet (server.go), checkin_features,
    invite_features, credit_features and startup_balance; Subscriptions, with
    Bills and Recovery, is subscription_features.go and the SQL function it
    calls; Billing is aggregateUsage, sealUnpricedUsage and billUsage of
    apps/worker/main.go.  PaymentFacts, RefundFacts, PaymentHistory,
    AccountFacts, SubscriptionFacts, BillingFacts, BillingBooks and Metering
    hold their theorems: what each handler computes on every branch without
    faults, and the books that every interleaving keeps under any faults (each
    paid order credited once, each charge paid once by credit and wallet
    together, totals of bills, remainders of credit grants).

    Specifications: RuntimeSpec and RuntimeSpecFacts are the validation of
    internal/runtime/spec.go and its declarative contract; ProductSpec is
    product_spec.go and the choices of a customer (selectedRuntimeSpec and
    selectedRouteSpec of server.go, runtimeSpecForUpdate of app_lifecycle.go);
    ProductSpecFacts and SelectionFacts show what a choice can change.

    Catalog: Catalog (server.go, product_lifecycle.go, version_lifecycle.go,
    resource_deletion.go, product_test_features.go, product_dependencies.go)
    and ProductTests (apps/worker/product_tests.go) are products, versions and
    their tests; CatalogFacts and CatalogHistory hold the invariant over every
    interleaving, TestNames the reconciliation of what Docker lists.

    Applications: Names is the naming of Docker resources; Health, DeployDb and
    Deploy are the deployment loop of apps/worker/main.go (processOne,
    markJobError) with docker_settings.go, whose state machine is the one of
    Domain; DeployFacts and DeployPorts hold the invariant, the refinement of
    the state machine, termination and the host ports.  Control is app_control.go
    and processStopOne; Releases is createApp of server.go with the updates and
    rollbacks of app_lifecycle.go, the secrets they rotate and the access policy
    they set.  ControlFacts holds the invariant that stops, starts and
    deployments keep, ReleaseFacts the one over every interleaving of them with
    the requests for deployments.

    The files named ...Runs, and the modules at the end of some fact files,
    evaluate concrete histories and apply the theorems to them.

    ** Bounds and fuel

    No definition takes fuel that a caller chooses: recursions are structural,
    regular expressions are decided by derivatives along the text, calendar
    normalisation is arithmetic, and [Graph.reachable] expands a set as often
    as there are edges, which [reachable_spec] shows to be the closure.  A
    deployment takes at most twelve transitions with eight health checks
    (deployments_end); a test of a version at most eleven steps with eight
    checks (catalog_history); [billUsage_rests] bounds the runs of the billing
    loop.  int64 arithmetic on money wraps ([wrap64]), and PostgreSQL's
    [bigint out of range] is an error of the statement.

    ** Modelling choices

    Timestamps are microseconds, the precision of PostgreSQL.  UUID parameters
    are taken in their canonical spelling.  JSON bodies are given decoded, with
    [None] for a body the decoder refuses; strings are valid UTF-8.  Rows that
    FOR UPDATE SKIP LOCKED passes over are given by a function [unlocked].  A
    conversion of a float64 to int out of range gives the value of amd64.  A
    failure is a constructor that keeps its cause instead of the text that is
    written or logged; the content of notifications and e-mails is left out.
    The answers of Docker and of providers are parameters of a pass, one value
    per question, and what a pass removes after its commit is part of its
    result.  Go's map iteration order is the class [GoRange], which theorems
    never fix; generated identifiers are arguments; [Secrets] and the argument
    [encrypt] are the secret box, [UuidSyntax] is PostgreSQL's reading of a
    UUID, [UnicodeLower] the lower case of letters outside ASCII, and
    [ReleaseTrigger] the trigger that compares a new release with its version.
    CHECK constraints and foreign keys that repeat what the same transaction
    has read under a lock are left out; each file says which.

    ** Not modelled

    The router and the egress proxy (network I/O), the Docker client
    internal/runtime/docker_executor.go (an HTTP client whose answers are
    parameters), sessions, OAuth, registration and Turnstile (cryptographic
    libraries and remote services), tickets, AI support and the LLM API (text
    and remote services), backups and restores, gateway and Caddy
    configuration, settings forms, listings and summaries (read-only), the
    samplers of the worker (metrics of Docker and of the host), e-mail, log
    retention and restarts, the secret box (AES-GCM of Go's library), the web
    front end, and the parts of migrations that no modelled statement meets.
    The manifest of the development lists every part with its reason. *)

From Stdlib Require Export ZArith Lia.
From stdpp Require Export numbers strings gmap sets list.

#[export] Set Default Goal Selector "!".

(** ** Results

    A Go function that returns [(T, error)] is a function into [result E T]:
    [Err e] is the non-nil error branch. *)
Inductive result (E A : Type) : Type :=
  | Ok (a : A)
  | Err (e : E).
Arguments Ok {E A} a.
Arguments Err {E A} e.

#[export] Instance result_ret {E} : MRet (result E) := fun _ a => Ok a.
#[export] Instance result_bind {E} : MBind (result E) := fun _ _ f m =>
  match m with Ok a => f a | Err e => Err e end.
#[export] Instance result_fmap {E} : FMap (result E) := fun _ _ f m =>
  match m with Ok a => Ok (f a) | Err e => Err e end.

Definition is_ok {E A} (r : result E A) : bool :=
  match r with Ok _ => true | Err _ => false end.

(** [if !b { return err }]. *)
Definition ensure {E} (b : bool) (e : E) : result E unit :=
  if b then Ok tt else Err e.

#[export] Instance result_eq_dec {E A} `{EqDecision E} `{EqDecision A} :
  EqDecision (result E A).
Proof. solve_decision. Defined.

Section result_lemmas.
Context {E A B : Type}.
Implicit Types (m : result E A) (f : A → result E B).

Lemma bind_ok_inv f m b :
  m ≫= f = Ok b → ∃ a, m = Ok a ∧ f a = Ok b.
Proof. destruct m; cbn; [eauto|discriminate]. Qed.

Lemma bind_ok f m a : m = Ok a → m ≫= f = f a.
Proof. by intros ->. Qed.

Lemma bind_err f m e : m = Err e → m ≫= f = Err e.
Proof. by intros ->. Qed.

Lemma bind_assoc {C} f (g : B → result E C) m :
  (m ≫= f) ≫= g = m ≫= (λ a, f a ≫= g).
Proof. by destruct m. Qed.

Lemma ensure_ok_inv (b : bool) (e : E) u : ensure b e = Ok u → b = true.
Proof. by destruct b. Qed.

Lemma is_ok_bind f m :
  is_ok (m ≫= f) = match m with Ok a => is_ok (f a) | Err _ => false end.
Proof. by destruct m. Qed.

Lemma is_ok_true_iff m : is_ok m = true ↔ ∃ a, m = Ok a.
Proof. destruct m; cbn; split; [eauto|done|done|]. by intros [? [=]]. Qed.
End result_lemmas.

(** [v, ok := x.(T)]: the flag [ok]. *)
Lemma is_some_true {A} (x : A) : bool_decide (is_Some (Some x)) = true.
Proof. by apply bool_decide_eq_true_2. Qed.
Lemma is_some_false A : bool_decide (is_Some (@None A)) = false.
Proof. apply bool_decide_eq_false_2. by intros []. Qed.

(** ** Tactics of the development *)

(** Turn boolean tests in hypotheses into propositions. *)
Ltac bool_hyps :=
  repeat match goal with
  | H : andb _ _ = true |- _ => apply andb_true_iff in H as [? ?]
  | H : orb _ _ = false |- _ => apply orb_false_iff in H as [? ?]
  | H : negb _ = true |- _ => apply negb_true_iff in H
  | H : negb _ = false |- _ => apply negb_false_iff in H
  | H : (_ <? _)%Z = true |- _ => apply Z.ltb_lt in H
  | H : (_ <? _)%Z = false |- _ => apply Z.ltb_ge in H
  | H : (_ <=? _)%Z = true |- _ => apply Z.leb_le in H
  | H : (_ <=? _)%Z = false |- _ => apply Z.leb_gt in H
  | H : (_ =? _)%Z = true |- _ => apply Z.eqb_eq in H
  | H : (_ =? _)%Z = false |- _ => apply Z.eqb_neq in H
  | H : (_ <? _)%nat = true |- _ => apply Nat.ltb_lt in H
  | H : (_ <? _)%nat = false |- _ => apply Nat.ltb_ge in H
  | H : (_ <=? _)%nat = true |- _ => apply Nat.leb_le in H
  | H : (_ <=? _)%nat = false |- _ => apply Nat.leb_gt in H
  | H : (_ =? _)%nat = true |- _ => apply Nat.eqb_eq in H
  | H : (_ =? _)%nat = false |- _ => apply Nat.eqb_neq in H
  | H : bool_decide (is_Some (Some _)) = false |- _ => by rewrite is_some_true in H
  | H : bool_decide (is_Some None) = true |- _ => by rewrite is_some_false in H
  | H : bool_decide _ = true |- _ => apply bool_decide_eq_true_1 in H
  | H : bool_decide _ = false |- _ => apply bool_decide_eq_false_1 in H
  end.

(** Walk a successful run of a [result] computation backwards. *)
Ltac inv_ok :=
  repeat match goal with
  | H : Ok _ = Ok _ |- _ => injection H as H; try subst
  | H : Err _ = Err _ |- _ => injection H as H; try subst
  | H : Ok _ = Err _ |- _ => discriminate H
  | H : Err _ = Ok _ |- _ => discriminate H
  | H : _ ≫= _ = Ok _ |- _ =>
      let a := fresh "a" in let Ha := fresh "Hrun" in
      apply bind_ok_inv in H as (a & Ha & H)
  | H : ensure _ _ = Ok _ |- _ => apply ensure_ok_inv in H
  | H : mret _ = Ok _ |- _ => unfold mret, result_ret in H
  end.

(** Case split on the scrutinee of a match in a hypothesis, discarding the
    branches that cannot return [Ok]. *)
Ltac split_run H :=
  repeat match type of H with
  | context [match ?x with _ => _ end] =>
      let E := fresh "E" in destruct x eqn:E; try discriminate H
  end.

(** ** Machine integers: Go's [int64], [int] on a 64-bit platform. *)
Definition int64_min : Z := - 2 ^ 63.
Definition int64_max : Z := 2 ^ 63 - 1.
Definition wrap64 (z : Z) : Z := (z + 2 ^ 63) mod 2 ^ 64 - 2 ^ 63.
Definition is_int64 (z : Z) : Prop := (int64_min <= z <= int64_max)%Z.

Lemma wrap64_range z : is_int64 (wrap64 z).
Proof.
  unfold is_int64, wrap64, int64_min, int64_max.
  pose proof (Z.mod_pos_bound (z + 2 ^ 63) (2 ^ 64) ltac:(lia)). lia.
Qed.

Lemma wrap64_id z : is_int64 z → wrap64 z = z.
Proof.
  unfold is_int64, wrap64, int64_min, int64_max. intros ?.
  rewrite Z.mod_small; lia.
Qed.

Definition in64 (z : Z) : bool := (int64_min <=? z)%Z && (z <=? int64_max)%Z.
Lemma in64_spec z : in64 z = true ↔ is_int64 z.
Proof. unfold in64, is_int64. rewrite andb_true_iff, !Z.leb_le. done. Qed.
Lemma wrap64_in64 z : in64 z = true → wrap64 z = z.
Proof. rewrite in64_spec. apply wrap64_id. Qed.

(** Sums of [int64] amounts, as the ledger and the invoices use them. *)
Fixpoint sumZ (l : list Z) : Z :=
  match l with [] => 0%Z | x :: l => (x + sumZ l)%Z end.

Lemma sumZ_app l k : sumZ (l ++ k) = (sumZ l + sumZ k)%Z.
Proof. induction l; cbn; lia. Qed.

#[export] Instance sumZ_perm : Proper ((≡ₚ) ==> eq) sumZ.
Proof. induction 1; cbn; lia. Qed.

Lemma sumZ_nonneg l : Forall (λ z, 0 <= z)%Z l → (0 <= sumZ l)%Z.
Proof. induction 1; cbn; lia. Qed.

(** ** Loops with a [seen] map

    The validators walk an array and refuse a key they met before.  The
    [seen] map of the code is the set of keys met so far. *)
Section distinct_loop.
Context {E A B : Type} `{Countable K}.
Variable step : A → result E (K * B).
Variable dup : A → E.

Fixpoint distinct_loop (seen : gset K) (xs : list A) : result E (list B) :=
  match xs with
  | [] => Ok []
  | x :: xs =>
      '(k, b) ← step x;
      _ ← ensure (negb (bool_decide (k ∈ seen))) (dup x);
      bs ← distinct_loop ({[k]} ∪ seen) xs;
      Ok (b :: bs)
  end.

(** The loop accepts exactly the arrays whose elements all pass [step] and
    whose keys are pairwise distinct and new. *)
Lemma distinct_loop_ok seen xs bs :
  distinct_loop seen xs = Ok bs ↔
  ∃ kbs, Forall2 (λ x kb, step x = Ok kb) xs kbs ∧ bs = kbs.*2 ∧
         NoDup kbs.*1 ∧ (∀ k, k ∈ kbs.*1 → k ∉ seen).
Proof.
  revert seen bs. induction xs as [|x xs IH]; intros seen bs; cbn; split.
  - intros [= <-]. exists []. split_and!; [done|done|constructor|set_solver].
  - intros (kbs & HF & -> & _). inversion HF. done.
  - intros Hr. apply bind_ok_inv in Hr as ([k b] & Hs & Hr).
    apply bind_ok_inv in Hr as ([] & He & Hr). apply ensure_ok_inv in He. bool_hyps.
    apply bind_ok_inv in Hr as (bs' & Hl & [= <-]).
    apply IH in Hl as (kbs & HF & -> & Hnd & Hnew).
    exists ((k, b) :: kbs). split_and!; [by constructor|done|..]; cbn.
    + constructor; [|done]. intros Hin. apply Hnew in Hin. set_solver.
    + intros k' [->|Hin]%elem_of_cons; [done|]. apply Hnew in Hin. set_solver.
  - intros (kbs & HF & -> & Hnd & Hnew). inversion HF as [|? [k b] ? kbs' Hs HF']; subst.
    cbn in *. apply NoDup_cons in Hnd as [Hk Hnd]. rewrite Hs; cbn.
    rewrite bool_decide_eq_false_2 by (apply Hnew; left); cbn.
    rewrite (proj2 (IH ({[k]} ∪ seen) kbs'.*2)); [done|].
    exists kbs'. split_and!; try done. intros k' Hk'.
    assert (k' ∉ seen) by (apply Hnew; by right). assert (k' ≠ k) by congruence. set_solver.
Qed.
End distinct_loop.

(** The same with two independent [seen] maps. *)
Section distinct2_loop.
Context {E A B : Type} `{Countable K} `{Countable L}.
Variable step : A → result E (K * L * B).
Variables dup1 dup2 : A → E.

Fixpoint distinct2_loop (seen : gset K) (seen' : gset L) (xs : list A) : result E (list B) :=
  match xs with
  | [] => Ok []
  | x :: xs =>
      '(k, l, b) ← step x;
      _ ← ensure (negb (bool_decide (k ∈ seen))) (dup1 x);
      _ ← ensure (negb (bool_decide (l ∈ seen'))) (dup2 x);
      bs ← distinct2_loop ({[k]} ∪ seen) ({[l]} ∪ seen') xs;
      Ok (b :: bs)
  end.

Lemma distinct2_loop_ok seen seen' xs bs :
  distinct2_loop seen seen' xs = Ok bs ↔
  ∃ rs, Forall2 (λ x r, step x = Ok r) xs rs ∧ bs = rs.*2 ∧
        NoDup rs.*1.*1 ∧ NoDup rs.*1.*2 ∧
        (∀ k, k ∈ rs.*1.*1 → k ∉ seen) ∧ (∀ l, l ∈ rs.*1.*2 → l ∉ seen').
Proof.
  revert seen seen' bs. induction xs as [|x xs IH]; intros seen seen' bs; cbn; split.
  - intros [= <-]. exists []. split_and!; try done; try constructor; set_solver.
  - intros (rs & HF & -> & _). inversion HF. done.
  - intros Hr. apply bind_ok_inv in Hr as ([[k l] b] & Hs & Hr).
    apply bind_ok_inv in Hr as ([] & He & Hr). apply ensure_ok_inv in He. bool_hyps.
    apply bind_ok_inv in Hr as ([] & He' & Hr). apply ensure_ok_inv in He'. bool_hyps.
    apply bind_ok_inv in Hr as (bs' & Hl & [= <-]).
    apply IH in Hl as (rs & HF & -> & Hnd & Hnd' & Hnew & Hnew').
    exists ((k, l, b) :: rs). split_and!; [by constructor|done|..]; cbn.
    + constructor; [|done]. intros Hin. apply Hnew in Hin. set_solver.
    + constructor; [|done]. intros Hin. apply Hnew' in Hin. set_solver.
    + intros k' [->|Hin]%elem_of_cons; [done|]. apply Hnew in Hin. set_solver.
    + intros l' [->|Hin]%elem_of_cons; [done|]. apply Hnew' in Hin. set_solver.
  - intros (rs & HF & -> & Hnd & Hnd' & Hnew & Hnew').
    inversion HF as [|? [[k l] b] ? rs' Hs HF']; subst.
    cbn in *. apply NoDup_cons in Hnd as [Hk Hnd]. apply NoDup_cons in Hnd' as [Hl Hnd'].
    rewrite Hs; cbn. rewrite !bool_decide_eq_false_2 by (apply Hnew || apply Hnew'; left); cbn.
    rewrite (proj2 (IH ({[k]} ∪ seen) ({[l]} ∪ seen') rs'.*2)); [done|].
    exists rs'. split_and!; try done.
    + intros k' Hk'. assert (k' ∉ seen) by (apply Hnew; by right).
      assert (k' ≠ k) by congruence. set_solver.
    + intros l' Hl'. assert (l' ∉ seen') by (apply Hnew'; by right).
      assert (l' ≠ l) by congruence. set_solver.
Qed.
End distinct2_loop.
