(* ===== verification/GoStrings.v ===== *)
(** * Go strings

    The parts of Go's [strings], [strconv] and [fmt] that the program uses, as
    executable functions.  A Go string is a sequence of bytes; it is a
    [string] here, and [chars]/[str] convert to the list of its bytes, on
    which the functions recurse.

    [strings.ToLower] maps runes outside ASCII by the Unicode tables; the class
    [UnicodeLower] fixes what the program relies on (the behaviour on ASCII
    strings), and [ascii_lower] is an instance of it. *)
From S2P Require Import Prelude.
From Stdlib Require Export Ascii String.
From stdpp Require Import list.
Open Scope string_scope.
Open Scope nat_scope.
Open Scope list_scope.

Definition chars (s : string) : list ascii := list_ascii_of_string s.
Definition str (l : list ascii) : string := string_of_list_ascii l.
(** [s + t] and [len(s)] of Go. *)
Notation "s '^+' t" := (String.append s t) (at level 55, right associativity) : string_scope.
Definition slen (s : string) : Z := Z.of_nat (List.length (chars s)).
Definition byte (n : nat) : ascii := ascii_of_nat n.
Definition code (c : ascii) : nat := nat_of_ascii c.

(** ** Prefixes, suffixes, substrings *)
Fixpoint prefixb (p l : list ascii) : bool :=
  match p, l with
  | [], _ => true
  | a :: p, b :: l => bool_decide (a = b) && prefixb p l
  | _, [] => false
  end.
Definition has_prefix (s p : string) : bool := prefixb (chars p) (chars s).
Definition has_suffix (s p : string) : bool := prefixb (reverse (chars p)) (reverse (chars s)).
Definition trim_prefix (s p : string) : string :=
  if has_prefix s p then str (drop (List.length (chars p)) (chars s)) else s.
Definition trim_suffix (s p : string) : string :=
  if has_suffix s p
  then str (take (List.length (chars s) - List.length (chars p)) (chars s)) else s.
Fixpoint containsb (l sub : list ascii) : bool :=
  prefixb sub l || match l with [] => false | _ :: l => containsb l sub end.
Definition contains (s sub : string) : bool := containsb (chars s) (chars sub).
Definition contains_any (s cutset : string) : bool :=
  existsb (λ c, bool_decide (c ∈ chars cutset)) (chars s).

(** ** Trimming: [TrimLeft], [TrimRight], [Trim] with an ASCII cutset, and
    [TrimSpace], which removes the Unicode white space of [unicode.IsSpace]
    at both ends (one, two or three bytes of UTF-8). *)
Fixpoint drop_while (f : ascii → bool) (l : list ascii) : list ascii :=
  match l with [] => [] | c :: l' => if f c then drop_while f l' else l end.
Definition in_cut (cutset : string) (c : ascii) : bool := bool_decide (c ∈ chars cutset).
Definition trim_left (s cutset : string) : string := str (drop_while (in_cut cutset) (chars s)).
Definition trim_right (s cutset : string) : string :=
  str (reverse (drop_while (in_cut cutset) (reverse (chars s)))).
Definition trim (s cutset : string) : string := trim_right (trim_left s cutset) cutset.

Definition space1 (a : ascii) : bool :=
  let n := code a in ((9 <=? n) && (n <=? 13)) || (n =? 32).
Definition space2 (a b : ascii) : bool :=
  (code a =? 194) && ((code b =? 133) || (code b =? 160)).
Definition space3 (a b c : ascii) : bool :=
  let '(x, y, z) := (code a, code b, code c) in
  ((x =? 225) && (y =? 154) && (z =? 128)) ||
  ((x =? 226) && (y =? 128) && (((128 <=? z) && (z <=? 138)) || (z =? 168) || (z =? 169) || (z =? 175))) ||
  ((x =? 226) && (y =? 129) && (z =? 159)) ||
  ((x =? 227) && (y =? 128) && (z =? 128)).

Fixpoint trim_left_space (l : list ascii) : list ascii :=
  match l with
  | [] => []
  | a :: l1 =>
      if space1 a then trim_left_space l1 else
      match l1 with
      | [] => l
      | b :: l2 =>
          if space2 a b then trim_left_space l2 else
          match l2 with
          | [] => l
          | c :: l3 => if space3 a b c then trim_left_space l3 else l
          end
      end
  end.
(** The same on a reversed list: the bytes of a rune arrive last first. *)
Fixpoint trim_right_rev (l : list ascii) : list ascii :=
  match l with
  | [] => []
  | a :: l1 =>
      if space1 a then trim_right_rev l1 else
      match l1 with
      | [] => l
      | b :: l2 =>
          if space2 b a then trim_right_rev l2 else
          match l2 with
          | [] => l
          | c :: l3 => if space3 c b a then trim_right_rev l3 else l
          end
      end
  end.
Definition trim_space (s : string) : string :=
  str (reverse (trim_right_rev (reverse (trim_left_space (chars s))))).

(** utf8.RuneCountInString(s) and len([]rune(s)): the bytes that do not continue a
    rune, for valid UTF-8. *)
Definition rune_count (s : string) : Z :=
  Z.of_nat (List.length (List.filter (λ c, negb ((128 <=? code c) && (code c <? 192))%nat) (chars s))).

(** ** Splitting and removing *)
Fixpoint split_l (sep : ascii) (l : list ascii) : list (list ascii) :=
  match l with
  | [] => [[]]
  | c :: l =>
      if bool_decide (c = sep) then [] :: split_l sep l
      else match split_l sep l with
           | [] => [[c]]
           | p :: ps => (c :: p) :: ps
           end
  end.
(** [strings.Split(s, sep)] for a one-byte separator. *)
Definition split (s : string) (sep : ascii) : list string := str <$> split_l sep (chars s).
(** [strings.SplitN(s, sep, 2)] when it has two parts. *)
Fixpoint cut_l (sep : ascii) (l : list ascii) : option (list ascii * list ascii) :=
  match l with
  | [] => None
  | c :: l =>
      if bool_decide (c = sep) then Some ([], l)
      else match cut_l sep l with Some (a, b) => Some (c :: a, b) | None => None end
  end.
Definition cut (s : string) (sep : ascii) : option (string * string) :=
  match cut_l sep (chars s) with Some (a, b) => Some (str a, str b) | None => None end.
(** [strings.ReplaceAll(s, string(c), "")]. *)
Definition remove_byte (s : string) (c : ascii) : string :=
  str (filter (λ b, b ≠ c) (chars s)).
Definition take_str (n : nat) (s : string) : string := str (take n (chars s)).
Definition join (sep : string) (l : list string) : string := String.concat sep l.

(** ** Letter case *)
Definition is_ascii (s : string) : bool := forallb (λ c, code c <? 128) (chars s).
Definition lower_byte (c : ascii) : ascii :=
  if (65 <=? code c) && (code c <=? 90) then byte (code c + 32) else c.
Definition ascii_lower (s : string) : string := str (lower_byte <$> chars s).
Class UnicodeLower := {
  to_lower : string → string;
  to_lower_ascii : ∀ s, is_ascii s = true → to_lower s = ascii_lower s
}.
Definition AsciiLower : UnicodeLower :=
  {| to_lower := ascii_lower; to_lower_ascii := λ s _, eq_refl |}.

(** [strings.EqualFold(s, t)] for an ASCII [t]: simple case folding joins the
    Latin long s (C5 BF) with [s] and the Kelvin sign (E2 84 AA) with [k]. *)
Fixpoint fold_bytes (l : list ascii) : list ascii :=
  match l with
  | [] => []
  | a :: l1 =>
      match l1 with
      | b :: l2 =>
          if (code a =? 197) && (code b =? 191) then byte 115 :: fold_bytes l2 else
          match l2 with
          | c :: l3 =>
              if (code a =? 226) && (code b =? 132) && (code c =? 170)
              then byte 107 :: fold_bytes l3 else lower_byte a :: fold_bytes l1
          | [] => lower_byte a :: fold_bytes l1
          end
      | [] => lower_byte a :: fold_bytes l1
      end
  end.
Definition equal_fold (s t : string) : bool :=
  bool_decide (fold_bytes (chars s) = lower_byte <$> chars t).

(** ** Numbers: [strconv.ParseInt(s, 10, 64)], [strconv.Atoi] and ["%d"]. *)
Definition digit_val (c : ascii) : option Z :=
  if (48 <=? code c) && (code c <=? 57) then Some (Z.of_nat (code c) - 48)%Z else None.
Fixpoint parse_digits (acc : Z) (l : list ascii) : option Z :=
  match l with
  | [] => Some acc
  | c :: l => match digit_val c with Some d => parse_digits (10 * acc + d) l | None => None end
  end.
Definition parse_int (s : string) : option Z :=
  let '(neg, ds) := match chars s with
                    | c :: l => if bool_decide (c = "-"%char) then (true, l)
                                else if bool_decide (c = "+"%char) then (false, l)
                                else (false, c :: l)
                    | [] => (false, []) end in
  match ds with
  | [] => None
  | _ => match parse_digits 0 ds with
         | Some v => let z := if neg then (- v)%Z else v in
                     if (int64_min <=? z)%Z && (z <=? int64_max)%Z then Some z else None
         | None => None
         end
  end.

Definition digit_char (d : Z) : ascii := byte (48 + Z.to_nat d).
Fixpoint digits (fuel : nat) (n : Z) : list ascii :=
  match fuel with
  | O => []
  | S fuel => if (n <? 10)%Z then [digit_char n]
              else digits fuel (n / 10) ++ [digit_char (n mod 10)]
  end.
(** Decimal digits of a natural number; [log2 n + 1] digits always suffice. *)
Definition format_nat (n : Z) : list ascii := digits (S (Z.to_nat (Z.log2 n))) n.
Definition format_int (z : Z) : string :=
  if (z <? 0)%Z then str ("-"%char :: format_nat (- z)) else str (format_nat z).

(** The string operations are opaque to simplification; [vm_compute] runs them. *)
#[global] Arguments chars : simpl never.
#[global] Arguments str : simpl never.
#[global] Arguments slen : simpl never.
#[global] Arguments has_prefix : simpl never.
#[global] Arguments has_suffix : simpl never.
#[global] Arguments trim_prefix : simpl never.
#[global] Arguments trim_suffix : simpl never.
#[global] Arguments contains : simpl never.
#[global] Arguments trim_space : simpl never.
#[global] Arguments trim_left : simpl never.
#[global] Arguments trim_right : simpl never.
#[global] Arguments equal_fold : simpl never.
#[global] Arguments parse_int : simpl never.
#[global] Arguments format_int : simpl never.

(** ** Lemmas: bytes *)
Lemma str_chars s : str (chars s) = s.
Proof. apply string_of_list_ascii_of_string. Qed.
Lemma chars_str l : chars (str l) = l.
Proof. apply list_ascii_of_string_of_list_ascii. Qed.
Lemma chars_app s t : chars (s ^+ t) = chars s ++ chars t.
Proof. induction s as [|a s IH]; [done|]. exact (f_equal (cons a) IH). Qed.
#[export] Instance chars_inj : Inj (=) (=) chars.
Proof. intros s t H. by rewrite <- (str_chars s), <- (str_chars t), H. Qed.
#[export] Instance str_inj : Inj (=) (=) str.
Proof. intros s t H. by rewrite <- (chars_str s), <- (chars_str t), H. Qed.
Lemma str_app l k : str (l ++ k) = str l ^+ str k.
Proof. apply (inj chars). by rewrite chars_app, !chars_str. Qed.
Lemma app_str_assoc (s t u : string) : ((s ^+ t) ^+ u = s ^+ (t ^+ u))%string.
Proof. apply (inj chars). by rewrite !chars_app, app_assoc. Qed.
Create Rewrite HintDb gostr.
#[export] Hint Rewrite chars_app chars_str str_chars str_app : gostr.

Lemma code_range c : code c < 256.
Proof. apply nat_ascii_bounded. Qed.
Lemma code_byte n : n < 256 → code (byte n) = n.
Proof. apply nat_ascii_embedding. Qed.
#[export] Instance code_inj : Inj (=) (=) code.
Proof.
  unfold code. intros a b H.
  by rewrite <- (ascii_nat_embedding a), H, ascii_nat_embedding.
Qed.

(** ** Lemmas: prefixes and suffixes *)
Lemma prefixb_spec p l : prefixb p l = true ↔ ∃ t, l = p ++ t.
Proof.
  revert l. induction p as [|a p IH]; intros l; cbn; [naive_solver|].
  destruct l as [|b l]; [naive_solver|].
  rewrite andb_true_iff, bool_decide_eq_true, IH. naive_solver.
Qed.
Lemma has_prefix_spec s p : has_prefix s p = true ↔ ∃ t, s = (p ^+ t)%string.
Proof.
  unfold has_prefix. rewrite prefixb_spec. split; intros [t Ht].
  - exists (str t). apply (inj chars). by autorewrite with gostr.
  - exists (chars t). by rewrite Ht, chars_app.
Qed.
Lemma has_suffix_spec s p : has_suffix s p = true ↔ ∃ t, s = (t ^+ p)%string.
Proof.
  unfold has_suffix. rewrite prefixb_spec. split; intros [t Ht].
  - exists (str (reverse t)). apply (inj chars). autorewrite with gostr.
    apply (f_equal reverse) in Ht. rewrite reverse_app, !reverse_involutive in Ht. exact Ht.
  - exists (reverse (chars t)). by rewrite Ht, chars_app, reverse_app.
Qed.
Lemma trim_prefix_app p t : trim_prefix (p ^+ t) p = t.
Proof.
  unfold trim_prefix. rewrite (proj2 (has_prefix_spec _ p)) by eauto.
  by rewrite chars_app, drop_app_length, str_chars.
Qed.
Lemma trim_suffix_app t p : trim_suffix (t ^+ p) p = t.
Proof.
  unfold trim_suffix. rewrite (proj2 (has_suffix_spec _ p)) by eauto.
  rewrite chars_app, length_app, Nat.add_sub, take_app_length. apply str_chars.
Qed.

(** ** Lemmas: splitting *)
Lemma split_l_last sep l : sep ∉ l → split_l sep l = [l].
Proof.
  induction l as [|c l IH]; cbn; [done|]. intros [Hc Hl]%not_elem_of_cons.
  rewrite bool_decide_eq_false_2 by congruence. by rewrite IH.
Qed.
Lemma split_l_app sep a l : sep ∉ a → split_l sep (a ++ sep :: l) = a :: split_l sep l.
Proof.
  induction a as [|c a IH]; cbn; intros Ha.
  - by rewrite bool_decide_eq_true_2.
  - apply not_elem_of_cons in Ha as [Hc Ha].
    rewrite bool_decide_eq_false_2 by congruence. by rewrite IH.
Qed.
Lemma cut_l_app sep a l : sep ∉ a → cut_l sep (a ++ sep :: l) = Some (a, l).
Proof.
  induction a as [|c a IH]; cbn; intros Ha.
  - by rewrite bool_decide_eq_true_2.
  - apply not_elem_of_cons in Ha as [Hc Ha].
    rewrite bool_decide_eq_false_2 by congruence. by rewrite IH.
Qed.
Lemma cut_l_inv sep l a b : cut_l sep l = Some (a, b) → l = a ++ sep :: b ∧ sep ∉ a.
Proof.
  revert a b. induction l as [|c l IH]; intros a b; cbn; [done|].
  case_bool_decide as Hc.
  - intros [= <- <-]. subst. split; [done|apply not_elem_of_nil].
  - destruct (cut_l sep l) as [[a' b']|]; [|done]. intros [= <- <-].
    destruct (IH _ _ eq_refl) as [-> Hn]. split; [done|].
    apply not_elem_of_cons. by split.
Qed.

(** ** Lemmas: trimming *)
(** A printable ASCII byte other than the space: no trimming touches it. *)
Definition plain (c : ascii) : Prop := 33 <= code c <= 126.
#[export] Instance plain_dec c : Decision (plain c).
Proof. unfold plain. apply _. Defined.

Lemma plain_not_space c : plain c →
  space1 c = false ∧ (∀ b, space2 c b = false) ∧ (∀ b d, space3 c b d = false) ∧
  (∀ b, space2 b c = false) ∧ (∀ a b, space3 a b c = false).
Proof.
  unfold plain, space1, space2, space3. intros [H1 H2].
  assert (∀ n, 127 <= n → (code c =? n) = false) as Hn by (intros; apply Nat.eqb_neq; lia).
  assert (∀ n, 127 <= n → (n <=? code c) = false) as Hl by (intros; apply Nat.leb_gt; lia).
  split_and!; intros; cbv zeta; rewrite ?(Hn 133), ?(Hn 160), ?(Hn 194), ?(Hn 225), ?(Hn 226),
    ?(Hn 227), ?(Hn 128), ?(Hn 159), ?(Hn 168), ?(Hn 169), ?(Hn 175), ?(Hl 128), ?andb_false_r by lia;
    try done.
  rewrite (proj2 (Nat.eqb_neq _ 32)) by lia.
  rewrite (proj2 (Nat.leb_gt (code c) 13)) by lia. by rewrite andb_false_r.
Qed.

Lemma trim_left_space_plain c l : plain c → trim_left_space (c :: l) = c :: l.
Proof.
  intros (H1 & H2 & H3 & _)%plain_not_space. cbn [trim_left_space]. rewrite H1.
  destruct l as [|b l]; [done|]. rewrite H2. destruct l as [|d l]; [done|]. by rewrite H3.
Qed.
Lemma trim_right_rev_plain c l : plain c → trim_right_rev (c :: l) = c :: l.
Proof.
  intros (H1 & _ & _ & H2 & H3)%plain_not_space. cbn [trim_right_rev]. rewrite H1.
  destruct l as [|b l]; [done|]. rewrite H2. destruct l as [|d l]; [done|]. by rewrite H3.
Qed.
Lemma trim_space_plain s :
  Forall plain (chars s) → trim_space s = s.
Proof.
  intros Hs. unfold trim_space.
  assert (trim_left_space (chars s) = chars s) as ->.
  { destruct Hs; [done|]. by apply trim_left_space_plain. }
  assert (trim_right_rev (reverse (chars s)) = reverse (chars s)) as ->.
  { apply Forall_reverse in Hs. destruct Hs; [done|]. by apply trim_right_rev_plain. }
  by rewrite reverse_involutive, str_chars.
Qed.

(** ** Lemmas: decimal numbers *)
Definition is_digit (c : ascii) : Prop := 48 <= code c <= 57.
#[export] Instance is_digit_dec c : Decision (is_digit c).
Proof. unfold is_digit. apply _. Defined.
(** A decidable proposition on concrete data, by evaluation. *)
Ltac by_eval := apply (bool_decide_unpack _); vm_compute; exact I.
Lemma digit_char_code d : (0 <= d < 10)%Z → code (digit_char d) = 48 + Z.to_nat d.
Proof. intros ?. unfold digit_char. apply code_byte. lia. Qed.
Lemma digit_char_digit d : (0 <= d < 10)%Z → is_digit (digit_char d).
Proof. intros ?. unfold is_digit. rewrite digit_char_code; lia. Qed.
Lemma digit_val_char d : (0 <= d < 10)%Z → digit_val (digit_char d) = Some d.
Proof.
  intros Hd. unfold digit_val. rewrite digit_char_code by done.
  rewrite (proj2 (Nat.leb_le _ _)), (proj2 (Nat.leb_le _ _)) by lia. cbn. f_equal. lia.
Qed.
Lemma digit_val_some c d : digit_val c = Some d → (0 <= d < 10)%Z ∧ is_digit c.
Proof.
  unfold digit_val, is_digit. destruct (_ && _) eqn:E; [|done]. intros [= <-]. bool_hyps. lia.
Qed.
Lemma is_digit_plain c : is_digit c → plain c.
Proof. unfold is_digit, plain. lia. Qed.

Lemma parse_digits_app acc l k :
  parse_digits acc (l ++ k) =
  match parse_digits acc l with Some v => parse_digits v k | None => None end.
Proof.
  revert acc. induction l as [|c l IH]; intros acc; cbn [parse_digits app]; [done|].
  by destruct (digit_val c).
Qed.
(** The value of [n] digits is below [10 ^ n]. *)
Lemma parse_digits_bound l acc v :
  parse_digits acc l = Some v →
  (0 <= acc → acc * 10 ^ Z.of_nat (List.length l) <= v < (acc + 1) * 10 ^ Z.of_nat (List.length l))%Z.
Proof.
  revert acc. induction l as [|c l IH]; intros acc; cbn [parse_digits List.length].
  - intros [= ->] ?. cbn. lia.
  - destruct (digit_val c) as [d|] eqn:Ed; [|done]. intros Hv Hacc.
    apply digit_val_some in Ed as [Ed _]. specialize (IH _ Hv ltac:(lia)).
    rewrite Nat2Z.inj_succ, Z.pow_succ_r by lia.
    assert (0 < 10 ^ Z.of_nat (List.length l))%Z by (apply Z.pow_pos_nonneg; lia). nia.
Qed.
Lemma parse_digits_all l acc v : parse_digits acc l = Some v → Forall is_digit l.
Proof.
  revert acc. induction l as [|c l IH]; intros acc; cbn [parse_digits]; [constructor|].
  destruct (digit_val c) as [d|] eqn:Ed; [|done]. intros Hv. constructor; [|eauto].
  by apply digit_val_some in Ed as [_ ?].
Qed.

Lemma digits_digit fuel n : (0 <= n)%Z → Forall is_digit (digits fuel n).
Proof.
  revert n. induction fuel as [|fuel IH]; intros n Hn; cbn [digits]; [constructor|].
  destruct (n <? 10)%Z eqn:E; bool_hyps.
  - apply Forall_singleton, digit_char_digit. lia.
  - apply Forall_app. split; [apply IH, Z.div_pos; lia|].
    apply Forall_singleton, digit_char_digit, Z.mod_pos_bound. lia.
Qed.
Lemma digits_nonempty fuel n : digits (S fuel) n ≠ [].
Proof. cbn. destruct (n <? 10)%Z; [done|]. by destruct (digits fuel _). Qed.
Lemma parse_digits_digits fuel n :
  (0 <= n < 10 ^ Z.of_nat (S fuel))%Z → parse_digits 0 (digits (S fuel) n) = Some n.
Proof.
  revert n. induction fuel as [|fuel IH]; intros n Hn.
  - cbn [digits]. change (10 ^ Z.of_nat 1)%Z with 10%Z in Hn.
    rewrite (proj2 (Z.ltb_lt _ _)) by lia. cbn [parse_digits].
    rewrite digit_val_char by lia. done.
  - change (digits (S (S fuel)) n) with
      (if (n <? 10)%Z then [digit_char n] else digits (S fuel) (n / 10) ++ [digit_char (n mod 10)]).
    destruct (n <? 10)%Z eqn:E; bool_hyps.
    + cbn [parse_digits]. by rewrite digit_val_char by lia.
    + rewrite parse_digits_app, IH.
      * cbn [parse_digits]. rewrite digit_val_char by (apply Z.mod_pos_bound; lia).
        f_equal. symmetry. apply Z.div_mod. lia.
      * rewrite (Nat2Z.inj_succ (S fuel)), Z.pow_succ_r in Hn by lia.
        split; [apply Z.div_pos; lia|]. apply Z.div_lt_upper_bound; lia.
Qed.

Lemma log2_fuel n : (0 <= n)%Z → (n < 10 ^ Z.of_nat (S (Z.to_nat (Z.log2 n))))%Z.
Proof.
  intros Hn. pose proof (Z.log2_nonneg n).
  rewrite Nat2Z.inj_succ, Z2Nat.id by lia.
  destruct (decide (n = 0)%Z) as [->|Hne]; [done|].
  apply Z.lt_le_trans with (2 ^ Z.succ (Z.log2 n))%Z; [apply Z.log2_spec; lia|].
  apply Z.pow_le_mono_l. lia.
Qed.
Lemma format_nat_digit n : (0 <= n)%Z → Forall is_digit (format_nat n).
Proof. apply digits_digit. Qed.
Lemma format_nat_nonempty n : format_nat n ≠ [].
Proof. apply digits_nonempty. Qed.
Lemma parse_format_nat n : (0 <= n)%Z → parse_digits 0 (format_nat n) = Some n.
Proof. intros Hn. apply parse_digits_digits. split; [done|]. by apply log2_fuel. Qed.

Lemma is_digit_not c d : is_digit c → ¬ is_digit d → c ≠ d.
Proof. by intros Hc Hd ->. Qed.
(** A non-empty digit string parses to its value, when that fits. *)
Lemma parse_int_digits l v :
  parse_digits 0 l = Some v → l ≠ [] → (v <= int64_max)%Z → parse_int (str l) = Some v.
Proof.
  intros Hv Hl Hmax. unfold parse_int. rewrite chars_str.
  pose proof (parse_digits_all _ _ _ Hv) as Hd. pose proof (parse_digits_bound _ _ _ Hv) as Hb.
  destruct l as [|c l]; [done|]. inversion_clear Hd as [|?? Hc _].
  assert (¬ is_digit "-"%char ∧ ¬ is_digit "+"%char) as [Hm Hp] by (split; by_eval).
  rewrite !bool_decide_eq_false_2 by (by apply is_digit_not). rewrite Hv.
  rewrite !(proj2 (Z.leb_le _ _)); [done|lia|].
  unfold int64_min. specialize (Hb ltac:(lia)). lia.
Qed.
Lemma parse_int_range s z : parse_int s = Some z → is_int64 z.
Proof.
  unfold parse_int, is_int64.
  destruct (match chars s with [] => _ | _ => _ end) as [neg ds].
  destruct ds; [done|]. destruct (parse_digits _ _); [|done]. cbv zeta.
  destruct (_ && _) eqn:E; [|done]. intros [= <-]. bool_hyps. lia.
Qed.
(** ["%d"] and [ParseInt] are inverse on [int64]. *)
Lemma parse_format_int z : is_int64 z → parse_int (format_int z) = Some z.
Proof.
  unfold is_int64. intros Hz. unfold format_int. destruct (z <? 0)%Z eqn:E; bool_hyps.
  - unfold parse_int. rewrite chars_str. rewrite bool_decide_eq_true_2 by done.
    pose proof (format_nat_nonempty (- z)). pose proof (parse_format_nat (- z) ltac:(lia)) as Hp.
    destruct (format_nat (- z)); [done|]. rewrite Hp, Z.opp_involutive.
    by rewrite !(proj2 (Z.leb_le _ _)) by lia.
  - apply parse_int_digits; [apply parse_format_nat; lia|apply format_nat_nonempty|lia].
Qed.
