(* ===== verification/GoTime.v ===== *)
(** * Calendar time

    Go's [time.Time] as the program uses it: microseconds since the Unix epoch
    in UTC (PostgreSQL's precision), [Date], [AddDate] and [time.Date] with
    their normalisation of months and days, on the proleptic Gregorian
    calendar. *)
From S2P Require Import Prelude GoStrings.
From stdpp Require Import list.
Open Scope Z_scope.

Definition microsecond : Z := 1.
Definition second : Z := 1000000.
Definition hour : Z := 3600 * second.
Definition day_length : Z := 24 * hour.

(** Days since 1970-01-01 of a date, the year beginning in March. *)
Definition days_from_civil (y m d : Z) : Z :=
  let y := if m <=? 2 then y - 1 else y in
  365 * y + y / 4 - y / 100 + y / 400 + (153 * ((m + 9) mod 12) + 2) / 5 + d - 1 - 719468.
(** Its inverse; an era is 400 years. *)
Definition era_date (doe : Z) : Z * Z * Z :=
  let yoe := (doe - doe / 1460 + doe / 36524 - doe / 146096) / 365 in
  let doy := doe - (365 * yoe + yoe / 4 - yoe / 100) in
  let mp := (5 * doy + 2) / 153 in
  (yoe, mp, doy).
Definition civil_from_days (n : Z) : Z * Z * Z :=
  let z := n + 719468 in
  let '(yoe, mp, doy) := era_date (z mod 146097) in
  let d := doy - (153 * mp + 2) / 5 + 1 in
  let m := if mp <? 10 then mp + 3 else mp - 9 in
  let y := yoe + 400 * (z / 146097) in
  (if m <=? 2 then y + 1 else y, m, d).

(** [t.Date()] and the time of day. *)
Definition date_of (t : Z) : Z * Z * Z := civil_from_days (t / day_length).
Definition time_of_day (t : Z) : Z := t mod day_length.
(** [time.Date(y, m, d, ...)]: months outside of 1..12 move the year, days move
    the date. *)
Definition go_date (y m d tod : Z) : Z :=
  let month := (m - 1) mod 12 + 1 in
  (days_from_civil (y + (m - 1) / 12) month 1 + (d - 1)) * day_length + tod.
(** [t.AddDate(y, m, d)]. *)
Definition add_date (t y m d : Z) : Z :=
  let '(y0, m0, d0) := date_of t in go_date (y0 + y) (m0 + m) (d0 + d) (time_of_day t).

(** ["2006-01-02"] and [time.RFC3339] in UTC, for years 0 to 9999. *)
Definition pad (width n : Z) : string :=
  let s := format_int n in
  (str (replicate (Z.to_nat (width - slen s)) "0"%char) ^+ s)%string.
Definition format_date (t : Z) : string :=
  let '(y, m, d) := date_of t in (pad 4 y ^+ "-" ^+ pad 2 m ^+ "-" ^+ pad 2 d)%string.
Definition format_rfc3339 (t : Z) : string :=
  let s := time_of_day t / second in
  (format_date t ^+ "T" ^+ pad 2 (s / 3600) ^+ ":" ^+ pad 2 (s / 60 mod 60) ^+ ":" ^+ pad 2 (s mod 60) ^+ "Z")%string.

(** ** The calendar *)
Definition month_length (y m : Z) : Z :=
  days_from_civil (y + m / 12) (m mod 12 + 1) 1 - days_from_civil y m 1.


(** The position of a day within its era. *)
Section era.
Context (doe : Z).
Hypothesis Hdoe : 0 <= doe < 146097.
Let yoe := (doe - doe / 1460 + doe / 36524 - doe / 146096) / 365.
Let doy := doe - (365 * yoe + yoe / 4 - yoe / 100).

Lemma yoe_range : 0 <= yoe < 400.
Proof. unfold yoe. Z.to_euclidean_division_equations. lia. Qed.
Lemma doy_nonneg : 0 <= doy.
Proof. unfold doy, yoe. Z.to_euclidean_division_equations. lia. Qed.
Lemma doy_last :
  doy <= 364 + (yoe + 1) / 4 - yoe / 4 - ((yoe + 1) / 100 - yoe / 100) + (yoe + 1) / 400.
Proof. unfold doy, yoe. Z.to_euclidean_division_equations. lia. Qed.
End era.

(** Evaluate the month of a closed month number. *)
Ltac by_month :=
  unfold month_length, days_from_civil;
  repeat match goal with
  | |- context [if ?c then _ else _] => let v := eval vm_compute in c in change c with v; cbv iota
  | |- context [?a / 12] => let v := eval vm_compute in (a / 12) in change (a / 12) with v
  | |- context [?a mod 12] => let v := eval vm_compute in (a mod 12) in change (a mod 12) with v
  end;
  Z.to_euclidean_division_equations; lia.
Lemma month_length_bounds y m : 1 <= m <= 12 → 28 <= month_length y m <= 31.
Proof.
  intros Hm.
  assert (m = 1 ∨ m = 2 ∨ m = 3 ∨ m = 4 ∨ m = 5 ∨ m = 6 ∨ m = 7 ∨ m = 8 ∨ m = 9 ∨ m = 10 ∨ m = 11 ∨ m = 12)
    as Hc by lia.
  repeat destruct Hc as [->|Hc]; subst; by_month.
Qed.

Lemma civil_from_days_spec n :
  let '(y, m, d) := civil_from_days n in
  days_from_civil y m d = n ∧ 1 <= m <= 12 ∧ 1 <= d <= month_length y m.
Proof.
  unfold civil_from_days, era_date. set (z := n + 719468).
  pose proof (Z.mod_pos_bound z 146097 ltac:(lia)) as Hb.
  pose proof (yoe_range _ Hb) as H1. pose proof (doy_nonneg _ Hb) as H2. pose proof (doy_last _ Hb) as H3.
  cbv zeta in *. set (doe := z mod 146097) in *.
  set (yoe := (doe - doe / 1460 + doe / 36524 - doe / 146096) / 365) in *.
  assert (z = 146097 * (z / 146097) + doe) as Hz by (unfold doe; apply Z_div_mod_eq_full).
  set (era := z / 146097) in *. set (doy := doe - (365 * yoe + yoe / 4 - yoe / 100)) in *.
  assert (doy <= 365) as H4 by (Z.to_euclidean_division_equations; lia).
  assert (doe = doy + (365 * yoe + yoe / 4 - yoe / 100)) as Hdoe by (unfold doy; lia).
  assert (n = z - 719468) as Hn by (unfold z; lia).
  clearbody doy yoe doe era z. clear Hb.
  set (mp := (5 * doy + 2) / 153).
  assert (0 <= mp <= 11) as Hmp by (unfold mp; Z.to_euclidean_division_equations; lia).
  assert ((153 * mp + 2) / 5 <= doy) as Hd1 by (unfold mp; Z.to_euclidean_division_equations; lia).
  assert (doy < (153 * (mp + 1) + 2) / 5) as Hd2 by (unfold mp; Z.to_euclidean_division_equations; lia).
  clearbody mp.
  assert ((yoe + 400 * era) / 4 = yoe / 4 + 100 * era) as E4 by (Z.to_euclidean_division_equations; lia).
  assert ((yoe + 400 * era) / 100 = yoe / 100 + 4 * era) as E100 by (Z.to_euclidean_division_equations; lia).
  assert ((yoe + 400 * era) / 400 = era) as E400 by (Z.to_euclidean_division_equations; lia).
  assert (days_from_civil (if (if mp <? 10 then mp + 3 else mp - 9) <=? 2 then yoe + 400 * era + 1
            else yoe + 400 * era) (if mp <? 10 then mp + 3 else mp - 9)
            (doy - (153 * mp + 2) / 5 + 1) = n) as Hday.
  { unfold days_from_civil. 
    assert (((if mp <? 10 then mp + 3 else mp - 9) + 9) mod 12 = mp) as ->.
    { destruct (mp <? 10) eqn:E; bool_hyps; Z.to_euclidean_division_equations; lia. }
    destruct (_ <=? 2).
    - replace (yoe + 400 * era + 1 - 1) with (yoe + 400 * era) by lia. rewrite E4, E100, E400. lia.
    - rewrite E4, E100, E400. lia. }
  split_and!; [done|..].
  - destruct (mp <? 10) eqn:E; bool_hyps; lia.
  - destruct (mp <? 10) eqn:E; bool_hyps; lia.
  - lia.
  - clear Hday Hn Hz Hdoe.
    assert (mp = 0 ∨ mp = 1 ∨ mp = 2 ∨ mp = 3 ∨ mp = 4 ∨ mp = 5 ∨ mp = 6 ∨ mp = 7 ∨ mp = 8 ∨ mp = 9 ∨
      mp = 10 ∨ mp = 11) as Hc by lia.
    repeat destruct Hc as [->|Hc]; subst; by_month.
Qed.

(** ** Months in a row

    [month_start n]: the first day of month [n], counted from January of year
    0. *)
Definition month_start (n : Z) : Z := days_from_civil (n / 12) (n mod 12 + 1) 1.
Definition length_of (n : Z) : Z := month_start (n + 1) - month_start n.
Lemma length_of_month n : length_of n = month_length (n / 12) (n mod 12 + 1).
Proof.
  unfold length_of, month_start, month_length.
  rewrite <- Z.div_add_l by lia.
  assert (n / 12 * 12 + (n mod 12 + 1) = n + 1) as ->.
  { pose proof (Z_div_mod_eq_full n 12) as H. set (q := n / 12) in *. set (r := n mod 12) in *. lia. }
  by rewrite Z.add_mod_idemp_l by lia.
Qed.
Lemma length_of_bounds n : 28 <= length_of n <= 31.
Proof.
  rewrite length_of_month. apply month_length_bounds. pose proof (Z.mod_pos_bound n 12). lia.
Qed.
Lemma month_start_mono n k : 0 <= k → month_start n + 28 * k <= month_start (n + k).
Proof.
  revert k. apply natlike_ind; [replace (n + 0) with n by lia; lia|]. intros k Hk IH.
  pose proof (length_of_bounds (n + k)) as H. unfold length_of in H.
  replace (n + Z.succ k) with (n + k + 1) by lia. lia.
Qed.
(** A day lies in one month. *)
Lemma month_unique n d n' d' :
  1 <= d <= length_of n → 1 <= d' <= length_of n' →
  month_start n + d = month_start n' + d' → n = n' ∧ d = d'.
Proof.
  intros Hd Hd' He.
  assert (∀ a b e e', 1 <= e <= length_of a → 1 <= e' → a < b →
    month_start a + e < month_start b + e') as Hlt.
  { intros a b e e' He1 He2 Hab. pose proof (month_start_mono (a + 1) (b - (a + 1)) ltac:(lia)) as Hm.
    replace (a + 1 + (b - (a + 1))) with b in Hm by lia. unfold length_of in He1. lia. }
  destruct (Z.lt_trichotomy n n') as [Hn|[->|Hn]].
  - pose proof (Hlt n n' d d' Hd ltac:(lia) Hn). lia.
  - lia.
  - pose proof (Hlt n' n d' d Hd' ltac:(lia) Hn). lia.
Qed.

(** [time.Date] in terms of months. *)
Lemma go_date_month y m d tod :
  go_date y m d tod = (month_start (12 * y + m - 1) + (d - 1)) * day_length + tod.
Proof.
  unfold go_date, month_start. 
  replace (12 * y + m - 1) with (m - 1 + y * 12) by lia.
  by rewrite Z.div_add, Z.mod_add, (Z.add_comm _ y) by lia.
Qed.
Lemma date_of_spec t :
  let '(y, m, d) := date_of t in
  month_start (12 * y + m - 1) + (d - 1) = t / day_length ∧ 1 <= m <= 12 ∧
  1 <= d <= length_of (12 * y + m - 1).
Proof.
  unfold date_of. pose proof (civil_from_days_spec (t / day_length)) as H.
  destruct (civil_from_days _) as [[y m] d]. destruct H as (Hn & Hm & Hd).
  assert ((12 * y + m - 1) / 12 = y) as E1 by (Z.to_euclidean_division_equations; lia).
  assert ((12 * y + m - 1) mod 12 + 1 = m) as E2 by (Z.to_euclidean_division_equations; lia).
  rewrite length_of_month, E1, E2. split_and!; try lia.
  unfold month_start. rewrite E1, E2, <- Hn. unfold days_from_civil. lia.
Qed.

(** [time.Date] inverts [Date]: taking a time apart into its date and time of
    day and putting it together again gives the same time. *)
Theorem go_date_date_of t :
  let '(y, m, d) := date_of t in go_date y m d (time_of_day t) = t.
Proof.
  pose proof (date_of_spec t) as H. destruct (date_of t) as [[y m] d]. destruct H as (Hs & _ & _).
  rewrite go_date_month, Hs. unfold time_of_day. rewrite (Z_div_mod_eq_full t day_length) at 3. lia.
Qed.
(** ... and the other way round, for a day that exists. *)
Lemma date_of_go_date y m d tod :
  1 <= m <= 12 → 1 <= d <= length_of (12 * y + m - 1) → 0 <= tod < day_length →
  date_of (go_date y m d tod) = (y, m, d) ∧ time_of_day (go_date y m d tod) = tod.
Proof.
  intros Hm Hd Ht. pose proof (date_of_spec (go_date y m d tod)) as H.
  assert (go_date y m d tod / day_length = month_start (12 * y + m - 1) + (d - 1)) as Hq.
  { rewrite go_date_month, Z.div_add_l, Z.div_small; unfold day_length, hour, second in *; lia. }
  assert (time_of_day (go_date y m d tod) = tod) as Hr.
  { unfold time_of_day. rewrite go_date_month, Z.add_comm, Z.mod_add, Z.mod_small;
      unfold day_length, hour, second in *; lia. }
  split; [|done]. rewrite Hq in H. destruct (date_of _) as [[y' m'] d']. destruct H as (Hs & Hm' & Hd').
  destruct (month_unique _ _ _ _ Hd' Hd) as [Hn ->]; [lia|].
  assert (y' = y) as -> by lia. by assert (m' = m) as -> by lia.
Qed.

(** ** Printed dates *)
Lemma digits_length fuel n k : 0 <= n < 10 ^ Z.of_nat (S k) → (List.length (digits fuel n) <= S k)%nat.
Proof.
  revert n k. induction fuel as [|fuel IH]; intros n k Hn; cbn [digits List.length]; [lia|].
  destruct (Z.ltb_spec n 10); [cbn; lia|]. rewrite length_app. cbn [List.length].
  destruct k as [|k]; [change (10 ^ Z.of_nat 1) with 10 in Hn; lia|].
  rewrite Nat2Z.inj_succ, Z.pow_succ_r in Hn by lia.
  specialize (IH (n / 10) k). rewrite Nat.add_1_r. apply le_n_S, IH.
  split; [apply Z.div_pos; lia|]. apply Z.div_lt_upper_bound; lia.
Qed.
Lemma chars_pad width n :
  chars (pad width n) = replicate (Z.to_nat (width - slen (format_int n))) "0"%char ++ chars (format_int n).
Proof. unfold pad. by rewrite chars_app, chars_str. Qed.
Lemma pad_length_ge width n : (Z.to_nat width <= List.length (chars (pad width n)))%nat.
Proof. rewrite chars_pad, length_app, length_replicate. unfold slen. lia. Qed.
Lemma pad_length width n :
  0 < width → 0 <= n < 10 ^ width → List.length (chars (pad width n)) = Z.to_nat width.
Proof.
  intros Hw Hn. rewrite chars_pad, length_app, length_replicate. unfold slen, format_int.
  rewrite (proj2 (Z.ltb_ge n 0)), !chars_str by lia.
  assert (List.length (format_nat n) <= S (Z.to_nat (width - 1)))%nat; [|lia].
  apply digits_length. replace (Z.of_nat (S (Z.to_nat (width - 1)))) with width by lia. done.
Qed.
(** The leading zeros do not change the value. *)
Lemma parse_pad width n : 0 <= n → parse_digits 0 (chars (pad width n)) = Some n.
Proof.
  intros Hn. rewrite chars_pad, parse_digits_app.
  assert (∀ k, parse_digits 0 (replicate k "0"%char) = Some 0) as -> by (intros k; by induction k).
  unfold format_int. rewrite (proj2 (Z.ltb_ge n 0)), chars_str by lia. by apply parse_format_nat.
Qed.
Lemma chars_substring n s : chars (String.substring 0 n s) = take n (chars s).
Proof.
  revert s. induction n as [|n IH]; intros [|c s]; try done. exact (f_equal (cons c) (IH s)).
Qed.
(** The year and the month of a printed date. *)
Definition month_text (y m : Z) : list ascii := chars (pad 4 y) ++ "-"%char :: chars (pad 2 m).
Lemma month_text_inj y m y' m' :
  0 <= y < 10000 → 1 <= m <= 12 → 0 <= y' < 10000 → 1 <= m' <= 12 →
  month_text y m = month_text y' m' → y = y' ∧ m = m'.
Proof.
  intros Hy Hm Hy' Hm' E. unfold month_text in E. apply app_inj_1 in E as [E1 [= E2]].
  - apply (f_equal (parse_digits 0)) in E1, E2. rewrite !parse_pad in E1, E2 by lia. split; congruence.
  - by rewrite !pad_length by (change (10 ^ 4) with 10000; lia).
Qed.
Lemma date_month_text t :
  let '(y, m, _) := date_of t in
  ∃ rest, chars (format_date t) = month_text y m ++ rest ∧ (7 <= List.length (month_text y m))%nat ∧
    (0 <= y < 10000 → List.length (month_text y m) = 7%nat).
Proof.
  pose proof (date_of_spec t) as Hd. unfold format_date. destruct (date_of t) as [[y m] d]. destruct Hd as (_ & Hm & _).
  eexists. rewrite !chars_app. split; [|split].
  - unfold month_text. change (chars "-") with ["-"%char]. rewrite <- !app_assoc. cbn [app]. reflexivity.
  - unfold month_text. rewrite length_app. cbn [List.length].
    pose proof (pad_length_ge 4 y). pose proof (pad_length_ge 2 m). lia.
  - intros Hy. unfold month_text. rewrite length_app. cbn [List.length].
    rewrite !pad_length by (change (10 ^ 4) with 10000; change (10 ^ 2) with 100; lia). done.
Qed.
