(* ===== verification/Regex.v ===== *)
(** * Regular expressions

    The program validates identifiers with compiled [regexp] patterns.  A
    pattern is kept here as the syntax tree of its source text; [matchb]
    decides it by Brzozowski derivatives and [matchb_spec] shows that it
    decides the declarative semantics [matches].  All patterns of the program
    are anchored at both ends ([^...$] without flags: the whole text). *)
From S2P Require Import Prelude GoStrings.

(** A character class: the ranges between brackets. *)
Definition cls := list (ascii * ascii).
Definition in_cls (c : ascii) (k : cls) : bool :=
  existsb (λ r, (code r.1 <=? code c) && (code c <=? code r.2)) k.

Inductive regex :=
  | RNone
  | REps
  | RCls (k : cls)
  | RCat (r s : regex)
  | RAlt (r s : regex)
  | RStar (r : regex).

Inductive matches : regex → list ascii → Prop :=
  | m_eps : matches REps []
  | m_cls k c : in_cls c k = true → matches (RCls k) [c]
  | m_cat r s l1 l2 : matches r l1 → matches s l2 → matches (RCat r s) (l1 ++ l2)
  | m_alt_l r s l : matches r l → matches (RAlt r s) l
  | m_alt_r r s l : matches s l → matches (RAlt r s) l
  | m_star_nil r : matches (RStar r) []
  | m_star_app r l1 l2 : matches r l1 → matches (RStar r) l2 → matches (RStar r) (l1 ++ l2).

(** Concrete syntax of the patterns: a literal text, [r?], [r{m,n}], [r*]. *)
Definition rchr (c : ascii) : regex := RCls [(c, c)].
Definition rlit (s : string) : regex := foldr (λ c r, RCat (rchr c) r) REps (chars s).
Fixpoint rseq (rs : list regex) : regex :=
  match rs with [] => REps | [r] => r | r :: rs => RCat r (rseq rs) end.
Fixpoint ropt (n : nat) (r : regex) : regex :=
  match n with O => REps | S n => RAlt REps (RCat r (ropt n r)) end.
Fixpoint rrep (m n : nat) (r : regex) : regex :=
  match m with O => ropt n r | S m => RCat r (rrep m (n - 1) r) end.

(** Smart constructors keep the derivatives small. *)
Definition cat (r s : regex) : regex :=
  match r with
  | RNone => RNone
  | REps => s
  | _ => match s with RNone => RNone | REps => r | _ => RCat r s end
  end.
Definition alt (r s : regex) : regex :=
  match r, s with
  | RNone, _ => s | _, RNone => r
  | _, _ => RAlt r s
  end.

Fixpoint nullable (r : regex) : bool :=
  match r with
  | RNone | RCls _ => false
  | REps | RStar _ => true
  | RCat r s => nullable r && nullable s
  | RAlt r s => nullable r || nullable s
  end.
Fixpoint deriv (c : ascii) (r : regex) : regex :=
  match r with
  | RNone | REps => RNone
  | RCls k => if in_cls c k then REps else RNone
  | RCat r s => if nullable r then alt (cat (deriv c r) s) (deriv c s) else cat (deriv c r) s
  | RAlt r s => alt (deriv c r) (deriv c s)
  | RStar r => cat (deriv c r) (RStar r)
  end.
Fixpoint matchb (r : regex) (l : list ascii) : bool :=
  match l with [] => nullable r | c :: l => matchb (deriv c r) l end.
(** [pattern.MatchString(s)] of an anchored pattern. *)
Definition match_string (r : regex) (s : string) : bool := matchb r (chars s).
#[global] Arguments match_string : simpl never.

(** ** Correctness of the matcher *)
Lemma matches_none l : ¬ matches RNone l.
Proof. inversion 1. Qed.
Lemma matches_eps l : matches REps l ↔ l = [].
Proof. split; [by inversion 1|intros ->; constructor]. Qed.
Lemma matches_cls k l : matches (RCls k) l ↔ ∃ c, l = [c] ∧ in_cls c k = true.
Proof. split; [inversion 1; eauto|intros (c & -> & ?); by constructor]. Qed.
Lemma matches_cat r s l :
  matches (RCat r s) l ↔ ∃ l1 l2, l = l1 ++ l2 ∧ matches r l1 ∧ matches s l2.
Proof. split; [inversion 1; eauto 10|intros (l1 & l2 & -> & ? & ?); by constructor]. Qed.
Lemma matches_alt r s l : matches (RAlt r s) l ↔ matches r l ∨ matches s l.
Proof. split; [inversion 1; eauto|]. intros [?|?]; by constructor. Qed.

Lemma matches_cat_none_l s l : matches (RCat RNone s) l ↔ matches RNone l.
Proof. rewrite matches_cat. split; [intros (? & ? & _ & []%matches_none & _)|intros []%matches_none]. Qed.
Lemma matches_cat_none_r r l : matches (RCat r RNone) l ↔ matches RNone l.
Proof. rewrite matches_cat. split; [intros (? & ? & _ & _ & []%matches_none)|intros []%matches_none]. Qed.
Lemma matches_cat_eps_l s l : matches (RCat REps s) l ↔ matches s l.
Proof.
  rewrite matches_cat. setoid_rewrite matches_eps. split; [by intros (? & ? & -> & -> & ?)|].
  intros ?. by exists [], l.
Qed.
Lemma matches_cat_eps_r r l : matches (RCat r REps) l ↔ matches r l.
Proof.
  rewrite matches_cat. setoid_rewrite matches_eps. split.
  - intros (? & ? & -> & ? & ->). by rewrite app_nil_r.
  - intros ?. exists l, []. by rewrite app_nil_r.
Qed.
Lemma cat_spec r s l : matches (cat r s) l ↔ matches (RCat r s) l.
Proof.
  destruct r; cbn [cat]; rewrite ?matches_cat_none_l, ?matches_cat_eps_l; try done;
    destruct s; cbn [cat]; rewrite ?matches_cat_none_r, ?matches_cat_eps_r; done.
Qed.
Lemma alt_spec r s l : matches (alt r s) l ↔ matches (RAlt r s) l.
Proof.
  rewrite matches_alt. destruct r, s; cbn [alt]; rewrite ?matches_alt; try done;
    split; intros Hm; eauto;
    repeat match goal with
    | H : _ ∨ _ |- _ => destruct H
    | H : matches RNone _ |- _ => destruct (matches_none _ H)
    end; eauto.
Qed.

Lemma nullable_spec r : nullable r = true ↔ matches r [].
Proof.
  induction r; cbn.
  - split; [done|by intros ?%matches_none].
  - split; [constructor|done].
  - rewrite matches_cls. split; [done|by intros (? & ? & _)].
  - rewrite andb_true_iff, IHr1, IHr2, matches_cat. split.
    + intros [??]. by exists [], [].
    + intros (l1 & l2 & Hl & ? & ?). symmetry in Hl. apply app_eq_nil in Hl as [-> ->]. done.
  - by rewrite orb_true_iff, IHr1, IHr2, matches_alt.
  - split; [constructor|done].
Qed.

Lemma star_cons_inv r c l :
  matches (RStar r) (c :: l) →
  ∃ l1 l2, l = l1 ++ l2 ∧ matches r (c :: l1) ∧ matches (RStar r) l2.
Proof.
  intros H. remember (RStar r) as r' eqn:Er. remember (c :: l) as l' eqn:El.
  revert r c l Er El. induction H as [| | | | | |r0 l1 l2 H1 _ H2 IH]; intros r' c' l' Er El; try done.
  injection Er as ->. destruct l1 as [|d l1]; cbn in El; [by apply IH|].
  injection El as <- <-. eauto.
Qed.

Lemma deriv_spec c r l : matches (deriv c r) l ↔ matches r (c :: l).
Proof.
  revert l. induction r as [| |k|r IHr s IHs|r IHr s IHs|r IHr]; intros l; cbn [deriv].
  - split; intros []%matches_none.
  - split; [intros []%matches_none|by intros ?%matches_eps].
  - rewrite matches_cls. destruct (in_cls c k) eqn:E.
    + rewrite matches_eps. split; [intros ->; eauto|]. by intros (? & [= -> ->] & _).
    + split; [intros []%matches_none|]. intros (? & [= -> ->] & ?). congruence.
  - assert (matches (cat (deriv c r) s) l ↔
      ∃ l1 l2, l = l1 ++ l2 ∧ matches r (c :: l1) ∧ matches s l2) as Hcat.
    { rewrite cat_spec, matches_cat. by setoid_rewrite IHr. }
    rewrite matches_cat. destruct (nullable r) eqn:En.
    + rewrite alt_spec, matches_alt, Hcat, IHs. apply nullable_spec in En. split.
      * intros [(l1 & l2 & -> & ? & ?)|?]; [by exists (c :: l1), l2|by exists [], (c :: l)].
      * intros ([|c' l1] & l2 & Hl & ? & ?); cbn in Hl; [subst; by right|].
        injection Hl as -> ->. left. eauto.
    + rewrite Hcat. split.
      * intros (l1 & l2 & -> & ? & ?). by exists (c :: l1), l2.
      * intros ([|c' l1] & l2 & Hl & Hr & ?); cbn in Hl.
        -- apply nullable_spec in Hr. congruence.
        -- injection Hl as -> ->. eauto.
  - by rewrite alt_spec, !matches_alt, IHr, IHs.
  - rewrite cat_spec, matches_cat. setoid_rewrite IHr. split.
    + intros (l1 & l2 & -> & ? & ?). by apply (m_star_app r (c :: l1) l2).
    + intros ?%star_cons_inv. done.
Qed.

Theorem matchb_spec r l : matchb r l = true ↔ matches r l.
Proof.
  revert r. induction l as [|c l IH]; intros r; cbn; [apply nullable_spec|].
  by rewrite IH, deriv_spec.
Qed.
Lemma match_string_spec r s : match_string r s = true ↔ matches r (chars s).
Proof. apply matchb_spec. Qed.

(** ** Repetition of a class *)
Lemma ropt_cls n k l :
  matches (ropt n (RCls k)) l ↔ List.length l <= n ∧ Forall (λ c, in_cls c k = true) l.
Proof.
  revert l. induction n as [|n IH]; intros l; cbn [ropt].
  - rewrite matches_eps. split; [intros ->; done|]. intros [? _]. destruct l; [done|cbn in *; lia].
  - rewrite matches_alt, matches_eps, matches_cat. setoid_rewrite matches_cls.
    setoid_rewrite IH. split.
    + intros [->|(l1 & l2 & -> & (c & -> & Hc) & Hn & HF)]; cbn; [split; [lia|done]|].
      split; [lia|by constructor].
    + destruct l as [|c l]; [by left|]. cbn. intros [Hn HF]. inversion_clear HF. right.
      exists [c], l. split_and!; eauto. lia.
Qed.
Lemma rrep_cls m n k l :
  m <= n → matches (rrep m n (RCls k)) l ↔
  m <= List.length l <= n ∧ Forall (λ c, in_cls c k = true) l.
Proof.
  revert n l. induction m as [|m IH]; intros n l Hmn; cbn [rrep].
  { rewrite ropt_cls. split; intros []; split; auto; lia. }
  rewrite matches_cat. setoid_rewrite matches_cls. split.
  - intros (l1 & l2 & -> & (c & -> & Hc) & H2). apply IH in H2 as [? ?]; [|lia]. cbn.
    split; [lia|by constructor].
  - destruct l as [|c l]; cbn; [lia|]. intros [Hn HF]. inversion_clear HF.
    exists [c], l. split_and!; eauto. apply IH; [lia|]. split; [lia|done].
Qed.
(** [[k1][k2]{0,n}]: the shape of most identifier patterns. *)
Lemma head_tail_cls k1 k2 n s :
  match_string (RCat (RCls k1) (rrep 0 n (RCls k2))) s = true ↔
  ∃ c l, chars s = c :: l ∧ in_cls c k1 = true ∧ List.length l <= n ∧
         Forall (λ c, in_cls c k2 = true) l.
Proof.
  rewrite match_string_spec, matches_cat. setoid_rewrite matches_cls.
  setoid_rewrite rrep_cls; [|lia]. split.
  - intros (l1 & l2 & -> & (c & -> & Hc) & (_ & Hn) & HF). exists c, l2. done.
  - intros (c & l & -> & Hc & Hn & HF). exists [c], l. split_and!; eauto. lia.
Qed.
