(* ===== verification/Domain.v ===== *)
(** * State machines of the domain (internal/domain/state.go)

    Deployment, payment order and refund states with their transition tables
    and validators.  A validator returns [Ok tt] where the Go function returns
    a nil error. *)
From S2P Require Import Prelude.

(** The machines share one shape: a table of allowed transitions. *)
Section table.
Context {S : Type} (allowed : S → S → bool).

Inductive transition_error := InvalidTransition (from to : S).
Definition validate (from to : S) : result transition_error unit :=
  if negb (allowed from to) then Err (InvalidTransition from to) else Ok tt.

Definition step (from to : S) : Prop := validate from to = Ok tt.
Definition terminal (s : S) : Prop := ∀ to, ¬ step s to.

Lemma validate_spec from to : validate from to = Ok tt ↔ allowed from to = true.
Proof. unfold validate. by destruct (allowed from to). Qed.
Lemma validate_error from to e :
  validate from to = Err e → e = InvalidTransition from to ∧ allowed from to = false.
Proof. unfold validate. destruct (allowed from to); cbn; [done|]. by intros [= <-]. Qed.
End table.
Arguments InvalidTransition {S} from to.

Inductive DeploymentState :=
  | DeploymentQueued
  | DeploymentPulling
  | DeploymentStarting
  | DeploymentChecking
  | DeploymentSwitching
  | DeploymentSucceeded
  | DeploymentRollingBack
  | DeploymentFailed.
#[export] Instance DeploymentState_eq_dec : EqDecision DeploymentState.
Proof. solve_decision. Defined.

Definition DeploymentState_string (s : DeploymentState) : string :=
  match s with
  | DeploymentQueued => "queued"
  | DeploymentPulling => "pulling"
  | DeploymentStarting => "starting"
  | DeploymentChecking => "health_checking"
  | DeploymentSwitching => "switching_route"
  | DeploymentSucceeded => "succeeded"
  | DeploymentRollingBack => "rolling_back"
  | DeploymentFailed => "failed"
  end.

Definition deploymentTransitions (from to : DeploymentState) : bool :=
  match from, to with
  | DeploymentQueued, (DeploymentPulling | DeploymentFailed) => true
  | DeploymentPulling, (DeploymentStarting | DeploymentRollingBack | DeploymentFailed) => true
  | DeploymentStarting, (DeploymentChecking | DeploymentRollingBack | DeploymentFailed) => true
  | DeploymentChecking,
    (DeploymentChecking | DeploymentSwitching | DeploymentRollingBack | DeploymentFailed) => true
  | DeploymentSwitching, (DeploymentSucceeded | DeploymentRollingBack) => true
  | DeploymentRollingBack, DeploymentFailed => true
  | _, _ => false
  end.
Definition ValidateDeploymentTransition (from to : DeploymentState) :
    result transition_error unit := validate deploymentTransitions from to.

Inductive OrderState := OrderPending | OrderPaid | OrderClosed | OrderRefunding | OrderRefunded.
#[export] Instance OrderState_eq_dec : EqDecision OrderState.
Proof. solve_decision. Defined.
Definition orderTransitions (from to : OrderState) : bool :=
  match from, to with
  | OrderPending, (OrderPaid | OrderClosed) => true
  | OrderPaid, OrderRefunding => true
  | OrderRefunding, (OrderRefunded | OrderPaid) => true
  | _, _ => false
  end.
Definition ValidateOrderTransition (from to : OrderState) :
    result transition_error unit := validate orderTransitions from to.

Inductive RefundState := RefundProcessing | RefundSucceeded | RefundFailed.
#[export] Instance RefundState_eq_dec : EqDecision RefundState.
Proof. solve_decision. Defined.
Definition refundTransitions (from to : RefundState) : bool :=
  match from, to with
  | RefundProcessing, (RefundSucceeded | RefundFailed) => true
  | _, _ => false
  end.
Definition ValidateRefundTransition (from to : RefundState) :
    result transition_error unit := validate refundTransitions from to.

(** ** Reachability *)
Definition deployment_step := step deploymentTransitions.
Definition order_step := step orderTransitions.
Definition refund_step := step refundTransitions.

(** Position of a state on the way to a terminal state: every transition
    except the retry of a health check moves strictly forward. *)
Definition deployment_rank (s : DeploymentState) : nat :=
  match s with
  | DeploymentQueued => 0
  | DeploymentPulling => 1
  | DeploymentStarting => 2
  | DeploymentChecking => 3
  | DeploymentSwitching => 4
  | DeploymentRollingBack => 5
  | DeploymentSucceeded | DeploymentFailed => 6
  end.

(** A run of the machine, with the number of health-check retries in it. *)
Inductive deployment_run : DeploymentState → nat → nat → DeploymentState → Prop :=
  | run_nil s : deployment_run s 0 0 s
  | run_retry s n k : deployment_run DeploymentChecking n k s →
      deployment_run DeploymentChecking (S n) (S k) s
  | run_step a b s n k : deployment_step a b → a ≠ b → deployment_run b n k s →
      deployment_run a (S n) k s.

Ltac by_table :=
  unfold deployment_step, order_step, refund_step, step in *;
  rewrite ?validate_spec in *; cbn in *; try done; try discriminate.

Lemma deployment_step_rank a b :
  deployment_step a b → a ≠ b → deployment_rank a < deployment_rank b.
Proof. intros Hs Hne. destruct a, b; by_table; lia. Qed.

(** A run takes at most six transitions besides the retries of the health
    check, so a deployment whose health check is retried a bounded number of
    times ends after a bounded number of transitions. *)
Theorem deployment_run_bounded a n k s :
  deployment_run a n k s → n + deployment_rank a <= k + deployment_rank s.
Proof.
  induction 1 as [s|s n k _ IH|a b s n k Hs Hne _ IH]; [lia|lia|].
  pose proof (deployment_step_rank _ _ Hs Hne). lia.
Qed.

(** The states visited after [a] on a run that ends in [b]. *)
Inductive trace {S} (R : S → S → Prop) : S → list S → S → Prop :=
  | trace_nil a : trace R a [] a
  | trace_cons a b l c : R a b → trace R b l c → trace R a (b :: l) c.

Lemma deployment_terminal s :
  terminal deploymentTransitions s ↔ s = DeploymentSucceeded ∨ s = DeploymentFailed.
Proof.
  unfold terminal. split.
  - intros Ht. destruct s; auto; exfalso;
      first [solve [apply (Ht DeploymentFailed); by_table] | apply (Ht DeploymentSucceeded); by_table].
  - intros [-> | ->] [] H; by_table.
Qed.

Lemma trace_terminal {S} (R : S → S → Prop) a l b :
  (∀ c, ¬ R a c) → trace R a l b → l = [] ∧ b = a.
Proof. intros Ht Htr. destruct Htr as [|??? ? HR]; [done|by destruct (Ht _ HR)]. Qed.

(** A run that enters the roll-back branch never reaches success. *)
Lemma failed_trace a l :
  a = DeploymentRollingBack ∨ a = DeploymentFailed →
  ¬ trace deployment_step a l DeploymentSucceeded.
Proof.
  intros Ha Htr. remember DeploymentSucceeded as s eqn:Es.
  induction Htr as [c|a b l c Hs Htr IH]; [destruct Ha; congruence|].
  apply IH; [|done]. destruct Ha as [-> | ->], b; by_table; auto.
Qed.

Ltac no_detour :=
  match goal with
  | H : trace _ DeploymentRollingBack _ DeploymentSucceeded |- _ => destruct (failed_trace _ _ (or_introl eq_refl) H)
  | H : trace _ DeploymentFailed _ DeploymentSucceeded |- _ => destruct (failed_trace _ _ (or_intror eq_refl) H)
  end.

Lemma switching_trace l :
  trace deployment_step DeploymentSwitching l DeploymentSucceeded → l = [DeploymentSucceeded].
Proof.
  intros Htr. inversion Htr as [|? b ? ? Hs Htr']; subst. destruct b; by_table; [|no_detour].
  apply trace_terminal in Htr' as [-> _]; [done|]. by apply deployment_terminal; left.
Qed.
Lemma checking_trace l :
  trace deployment_step DeploymentChecking l DeploymentSucceeded →
  ∃ k, l = replicate k DeploymentChecking ++ [DeploymentSwitching; DeploymentSucceeded].
Proof.
  intros Htr. remember DeploymentChecking as a eqn:Ea. remember DeploymentSucceeded as s eqn:Es.
  induction Htr as [c|a b l c Hs Htr IH]; [congruence|]. subst.
  destruct b; by_table; try no_detour.
  - destruct (IH eq_refl eq_refl) as [k ->]. by exists (S k).
  - apply switching_trace in Htr as ->. by exists 0.
Qed.

(** C28: a deployment that is queued and ends in [succeeded] went through
    pulling, starting, one or more health checks and the route switch, in this
    order and with no other state in between: it never switched a route
    without a passed health check and never recovered from a roll-back. *)
Theorem deployment_success_path l :
  trace deployment_step DeploymentQueued l DeploymentSucceeded →
  ∃ k, l = [DeploymentPulling; DeploymentStarting] ++ replicate (S k) DeploymentChecking ++
           [DeploymentSwitching; DeploymentSucceeded].
Proof.
  intros Htr. inversion Htr as [|? b ? ? Hs Htr']; subst. destruct b; by_table; [|no_detour].
  inversion Htr' as [|? b ? ? Hs' Htr'']; subst. destruct b; by_table; try no_detour.
  inversion Htr'' as [|? b ? ? Hs'' Htr3]; subst. destruct b; by_table; try no_detour.
  apply checking_trace in Htr3 as [k ->]. by exists k.
Qed.
Lemma deployment_success_path_witness :
  ∃ k, [DeploymentPulling; DeploymentStarting; DeploymentChecking; DeploymentChecking;
        DeploymentSwitching; DeploymentSucceeded] =
       [DeploymentPulling; DeploymentStarting] ++ replicate (S k) DeploymentChecking ++
       [DeploymentSwitching; DeploymentSucceeded].
Proof. apply deployment_success_path. repeat (econstructor; [reflexivity|]). constructor. Defined.

Lemma deployment_run_bounded_witness :
  6 + deployment_rank DeploymentQueued <= 0 + deployment_rank DeploymentFailed.
Proof.
  apply (deployment_run_bounded DeploymentQueued 6 0 DeploymentFailed).
  apply (run_step _ DeploymentPulling); [reflexivity|done|].
  apply (run_step _ DeploymentStarting); [reflexivity|done|].
  apply (run_step _ DeploymentChecking); [reflexivity|done|].
  apply (run_step _ DeploymentSwitching); [reflexivity|done|].
  apply (run_step _ DeploymentRollingBack); [reflexivity|done|].
  apply (run_step _ DeploymentFailed); [reflexivity|done|]. constructor.
Defined.
