(* ===== verification/GoValue.v ===== *)
(** * Dynamic values

    Specifications travel as decoded JSON, Go's [map[string]any].  [any] has
    one constructor per dynamic type the program asserts on; a failed type
    assertion [x.(T)] is [None].  JSON numbers are [float64]: a float is NaN,
    an infinity or the rational it denotes, which is exact for the comparisons
    and the truncations the program makes. *)
From S2P Require Import Prelude GoStrings.
From Stdlib Require Import QArith Qround.
From stdpp Require Import list.
#[local] Set Warnings "-register-all".
Open Scope nat_scope.
Open Scope list_scope.

Inductive gofloat :=
  | FNaN
  | FInf (neg : bool)
  | FFin (q : Q).

(** [x < y] and [x == y] on float64. *)
Definition f_lt (x y : gofloat) : bool :=
  match x, y with
  | FNaN, _ | _, FNaN => false
  | FInf true, FInf true => false
  | FInf true, _ => true
  | FInf false, _ => false
  | FFin _, FInf n => negb n
  | FFin p, FFin q => negb (Qle_bool q p)
  end.
Definition f_isnan (x : gofloat) : bool := match x with FNaN => true | _ => false end.
Definition f_isinf (x : gofloat) : bool := match x with FInf _ => true | _ => false end.
(** [int(x)]: truncation toward zero; the conversion of a value outside
    [int64] is implementation-defined in Go and [None] here. *)
Definition f_int (x : gofloat) : option Z :=
  match x with
  | FFin q => let z := (Qnum q ÷ Zpos (Qden q))%Z in
              if (int64_min <=? z)%Z && (z <=? int64_max)%Z then Some z else None
  | _ => None
  end.
Definition f_of_Z (z : Z) : gofloat := FFin (inject_Z z).
Definition f_eq (x y : gofloat) : bool :=
  match x, y with
  | FInf a, FInf b => eqb a b
  | FFin p, FFin q => Qeq_bool p q
  | _, _ => false
  end.

(** [math.Max(x, y)]. *)
Definition f_max (x y : gofloat) : gofloat :=
  match x, y with
  | FInf false, _ | _, FInf false => FInf false
  | FNaN, _ | _, FNaN => FNaN
  | _, _ => if f_lt y x then x else y
  end.

Inductive any :=
  | ANil
  | ABool (b : bool)
  | ANum (f : gofloat)
  | AStr (s : string)
  | AArr (l : list any)
  | AObj (m : gmap string any)
  | AStrs (l : list string)
  | AStrMap (m : gmap string string)
  | AInts (l : list Z).

Abbreviation obj := (gmap string any).

(** [m[key]]: the zero value, nil, for a missing key. *)
Definition get (m : obj) (key : string) : any := default ANil (m !! key).
Definition as_bool (v : any) : option bool := match v with ABool b => Some b | _ => None end.
Definition as_string (v : any) : option string := match v with AStr s => Some s | _ => None end.
Definition numeric (v : any) : option gofloat := match v with ANum f => Some f | _ => None end.
Definition as_arr (v : any) : option (list any) := match v with AArr l => Some l | _ => None end.
Definition as_obj (v : any) : option obj := match v with AObj m => Some m | _ => None end.
Definition truthy (v : any) : bool := match v with ABool b => b | _ => false end.

(** ** Encoding and decoding

    What json.Marshal followed by json.Unmarshal makes of a value: typed slices
    and maps become dynamic ones.  The strings are valid UTF-8 (they come from
    the database or from decoded JSON), which the encoding keeps.  Marshal fails
    on a float that is not finite. *)
Fixpoint json_value (v : any) : any :=
  match v with
  | AArr l => AArr (json_value <$> l)
  | AObj m => AObj (json_value <$> m)
  | AStrs l => AArr (AStr <$> l)
  | AStrMap m => AObj (AStr <$> m)
  | AInts l => AArr ((λ z, ANum (f_of_Z z)) <$> l)
  | _ => v
  end.
Fixpoint json_finite (v : any) : bool :=
  match v with
  | ANum FNaN | ANum (FInf _) => false
  | AArr l => forallb json_finite l
  | AObj m => map_fold (λ _ v b, json_finite v && b) true m
  | _ => true
  end.

(** ** Ranging over a map

    Go iterates over a map in an unspecified order.  The code is modelled
    against any order: [go_range m] lists the entries of [m], each once. *)
Class GoRange := {
  go_range : ∀ {A}, gmap string A → list (string * A);
  go_range_perm : ∀ A (m : gmap string A), go_range m ≡ₚ map_to_list m
}.
(** One order a run may take. *)
Definition map_order : GoRange := 
  {| go_range := λ A m, map_to_list m; go_range_perm := λ A m, reflexivity _ |}.

Section range.
Context `{GoRange} {A : Type}.
Implicit Types m : gmap string A.

Lemma elem_of_go_range m k v : (k, v) ∈ go_range m ↔ m !! k = Some v.
Proof. by rewrite go_range_perm, elem_of_map_to_list. Qed.
Lemma Forall_go_range m (P : string * A → Prop) :
  Forall P (go_range m) ↔ map_Forall (λ k v, P (k, v)) m.
Proof.
rewrite go_range_perm, map_Forall_to_list. apply Forall_iff. by intros [k v].
Qed.
Lemma length_go_range m : List.length (go_range m) = size m.
Proof. by rewrite go_range_perm, length_map_to_list. Qed.
(** The sum of a measure does not depend on the order. *)
Lemma sum_go_range m (f : string * A → Z) :
  sumZ (f <$> go_range m) = sumZ (f <$> map_to_list m).
Proof. by rewrite go_range_perm. Qed.
End range.

(** [for _, x := range xs { if err := f(x); err != nil { return err } }] *)
Fixpoint each {E A} (f : A → result E unit) (xs : list A) : result E unit :=
  match xs with [] => Ok tt | x :: xs => _ ← f x; each f xs end.

Lemma each_ok {E A} (f : A → result E unit) xs :
  each f xs = Ok tt ↔ Forall (λ x, f x = Ok tt) xs.
Proof.
  induction xs as [|x xs IH]; cbn; [split; [constructor|done]|].
  rewrite Forall_cons, <- IH. unfold mbind, result_bind. destruct (f x) as [[]|e]; naive_solver.
Qed.

(** ** Comparisons *)
Lemma f_lt_fin p q : f_lt (FFin p) (FFin q) = false ↔ (q <= p)%Q.
Proof. cbn. by rewrite negb_false_iff, Qle_bool_iff. Qed.
(** A value that is not NaN, not infinite and within two bounds. *)
Definition f_within (x : gofloat) (lo hi : Q) : Prop :=
  ∃ q, x = FFin q ∧ (lo <= q <= hi)%Q.
Definition f_bad (x : gofloat) (lo hi : Q) : bool :=
  f_isnan x || f_isinf x || f_lt x (FFin lo) || f_lt (FFin hi) x.
Lemma f_bad_spec x lo hi : f_bad x lo hi = false ↔ f_within x lo hi.
Proof.
  unfold f_bad, f_within. destruct x as [|n|q]; cbn [f_isnan f_isinf orb].
  - split; [done|by intros (? & ? & _)].
  - split; [done|by intros (? & ? & _)].
  - rewrite orb_false_iff, !f_lt_fin. split; [eauto|]. by intros (? & [= <-] & ?).
Qed.
