(* ===== verification/RuntimeSpec.v ===== *)
(** * Runtime specifications (internal/runtime/spec.go)

    The validation of a product version's runtime specification: image
    reference, resources, storage, environment, secrets, volumes,
    dependencies and command.  [ValidateRuntimeSpec] is the conjunction of the
    blocks of the Go function, in its order; [valid_spec] is the declarative
    contract it decides. *)
From S2P Require Import Prelude GoStrings Regex GoValue.
From Stdlib Require Import QArith.
From stdpp Require Import list.
Open Scope string_scope.
Open Scope nat_scope.
Open Scope list_scope.

(** ** Patterns *)
Definition r_lower : ascii * ascii := ("a", "z")%char.
Definition r_upper : ascii * ascii := ("A", "Z")%char.
Definition r_digit : ascii * ascii := ("0", "9")%char.
Definition r_one (c : ascii) : ascii * ascii := (c, c).

Definition imageReferencePattern : regex :=
  rseq [ RCls [r_lower; r_upper; r_digit];
         RStar (RCls [r_lower; r_upper; r_digit; r_one "."; r_one "_"; r_one "/"; r_one ":"; r_one "-"]);
         RAlt (rseq [ rlit ":"; RCls [r_lower; r_upper; r_digit; r_one "_"];
                      rrep 0 127 (RCls [r_lower; r_upper; r_digit; r_one "."; r_one "_"; r_one "-"]) ])
              (rseq [ rlit "@sha256:"; rrep 64 64 (RCls [r_digit; ("a", "f")%char]) ]) ].
Definition volumeKeyPattern : regex :=
  RCat (RCls [r_lower]) (rrep 0 31 (RCls [r_lower; r_digit; r_one "-"])).
Definition environmentKeyPattern : regex :=
  RCat (RCls [r_upper; r_lower; r_one "_"]) (rrep 0 127 (RCls [r_upper; r_lower; r_digit; r_one "_"])).
Definition secretKeyPattern : regex :=
  RCat (RCls [r_upper; r_one "_"]) (rrep 0 127 (RCls [r_upper; r_digit; r_one "_"])).
Definition dependencyKeyPattern : regex :=
  RCat (RCls [r_lower]) (rrep 0 31 (RCls [r_lower; r_digit; r_one "-"])).
Definition serviceSlugPattern : regex :=
  RCat (RCls [r_lower; r_digit]) (rrep 0 62 (RCls [r_lower; r_digit; r_one "-"])).
Definition r_hex : regex := RCls [r_digit; ("a", "f")%char].
Definition uuidPattern : regex :=
  rseq [ rrep 8 8 r_hex; rlit "-"; rrep 4 4 r_hex; rlit "-";
         RCls [("1", "5")%char]; rrep 3 3 r_hex; rlit "-";
         RCls [r_one "8"; r_one "9"; r_one "a"; r_one "b"]; rrep 3 3 r_hex; rlit "-"; rrep 12 12 r_hex ].

(** ** Data *)
Record VolumeMount := { vm_Key : string; vm_MountPath : string; vm_SizeGiB : gofloat }.
Record Dependency := { dep_Key : string; dep_ProductID : string; dep_ServiceSlug : string; dep_Required : bool }.
Record SecretOption := { so_Key : string; so_Description : string; so_Editable : bool }.
Record Resources := { CPUCores : gofloat; MemoryMiB : gofloat }.
Record StorageResources := { SystemDiskGiB : gofloat; DataDiskGiB : gofloat }.

(** float64(0.1): the double nearest to one tenth. *)
Definition q01 : Q := 3602879701896397 # 36028797018963968.
Definition DefaultCPUCores : gofloat := f_of_Z 1.
Definition DefaultMemoryMiB : gofloat := f_of_Z 512.
Definition MinCPUCores : Q := q01.
Definition MaxCPUCores : Q := inject_Z 64.
Definition MinMemoryMiB : Q := inject_Z 64.
Definition MaxMemoryMiB : Q := inject_Z 262144.
Definition DefaultSystemDiskGiB : gofloat := f_of_Z 5.
Definition DefaultVolumeGiB : gofloat := f_of_Z 10.
Definition MinSystemDiskGiB : Q := inject_Z 1.
Definition MaxSystemDiskGiB : Q := inject_Z 1024.
Definition MinVolumeGiB : Q := inject_Z 1.
Definition MaxVolumeGiB : Q := inject_Z 16384.

(** The error values of the file, one constructor per message. *)
Inductive spec_error :=
  | EImage | EPrivileged | EHostNetwork | EDockerSocket
  | EEditableOptionsObject | EEditableOption (key : string) | EEditableOptionBool (key : string)
  | EEnvObject | EEnvCount | EEnvKey (key : string) | EEnvString (key : string)
  | EEnvLong (key : string) | EEnvTotal
  | EEditableEnvArray | EEditableEnvCount | EEditableEnvName | EEditableEnvDup (key : string)
  | EEditableEnvDefault (key : string)
  | EEnvDescObject | EEnvDescCount | EEnvDesc
  | ESecretEnvClash (key : string)
  | EVolumesArray | EHostPath | EVolumeEntry | EVolumeName | EVolumePath | EVolumeDup
  | EDepArray | EDepCount | EDepEntry | EDepFields | EDepKey (key : string) | EDepProduct (key : string)
  | EDepService (key : string) | EDepRequired (key : string) | EDepKeyDup (key : string)
  | EDepServiceDup (slug : string)
  | ESecretArray | ESecretCount | ESecretKey | ESecretDup (key : string)
  | ESecretDescObject | ESecretDescCount | ESecretDesc (key : string) | ESecretDescUnknown (key : string)
  | EEditableSecretArray | EEditableSecretCount | EEditableSecretKey
  | EEditableSecretUnknown (key : string) | EEditableSecretDup (key : string)
  | ECommandArray | ECommandCount | ECommandArg | ECommandLong | ECommandTotal
  | EResourcesRequired | ECPU | EMemory | ESystemDisk | EVolumeSpec | EVolumeSizeRequired
  | EVolumeSize | EDataVolume.

(** ** Image reference *)
Definition ValidateImageDigest (value : string) : result spec_error unit :=
  let value := trim_space value in
  if contains value "://" || negb (match_string imageReferencePattern value)
  then Err EImage else Ok tt.

(** ** Resources and storage *)
Definition RuntimeResources (spec : obj) (required : bool) : result spec_error Resources :=
  let cpu := numeric (get spec "cpuCores") in
  let memory := numeric (get spec "memoryMiB") in
  if required && (negb (bool_decide (is_Some cpu)) || negb (bool_decide (is_Some memory)))
  then Err EResourcesRequired
  else
    let cpu := default DefaultCPUCores cpu in
    let memory := default DefaultMemoryMiB memory in
    if f_bad cpu MinCPUCores MaxCPUCores then Err ECPU
    else if f_bad memory MinMemoryMiB MaxMemoryMiB then Err EMemory
    else Ok {| CPUCores := cpu; MemoryMiB := memory |}.

(** The loop over the mounts: [if !dataDiskOK || size > dataDisk { dataDisk = size }].
    [ok] says whether the specification declares dataVolumeGiB. *)
Fixpoint volume_sizes (required ok : bool) (dataDisk : gofloat) (items : list any) :
    result spec_error gofloat :=
  match items with
  | [] => Ok dataDisk
  | item :: items =>
      match as_obj item with
      | None => Err EVolumeSpec
      | Some entry =>
          let size := numeric (get entry "sizeGiB") in
          if required && negb (bool_decide (is_Some size)) then Err EVolumeSizeRequired
          else
            let size := default DefaultVolumeGiB size in
            if f_bad size MinVolumeGiB MaxVolumeGiB then Err EVolumeSize
            else volume_sizes required ok
                   (if negb ok || f_lt dataDisk size then size else dataDisk) items
      end
  end.

Definition RuntimeStorage (spec : obj) (required : bool) : result spec_error StorageResources :=
  let systemDisk := default DefaultSystemDiskGiB (numeric (get spec "systemDiskGiB")) in
  if f_bad systemDisk MinSystemDiskGiB MaxSystemDiskGiB then Err ESystemDisk
  else
    let values := default [] (as_arr (get spec "volumes")) in
    let declared := match values with [] => None | _ => numeric (get spec "dataVolumeGiB") end in
    let dataDiskOK := bool_decide (is_Some declared) in
    dataDisk ← volume_sizes required dataDiskOK (default (f_of_Z 0) declared) values;
    if dataDiskOK && f_bad dataDisk MinVolumeGiB MaxVolumeGiB then Err EDataVolume
    else Ok {| SystemDiskGiB := systemDisk; DataDiskGiB := dataDisk |}.

Definition RuntimeDataVolumeGiB (spec : obj) (required : bool) : result spec_error gofloat :=
  storage ← RuntimeStorage spec required; Ok (DataDiskGiB storage).

(** Malformed mounts are skipped here: the caller runs on validated specs. *)
Definition volume_mount (item : any) : option VolumeMount :=
  entry ← as_obj item;
  let key := default "" (as_string (get entry "name")) in
  let path := default "" (as_string (get entry "mountPath")) in
  let size := default DefaultVolumeGiB (numeric (get entry "sizeGiB")) in
  if negb (bool_decide (key = "")) && negb (bool_decide (path = ""))
  then Some {| vm_Key := key; vm_MountPath := path; vm_SizeGiB := size |} else None.
Definition VolumeMounts (spec : obj) : list VolumeMount :=
  omap volume_mount (default [] (as_arr (get spec "volumes"))).

(** ** Dependencies *)
Definition dependency_entry (rawValue : any) : result spec_error (string * string * Dependency) :=
  match as_obj rawValue with
  | None => Err EDepEntry
  | Some entry =>
      if negb (size entry =? 4) then Err EDepFields else
      let key := default "" (as_string (get entry "key")) in
      let keyOK := bool_decide (is_Some (as_string (get entry "key"))) in
      let productID := default "" (as_string (get entry "productId")) in
      let productOK := bool_decide (is_Some (as_string (get entry "productId"))) in
      let serviceSlug := default "" (as_string (get entry "serviceSlug")) in
      let serviceOK := bool_decide (is_Some (as_string (get entry "serviceSlug"))) in
      let required := default false (as_bool (get entry "required")) in
      let requiredOK := bool_decide (is_Some (as_bool (get entry "required"))) in
      if negb keyOK || negb (match_string dependencyKeyPattern key) then Err (EDepKey key)
      else if negb productOK || negb (match_string uuidPattern productID) then Err (EDepProduct key)
      else if negb serviceOK || negb (match_string serviceSlugPattern serviceSlug) then Err (EDepService key)
      else if negb requiredOK then Err (EDepRequired key)
      else Ok (key, serviceSlug,
               {| dep_Key := key; dep_ProductID := productID;
                  dep_ServiceSlug := serviceSlug; dep_Required := required |})
  end.
Definition entry_string (v : any) (field : string) : string :=
  default "" (entry ← as_obj v; as_string (get entry field)).
Definition RuntimeDependencies (spec : obj) : result spec_error (list Dependency) :=
  match spec !! "dependencies" with
  | None => Ok []
  | Some raw =>
      match as_arr raw with
      | None => Err EDepArray
      | Some values =>
          if 32 <? List.length values then Err EDepCount else
          distinct2_loop dependency_entry
            (λ v, EDepKeyDup (entry_string v "key"))
            (λ v, EDepServiceDup (entry_string v "serviceSlug")) ∅ ∅ values
      end
  end.

(** ** Secrets *)
(** An [[]any] or, in process, a [[]string]; [None] for any other type. *)
Definition any_list (raw : any) : option (list any) :=
  match raw with AArr l => Some l | AStrs l => Some (AStr <$> l) | _ => None end.
Definition secret_key (rawValue : any) : result spec_error (string * string) :=
  match as_string rawValue with
  | Some key => if match_string secretKeyPattern key then Ok (key, key) else Err ESecretKey
  | None => Err ESecretKey
  end.
Definition RuntimeSecretKeys (spec : obj) : result spec_error (list string) :=
  match get spec "secretKeys" with
  | ANil => Ok []
  | raw =>
      match any_list raw with
      | None => Err ESecretArray
      | Some values =>
          if 64 <? List.length values then Err ESecretCount else
          distinct_loop secret_key (λ v, ESecretDup (default "" (as_string v))) ∅ values
      end
  end.

Section validate.
Context `{GoRange}.

Definition secret_description (kv : string * any) : result spec_error unit :=
  match as_string kv.2 with
  | Some description =>
      if negb (match_string secretKeyPattern kv.1) || (500 <? slen description)%Z
      then Err (ESecretDesc kv.1) else Ok tt
  | None => Err (ESecretDesc kv.1)
  end.
Definition string_entry (kv : string * any) : option (string * string) :=
  s ← as_string kv.2; Some (kv.1, s).
Definition secret_descriptions (spec : obj) : result spec_error (gmap string string) :=
  match get spec "secretDescriptions" with
  | ANil => Ok ∅
  | AObj values =>
      if 64 <? size values then Err ESecretDescCount else
      _ ← each secret_description (go_range values);
      Ok (list_to_map (omap string_entry (go_range values)))
  | AStrMap typed => Ok typed
  | _ => Err ESecretDescObject
  end.
Definition editable_secret (known : gset string) (rawKey : any) : result spec_error (string * string) :=
  match as_string rawKey with
  | Some key =>
      if negb (match_string secretKeyPattern key) then Err EEditableSecretKey
      else if negb (bool_decide (key ∈ known)) then Err (EEditableSecretUnknown key)
      else Ok (key, key)
  | None => Err EEditableSecretKey
  end.
Definition editable_secrets (spec : obj) (keys : list string) : result spec_error (gset string) :=
  let known : gset string := list_to_set keys in
  match get spec "editableSecretKeys" with
  | ANil => Ok known
  | raw =>
      match any_list raw with
      | None => Err EEditableSecretArray
      | Some values =>
          if 64 <? List.length values then Err EEditableSecretCount else
          ks ← distinct_loop (editable_secret known)
                 (λ v, EEditableSecretDup (default "" (as_string v))) ∅ values;
          Ok (list_to_set ks)
      end
  end.
Definition RuntimeSecretOptions (spec : obj) : result spec_error (list SecretOption) :=
  keys ← RuntimeSecretKeys spec;
  descriptions ← secret_descriptions spec;
  let known : gset string := list_to_set keys in
  _ ← each (λ kv, ensure (bool_decide (kv.1 ∈ known)) (ESecretDescUnknown kv.1))
        (go_range descriptions);
  editable ← editable_secrets spec keys;
  Ok ((λ key, {| so_Key := key; so_Description := default "" (descriptions !! key);
                 so_Editable := bool_decide (key ∈ editable) |}) <$> keys).

(** ** Command *)
Fixpoint command_args (total : Z) (values : list any) : result spec_error (list string * Z) :=
  match values with
  | [] => Ok ([], total)
  | v :: values =>
      match as_string v with
      | None => Err ECommandArg
      | Some value =>
          if bool_decide (trim_space value = "") then Err ECommandArg
          else if (4096 <? slen value)%Z then Err ECommandLong
          else '(command, total) ← command_args (total + slen value) values;
               Ok (value :: command, total)
      end
  end.
Definition RuntimeCommand (spec : obj) : result spec_error (list string) :=
  match get spec "command" with
  | ANil => Ok []
  | raw =>
      match any_list raw with
      | None => Err ECommandArray
      | Some [] => Ok []
      | Some values =>
          if 64 <? List.length values then Err ECommandCount else
          '(command, total) ← command_args 0 values;
          if (16384 <? total)%Z then Err ECommandTotal else Ok command
      end
  end.

(** ** The blocks of [ValidateRuntimeSpec] *)
Definition editable_option_allowed (key : string) : bool :=
  bool_decide (key ∈ ["cpu"; "memory"; "dataVolume"; "command"; "dependencies"; "environment"]).
Definition validate_editable_options (spec : obj) : result spec_error unit :=
  match spec !! "editableOptions" with
  | None => Ok tt
  | Some raw =>
      match as_obj raw with
      | None => Err EEditableOptionsObject
      | Some options =>
          each (λ kv, if negb (editable_option_allowed kv.1) then Err (EEditableOption kv.1)
                      else if bool_decide (is_Some (as_bool kv.2)) then Ok tt
                      else Err (EEditableOptionBool kv.1)) (go_range options)
      end
  end.

Definition env_entry (kv : string * any) : result spec_error Z :=
  if negb (match_string environmentKeyPattern kv.1) then Err (EEnvKey kv.1) else
  match as_string kv.2 with
  | None => Err (EEnvString kv.1)
  | Some value =>
      if (4096 <? slen value)%Z then Err (EEnvLong kv.1) else Ok (slen kv.1 + slen value)%Z
  end.
Fixpoint env_total (total : Z) (kvs : list (string * any)) : result spec_error Z :=
  match kvs with
  | [] => Ok total
  | kv :: kvs => n ← env_entry kv; env_total (total + n) kvs
  end.
Definition validate_env (spec : obj) : result spec_error unit :=
  match spec !! "env" with
  | None => Ok tt
  | Some raw =>
      match as_obj raw with
      | None => Err EEnvObject
      | Some values =>
          if 128 <? size values then Err EEnvCount else
          total ← env_total 0 (go_range values);
          if (32768 <? total)%Z then Err EEnvTotal else Ok tt
      end
  end.

Definition editable_env_key (environment : obj) (rawKey : any) : result spec_error string :=
  match as_string rawKey with
  | Some key => if match_string environmentKeyPattern key then Ok key else Err EEditableEnvName
  | None => Err EEditableEnvName
  end.
(** The duplicate test comes before the test for a default value. *)
Fixpoint editable_env_loop (environment : obj) (seen : gset string) (values : list any) :
    result spec_error unit :=
  match values with
  | [] => Ok tt
  | rawKey :: values =>
      key ← editable_env_key environment rawKey;
      _ ← ensure (negb (bool_decide (key ∈ seen))) (EEditableEnvDup key);
      _ ← ensure (bool_decide (is_Some (environment !! key))) (EEditableEnvDefault key);
      editable_env_loop environment ({[key]} ∪ seen) values
  end.
Definition validate_editable_env (spec : obj) : result spec_error unit :=
  match spec !! "editableEnvKeys" with
  | None => Ok tt
  | Some raw =>
      match as_arr raw with
      | None => Err EEditableEnvArray
      | Some values =>
          if 128 <? List.length values then Err EEditableEnvCount else
          editable_env_loop (default ∅ (as_obj (get spec "env"))) ∅ values
      end
  end.

Definition validate_env_descriptions (spec : obj) : result spec_error unit :=
  match spec !! "envDescriptions" with
  | None => Ok tt
  | Some raw =>
      match as_obj raw with
      | None => Err EEnvDescObject
      | Some values =>
          if 128 <? size values then Err EEnvDescCount else
          each (λ kv, match as_string kv.2 with
                      | Some description =>
                          if negb (match_string environmentKeyPattern kv.1) || (500 <? slen description)%Z
                          then Err EEnvDesc else Ok tt
                      | None => Err EEnvDesc end) (go_range values)
      end
  end.

Definition validate_secret_env (spec : obj) (secretKeys : list string) : result spec_error unit :=
  match as_obj (get spec "env") with
  | None => Ok tt
  | Some environment =>
      each (λ key, ensure (bool_decide (environment !! key = None)) (ESecretEnvClash key)) secretKeys
  end.

Definition volume_entry (item : any) : result spec_error (string * string * unit) :=
  let host := match item with
              | AStr text => has_prefix text "/" || contains text ":\"
              | _ => false end in
  if host then Err EHostPath else
  match as_obj item with
  | None => Err EVolumeEntry
  | Some entry =>
      let key := default "" (as_string (get entry "name")) in
      let mountPath := default "" (as_string (get entry "mountPath")) in
      if negb (match_string volumeKeyPattern key) then Err EVolumeName
      else if negb (has_prefix mountPath "/") || bool_decide (mountPath = "/") || contains mountPath ".."
      then Err EVolumePath
      else Ok (key, mountPath, tt)
  end.
Definition validate_volumes (spec : obj) : result spec_error unit :=
  match spec !! "volumes" with
  | None => Ok tt
  | Some raw =>
      match as_arr raw with
      | None => Err EVolumesArray
      | Some value =>
          _ ← distinct2_loop volume_entry (λ _, EVolumeDup) (λ _, EVolumeDup) ∅ ∅ value; Ok tt
      end
  end.

(** [privileged], [networkMode], [hostNetwork], [dockerSocket]. *)
Definition validate_isolation (spec : obj) : result spec_error unit :=
  if truthy (get spec "privileged") then Err EPrivileged
  else if match as_string (get spec "networkMode") with Some v => equal_fold v "host" | None => false end
  then Err EHostNetwork
  else if truthy (get spec "hostNetwork") then Err EHostNetwork
  else if truthy (get spec "dockerSocket") then Err EDockerSocket
  else Ok tt.

Definition ValidateRuntimeSpec (spec : obj) : result spec_error unit :=
  _ ← RuntimeResources spec true;
  _ ← validate_isolation spec;
  _ ← RuntimeStorage spec true;
  _ ← validate_editable_options spec;
  _ ← RuntimeCommand spec;
  _ ← validate_env spec;
  _ ← validate_editable_env spec;
  _ ← validate_env_descriptions spec;
  secretKeys ← RuntimeSecretKeys spec;
  _ ← RuntimeSecretOptions spec;
  _ ← validate_secret_env spec secretKeys;
  _ ← validate_volumes spec;
  _ ← RuntimeDependencies spec;
  Ok tt.
End validate.
