(* ===== verification/RuntimeSpecFacts.v ===== *)
(** * Correctness of the runtime specification checks

    [valid_spec] states, field by field, which specifications a product
    version may carry; [ValidateRuntimeSpec] accepts exactly those, whatever
    the order in which Go ranges over its maps. *)
From S2P Require Import Prelude GoStrings Regex GoValue RuntimeSpec.
From Stdlib Require Import QArith.
From stdpp Require Import list.
Open Scope string_scope.
Open Scope nat_scope.
Open Scope list_scope.

(** ** The contract *)
Definition resources_ok (spec : obj) : Prop :=
  ∃ cpu memory, get spec "cpuCores" = ANum cpu ∧ get spec "memoryMiB" = ANum memory ∧
    f_within cpu MinCPUCores MaxCPUCores ∧ f_within memory MinMemoryMiB MaxMemoryMiB.

Definition isolated (spec : obj) : Prop :=
  get spec "privileged" ≠ ABool true ∧ get spec "hostNetwork" ≠ ABool true ∧
  get spec "dockerSocket" ≠ ABool true ∧
  ∀ mode, get spec "networkMode" = AStr mode → equal_fold mode "host" = false.

(** A declared capacity that the mounts, each within the limits, cannot bring
    back into the limits. *)
Definition capacity_ok (declared : gofloat) : Prop :=
  match declared with
  | FNaN | FInf false => False
  | FInf true => True
  | FFin q => (q <= MaxVolumeGiB)%Q
  end.
Definition volume_size_ok (item : any) : Prop :=
  ∃ entry size, item = AObj entry ∧ get entry "sizeGiB" = ANum size ∧
    f_within size MinVolumeGiB MaxVolumeGiB.
Definition storage_ok (spec : obj) : Prop :=
  f_within (default DefaultSystemDiskGiB (numeric (get spec "systemDiskGiB")))
    MinSystemDiskGiB MaxSystemDiskGiB ∧
  ∀ v values, get spec "volumes" = AArr (v :: values) →
    Forall volume_size_ok (v :: values) ∧
    ∀ declared, get spec "dataVolumeGiB" = ANum declared → capacity_ok declared.

Definition editable_options_ok (spec : obj) : Prop :=
  ∀ raw, spec !! "editableOptions" = Some raw →
    ∃ options, raw = AObj options ∧
      map_Forall (λ key v, editable_option_allowed key = true ∧ ∃ b, v = ABool b) options.

Definition argument_ok (value : string) : Prop :=
  trim_space value ≠ "" ∧ (slen value <= 4096)%Z.
Definition command_ok (spec : obj) : Prop :=
  get spec "command" = ANil ∨
  ∃ args, any_list (get spec "command") = Some (AStr <$> args) ∧
    List.length args <= 64 ∧ Forall argument_ok args ∧ (sumZ (slen <$> args) <= 16384)%Z.

Definition env_size (kv : string * any) : Z :=
  (slen kv.1 + slen (default "" (as_string kv.2)))%Z.
Definition env_ok (spec : obj) : Prop :=
  ∀ raw, spec !! "env" = Some raw →
    ∃ values, raw = AObj values ∧ size values <= 128 ∧
      map_Forall (λ key v, match_string environmentKeyPattern key = true ∧
                           ∃ s, v = AStr s ∧ (slen s <= 4096)%Z) values ∧
      (sumZ (env_size <$> map_to_list values) <= 32768)%Z.

Definition editable_env_ok (spec : obj) : Prop :=
  ∀ raw, spec !! "editableEnvKeys" = Some raw →
    ∃ keys, raw = AArr (AStr <$> keys) ∧ List.length keys <= 128 ∧ NoDup keys ∧
      Forall (λ key, match_string environmentKeyPattern key = true ∧
                     ∃ env v, get spec "env" = AObj env ∧ env !! key = Some v) keys.

Definition env_descriptions_ok (spec : obj) : Prop :=
  ∀ raw, spec !! "envDescriptions" = Some raw →
    ∃ values, raw = AObj values ∧ size values <= 128 ∧
      map_Forall (λ key v, match_string environmentKeyPattern key = true ∧
                           ∃ s, v = AStr s ∧ (slen s <= 500)%Z) values.

Definition secret_keys_ok (spec : obj) (keys : list string) : Prop :=
  (get spec "secretKeys" = ANil ∧ keys = []) ∨
  (any_list (get spec "secretKeys") = Some (AStr <$> keys) ∧ List.length keys <= 64 ∧
   NoDup keys ∧ Forall (λ key, match_string secretKeyPattern key = true) keys).

Definition secret_descriptions_ok (spec : obj) (keys : list string) : Prop :=
  get spec "secretDescriptions" = ANil ∨
  (∃ typed : gmap string string, get spec "secretDescriptions" = AStrMap typed ∧
     map_Forall (λ key _, key ∈ keys) typed) ∨
  (∃ values, get spec "secretDescriptions" = AObj values ∧ size values <= 64 ∧
     map_Forall (λ key v, key ∈ keys ∧ match_string secretKeyPattern key = true ∧
                          ∃ s, v = AStr s ∧ (slen s <= 500)%Z) values).
Definition editable_secrets_ok (spec : obj) (keys : list string) : Prop :=
  get spec "editableSecretKeys" = ANil ∨
  ∃ editable, any_list (get spec "editableSecretKeys") = Some (AStr <$> editable) ∧
    List.length editable <= 64 ∧ NoDup editable ∧
    Forall (λ key, match_string secretKeyPattern key = true ∧ key ∈ keys) editable.

Definition secrets_ok (spec : obj) : Prop :=
  ∃ keys, secret_keys_ok spec keys ∧ secret_descriptions_ok spec keys ∧
    editable_secrets_ok spec keys ∧
    ∀ env, get spec "env" = AObj env → Forall (λ key, env !! key = None) keys.

Definition mount_ok (item : any) (r : string * string) : Prop :=
  ∃ entry, item = AObj entry ∧
    default "" (as_string (get entry "name")) = r.1 ∧
    default "" (as_string (get entry "mountPath")) = r.2 ∧
    match_string volumeKeyPattern r.1 = true ∧
    has_prefix r.2 "/" = true ∧ r.2 ≠ "/" ∧ contains r.2 ".." = false.
Definition volumes_ok (spec : obj) : Prop :=
  ∀ raw, spec !! "volumes" = Some raw →
    ∃ items mounts, raw = AArr items ∧ Forall2 mount_ok items mounts ∧
      NoDup mounts.*1 ∧ NoDup mounts.*2.

Definition dependency_ok (rawValue : any) (d : Dependency) : Prop :=
  ∃ entry, rawValue = AObj entry ∧ size entry = 4 ∧
    get entry "key" = AStr (dep_Key d) ∧ get entry "productId" = AStr (dep_ProductID d) ∧
    get entry "serviceSlug" = AStr (dep_ServiceSlug d) ∧ get entry "required" = ABool (dep_Required d) ∧
    match_string dependencyKeyPattern (dep_Key d) = true ∧
    match_string uuidPattern (dep_ProductID d) = true ∧
    match_string serviceSlugPattern (dep_ServiceSlug d) = true.
Definition dependencies_ok (spec : obj) (deps : list Dependency) : Prop :=
  match spec !! "dependencies" with
  | None => deps = []
  | Some raw => ∃ values, raw = AArr values ∧ List.length values <= 32 ∧
      Forall2 dependency_ok values deps ∧ NoDup (dep_Key <$> deps) ∧ NoDup (dep_ServiceSlug <$> deps)
  end.

Record valid_spec (spec : obj) : Prop := {
  vs_resources : resources_ok spec;
  vs_isolated : isolated spec;
  vs_storage : storage_ok spec;
  vs_options : editable_options_ok spec;
  vs_command : command_ok spec;
  vs_env : env_ok spec;
  vs_editable_env : editable_env_ok spec;
  vs_descriptions : env_descriptions_ok spec;
  vs_secrets : secrets_ok spec;
  vs_volumes : volumes_ok spec;
  vs_dependencies : ∃ deps, dependencies_ok spec deps
}.

(** ** Inversion of the type assertions *)
Lemma numeric_some v f : numeric v = Some f ↔ v = ANum f.
Proof. destruct v; cbn; naive_solver. Qed.
Lemma as_string_some v s : as_string v = Some s ↔ v = AStr s.
Proof. destruct v; cbn; naive_solver. Qed.
Lemma as_bool_some v b : as_bool v = Some b ↔ v = ABool b.
Proof. destruct v; cbn; naive_solver. Qed.
Lemma as_obj_some v m : as_obj v = Some m ↔ v = AObj m.
Proof. destruct v; cbn; naive_solver. Qed.
Lemma as_arr_some v l : as_arr v = Some l ↔ v = AArr l.
Proof. destruct v; cbn; naive_solver. Qed.
Lemma truthy_spec v : truthy v = true ↔ v = ABool true.
Proof. destruct v as [|[]| | | | | | |]; cbn; naive_solver. Qed.
Create Rewrite HintDb go_any.
#[export] Hint Rewrite numeric_some as_string_some as_bool_some as_obj_some as_arr_some : go_any.

(** ** Block by block *)
Lemma RuntimeResources_ok spec r :
  RuntimeResources spec true = Ok r ↔
  ∃ cpu memory, get spec "cpuCores" = ANum cpu ∧ get spec "memoryMiB" = ANum memory ∧
    f_within cpu MinCPUCores MaxCPUCores ∧ f_within memory MinMemoryMiB MaxMemoryMiB ∧
    r = {| CPUCores := cpu; MemoryMiB := memory |}.
Proof.
  unfold RuntimeResources. 
  destruct (numeric (get spec "cpuCores")) as [cpu|] eqn:Ec; cbn [andb negb orb].
  2: { rewrite bool_decide_eq_false_2 by (by intros []). cbn. split; [done|].
       intros (? & ? & H & _). apply numeric_some in H. congruence. }
  destruct (numeric (get spec "memoryMiB")) as [memory|] eqn:Em; cbn [andb negb orb].
  2: { rewrite (bool_decide_eq_false_2 (is_Some None)) by (by intros []).
       rewrite orb_true_r. split; [done|].
       intros (? & ? & _ & H & _). apply numeric_some in H. congruence. }
  rewrite !bool_decide_eq_true_2 by eauto. cbn [negb orb from_option id].
  apply numeric_some in Ec, Em. rewrite Ec, Em. cbn.
  split.
  - destruct (f_bad cpu _ _) eqn:E1; [done|]. destruct (f_bad memory _ _) eqn:E2; [done|].
    intros [= <-]. apply f_bad_spec in E1, E2. eauto 10.
  - intros (? & ? & [= <-] & [= <-] & H1 & H2 & ->).
    apply f_bad_spec in H1, H2. by rewrite H1, H2.
Qed.

Lemma validate_isolation_ok spec : validate_isolation spec = Ok tt ↔ isolated spec.
Proof.
  unfold validate_isolation, isolated. rewrite <- !truthy_spec, !not_true_iff_false.
  setoid_rewrite <- as_string_some.
  destruct (truthy (get spec "privileged")); [naive_solver|].
  destruct (as_string (get spec "networkMode")) as [v|];
    [destruct (equal_fold v "host") eqn:E|];
    destruct (truthy (get spec "hostNetwork")), (truthy (get spec "dockerSocket"));
    naive_solver congruence.
Qed.

(** ** Storage *)
Lemma f_within_capacity d : f_within d MinVolumeGiB MaxVolumeGiB → capacity_ok d.
Proof. intros (q & -> & _ & Hq). exact Hq. Qed.
Lemma volume_sizes_inv ok d items r :
  volume_sizes true ok d items = Ok r → Forall volume_size_ok items.
Proof.
  revert d. induction items as [|item items IH]; intros d; cbn [volume_sizes]; [constructor|].
  destruct (as_obj item) as [entry|] eqn:Eo; [|done]. apply as_obj_some in Eo as ->.
  destruct (numeric (get entry "sizeGiB")) as [s|] eqn:Es.
  2: { by rewrite bool_decide_eq_false_2 by (by intros []). }
  rewrite bool_decide_eq_true_2 by eauto. cbn [andb negb from_option id].
  destruct (f_bad s _ _) eqn:Eb; [done|]. intros Hr. constructor; [|by eapply IH].
  apply numeric_some in Es. apply f_bad_spec in Eb. exists entry, s. done.
Qed.
Lemma bigger_within d s :
  f_within s MinVolumeGiB MaxVolumeGiB → capacity_ok d →
  f_within (if f_lt d s then s else d) MinVolumeGiB MaxVolumeGiB.
Proof.
  intros (q & -> & Hq1 & Hq2) Hd.
  destruct d as [|[]|p]; cbn [capacity_ok] in Hd; try done.
  { exists q. done. }
  destruct (f_lt (FFin p) (FFin q)) eqn:E; [exists q; done|].
  apply f_lt_fin in E. exists p. split_and!; [done| |done]. by apply Qle_trans with q.
Qed.
Lemma over_capacity d s :
  f_within s MinVolumeGiB MaxVolumeGiB → ¬ capacity_ok d → f_lt d s = false.
Proof.
  intros (q & -> & Hq1 & Hq2) Hd. destruct d as [|[]|p]; cbn [capacity_ok] in Hd; try done.
  apply f_lt_fin. apply Qnot_le_lt in Hd. apply Qle_trans with MaxVolumeGiB; [done|].
  by apply Qlt_le_weak.
Qed.
Lemma volume_sizes_total ok d items :
  Forall volume_size_ok items →
  ∃ r, volume_sizes true ok d items = Ok r ∧
    (ok = true → items ≠ [] ∨ f_within d MinVolumeGiB MaxVolumeGiB → capacity_ok d →
     f_within r MinVolumeGiB MaxVolumeGiB) ∧
    (ok = true → ¬ capacity_ok d → r = d).
Proof.
  intros HF. revert d. induction HF as [|item items (entry & s & -> & Hs & Hw) HF IH]; intros d.
  { exists d. split_and!; [done| |done]. by intros _ [|]. }
  cbn [volume_sizes as_obj]. rewrite Hs. cbn [numeric from_option id].
  rewrite bool_decide_eq_true_2 by eauto. cbn [negb andb].
  rewrite (proj2 (f_bad_spec _ _ _) Hw).
  destruct (IH (if negb ok || f_lt d s then s else d)) as (r & -> & Hin & Hout).
  exists r. split_and!; [done|..]; intros -> ; cbn [negb orb] in *.
  - intros _ Hd. specialize (bigger_within d s Hw Hd) as Hb.
    apply Hin; [done|by right|by apply f_within_capacity].
  - intros Hd. rewrite (over_capacity d s Hw Hd) in Hout. by apply Hout.
Qed.
Lemma capacity_ok_dec d : capacity_ok d ∨ ¬ capacity_ok d.
Proof.
  destruct d as [|[]|q]; cbn; [tauto|tauto|tauto|]. destruct (Qlt_le_dec MaxVolumeGiB q); [|tauto].
  right. by apply Qlt_not_le.
Qed.

Lemma RuntimeStorage_ok spec :
  (∃ r, RuntimeStorage spec true = Ok r) ↔ storage_ok spec.
Proof.
  unfold RuntimeStorage, storage_ok. setoid_rewrite <- f_bad_spec at 1.
  destruct (f_bad (default _ _) _ _) eqn:Es; [naive_solver|].
  destruct (get spec "volumes") as [| | | |[|v values]| | | |] eqn:Ev; cbn [as_arr from_option id];
    try (split; [naive_solver|cbn; eauto]).
  destruct (numeric (get spec "dataVolumeGiB")) as [d|] eqn:Ed.
  - apply numeric_some in Ed. rewrite Ed. cbn [from_option id].
    rewrite bool_decide_eq_true_2 by eauto. cbn [andb]. split.
    + intros (r & Hr). split; [done|]. intros v' values' [= <- <-].
      apply bind_ok_inv in Hr as (dd & Hd & Hr).
      pose proof (volume_sizes_inv _ _ _ _ Hd) as HF. split; [done|]. intros ? [= <-].
      destruct (volume_sizes_total true d (v :: values) HF) as (r' & Hr' & _ & Hbad).
      rewrite Hr' in Hd. injection Hd as ->.
      destruct (f_bad dd _ _) eqn:Eb; [done|]. apply f_bad_spec in Eb.
      destruct (capacity_ok_dec d) as [?|Hn]; [done|].
      apply f_within_capacity in Eb. rewrite (Hbad eq_refl Hn) in Eb. done.
    + intros [_ H]. destruct (H _ _ eq_refl) as [HF Hc].
      destruct (volume_sizes_total true d (v :: values) HF) as (r' & -> & Hw & _).
      cbn. rewrite (proj2 (f_bad_spec r' _ _)); [eauto|]. apply Hw; eauto.
  - cbn [from_option id]. rewrite bool_decide_eq_false_2 by (by intros []). cbn [andb]. split.
    + intros (r & Hr). split; [done|]. intros v' values' [= <- <-].
      apply bind_ok_inv in Hr as (dd & Hd & Hr).
      split; [by eapply volume_sizes_inv|]. intros declared Hdecl. by rewrite Hdecl in Ed.
    + intros [_ H]. destruct (H _ _ eq_refl) as [HF _].
      destruct (volume_sizes_total false (f_of_Z 0) (v :: values) HF) as (r' & -> & _). cbn. eauto.
Qed.

(** ** Maps of options, environment and descriptions *)
Section ranges.
Context `{GoRange}.

Lemma each_range_ok {E A} (f : string * A → result E unit) (m : gmap string A) :
  each f (go_range m) = Ok tt ↔ map_Forall (λ k v, f (k, v) = Ok tt) m.
Proof. by rewrite each_ok, Forall_go_range. Qed.

Lemma validate_editable_options_ok spec :
  validate_editable_options spec = Ok tt ↔ editable_options_ok spec.
Proof.
  unfold validate_editable_options, editable_options_ok.
  destruct (spec !! "editableOptions") as [raw|]; [|naive_solver].
  destruct (as_obj raw) as [options|] eqn:Eo.
  2: { split; [done|]. intros Hr. destruct (Hr _ eq_refl) as (? & -> & _). done. }
  apply as_obj_some in Eo as ->. rewrite each_range_ok. split.
  - intros Hf raw [= <-]. exists options. split; [done|]. intros k v Hk.
    specialize (Hf k v Hk). cbn in Hf. destruct (editable_option_allowed k); [|done].
    cbn in Hf. case_bool_decide as Hb; [|done]. destruct Hb as [b Hb].
    apply as_bool_some in Hb. eauto.
  - intros Hr. destruct (Hr _ eq_refl) as (? & [= <-] & Hf). intros k v Hk.
    destruct (Hf k v Hk) as (Ha & b & ->). cbn. by rewrite Ha.
Qed.

Lemma env_entry_ok k v n :
  env_entry (k, v) = Ok n ↔
  match_string environmentKeyPattern k = true ∧ (∃ s, v = AStr s ∧ (slen s <= 4096)%Z) ∧
  n = env_size (k, v).
Proof.
  unfold env_entry, env_size. cbn [fst snd]. destruct (match_string _ k); cbn [negb]; [|naive_solver].
  destruct (as_string v) as [s|] eqn:Es.
  2: { split; [done|]. intros (_ & (s & -> & _) & _). done. }
  apply as_string_some in Es as ->. cbn [as_string from_option id].
  destruct (4096 <? slen s)%Z eqn:E; bool_hyps.
  - split; [done|]. intros (_ & (? & [= <-] & ?) & _). lia.
  - split; [intros [= <-]; eauto|]. by intros (_ & _ & ->).
Qed.
Lemma env_total_ok acc kvs n :
  env_total acc kvs = Ok n ↔
  Forall (λ kv, env_entry kv = Ok (env_size kv)) kvs ∧ n = (acc + sumZ (env_size <$> kvs))%Z.
Proof.
  revert acc. induction kvs as [|[k v] kvs IH]; intros acc; cbn [env_total fmap list_fmap sumZ].
  - split; [intros [= <-]; split; [constructor|lia]|]. intros [_ ->]. f_equal. lia.
  - rewrite Forall_cons. split.
    + intros (m & Hm & Hr)%bind_ok_inv. apply IH in Hr as [HF ->].
      pose proof Hm as Hm'. apply env_entry_ok in Hm' as (_ & _ & ->). split; [by split|lia].
    + intros [[He HF] ->]. rewrite He. cbn [mbind result_bind]. apply IH. split; [done|lia].
Qed.
Lemma validate_env_ok spec : validate_env spec = Ok tt ↔ env_ok spec.
Proof.
  unfold validate_env, env_ok. destruct (spec !! "env") as [raw|]; [|naive_solver].
  destruct (as_obj raw) as [values|] eqn:Eo.
  2: { split; [done|]. intros Hr. destruct (Hr _ eq_refl) as (? & -> & _). done. }
  apply as_obj_some in Eo as ->. destruct (128 <? size values) eqn:Ec; bool_hyps.
  { split; [done|]. intros Hr. destruct (Hr _ eq_refl) as (? & [= <-] & ? & _). lia. }
  assert (∀ n, env_total 0 (go_range values) = Ok n ↔
    map_Forall (λ k v, match_string environmentKeyPattern k = true ∧
                       ∃ s, v = AStr s ∧ (slen s <= 4096)%Z) values ∧
    n = sumZ (env_size <$> map_to_list values)) as Ht.
  { intros n. rewrite env_total_ok, Forall_go_range, sum_go_range, Z.add_0_l.
    apply and_iff_compat_r.
    split; intros Hf k v Hk; specialize (Hf k v Hk); cbn in *.
    - by apply env_entry_ok in Hf as (? & ? & _).
    - apply env_entry_ok. by destruct Hf. }
  split.
  - intros (n & Hn & Hr)%bind_ok_inv raw [= <-]. apply Ht in Hn as [Hf ->].
    destruct (32768 <? _)%Z eqn:E; [done|]. bool_hyps. eauto 10.
  - intros Hr. destruct (Hr _ eq_refl) as (? & [= <-] & _ & Hf & Hs).
    rewrite (proj2 (Ht _) (conj Hf eq_refl)). cbn.
    by rewrite (proj2 (Z.ltb_ge _ _)).
Qed.

Lemma validate_env_descriptions_ok spec :
  validate_env_descriptions spec = Ok tt ↔ env_descriptions_ok spec.
Proof.
  unfold validate_env_descriptions, env_descriptions_ok.
  destruct (spec !! "envDescriptions") as [raw|]; [|naive_solver].
  destruct (as_obj raw) as [values|] eqn:Eo.
  2: { split; [done|]. intros Hr. destruct (Hr _ eq_refl) as (? & -> & _). done. }
  apply as_obj_some in Eo as ->. destruct (128 <? size values) eqn:Ec; bool_hyps.
  { split; [done|]. intros Hr. destruct (Hr _ eq_refl) as (? & [= <-] & ? & _). lia. }
  rewrite each_range_ok. split.
  - intros Hf raw [= <-]. exists values. split_and!; [done|done|]. intros k v Hk.
    specialize (Hf k v Hk). cbn in Hf. destruct (as_string v) as [s|] eqn:Es; [|done].
    destruct (negb _ || _) eqn:E; [done|]. bool_hyps. apply as_string_some in Es. eauto.
  - intros Hr. destruct (Hr _ eq_refl) as (? & [= <-] & _ & Hf). intros k v Hk.
    destruct (Hf k v Hk) as (Hm & s & -> & Hs). cbn. rewrite Hm. cbn.
    by rewrite (proj2 (Z.ltb_ge _ _)).
Qed.

End ranges.

(** ** Arrays of keys *)
Lemma editable_env_loop_ok env seen values :
  editable_env_loop env seen values = Ok tt ↔
  ∃ keys, values = AStr <$> keys ∧ NoDup keys ∧ Forall (λ k, k ∉ seen) keys ∧
    Forall (λ key, match_string environmentKeyPattern key = true ∧ is_Some (env !! key)) keys.
Proof.
  revert seen. induction values as [|v values IH]; intros seen; cbn [editable_env_loop].
  { split; [|done]. intros _. exists []. by split_and!; try constructor. }
  assert (∀ key, editable_env_key env v = Ok key ↔
    v = AStr key ∧ match_string environmentKeyPattern key = true) as Hk.
  { intros key. unfold editable_env_key. destruct v as [| | |s| | | | |]; cbn;
      try (by split; [done|intros [? _]]).
    destruct (match_string environmentKeyPattern s) eqn:Em; split; try done.
    - by intros [= <-].
    - by intros [[= <-] _].
    - intros [[= <-] ?]. congruence. }
  split.
  - intros (key & Hkey & Hr)%bind_ok_inv. apply Hk in Hkey as [-> Hm].
    apply bind_ok_inv in Hr as ([] & H1%ensure_ok_inv & Hr).
    apply bind_ok_inv in Hr as ([] & H2%ensure_ok_inv & Hr). bool_hyps.
    apply IH in Hr as (keys & -> & Hnd & Hnew & HF). exists (key :: keys). split_and!; [done|..].
    + constructor; [|done]. intros Hin. rewrite Forall_forall in Hnew. specialize (Hnew _ Hin). set_solver.
    + constructor; [done|]. eapply Forall_impl; [exact Hnew|]. set_solver.
    + by constructor.
  - intros ([|key keys] & Hv & Hnd & Hnew & HF); [done|]. injection Hv as -> ->.
    apply NoDup_cons in Hnd as [Hk1 Hnd]. apply Forall_cons in Hnew as [Hk2 Hnew].
    apply Forall_cons in HF as [[Hm Hs] HF].
    rewrite (proj2 (Hk key)) by done. cbn [mbind result_bind].
    rewrite (bool_decide_eq_false_2 (key ∈ seen)) by done.
    rewrite (bool_decide_eq_true_2 (is_Some _)) by done. cbn.
    apply IH. exists keys. split_and!; try done.
    rewrite Forall_forall in *. intros k Hin. specialize (Hnew k Hin).
    assert (k ≠ key) by congruence. set_solver.
Qed.
Lemma validate_editable_env_ok spec :
  validate_editable_env spec = Ok tt ↔ editable_env_ok spec.
Proof.
  unfold validate_editable_env, editable_env_ok.
  destruct (spec !! "editableEnvKeys") as [raw|]; [|naive_solver].
  destruct (as_arr raw) as [values|] eqn:Eo.
  2: { split; [done|]. intros Hr. destruct (Hr _ eq_refl) as (? & -> & _). done. }
  apply as_arr_some in Eo as ->. destruct (128 <? List.length values) eqn:Ec; bool_hyps.
  { split; [done|]. intros Hr. destruct (Hr _ eq_refl) as (? & [= ->] & Hl & _).
    rewrite length_fmap in Ec. lia. }
  rewrite editable_env_loop_ok.
  assert (∀ key, is_Some (default ∅ (as_obj (get spec "env")) !! key) ↔
    ∃ env v, get spec "env" = AObj env ∧ env !! key = Some v) as Hd.
  { intros key. destruct (as_obj (get spec "env")) as [m|] eqn:Eo; cbn [from_option id].
    - apply as_obj_some in Eo. rewrite Eo. split; [intros [v ?]; eauto|].
      intros (? & v & [= <-] & ?). eauto.
    - rewrite lookup_empty. split; [by intros []|]. intros (? & ? & Hx & _). by rewrite Hx in Eo. }
  setoid_rewrite Hd. split.
  - intros (keys & -> & Hnd & _ & HF) raw [= <-]. rewrite length_fmap in Ec. eauto 10.
  - intros Hr. destruct (Hr _ eq_refl) as (keys & [= ->] & _ & Hnd & HF).
    exists keys. split_and!; try done. apply Forall_forall. set_solver.
Qed.

(** A loop over an array of distinct strings, as for secret keys. *)
Lemma string_keys_loop (P : string → Prop) (f : any → result spec_error (string * string)) dup xs bs :
  (∀ v kb, f v = Ok kb ↔ ∃ k, v = AStr k ∧ kb = (k, k) ∧ P k) →
  distinct_loop f dup ∅ xs = Ok bs ↔ xs = AStr <$> bs ∧ NoDup bs ∧ Forall P bs.
Proof.
  intros Hf. rewrite distinct_loop_ok. split.
  - intros (kbs & HF & -> & Hnd & _).
    assert (kbs.*2 = kbs.*1 ∧ xs = AStr <$> kbs.*1 ∧ Forall P kbs.*1) as (E & -> & HP).
    { clear Hnd. induction HF as [|x kb xs kbs Hx HF IH]; [done|].
      apply Hf in Hx as (k & -> & -> & Hk). destruct IH as (E & -> & HP).
      cbn. rewrite E. split_and!; [done|done|by constructor]. }
    by rewrite E.
  - intros (-> & Hnd & HP). exists ((λ k, (k, k)) <$> bs).
    assert (∀ A (g : string * string → A) (h : string → A), (∀ k, g (k, k) = h k) →
      g <$> ((λ k, (k, k)) <$> bs) = h <$> bs) as Hg.
    { intros A g h Hgh. rewrite <- list_fmap_compose. apply list_fmap_ext. intros; apply Hgh. }
    rewrite (Hg _ fst id), (Hg _ snd id), list_fmap_id by done. split_and!; [|done|done|set_solver].
    apply Forall2_fmap_2.
    apply Forall_Forall2_diag. eapply Forall_impl; [exact HP|]. intros k Hk. apply Hf. eauto.
Qed.

Lemma secret_key_ok v kb :
  secret_key v = Ok kb ↔ ∃ k, v = AStr k ∧ kb = (k, k) ∧ match_string secretKeyPattern k = true.
Proof.
  unfold secret_key. destruct v as [| | |s| | | | |]; cbn; try (by split; [done|intros (? & ? & _)]).
  destruct (match_string secretKeyPattern s) eqn:Em; split; try done.
  - intros [= <-]. eauto.
  - by intros (? & [= <-] & -> & _).
  - intros (? & [= <-] & _ & ?). congruence.
Qed.
(** The arms of [get spec field] that are neither nil nor an array. *)
Lemma any_list_some raw l : any_list raw = Some l → raw ≠ ANil.
Proof. by destruct raw. Qed.

Lemma RuntimeSecretKeys_ok spec keys :
  RuntimeSecretKeys spec = Ok keys ↔ secret_keys_ok spec keys.
Proof.
  unfold RuntimeSecretKeys, secret_keys_ok.
  destruct (any_list (get spec "secretKeys")) as [values|] eqn:El.
  - assert (get spec "secretKeys" ≠ ANil) as Hn by (intros Hx; by rewrite Hx in El).
    transitivity ((if 64 <? List.length values then Err ESecretCount else
      distinct_loop secret_key (λ v, ESecretDup (default "" (as_string v))) ∅ values) = Ok keys).
    { destruct (get spec "secretKeys"); cbn in El |- *; (try done); by injection El as ->. }
    destruct (64 <? List.length values) eqn:Ec; bool_hyps.
    + split; [done|]. intros [[? _]|([= ->] & Hl & _)]; [done|]. rewrite length_fmap in Ec. lia.
    + rewrite (string_keys_loop _ _ _ _ _ secret_key_ok). split.
      * intros (-> & ? & ?). rewrite length_fmap in Ec. right. done.
      * intros [[? _]|([= ->] & _ & ? & ?)]; done.
  - destruct (get spec "secretKeys"); cbn in El |- *; try done; split;
      try (by intros [[? ->]|[? _]]); try done.
    intros [= <-]. by left.
Qed.

Section secrets.
Context `{GoRange}.

Lemma string_entry_some kv r : string_entry kv = Some r ↔ kv = (r.1, AStr r.2).
Proof.
  destruct kv as [k v], r as [a s]. unfold string_entry. destruct v; cbn; split; try done.
  - by intros [= -> ->].
  - by intros [= -> ->].
Qed.
Lemma list_to_map_lookup_omap (m : obj) k :
  (list_to_map (omap string_entry (go_range m)) : gmap string string) !! k =
  m !! k ≫= as_string.
Proof.
  assert (NoDup (omap string_entry (go_range m)).*1) as Hnd.
  { assert (NoDup (go_range m).*1) as Hd by (rewrite go_range_perm; apply NoDup_fst_map_to_list).
    revert Hd. generalize (go_range m). induction l as [|kv l IH]; [done|].
    cbn [omap list_omap fmap list_fmap]. intros [Ha Hl]%NoDup_cons. specialize (IH Hl).
    destruct (string_entry kv) as [[a s]|] eqn:E; [|done].
    apply string_entry_some in E as ->. cbn. constructor; [|done]. contradict Ha.
    apply list_elem_of_fmap in Ha as ([b w] & -> & (x & Hin & Hx)%list_elem_of_omap).
    apply string_entry_some in Hx as ->. apply list_elem_of_fmap. by exists (b, AStr w). }
  apply option_eq. intros s. rewrite <- elem_of_list_to_map by done.
  rewrite list_elem_of_omap. setoid_rewrite string_entry_some. split.
  - intros (kv & Hin & ->). apply elem_of_go_range in Hin. cbn in Hin. by rewrite Hin.
  - destruct (m !! k) as [v|] eqn:Ek; cbn; [|done]. intros ->%as_string_some.
    exists (k, AStr s). by rewrite elem_of_go_range.
Qed.

Lemma secret_description_ok k v :
  secret_description (k, v) = Ok tt ↔
  match_string secretKeyPattern k = true ∧ ∃ s, v = AStr s ∧ (slen s <= 500)%Z.
Proof.
  unfold secret_description. cbn [fst snd]. destruct (as_string v) as [s|] eqn:Es.
  2: { split; [done|]. by intros (_ & s & -> & _). }
  apply as_string_some in Es as ->. destruct (negb _ || _) eqn:E; bool_hyps.
  - split; [done|]. intros (Hm & ? & [= <-] & ?). rewrite Hm in E. cbn in E. bool_hyps. lia.
  - split; [eauto|done].
Qed.
(** The accepted descriptions and the keys they describe. *)
Lemma secret_descriptions_ok_iff spec keys :
  (∃ ds, secret_descriptions spec = Ok ds ∧ map_Forall (λ k _, k ∈ keys) ds) ↔
  secret_descriptions_ok spec keys.
Proof.
  unfold secret_descriptions, secret_descriptions_ok.
  destruct (get spec "secretDescriptions") as [| | | | |values| |typed|];
    try (split; [by intros (? & ? & _)|]; by intros [?|[(? & ? & _)|(? & ? & _)]]).
  - split; [intros _; by left|]. intros _. exists ∅. split; [done|]. apply map_Forall_empty.
  - destruct (64 <? size values) eqn:Ec; bool_hyps.
    { split; [by intros (? & ? & _)|]. intros [?|[(? & ? & _)|(? & [= <-] & ? & _)]]; [done|done|lia]. }
    split.
    + intros (ds & ([] & Hd & [= <-])%bind_ok_inv & Hk). right; right. exists values. split_and!; [done|done|].
      rewrite each_range_ok in Hd. intros k v Hkv.
      pose proof (Hd k v Hkv) as (? & s & -> & ?)%secret_description_ok.
      split; [|eauto]. apply (Hk k s). by rewrite list_to_map_lookup_omap, Hkv.
    + intros [?|[(? & ? & _)|(? & [= <-] & _ & Hf)]]; [done|done|].
      assert (each secret_description (go_range values) = Ok tt) as ->.
      { apply each_range_ok. intros k v Hkv. apply secret_description_ok. by destruct (Hf k v Hkv). }
      cbn. eexists. split; [done|]. intros k s. rewrite list_to_map_lookup_omap.
      intros (v & Hkv & _)%bind_Some. by destruct (Hf k v Hkv).
  - split; [intros (? & [= <-] & ?); right; left; eauto|].
    intros [?|[(? & [= <-] & ?)|(? & ? & _)]]; [done|eauto|done].
Qed.

Lemma editable_secrets_ok_iff spec keys :
  (∃ ks, editable_secrets spec keys = Ok ks) ↔ editable_secrets_ok spec keys.
Proof.
  unfold editable_secrets, editable_secrets_ok.
  assert (∀ v kb, editable_secret (list_to_set keys) v = Ok kb ↔
    ∃ k, v = AStr k ∧ kb = (k, k) ∧ (match_string secretKeyPattern k = true ∧ k ∈ keys)) as Hs.
  { intros v kb. unfold editable_secret. destruct v as [| | |s| | | | |]; cbn;
      try (by split; [done|intros (? & ? & _)]).
    destruct (match_string secretKeyPattern s) eqn:Em; cbn.
    2: { split; [done|]. intros (? & [= <-] & _ & ? & _). congruence. }
    case_bool_decide as Hk; cbn; rewrite elem_of_list_to_set in Hk; split; try done.
    - intros [= <-]. eauto 10.
    - by intros (? & [= <-] & -> & _).
    - by intros (? & [= <-] & _ & _ & ?). }
  destruct (any_list (get spec "editableSecretKeys")) as [values|] eqn:El.
  - pose proof (any_list_some _ _ El) as Hn.
    transitivity (∃ ks : gset string, (if 64 <? List.length values then Err EEditableSecretCount else
      ks ← distinct_loop (editable_secret (list_to_set keys))
             (λ v, EEditableSecretDup (default "" (as_string v))) ∅ values;
      Ok (list_to_set ks)) = Ok ks).
    { destruct (get spec "editableSecretKeys"); cbn in El |- *; (try done); by injection El as ->. }
    destruct (64 <? List.length values) eqn:Ec; bool_hyps.
    + split; [by intros []|]. intros [?|(? & [= ->] & Hl & _)]; [done|]. rewrite length_fmap in Ec. lia.
    + split.
      * intros (? & (ks & Hk & _)%bind_ok_inv). rewrite (string_keys_loop _ _ _ _ _ Hs) in Hk.
        destruct Hk as (-> & ? & ?). rewrite length_fmap in Ec. right. eauto 10.
      * intros [?|(ks & [= ->] & _ & ? & ?)]; [done|]. eexists.
        rewrite (proj2 (string_keys_loop _ _ _ _ ks Hs)); done.
  - destruct (get spec "editableSecretKeys"); cbn in El |- *; try done; split;
      try (by intros []); try (by intros [?|(? & ? & _)]); [by left|eauto].
Qed.

Lemma RuntimeSecretOptions_ok spec keys :
  RuntimeSecretKeys spec = Ok keys →
  (∃ os, RuntimeSecretOptions spec = Ok os) ↔
  secret_descriptions_ok spec keys ∧ editable_secrets_ok spec keys.
Proof.
  intros Hk. rewrite <- secret_descriptions_ok_iff, <- editable_secrets_ok_iff.
  unfold RuntimeSecretOptions. rewrite Hk. cbn [mbind result_bind].
  assert (∀ ds : gmap string string,
    each (λ kv, ensure (bool_decide (kv.1 ∈ (list_to_set keys : gset string))) (ESecretDescUnknown kv.1))
      (go_range ds) = Ok tt ↔ map_Forall (λ k _, k ∈ keys) ds) as He.
  { intros ds. rewrite each_range_ok. split; intros Hf k v Hkv; specialize (Hf k v Hkv); cbn in *.
    - apply ensure_ok_inv in Hf. bool_hyps. by rewrite elem_of_list_to_set in Hf.
    - rewrite bool_decide_eq_true_2; [done|]. by apply elem_of_list_to_set. }
  split.
  - intros (os & (ds & Hds & H1)%bind_ok_inv).
    apply bind_ok_inv in H1 as ([] & H2 & H1). apply He in H2.
    apply bind_ok_inv in H1 as (ks & Hks & _). eauto.
  - intros [(ds & -> & Hd) (ks & Hks)]. cbn [mbind result_bind].
    rewrite (proj2 (He ds) Hd), Hks. cbn. eauto.
Qed.

Lemma validate_secret_env_ok spec keys :
  validate_secret_env spec keys = Ok tt ↔
  ∀ env, get spec "env" = AObj env → Forall (λ key, env !! key = None) keys.
Proof.
  unfold validate_secret_env. destruct (as_obj (get spec "env")) as [env|] eqn:Eo.
  - apply as_obj_some in Eo. rewrite Eo, each_ok. split.
    + intros HF ? [= <-]. eapply Forall_impl; [exact HF|]. intros k Hk.
      apply ensure_ok_inv in Hk. by bool_hyps.
    + intros HF. eapply Forall_impl; [by apply HF|]. intros k Hk. cbn.
      by rewrite bool_decide_eq_true_2.
  - split; [|done]. intros _ env Henv. by rewrite Henv in Eo.
Qed.
End secrets.

(** ** Commands *)
Lemma command_args_ok total values r :
  command_args total values = Ok r ↔
  ∃ args, values = AStr <$> args ∧ Forall argument_ok args ∧
    r = (args, (total + sumZ (slen <$> args))%Z).
Proof.
  revert total r. induction values as [|v values IH]; intros total r; cbn [command_args].
  { split.
    - intros [= <-]. exists []. cbn. rewrite Z.add_0_r. by split_and!; try constructor.
    - intros ([|] & Hv & _ & ->); [|done]. cbn. by rewrite Z.add_0_r. }
  destruct (as_string v) as [s|] eqn:Es.
  2: { split; [done|]. intros ([|a args] & Hv & _ & _); [done|]. by injection Hv as -> ->. }
  apply as_string_some in Es as ->. case_bool_decide as Ht.
  { split; [done|]. intros ([|a args] & Hv & HF & _); [done|]. injection Hv as -> ->.
    apply Forall_cons in HF as [[? _] _]. done. }
  destruct (4096 <? slen s)%Z eqn:El; bool_hyps.
  { split; [done|]. intros ([|a args] & Hv & HF & _); [done|]. injection Hv as -> ->.
    apply Forall_cons in HF as [[_ ?] _]. lia. }
  split.
  - intros ([c t] & Hc & [= <-])%bind_ok_inv. apply IH in Hc as (args & -> & HF & [= -> ->]).
    exists (s :: args). split_and!; [done|by constructor|]. cbn. f_equal. lia.
  - intros ([|a args] & Hv & HF & ->); [done|]. injection Hv as -> ->.
    apply Forall_cons in HF as [_ HF].
    rewrite (proj2 (IH _ (args, (total + slen a + sumZ (slen <$> args))%Z))) by eauto.
    cbn. by rewrite Z.add_assoc.
Qed.

Lemma RuntimeCommand_ok spec args :
  RuntimeCommand spec = Ok args ↔
  (get spec "command" = ANil ∧ args = []) ∨
  (any_list (get spec "command") = Some (AStr <$> args) ∧
   List.length args <= 64 ∧ Forall argument_ok args ∧ (sumZ (slen <$> args) <= 16384)%Z).
Proof.
  unfold RuntimeCommand. destruct (any_list (get spec "command")) as [values|] eqn:El.
  - pose proof (any_list_some _ _ El) as Hn.
    transitivity (match values with [] => Ok [] | _ =>
      if 64 <? List.length values then Err ECommandCount else
      '(command, total) ← command_args 0 values;
      if (16384 <? total)%Z then Err ECommandTotal else Ok command end = Ok args).
    { destruct (get spec "command"); cbn in El |- *; (try done); by injection El as ->. }
    destruct values as [|v values].
    { split; [intros [= <-]|].
      - right. cbn. split_and!; [done|lia|constructor|lia].
      - intros [[? _]|(Hv & _)]; [done|]. by destruct args. }
    destruct (64 <? List.length (v :: values)) eqn:Ec; bool_hyps.
    + split; [done|]. intros [[? _]|([= Hv] & Hl & _)]; [done|]. rewrite Hv, length_fmap in Ec. lia.
    + split.
      * intros ([c t] & Hc & Hr)%bind_ok_inv.
        apply command_args_ok in Hc as (a & Hv & HF & [= -> ->]).
        destruct (16384 <? _)%Z eqn:Et; [done|]. injection Hr as ->. bool_hyps.
        right. rewrite Hv, length_fmap in Ec. rewrite Hv. split_and!; [done|lia|done|lia].
      * intros [[? _]|([= Hv] & Hl & HF & Ht)]; [done|].
        rewrite (proj2 (command_args_ok 0 (v :: values) (args, (0 + sumZ (slen <$> args))%Z))) by eauto.
        cbn [mbind result_bind]. by rewrite (proj2 (Z.ltb_ge _ _)) by lia.
  - destruct (get spec "command"); cbn in El |- *; try done; split;
      try (by intros [[? ->]|[? _]]); try done.
    intros [= <-]. by left.
Qed.

(** ** Volumes and dependencies *)
Lemma volume_entry_ok item r :
  volume_entry item = Ok r ↔ mount_ok item r.1.
Proof.
  unfold volume_entry, mount_ok. destruct item as [| | |s| |entry| | |]; cbn [as_obj];
    try (split; [by try destruct (_ || _)|by intros (? & ? & _)]).
  cbn zeta. set (key := default "" (as_string (get entry "name"))).
  set (path := default "" (as_string (get entry "mountPath"))).
  destruct (match_string volumeKeyPattern key) eqn:Ek; cbn [negb].
  2: { split; [done|]. intros (? & [= <-] & H1 & _ & H2 & _). fold key in H1. congruence. }
  destruct r as [[k p] []]; cbn [fst snd]. split.
  - destruct (negb _ || _ || _) eqn:E; [done|]. intros [= <- <-]. bool_hyps. eauto 10.
  - intros (? & [= <-] & <- & <- & _ & H1 & H2 & H3). fold path in H1, H2, H3 |- *. fold key.
    by rewrite H1, H3, (bool_decide_eq_false_2 _ H2).
Qed.

Lemma validate_volumes_ok spec : validate_volumes spec = Ok tt ↔ volumes_ok spec.
Proof.
  unfold validate_volumes, volumes_ok. destruct (spec !! "volumes") as [raw|]; [|naive_solver].
  destruct (as_arr raw) as [items|] eqn:Eo.
  2: { split; [done|]. intros Hr. destruct (Hr _ eq_refl) as (? & ? & -> & _). done. }
  apply as_arr_some in Eo as ->. split.
  - intros (us & Hl & _)%bind_ok_inv raw [= <-].
    apply distinct2_loop_ok in Hl as (rs & HF & _ & H1 & H2 & _). exists items, rs.*1.
    split_and!; [done| |done|done]. apply Forall2_fmap_r. eapply Forall2_impl; [exact HF|].
    intros item r. cbn. by rewrite volume_entry_ok.
  - intros Hr. destruct (Hr _ eq_refl) as (? & mounts & [= <-] & HF & H1 & H2).
    assert (((λ m : string * string, (m, tt)) <$> mounts).*1 = mounts) as Em.
    { rewrite <- list_fmap_compose. apply list_fmap_id. }
    rewrite (proj2 (distinct2_loop_ok _ _ _ _ _ _ ((λ m, (m, tt)) <$> mounts).*2)); [done|].
    exists ((λ m, (m, tt)) <$> mounts). rewrite Em.
    split_and!; [|done|done|done|set_solver|set_solver].
    apply Forall2_fmap_r. eapply Forall2_impl; [exact HF|].
    intros item m Hm. by apply volume_entry_ok.
Qed.


(** [dependency_entry] on the four asserted fields. *)
Lemma dependency_entry_ok v r :
  dependency_entry v = Ok r ↔ dependency_ok v r.2 ∧ r.1 = (dep_Key r.2, dep_ServiceSlug r.2).
Proof.
  unfold dependency_entry, dependency_ok. destruct (as_obj v) as [entry|] eqn:Eo.
  2: { split; [done|]. by intros [(? & -> & _) _]. }
  apply as_obj_some in Eo as ->. destruct (size entry =? 4) eqn:Es; cbn [negb]; bool_hyps.
  2: { split; [done|]. by intros [(? & [= <-] & ? & _) _]. }
  assert (∀ (Q : Prop), ((∃ entry', AObj entry = AObj entry' ∧ size entry' = 4 ∧
    get entry' "key" = AStr (dep_Key r.2) ∧ get entry' "productId" = AStr (dep_ProductID r.2) ∧
    get entry' "serviceSlug" = AStr (dep_ServiceSlug r.2) ∧
    get entry' "required" = ABool (dep_Required r.2) ∧
    match_string dependencyKeyPattern (dep_Key r.2) = true ∧
    match_string uuidPattern (dep_ProductID r.2) = true ∧
    match_string serviceSlugPattern (dep_ServiceSlug r.2) = true) ∧ Q) ↔
   (as_string (get entry "key") = Some (dep_Key r.2) ∧
    as_string (get entry "productId") = Some (dep_ProductID r.2) ∧
    as_string (get entry "serviceSlug") = Some (dep_ServiceSlug r.2) ∧
    as_bool (get entry "required") = Some (dep_Required r.2)) ∧
    match_string dependencyKeyPattern (dep_Key r.2) = true ∧
    match_string uuidPattern (dep_ProductID r.2) = true ∧
    match_string serviceSlugPattern (dep_ServiceSlug r.2) = true ∧ Q) as ->.
  { intros Q. rewrite !as_string_some, as_bool_some. split; [|naive_solver].
    intros [(? & [= <-] & ?) ?]. naive_solver. }
  destruct (as_string (get entry "key")) as [key|]; rewrite ?is_some_true, ?is_some_false;
    cbn [negb orb]; [|naive_solver].
  destruct (as_string (get entry "productId")) as [pid|]; rewrite ?is_some_true, ?is_some_false;
    cbn [negb orb from_option id]; [|destruct (match_string _ _); naive_solver].
  destruct (as_string (get entry "serviceSlug")) as [slug|]; rewrite ?is_some_true, ?is_some_false;
    cbn [negb orb from_option id]; [|repeat destruct (match_string _ _); naive_solver].
  destruct (as_bool (get entry "required")) as [req|]; rewrite ?is_some_true, ?is_some_false;
    cbn [negb orb from_option id]; [|repeat destruct (match_string _ _); naive_solver].
  destruct r as [[k sl] [rk rp rs rr]]; cbn [fst snd dep_Key dep_ProductID dep_ServiceSlug dep_Required].
  destruct (match_string dependencyKeyPattern key) eqn:E1; cbn [negb]; [|naive_solver congruence].
  destruct (match_string uuidPattern pid) eqn:E2; cbn [negb]; [|naive_solver congruence].
  destruct (match_string serviceSlugPattern slug) eqn:E3; cbn [negb]; naive_solver congruence.
Qed.

Lemma RuntimeDependencies_ok spec deps :
  RuntimeDependencies spec = Ok deps ↔ dependencies_ok spec deps.
Proof.
  unfold RuntimeDependencies, dependencies_ok.
  destruct (spec !! "dependencies") as [raw|]; [|naive_solver].
  destruct (as_arr raw) as [values|] eqn:Eo.
  2: { split; [done|]. by intros (? & -> & _). }
  apply as_arr_some in Eo as ->. destruct (32 <? List.length values) eqn:Ec; bool_hyps.
  { split; [done|]. intros (? & [= <-] & ? & _). lia. }
  rewrite distinct2_loop_ok. split.
  - intros (rs & HF & -> & H1 & H2 & _). exists values. split; [done|]. split; [done|].
    assert (Forall2 dependency_ok values rs.*2 ∧ rs.*1.*1 = dep_Key <$> rs.*2 ∧
      rs.*1.*2 = dep_ServiceSlug <$> rs.*2) as (HF' & E1 & E2).
    { clear H1 H2 Ec. induction HF as [|v [[k l] d] values rs Hv HF IH]; [by split_and!|].
      apply dependency_entry_ok in Hv as [Hd [= -> ->]]. destruct IH as (? & E1 & E2).
      cbn. split_and!; [by constructor|by rewrite E1|by rewrite E2]. }
    rewrite <- E1, <- E2. done.
  - intros (? & [= <-] & _ & HF & H1 & H2).
    exists ((λ d, ((dep_Key d, dep_ServiceSlug d), d)) <$> deps).
    rewrite <- !list_fmap_compose. split_and!; try done; try set_solver.
    + apply Forall2_fmap_r. eapply Forall2_impl; [exact HF|]. intros v d Hd.
      by apply dependency_entry_ok.
    + symmetry. apply list_fmap_id.
Qed.
(** ** The whole validation *)

(** C24: [ValidateRuntimeSpec] accepts exactly the specifications of the
    declarative contract [valid_spec] (resources, isolation, storage, options,
    command, environment, secrets, volumes and dependencies), whatever the
    order in which Go ranges over the maps of the specification. *)
Theorem ValidateRuntimeSpec_ok `{GoRange} spec :
  ValidateRuntimeSpec spec = Ok tt ↔ valid_spec spec.
Proof.
  unfold ValidateRuntimeSpec. split.
  - intros Hr. inv_ok.
    repeat match goal with u : () |- _ => destruct u end. constructor.
    + apply RuntimeResources_ok in Hrun as (? & ? & ?). unfold resources_ok. naive_solver.
    + by apply validate_isolation_ok.
    + apply RuntimeStorage_ok. eauto.
    + by apply validate_editable_options_ok.
    + apply RuntimeCommand_ok in Hrun3. unfold command_ok. naive_solver.
    + by apply validate_env_ok.
    + by apply validate_editable_env_ok.
    + by apply validate_env_descriptions_ok.
    + destruct (RuntimeSecretOptions_ok spec _ Hrun7) as [Ho _].
      destruct Ho as [? ?]; [by eexists|]. eexists.
      split_and!; [by apply RuntimeSecretKeys_ok|done|done|by apply validate_secret_env_ok].
    + by apply validate_volumes_ok.
    + eexists. by apply RuntimeDependencies_ok.
  - intros [H1 H2 H3 H4 H5 H6 H7 H8 (keys & Hk & Hd & He & Hs) H10 (deps & H11)].
    apply RuntimeStorage_ok in H3 as (st & H3).
    destruct H1 as (cpu & memory & Hc & Hm & ? & ?).
    apply RuntimeSecretKeys_ok in Hk.
    destruct (proj2 (RuntimeSecretOptions_ok spec keys Hk) (conj Hd He)) as (os & Ho).
    assert (∃ args, RuntimeCommand spec = Ok args) as (args & Ha).
    { setoid_rewrite RuntimeCommand_ok. destruct H5 as [|(args & ?)]; [|exists args]; naive_solver. }
    rewrite (proj2 (RuntimeResources_ok spec {| CPUCores := cpu; MemoryMiB := memory |})) by eauto 10.
    cbn [mbind result_bind].
    rewrite (proj2 (validate_isolation_ok spec)), H3, (proj2 (validate_editable_options_ok spec)),
      Ha, (proj2 (validate_env_ok spec)), (proj2 (validate_editable_env_ok spec)),
      (proj2 (validate_env_descriptions_ok spec)) by done.
    cbn [mbind result_bind]. rewrite Hk. cbn [mbind result_bind]. rewrite Ho. cbn [mbind result_bind].
    rewrite (proj2 (validate_secret_env_ok spec keys)), (proj2 (validate_volumes_ok spec)) by done.
    cbn [mbind result_bind]. by rewrite (proj2 (RuntimeDependencies_ok spec deps)).
Qed.

(** ** Shared data volume *)
Definition item_size (item : any) : gofloat :=
  default DefaultVolumeGiB (entry ← as_obj item; numeric (get entry "sizeGiB")).

Lemma volume_sizes_cons required ok d item items r :
  volume_sizes required ok d (item :: items) = Ok r →
  volume_sizes required ok (if negb ok || f_lt d (item_size item) then item_size item else d) items
    = Ok r ∧ f_within (item_size item) MinVolumeGiB MaxVolumeGiB.
Proof.
  cbn [volume_sizes]. unfold item_size. destruct (as_obj item) as [entry|]; [|done].
  cbn [mbind option_bind]. destruct (required && _); [done|].
  destruct (f_bad _ _ _) eqn:E; [done|]. intros Hr. split; [done|]. by apply f_bad_spec.
Qed.
Lemma volume_sizes_last required d items item r :
  volume_sizes required false d (items ++ [item]) = Ok r → r = item_size item.
Proof.
  revert d. induction items as [|i items IH]; intros d Hr.
  - apply volume_sizes_cons in Hr as [Hr _]. cbn in Hr. by injection Hr as <-.
  - apply volume_sizes_cons in Hr as [Hr _]. by eapply IH.
Qed.
Lemma volume_sizes_max required d items r :
  volume_sizes required true d items = Ok r →
  (r = d ∨ r ∈ item_size <$> items) ∧
  (d ≠ FNaN → f_lt r d = false ∧ Forall (λ i, f_lt r (item_size i) = false) items).
Proof.
  assert (∀ x, f_lt x x = false) as Hirr.
  { intros [|[]|q]; try done. apply f_lt_fin. apply Qle_refl. }
  revert d. induction items as [|i items IH]; intros d Hr.
  - injection Hr as <-. split; [by left|]. intros _. split; [done|constructor].
  - apply volume_sizes_cons in Hr as [Hr Hw]. cbn [negb orb] in Hr.
    apply IH in Hr as [Hin Hmax]. destruct Hw as (q & Hq & _). rewrite Hq in *.
    cbn [fmap list_fmap]. rewrite Hq. split.
    { destruct (f_lt d (FFin q)); set_solver. }
    intros Hn. assert ((if f_lt d (FFin q) then FFin q else d) ≠ FNaN) as Hn' by (by destruct (f_lt _ _)).
    destruct (Hmax Hn') as [H1 H2]. rewrite Forall_cons, Hq. destruct (f_lt d (FFin q)) eqn:E.
    + split_and!; [|done|done]. destruct d as [|[]|p], r as [|[]|t]; cbn in *; try done.
      rewrite negb_false_iff, Qle_bool_iff in *. rewrite negb_true_iff, <- not_true_iff_false, Qle_bool_iff in E.
      apply Qle_trans with q; [|done]. by apply Qlt_le_weak, Qnot_le_lt.
    + split_and!; [done| |done]. destruct d as [|[]|p], r as [|[]|t]; cbn in *; try done.
      rewrite negb_false_iff, Qle_bool_iff in *. by apply Qle_trans with p.
Qed.

(** A declared NaN is smaller than no size: the loop keeps it. *)
Lemma volume_sizes_nan required items r :
  volume_sizes required true FNaN items = Ok r → r = FNaN.
Proof.
  induction items as [|i items IH]; intros Hr; [by injection Hr as <-|].
  apply volume_sizes_cons in Hr as [Hr _]. by apply IH.
Qed.

(** When a specification declares [dataVolumeGiB], the capacity billed and
    reserved is the largest of the declared capacity and the sizes of the
    mounts, never their sum, and it is within the platform limits. *)
Theorem RuntimeDataVolumeGiB_max spec required items declared capacity :
  get spec "volumes" = AArr items → items ≠ [] → get spec "dataVolumeGiB" = ANum declared →
  RuntimeDataVolumeGiB spec required = Ok capacity →
  f_within capacity MinVolumeGiB MaxVolumeGiB ∧
  (capacity = declared ∨ capacity ∈ item_size <$> items) ∧ f_lt capacity declared = false ∧
  Forall (λ item, f_lt capacity (item_size item) = false) items.
Proof.
  intros Hv Hne Hd Hr. unfold RuntimeDataVolumeGiB, RuntimeStorage in Hr. rewrite Hv, Hd in Hr.
  destruct items as [|v values]; [done|]. cbn [as_arr from_option id numeric] in Hr.
  rewrite is_some_true in Hr. destruct (f_bad _ MinSystemDiskGiB _); [done|].
  apply bind_ok_inv in Hr as (st & Hst & [= <-]). apply bind_ok_inv in Hst as (d & Hs & Hst).
  cbn [andb] in Hst. destruct (f_bad d _ _) eqn:Eb; [done|]. injection Hst as <-.
  apply f_bad_spec in Eb. pose proof (volume_sizes_max _ _ _ _ Hs) as [Hin Hmax]. cbn.
  assert (declared ≠ FNaN) as Hn.
  { intros ->. apply volume_sizes_nan in Hs as ->. by destruct Eb as (? & ? & _). }
  destruct (Hmax Hn). done.
Qed.

Definition example_volume (name path : string) (gib : Z) : any :=
  AObj {["name" := AStr name; "mountPath" := AStr path; "sizeGiB" := ANum (f_of_Z gib)]}.
Definition example_spec : obj :=
  {["cpuCores" := ANum (f_of_Z 1); "memoryMiB" := ANum (f_of_Z 512);
    "dataVolumeGiB" := ANum (f_of_Z 4);
    "volumes" := AArr [example_volume "data" "/data" 10; example_volume "logs" "/logs" 2];
    "env" := AObj {["MODE" := AStr "prod"]}; "editableEnvKeys" := AArr [AStr "MODE"];
    "secretKeys" := AArr [AStr "TOKEN"]; "command" := AArr [AStr "serve"; AStr "--port"];
    "dependencies" := AArr [AObj
      {["key" := AStr "db"; "productId" := AStr "0f0e0d0c-0b0a-4908-8706-050403020100";
        "serviceSlug" := AStr "postgres"; "required" := ABool true]}]]}.

(** The validation accepts a full specification and refuses one field out of
    place in it. *)
Example example_spec_valid : @ValidateRuntimeSpec map_order example_spec = Ok tt.
Proof. by vm_compute. Qed.
Example example_spec_host :
  @ValidateRuntimeSpec map_order (<["networkMode" := AStr "HOST"]> example_spec) = Err EHostNetwork.
Proof. by vm_compute. Qed.

Lemma RuntimeDataVolumeGiB_max_witness :
  RuntimeDataVolumeGiB example_spec true = Ok (f_of_Z 10) ∧
  f_lt (f_of_Z 10) (f_of_Z 4) = false.
Proof.
  split; [by vm_compute|].
  refine (proj1 (proj2 (proj2 (RuntimeDataVolumeGiB_max example_spec true
    [example_volume "data" "/data" 10; example_volume "logs" "/logs" 2] (f_of_Z 4) (f_of_Z 10)
    _ _ _ _)))); by vm_compute.
Defined.

(** C25: without [dataVolumeGiB] the loop keeps the size of the LAST mount, so
    the capacity a legacy specification is billed and reserved for can be
    smaller than one of its mounts. *)
Theorem RuntimeDataVolumeGiB_last spec required items item capacity :
  get spec "volumes" = AArr (items ++ [item]) → numeric (get spec "dataVolumeGiB") = None →
  RuntimeDataVolumeGiB spec required = Ok capacity →
  capacity = item_size item.
Proof.
  intros Hv Hd Hr. unfold RuntimeDataVolumeGiB, RuntimeStorage in Hr. rewrite Hv, Hd in Hr.
  destruct (f_bad _ MinSystemDiskGiB _); [done|].
  apply bind_ok_inv in Hr as (st & Hst & [= <-]). apply bind_ok_inv in Hst as (d & Hs & Hst).
  cbn [as_arr from_option id] in Hs, Hst.
  assert ((match items ++ [item] with [] => None | _ => None end : option gofloat) = None) as En
    by (by destruct items). rewrite En, is_some_false in Hs, Hst. cbn in Hst. injection Hst as <-.
  by apply volume_sizes_last in Hs.
Qed.
Lemma RuntimeDataVolumeGiB_last_witness :
  RuntimeDataVolumeGiB (delete "dataVolumeGiB" example_spec) true = Ok (f_of_Z 2) ∧
  f_lt (f_of_Z 2) (item_size (example_volume "data" "/data" 10)) = true ∧
  f_of_Z 2 = item_size (example_volume "logs" "/logs" 2).
Proof.
  split_and!; [by vm_compute|by vm_compute|].
  apply (RuntimeDataVolumeGiB_last (delete "dataVolumeGiB" example_spec) true
    [example_volume "data" "/data" 10]); by vm_compute.
Defined.
