(* ===== verification/ProductSpec.v ===== *)
(** * Specifications of product versions

    internal/httpapi/product_spec.go, and the selections a customer makes on a
    published version: editableRuntimeOption, selectedRuntimeSpec,
    selectedRouteSpec and validateInternalRoutePort of server.go,
    runtimeSpecForUpdate of app_lifecycle.go.  The normalisers change the
    decoded object they are given; they return the changed object, which every
    caller drops on an error. *)
From S2P Require Import Prelude GoStrings Regex GoValue RuntimeSpec.
From Stdlib Require Import QArith.
From stdpp Require Import list gmap.
Open Scope string_scope.
Open Scope Z_scope.
Open Scope list_scope.

Inductive product_error :=
  | ERoutePort | EListenerCount | EListenerObject | EListenerKey | EListenerPort | EListenerRemark
  | EListenerMapping | EListenerPrimary | EPath (label : string) | EBoolean (key : string) | EHealthField (name : string)
  | EStatusArray | EStatusCount | EStatusValue | EPolicyString | EPolicy | EStateless
  | ESpec (e : spec_error) | EEncode
  | ECPUFixed | EMemoryFixed | EComputeMinimum | EVolumeFixed | EVolumeMinimum | ECommandFixed
  | EEnvironmentFixed | EEnvironmentKey (key : string) | EDependenciesFixed
  | EListenerRepeated (key : string) | EListenerFixed (key : string) | EListenerRange (key : string)
  | EListenerDirect (key : string) | EListenerUnknown | EContainerPort
  | EVolumesRemoved | EVolumeShrinks | EVolumeUndeclared.
Definition spec_result {A} (r : result spec_error A) : result product_error A :=
  match r with Ok a => Ok a | Err e => Err (ESpec e) end.

(** ** Listeners *)
Definition defaultDataPolicy : string := "volume_compatible".
Definition listenerPortKeyPattern : regex :=
  RCat (RCls [r_lower]) (rrep 0 31 (RCls [r_lower; r_digit; r_one "-"])).
Record routeListener := {
  ln_Key : string; ln_ContainerPort : Z; ln_Remark : string; ln_Primary : bool; ln_UserEditable : bool;
  ln_MappingAvailable : bool; ln_MappingEnabled : bool
}.
Definition encodeRouteListener (l : routeListener) : any :=
  AObj {["key" := AStr (ln_Key l); "containerPort" := ANum (f_of_Z (ln_ContainerPort l)); "remark" := AStr (ln_Remark l);
         "primary" := ABool (ln_Primary l); "userEditable" := ABool (ln_UserEditable l);
         "mappingAvailable" := ABool (ln_MappingAvailable l); "mappingEnabled" := ABool (ln_MappingEnabled l)]}.
Definition encodeRouteListeners (listeners : list routeListener) : list any := encodeRouteListener <$> listeners.

(** [int(value)] of a whole number; outside int64 it is what amd64 computes. *)
Definition exactInteger (raw : any) : option Z :=
  match numeric raw with
  | Some (FFin q) =>
      if Qeq_bool q (inject_Z (Qnum q ÷ Zpos (Qden q))) then Some (default int64_min (f_int (FFin q))) else None
  | _ => None
  end.
Definition routePortMappingAvailable (routeSpec : obj) : bool :=
  match as_obj (get routeSpec "portMapping") with
  | None => false
  | Some mapping => truthy (get mapping "available")
  end.
Definition text (v : any) : string := default "" (as_string v).
Fixpoint listener_loop (keys : gset string) (ports : gset Z) (primaryCount : Z) (raw : list any) :
    result product_error (list routeListener) :=
  match raw with
  | [] => if negb (primaryCount =? 1) then Err EListenerPrimary else Ok []
  | value :: raw =>
      match as_obj value with
      | None => Err EListenerObject
      | Some item =>
          let key := text (get item "key") in
          let remark := text (get item "remark") in
          let primary := truthy (get item "primary") in
          let mappingAvailable := truthy (get item "mappingAvailable") in
          let mappingEnabled := truthy (get item "mappingEnabled") in
          if negb (match_string listenerPortKeyPattern key) || bool_decide (key ∈ keys) then Err EListenerKey
          else match exactInteger (get item "containerPort") with
               | None => Err EListenerPort
               | Some port =>
                   if (port <? 1) || (65535 <? port) || bool_decide (port ∈ ports) then Err EListenerPort
                   else if 120 <? rune_count remark then Err EListenerRemark
                   else if mappingEnabled && negb mappingAvailable then Err EListenerMapping
                   else
                     listeners ← listener_loop ({[key]} ∪ keys) ({[port]} ∪ ports)
                                   (if primary then primaryCount + 1 else primaryCount) raw;
                     Ok ({| ln_Key := key; ln_ContainerPort := port; ln_Remark := remark; ln_Primary := primary;
                            ln_UserEditable := truthy (get item "userEditable"); ln_MappingAvailable := mappingAvailable;
                            ln_MappingEnabled := mappingEnabled |} :: listeners)
               end
      end
  end.
Definition routeListeners (spec : obj) : result product_error (list routeListener) :=
  match default [] (as_arr (get spec "listeners")) with
  | [] =>
      match exactInteger (get spec "containerPort") with
      | None => Err ERoutePort
      | Some port =>
          if (port <? 1) || (65535 <? port) then Err ERoutePort
          else Ok [{| ln_Key := "web"; ln_ContainerPort := port; ln_Remark := "Web 入口"; ln_Primary := true;
                      ln_UserEditable := false; ln_MappingAvailable := routePortMappingAvailable spec;
                      ln_MappingEnabled := false |}]
      end
  | raw => if (16 <? List.length raw)%nat then Err EListenerCount else listener_loop ∅ ∅ 0 raw
  end.
Definition routeHasEnabledMapping (routeSpec : obj) : bool :=
  match routeListeners routeSpec with
  | Err _ => false
  | Ok listeners => existsb ln_MappingEnabled listeners
  end.

(** ** Normalisation *)
Definition normalizedAbsolutePath (raw : any) (label : string) (optional : bool) : result product_error string :=
  match raw with
  | ANil => Ok (if optional then "" else "/")
  | _ =>
      match as_string raw with
      | None => Err (EPath label)
      | Some value =>
          let value := trim_space value in
          if bool_decide (value = "") && optional then Ok ""
          else if bool_decide (value = "") || negb (has_prefix value "/")
                  || contains_any value (str [" "%char; byte 13; byte 10; byte 9; "?"%char; "#"%char]) || contains value ".."
                  || (512 <? slen value)
          then Err (EPath label)
          else Ok (if bool_decide (value = "/") then value else trim_right value "/")
      end
  end.
Definition normalizedBoolean (spec : obj) (key : string) (fallback : bool) : result product_error (bool * obj) :=
  match spec !! key with
  | None => Ok (fallback, <[key := ABool fallback]> spec)
  | Some raw =>
      match as_bool raw with
      | None => Err (EBoolean key)
      | Some b => Ok (b, <[key := ABool b]> spec)
      end
  end.
(** The last primary listener; 0 without one. *)
Definition primary_port (listeners : list routeListener) : Z :=
  foldl (λ p l, if ln_Primary l then ln_ContainerPort l else p) 0 listeners.
Definition normalizeRouteSpec (spec : obj) : result product_error obj :=
  listeners ← routeListeners spec;
  let spec := <["listeners" := AArr (encodeRouteListeners listeners)]>
                (<["containerPort" := ANum (f_of_Z (primary_port listeners))]> spec) in
  let spec := delete "portEnvVar" (delete "portEditable" spec) in
  basePath ← normalizedAbsolutePath (get spec "basePath") "route basePath" false;
  let basePath := if bool_decide (basePath = "") then "/" else basePath in
  let spec := delete "stripPrefix" (<["basePath" := AStr basePath]> spec) in
  '(_, spec) ← normalizedBoolean spec "websocket" true;
  '(_, spec) ← normalizedBoolean spec "sse" true;
  let spec := delete "cookiePath" spec in
  match as_obj (get spec "portMapping") with
  | Some mapping =>
      '(available, _) ← normalizedBoolean mapping "available" false;
      Ok (<["portMapping" := AObj {["available" := ABool available]}]> spec)
  | None => Ok (delete "portMapping" spec)
  end.

Fixpoint status_loop (seen : gset Z) (values : list any) : result product_error (list Z) :=
  match values with
  | [] => Ok []
  | rawValue :: values =>
      match exactInteger rawValue with
      | None => Err EStatusValue
      | Some value =>
          if (value <? 100) || (599 <? value) then Err EStatusValue
          else rest ← status_loop ({[value]} ∪ seen) values;
               Ok (if bool_decide (value ∈ seen) then rest else value :: rest)
      end
  end.
Definition normalizedAcceptedStatusCodes (raw : any) : result product_error (list Z) :=
  let check values := if (32 <? List.length values)%nat then Err EStatusCount else status_loop ∅ values in
  match raw with
  | ANil => Ok []
  | AArr values => check values
  | AInts typed => check ((λ z, ANum (f_of_Z z)) <$> typed)
  | _ => Err EStatusArray
  end.
Definition health_field (spec : obj) (name : string) (defaultValue minimum maximum : Z) : result product_error obj :=
  match spec !! name with
  | None => Ok (<[name := ANum (f_of_Z defaultValue)]> spec)
  | Some raw =>
      match exactInteger raw with
      | None => Err (EHealthField name)
      | Some parsed =>
          if (parsed <? minimum) || (maximum <? parsed) then Err (EHealthField name)
          else Ok (<[name := ANum (f_of_Z parsed)]> spec)
      end
  end.
Definition normalizeHealthSpec (spec : obj) : result product_error obj :=
  path ← normalizedAbsolutePath (get spec "path") "health path" true;
  let spec := <["path" := AStr path]> spec in
  acceptedStatusCodes ← normalizedAcceptedStatusCodes (get spec "acceptedStatusCodes");
  let spec := <["acceptedStatusCodes" := AInts acceptedStatusCodes]> spec in
  spec ← health_field spec "intervalSeconds" 5 1 120;
  health_field spec "timeoutSeconds" 5 1 30.
Definition data_policy (policy : string) : bool := bool_decide (policy ∈ ["stateless"; "volume_compatible"; "backup_required"]).
Definition normalizeUpdateSpec (spec : obj) : result product_error (string * obj) :=
  policy ← match spec !! "dataPolicy" with
           | None => Ok defaultDataPolicy
           | Some raw => match as_string raw with None => Err EPolicyString | Some value => Ok (trim_space value) end
           end;
  if data_policy policy then Ok (policy, <["dataPolicy" := AStr policy]> spec) else Err EPolicy.
Definition snapshotDataPolicy (snapshot : obj) : string :=
  match as_obj (get snapshot "update_spec") with
  | None => defaultDataPolicy
  | Some updateSpec => default defaultDataPolicy (as_string (get updateSpec "dataPolicy"))
  end.
(** The normalised route, health and update specifications. *)
Definition normalizeProductVersionSpecs (runtimeSpec routeSpec healthSpec updateSpec : obj) :
    result product_error (obj * obj * obj) :=
  route ← normalizeRouteSpec routeSpec;
  health ← normalizeHealthSpec healthSpec;
  '(policy, update) ← normalizeUpdateSpec updateSpec;
  if bool_decide (policy = "stateless") && match as_arr (get runtimeSpec "volumes") with Some (_ :: _) => true | _ => false end
  then Err EStateless else Ok (route, health, update).

(** ** Selections *)
Record selectedListenerPort := { sl_Key : string; sl_ContainerPort : Z; sl_MappingEnabled : bool }.
Record selectedDependency := { sd_Key : string; sd_ProductID : string; sd_ServiceSlug : string; sd_Required : bool }.
(** A pointer or a slice that may be nil is an option. *)
Record selectedResources := {
  sr_CPUCores : option gofloat; sr_MemoryMiB : option gofloat; sr_DataVolumeGiB : option gofloat;
  sr_VolumeSizes : gmap string gofloat; sr_Command : option (list string); sr_Environment : option (gmap string string);
  sr_Dependencies : option (list selectedDependency); sr_PortMappingEnabled : option bool; sr_ContainerPort : option Z;
  sr_ListenerPorts : option (list selectedListenerPort)
}.
Definition editableRuntimeOption (spec : obj) (key : string) (legacyDefault : bool) : bool :=
  match as_obj (get spec "editableOptions") with
  | None => legacyDefault
  | Some options => truthy (get options key)
  end.
Definition is_some {A} (o : option A) : bool := match o with Some _ => true | None => false end.
(** json.Marshal followed by json.Unmarshal. *)
Definition json_copy (spec : obj) : result product_error obj :=
  if json_finite (AObj spec) then Ok (json_value <$> spec) else Err EEncode.

Definition string_list (v : any) : list string := omap as_string (default [] (as_arr v)).
Definition encode_dependency (d : selectedDependency) : any :=
  AObj {["key" := AStr (sd_Key d); "productId" := AStr (sd_ProductID d); "serviceSlug" := AStr (sd_ServiceSlug d);
         "required" := ABool (sd_Required d)]}.
Definition with_size (chosen : gofloat) (raw : any) : any :=
  match as_obj raw with Some volume => AObj (<["sizeGiB" := ANum chosen]> volume) | None => raw end.
Definition set_volume (chosen : gofloat) (result : obj) : obj :=
  match as_arr (get result "volumes") with
  | Some ((_ :: _) as volumes) =>
      <["dataVolumeGiB" := ANum chosen]> (<["volumes" := AArr (with_size chosen <$> volumes)]> result)
  | _ => delete "dataVolumeGiB" result
  end.
Section select.
Context `{GoRange}.
Definition choose_compute (res : obj) (selected : selectedResources) : result product_error obj :=
  minimumCompute ← spec_result (RuntimeResources res true);
  _ ← ensure (negb (is_some (sr_CPUCores selected) && negb (editableRuntimeOption res "cpu" true))) ECPUFixed;
  let cpu := default (CPUCores minimumCompute) (sr_CPUCores selected) in
  _ ← ensure (negb (is_some (sr_MemoryMiB selected) && negb (editableRuntimeOption res "memory" true))) EMemoryFixed;
  let memory := default (MemoryMiB minimumCompute) (sr_MemoryMiB selected) in
  _ ← ensure (negb (f_lt cpu (CPUCores minimumCompute) || f_lt memory (MemoryMiB minimumCompute))) EComputeMinimum;
  Ok (<["systemDiskGiB" := ANum DefaultSystemDiskGiB]> (<["memoryMiB" := ANum memory]> (<["cpuCores" := ANum cpu]> res))).
Definition larger (chosen : gofloat) (kv : string * gofloat) : gofloat := if f_lt chosen kv.2 then kv.2 else chosen.
Definition choose_volume (res : obj) (selected : selectedResources) : result product_error obj :=
  let minimumVolume := match RuntimeDataVolumeGiB res false with Ok v => v | Err _ => f_of_Z 0 end in
  let dataVolumeEditable := editableRuntimeOption res "dataVolume" false in
  _ ← ensure (negb (is_some (sr_DataVolumeGiB selected) && negb dataVolumeEditable)) EVolumeFixed;
  _ ← ensure (negb (negb (bool_decide (sr_VolumeSizes selected = ∅)) && negb dataVolumeEditable)) EVolumeFixed;
  let chosenVolume := foldl larger (default minimumVolume (sr_DataVolumeGiB selected)) (go_range (sr_VolumeSizes selected)) in
  _ ← ensure (negb (f_lt chosenVolume minimumVolume)) EVolumeMinimum;
  Ok (if dataVolumeEditable then set_volume chosenVolume res else res).
Definition choose_command (res : obj) (selected : selectedResources) : result product_error obj :=
  match sr_Command selected with
  | None => Ok res
  | Some command =>
      _ ← ensure (editableRuntimeOption res "command" false) ECommandFixed;
      Ok (<["command" := AStrs command]> res)
  end.
Fixpoint set_environment (allowed : list string) (environment : obj) (kvs : list (string * string)) : result product_error obj :=
  match kvs with
  | [] => Ok environment
  | (key, value) :: kvs =>
      _ ← ensure (bool_decide (key ∈ allowed)) (EEnvironmentKey key);
      set_environment allowed (<[key := AStr value]> environment) kvs
  end.
Definition choose_environment (res : obj) (selected : selectedResources) : result product_error obj :=
  match sr_Environment selected with
  | None => Ok res
  | Some chosen =>
      _ ← ensure (editableRuntimeOption res "environment" false) EEnvironmentFixed;
      environment ← set_environment (string_list (get res "editableEnvKeys")) (default ∅ (as_obj (get res "env")))
                      (go_range chosen);
      Ok (<["env" := AObj environment]> res)
  end.
Definition choose_dependencies (res : obj) (selected : selectedResources) : result product_error obj :=
  match sr_Dependencies selected with
  | None => Ok res
  | Some dependencies =>
      _ ← ensure (editableRuntimeOption res "dependencies" false) EDependenciesFixed;
      Ok (<["dependencies" := AArr (encode_dependency <$> dependencies)]> res)
  end.
Definition selectedRuntimeSpec (template : obj) (selected : selectedResources) : result product_error obj :=
  result ← json_copy template;
  result ← choose_compute result selected;
  result ← choose_volume result selected;
  result ← choose_command result selected;
  result ← choose_environment result selected;
  result ← choose_dependencies result selected;
  _ ← spec_result (ValidateRuntimeSpec result);
  Ok result.

Fixpoint requested_ports (requested : gmap string selectedListenerPort) (items : list selectedListenerPort) :
    result product_error (gmap string selectedListenerPort) :=
  match items with
  | [] => Ok requested
  | item :: items =>
      match requested !! sl_Key item with
      | Some _ => Err (EListenerRepeated (sl_Key item))
      | None => requested_ports (<[sl_Key item := item]> requested) items
      end
  end.
Definition listener_choice (mapping : option bool) (requested : gmap string selectedListenerPort) (l : routeListener) :
    option selectedListenerPort :=
  match requested !! ln_Key l with
  | Some choice => Some choice
  | None =>
      match mapping with
      | Some enabled =>
          if ln_Primary l && ln_MappingAvailable l
          then Some {| sl_Key := ln_Key l; sl_ContainerPort := ln_ContainerPort l; sl_MappingEnabled := enabled |} else None
      | None => None
      end
  end.
Definition choose_listener (l : routeListener) (choice : selectedListenerPort) : result product_error routeListener :=
  let key := ln_Key l in
  _ ← ensure (negb (negb (sl_ContainerPort choice =? ln_ContainerPort l) && negb (ln_UserEditable l))) (EListenerFixed key);
  _ ← ensure (negb ((sl_ContainerPort choice <? 1) || (65535 <? sl_ContainerPort choice))) (EListenerRange key);
  _ ← ensure (negb (sl_MappingEnabled choice && negb (ln_MappingAvailable l))) (EListenerDirect key);
  Ok {| ln_Key := key; ln_ContainerPort := sl_ContainerPort choice; ln_Remark := ln_Remark l; ln_Primary := ln_Primary l;
        ln_UserEditable := ln_UserEditable l; ln_MappingAvailable := ln_MappingAvailable l;
        ln_MappingEnabled := sl_MappingEnabled choice |}.
(** The listeners after the choices, and the requests that none of them met. *)
Fixpoint choose_listeners (mapping : option bool) (requested : gmap string selectedListenerPort) (ls : list routeListener) :
    result product_error (list routeListener * gmap string selectedListenerPort) :=
  match ls with
  | [] => Ok ([], requested)
  | l :: ls =>
      match listener_choice mapping requested l with
      | None => '(rest, unmet) ← choose_listeners mapping requested ls; Ok (l :: rest, unmet)
      | Some choice =>
          l' ← choose_listener l choice;
          '(rest, unmet) ← choose_listeners mapping (delete (ln_Key l) requested) ls;
          Ok (l' :: rest, unmet)
      end
  end.
Definition selectedRouteSpec (template : obj) (selected : selectedResources) : result product_error obj :=
  result ← json_copy template;
  result ← normalizeRouteSpec result;
  listeners ← routeListeners result;
  requested ← requested_ports ∅ (default [] (sr_ListenerPorts selected));
  '(listeners, unmet) ← choose_listeners (sr_PortMappingEnabled selected) requested listeners;
  _ ← ensure (bool_decide (unmet = ∅)) EListenerUnknown;
  let result := <["listeners" := AArr (encodeRouteListeners listeners)]> result in
  _ ← routeListeners result;
  Ok (match List.find ln_Primary listeners with
      | Some l => <["containerPort" := ANum (f_of_Z (ln_ContainerPort l))]> result
      | None => result
      end).
Definition validateInternalRoutePort (runtimeSpec routeSpec : obj) : result product_error unit :=
  match exactInteger (get routeSpec "containerPort") with
  | None => Err EContainerPort
  | Some port => if (port <? 1) || (65535 <? port) then Err EContainerPort else spec_result (ValidateRuntimeSpec runtimeSpec)
  end.

(** ** Updates *)
Definition kept (o : option gofloat) (editable : bool) (value : option gofloat) : option gofloat :=
  match o with Some v => Some v | None => if editable then value else None end.
Definition keep_compute (template current : obj) (minimum : Resources) (sel : selectedResources) : option gofloat * option gofloat :=
  let resources := match RuntimeResources current false with Ok r => Some r | Err _ => None end in
  (kept (sr_CPUCores sel) (editableRuntimeOption template "cpu" true) ((λ r, f_max (CPUCores r) (CPUCores minimum)) <$> resources),
   kept (sr_MemoryMiB sel) (editableRuntimeOption template "memory" true)
     ((λ r, f_max (MemoryMiB r) (MemoryMiB minimum)) <$> resources)).
Definition keep_volume (template : obj) (currentCapacity minimumCapacity : gofloat) (sel : selectedResources) :
    result product_error (option gofloat) :=
  let none := bool_decide (VolumeMounts template = []) in
  let editable := editableRuntimeOption template "dataVolume" true in
  _ ← ensure (negb (f_lt (f_of_Z 0) currentCapacity && none)) EVolumesRemoved;
  _ ← ensure (negb (f_lt minimumCapacity currentCapacity && negb editable)) EVolumeShrinks;
  if none then
    _ ← ensure (negb (is_some (sr_DataVolumeGiB sel) || negb (bool_decide (sr_VolumeSizes sel = ∅)))) EVolumeUndeclared;
    Ok (sr_DataVolumeGiB sel)
  else if editable then
    match sr_DataVolumeGiB sel with
    | None => let value := f_max currentCapacity minimumCapacity in
              Ok (if f_lt (f_of_Z 0) value then Some value else None)
    | Some chosen =>
        _ ← ensure (negb (f_lt (f_of_Z 0) currentCapacity && f_lt chosen currentCapacity)) EVolumeShrinks;
        Ok (Some chosen)
    end
  else Ok (sr_DataVolumeGiB sel).
Definition keep_command (template current : obj) (sel : selectedResources) : result product_error (option (list string)) :=
  if editableRuntimeOption template "command" false && negb (is_some (sr_Command sel)) then
    command ← spec_result (RuntimeCommand current);
    Ok (match command with [] => None | _ => Some command end)
  else Ok (sr_Command sel).
Definition keep_variable (currentEnvironment templateEnvironment : obj) (merged : gmap string string) (key : string) :
    gmap string string :=
  match as_string (get currentEnvironment key), as_string (get templateEnvironment key) with
  | Some value, _ | None, Some value => <[key := value]> merged
  | None, None => merged
  end.
Definition keep_environment (template current : obj) (sel : selectedResources) : option (gmap string string) :=
  let editableEnv := string_list (get template "editableEnvKeys") in
  if negb (bool_decide (editableEnv = [])) && editableRuntimeOption template "environment" false then
    let merged := foldl (keep_variable (default ∅ (as_obj (get current "env"))) (default ∅ (as_obj (get template "env")))) ∅ editableEnv in
    Some (default ∅ (sr_Environment sel) ∪ merged)
  else sr_Environment sel.
Definition selected_dependency (d : Dependency) : selectedDependency :=
  {| sd_Key := dep_Key d; sd_ProductID := dep_ProductID d; sd_ServiceSlug := dep_ServiceSlug d; sd_Required := dep_Required d |}.
(** RuntimeDependencies is nil when nothing is declared. *)
Definition keep_dependencies (template current : obj) (sel : selectedResources) : result product_error (option (list selectedDependency)) :=
  if editableRuntimeOption template "dependencies" false && negb (is_some (sr_Dependencies sel)) then
    dependencies ← spec_result (RuntimeDependencies current);
    Ok (if is_some (current !! "dependencies") then Some (List.map selected_dependency dependencies) else None)
  else Ok (sr_Dependencies sel).
Definition no_selection : selectedResources :=
  {| sr_CPUCores := None; sr_MemoryMiB := None; sr_DataVolumeGiB := None; sr_VolumeSizes := ∅; sr_Command := None;
     sr_Environment := None; sr_Dependencies := None; sr_PortMappingEnabled := None; sr_ContainerPort := None;
     sr_ListenerPorts := None |}.
Definition runtimeSpecForUpdate (template current : obj) (requested : option selectedResources) : result product_error obj :=
  let sel := default no_selection requested in
  minimumCompute ← spec_result (RuntimeResources template true);
  let '(cpu, memory) := keep_compute template current minimumCompute sel in
  currentCapacity ← spec_result (RuntimeDataVolumeGiB current false);
  minimumCapacity ← spec_result (RuntimeDataVolumeGiB template false);
  volume ← keep_volume template currentCapacity minimumCapacity sel;
  command ← keep_command template current sel;
  let environment := keep_environment template current sel in
  dependencies ← keep_dependencies template current sel;
  selectedRuntimeSpec template
    {| sr_CPUCores := cpu; sr_MemoryMiB := memory; sr_DataVolumeGiB := volume; sr_VolumeSizes := sr_VolumeSizes sel;
       sr_Command := command; sr_Environment := environment; sr_Dependencies := dependencies;
       sr_PortMappingEnabled := sr_PortMappingEnabled sel; sr_ContainerPort := sr_ContainerPort sel;
       sr_ListenerPorts := sr_ListenerPorts sel |}.
End select.
