(* ===== verification/ProductSpecFacts.v ===== *)
(** * Specifications of product versions: theorems

    Reading back encoded listeners, the fixed point of the normalisation, and
    what a customer's selection can and cannot change. *)
From S2P Require Import Prelude GoStrings Regex GoValue RuntimeSpec RuntimeSpecFacts ProductSpec.
From Stdlib Require Import QArith.
From stdpp Require Import list gmap.
Open Scope string_scope.
Open Scope Z_scope.
Open Scope list_scope.

#[local] Arguments match_string : simpl never.
#[local] Arguments rune_count : simpl never.
#[local] Arguments exactInteger : simpl never.

(** ** Listeners *)
Record listener_ok (l : routeListener) : Prop := {
  lk_key : match_string listenerPortKeyPattern (ln_Key l) = true;
  lk_port : 1 <= ln_ContainerPort l <= 65535;
  lk_remark : rune_count (ln_Remark l) <= 120;
  lk_mapping : ln_MappingEnabled l = true → ln_MappingAvailable l = true
}.
Definition primaries (ls : list routeListener) : list routeListener := List.filter ln_Primary ls.
(** Distinct keys, distinct ports, one primary listener. *)
Record listeners_ok (ls : list routeListener) : Prop := {
  lo_each : Forall listener_ok ls;
  lo_keys : NoDup (ln_Key <$> ls);
  lo_ports : NoDup (ln_ContainerPort <$> ls);
  lo_primary : List.length (primaries ls) = 1%nat;
  lo_count : (List.length ls <= 16)%nat
}.

Lemma exactInteger_of_Z z : is_int64 z → exactInteger (ANum (f_of_Z z)) = Some z.
Proof.
  intros Hz. unfold exactInteger, f_of_Z. cbn [numeric]. unfold f_int, inject_Z. cbn [Qnum Qden].
  rewrite Z.quot_1_r. rewrite (proj2 (Qeq_bool_iff _ _)) by reflexivity.
  apply in64_spec in Hz. unfold in64 in Hz. by rewrite Hz.
Qed.
Lemma port_int64 z : 1 <= z <= 65535 → is_int64 z.
Proof. unfold is_int64, int64_min, int64_max. lia. Qed.

(** One round of the loop. *)
Lemma listener_loop_cons keys ports n value raw ls :
  listener_loop keys ports n (value :: raw) = Ok ls →
  ∃ l ls', ls = l :: ls' ∧ listener_ok l ∧ (ln_Key l ∉ keys) ∧ (ln_ContainerPort l ∉ ports) ∧
    listener_loop ({[ln_Key l]} ∪ keys) ({[ln_ContainerPort l]} ∪ ports) (if ln_Primary l then n + 1 else n) raw = Ok ls' ∧
    (∃ item, value = AObj item ∧ ln_Key l = text (get item "key") ∧ exactInteger (get item "containerPort") = Some (ln_ContainerPort l) ∧
      ln_Remark l = text (get item "remark") ∧ ln_Primary l = truthy (get item "primary") ∧
      ln_UserEditable l = truthy (get item "userEditable") ∧ ln_MappingAvailable l = truthy (get item "mappingAvailable") ∧
      ln_MappingEnabled l = truthy (get item "mappingEnabled")).
Proof.
  cbn [listener_loop]. destruct (as_obj value) as [item|] eqn:Ei; [|done]. apply as_obj_some in Ei as ->.
  cbv zeta. destruct (negb _ || _) eqn:Ek; [done|]. destruct (exactInteger _) as [port|] eqn:Ep; [|done].
  destruct (_ || bool_decide (port ∈ ports)) eqn:Er; [done|]. destruct (120 <? _) eqn:Em; [done|].
  destruct (_ && negb _) eqn:Ea; [done|]. intros Hr. apply bind_ok_inv in Hr as (ls' & Hloop & [= <-]).
  bool_hyps. eexists _, ls'. split; [reflexivity|]. cbn. split_and!; try done.
  - constructor; cbn; [done|lia|done|]. intros He. rewrite He in Ea. cbn in Ea. by bool_hyps.
  - exists item. by split_and!.
Qed.
Lemma listener_loop_inv keys ports n raw ls :
  listener_loop keys ports n raw = Ok ls →
  Forall listener_ok ls ∧ NoDup (ln_Key <$> ls) ∧ NoDup (ln_ContainerPort <$> ls) ∧
  (∀ k, k ∈ ln_Key <$> ls → k ∉ keys) ∧ (∀ p, p ∈ ln_ContainerPort <$> ls → p ∉ ports) ∧
  n + Z.of_nat (List.length (primaries ls)) = 1 ∧ List.length ls = List.length raw.
Proof.
  revert keys ports n ls. induction raw as [|value raw IH]; intros keys ports n ls.
  - cbn [listener_loop]. destruct (negb _) eqn:E; [done|]. intros [= <-]. bool_hyps. cbn.
    split_and!; try (constructor || set_solver || lia).
  - intros (l & ls' & -> & Hl & Hk & Hp & (H1 & H2 & H3 & H4 & H5 & H6 & H7)%IH & _)%listener_loop_cons.
    rewrite !fmap_cons. split_and!.
    + by constructor.
    + constructor; [|done]. intros Hin%H4. set_solver.
    + constructor; [|done]. intros Hin%H5. set_solver.
    + intros k [->|Hin]%elem_of_cons; [done|]. apply H4 in Hin. set_solver.
    + intros p [->|Hin]%elem_of_cons; [done|]. apply H5 in Hin. set_solver.
    + unfold primaries in *. cbn. destruct (ln_Primary l); cbn [List.length]; lia.
    + cbn. by rewrite H7.
Qed.
Lemma encode_fields l : ∃ item, encodeRouteListener l = AObj item ∧
  get item "key" = AStr (ln_Key l) ∧ get item "containerPort" = ANum (f_of_Z (ln_ContainerPort l)) ∧
  get item "remark" = AStr (ln_Remark l) ∧ get item "primary" = ABool (ln_Primary l) ∧
  get item "userEditable" = ABool (ln_UserEditable l) ∧ get item "mappingAvailable" = ABool (ln_MappingAvailable l) ∧
  get item "mappingEnabled" = ABool (ln_MappingEnabled l).
Proof. eexists. split; [reflexivity|]. unfold get. split_and!; by simplify_map_eq. Qed.
Lemma listener_loop_encode keys ports n ls :
  Forall listener_ok ls → NoDup (ln_Key <$> ls) → NoDup (ln_ContainerPort <$> ls) →
  (∀ k, k ∈ ln_Key <$> ls → k ∉ keys) → (∀ p, p ∈ ln_ContainerPort <$> ls → p ∉ ports) →
  n + Z.of_nat (List.length (primaries ls)) = 1 →
  listener_loop keys ports n (encodeRouteListeners ls) = Ok ls.
Proof.
  intros HF. revert keys ports n. induction HF as [|l ls [Hk [Hp1 Hp2] Hr Hm] HF IH]; intros keys ports n Hnk Hnp Hks Hps Hn.
  - cbn in *. by replace (n =? 1) with true by (symmetry; apply Z.eqb_eq; lia).
  - rewrite !fmap_cons in *. apply NoDup_cons in Hnk as [Hk1 Hnk]. apply NoDup_cons in Hnp as [Hp3 Hnp].
    unfold encodeRouteListeners. rewrite fmap_cons. cbn [listener_loop].
    destruct (encode_fields l) as (item & -> & E1 & E2 & E3 & E4 & E5 & E6 & E7).
    cbn [as_obj]. cbv zeta. rewrite E1, E2, E3, E4, E5, E6, E7. cbn [text as_string from_option id truthy].
    rewrite Hk, exactInteger_of_Z by (by apply port_int64).
    rewrite bool_decide_eq_false_2 by (apply Hks; left). cbn.
    rewrite (bool_decide_eq_false_2 (_ ∈ ports)) by (apply Hps; left).
    rewrite (proj2 (Z.ltb_ge (ln_ContainerPort l) 1)), (proj2 (Z.ltb_ge 65535 _)), (proj2 (Z.ltb_ge 120 _)) by lia. cbn.
    replace (ln_MappingEnabled l && negb (ln_MappingAvailable l)) with false
      by (destruct (ln_MappingEnabled l); [by rewrite Hm|done]).
    cbn in Hn. unfold encodeRouteListeners in IH. rewrite IH; [by destruct l|done|done|..].
    + intros k Hin [->%elem_of_singleton|Hin']%elem_of_union; [done|]. eapply Hks; [by right|done].
    + intros p Hin [->%elem_of_singleton|Hin']%elem_of_union; [done|]. eapply Hps; [by right|done].
    + unfold primaries in *. cbn in Hn. destruct (ln_Primary l); cbn [List.length] in Hn; lia.
Qed.
Lemma routeListeners_encode spec ls : listeners_ok ls → get spec "listeners" = AArr (encodeRouteListeners ls) →
  routeListeners spec = Ok ls.
Proof.
  intros [H1 H2 H3 H4 H5] Hspec. unfold routeListeners. rewrite Hspec. cbn [as_arr from_option id].
  pose proof (listener_loop_encode ∅ ∅ 0 ls H1 H2 H3 ltac:(set_solver) ltac:(set_solver) ltac:(lia)) as Hloop.
  assert (List.length (encodeRouteListeners ls) = List.length ls) as Hlen by apply length_fmap.
  destruct (encodeRouteListeners ls) as [|v raw] eqn:E; [by destruct ls|]. rewrite Hlen.
  by rewrite (proj2 (Nat.ltb_ge _ _)) by lia.
Qed.

(** Every list of listeners that is read from a route specification is
    well formed (valid and distinct keys and ports, exactly one primary
    listener, no direct mapping that is not available), and its encoding reads
    back as the same list. *)
Theorem routeListeners_roundtrip spec ls :
  routeListeners spec = Ok ls →
  listeners_ok ls ∧ ∀ spec', routeListeners (<["listeners" := AArr (encodeRouteListeners ls)]> spec') = Ok ls.
Proof.
  intros Hr. assert (listeners_ok ls) as Hok; [|split; [done|]].
  - unfold routeListeners in Hr. destruct (default [] (as_arr (get spec "listeners"))) as [|v raw].
    + destruct (exactInteger _) as [port|]; [|done]. destruct (_ || _) eqn:E; [done|]. injection Hr as <-. bool_hyps.
      constructor; cbn; [|repeat constructor; set_solver..|lia].
      constructor; [|constructor]. constructor; cbn; [by vm_compute|lia|by vm_compute|done].
    + destruct (_ <? _)%nat eqn:E; [done|]. bool_hyps. apply listener_loop_inv in Hr as (H1 & H2 & H3 & _ & _ & H4 & H5).
      constructor; [done..|lia|lia].
  - intros spec'. apply routeListeners_encode; [done|]. unfold get. by rewrite lookup_insert_eq.
Qed.

(** ** Paths *)
Lemma drop_while_suffix f l : ∃ k, l = k ++ drop_while f l.
Proof.
  induction l as [|c l [k IH]]; [by exists []|]. cbn. destruct (f c); [|by exists []]. exists (c :: k). cbn. by f_equal.
Qed.
Lemma drop_while_idem f l : drop_while f (drop_while f l) = drop_while f l.
Proof. induction l as [|c l IH]; [done|]. cbn. destruct (f c) eqn:E; [done|]. cbn. by rewrite E. Qed.
Lemma trim_right_prefix s cutset : ∃ k, chars s = chars (trim_right s cutset) ++ k.
Proof.
  unfold trim_right. rewrite chars_str. destruct (drop_while_suffix (in_cut cutset) (reverse (chars s))) as [k Hk].
  exists (reverse k). apply (f_equal reverse) in Hk. by rewrite reverse_involutive, reverse_app in Hk.
Qed.
Lemma trim_right_idem s cutset : trim_right (trim_right s cutset) cutset = trim_right s cutset.
Proof. unfold trim_right. by rewrite chars_str, reverse_involutive, drop_while_idem. Qed.
Lemma containsb_app l k sub : containsb (l ++ k) sub = false → containsb l sub = false.
Proof.
  assert (∀ l, prefixb sub l = true → prefixb sub (l ++ k) = true) as Hp.
  { intros l' [t ->]%prefixb_spec. apply prefixb_spec. exists (t ++ k). by rewrite app_assoc. }
  induction l as [|c l IH]; cbn [app containsb]; intros H.
  - destruct sub; [by destruct k|done].
  - apply orb_false_iff in H as [H1 H2]. rewrite IH by done. rewrite orb_false_r. destruct (prefixb sub (c :: l)) eqn:E; [|done].
    apply Hp in E. cbn [app] in E. by rewrite E in H1.
Qed.
Definition bad_path_chars : string := str [" "%char; byte 13; byte 10; byte 9; "?"%char; "#"%char].
Definition path_clean (b : string) : Prop :=
  has_prefix b "/" = true ∧ contains_any b bad_path_chars = false ∧ contains b ".." = false ∧ slen b <= 512.
Lemma path_clean_prefix b c k : chars b = chars c ++ k → c ≠ "" → path_clean b → path_clean c.
Proof.
  intros Hb Hc (H1 & H2 & H3 & H4). split_and!.
  - unfold has_prefix in *. rewrite Hb in H1. destruct (chars c) as [|x l] eqn:E; [|exact H1].
    destruct Hc. apply (inj chars). by rewrite E.
  - unfold contains_any in *. rewrite Hb, existsb_app in H2. by bool_hyps.
  - unfold contains in *. rewrite Hb in H3. by apply containsb_app in H3.
  - unfold slen in *. rewrite Hb, length_app in H4. lia.
Qed.
(** A path that is accepted is empty, or is clean and has no slash at its end. *)
Definition path_normal (b : string) : Prop := path_clean b ∧ (b = "/" ∨ trim_right b "/" = b).
Lemma normalizedAbsolutePath_ok raw label optional b :
  normalizedAbsolutePath raw label optional = Ok b → b = "" ∨ path_normal b.
Proof.
  assert (path_normal "/") as Hroot by (split; [by split_and!; vm_compute|by left]).
  assert (∀ v s, as_string v = Some s → normalizedAbsolutePath v label optional = Ok b → b = "" ∨ path_normal b) as Hs.
  { intros v s ->%as_string_some Hr. cbn in Hr. destruct (_ && optional); [injection Hr as <-; by left|].
    destruct (_ || (512 <? _)) eqn:E; [done|]. bool_hyps. injection Hr as <-.
    assert (path_clean (trim_space s)) as Hc by (split_and!; [done..|lia]).
    case_bool_decide; [right; by split; [|left]|].
    destruct (decide (trim_right (trim_space s) "/" = "")) as [->|Hne]; [by left|]. right. split; [|right; apply trim_right_idem].
    destruct (trim_right_prefix (trim_space s) "/") as [k Hk]. by eapply path_clean_prefix. }
  destruct raw; try (intros [=]; fail); [|by eapply Hs].
  intros [= <-]. destruct optional; [by left|by right].
Qed.
Lemma normalizedAbsolutePath_normal b label optional : path_normal b → trim_space b = b →
  normalizedAbsolutePath (AStr b) label optional = Ok b.
Proof.
  intros [(H1 & H2 & H3 & H4) Hend] Ht. cbn [normalizedAbsolutePath as_string]. rewrite Ht.
  assert (b ≠ "") as Hne by (intros ->; by vm_compute in H1).
  rewrite bool_decide_eq_false_2 by done. cbn [andb orb]. rewrite H1. fold bad_path_chars. rewrite H2, H3.
  rewrite (proj2 (Z.ltb_ge _ _)) by done. cbn [negb orb]. destruct Hend as [->|Hend]; [done|].
  rewrite Hend. by case_bool_decide.
Qed.

(** ** Normalised routes *)
Record route_normal (r : obj) (ls : list routeListener) : Prop := {
  rn_ok : listeners_ok ls;
  rn_listeners : r !! "listeners" = Some (AArr (encodeRouteListeners ls));
  rn_port : r !! "containerPort" = Some (ANum (f_of_Z (primary_port ls)));
  rn_gone : r !! "portEditable" = None ∧ r !! "portEnvVar" = None ∧ r !! "stripPrefix" = None ∧ r !! "cookiePath" = None;
  rn_path : ∃ b, r !! "basePath" = Some (AStr b) ∧ path_normal b;
  rn_websocket : ∃ b, r !! "websocket" = Some (ABool b);
  rn_sse : ∃ b, r !! "sse" = Some (ABool b);
  rn_mapping : r !! "portMapping" = None ∨ ∃ b, r !! "portMapping" = Some (AObj {["available" := ABool b]})
}.
Lemma normalizedBoolean_ok spec key fallback b r :
  normalizedBoolean spec key fallback = Ok (b, r) → r = <[key := ABool b]> spec.
Proof.
  unfold normalizedBoolean. destruct (spec !! key) as [raw|]; [|by intros [= <- <-]].
  destruct (as_bool raw); [|done]. by intros [= <- <-].
Qed.
Lemma normalizedBoolean_fix spec key fallback b : spec !! key = Some (ABool b) →
  normalizedBoolean spec key fallback = Ok (b, spec).
Proof. intros Hb. unfold normalizedBoolean. rewrite Hb. cbn. by rewrite insert_id. Qed.
Lemma normalizeRouteSpec_ok spec r :
  normalizeRouteSpec spec = Ok r → ∃ ls, routeListeners spec = Ok ls ∧ route_normal r ls.
Proof.
  unfold normalizeRouteSpec. intros Hr. apply bind_ok_inv in Hr as (ls & Hls & Hr). exists ls. split; [done|].
  apply bind_ok_inv in Hr as (b & Hb & Hr). apply bind_ok_inv in Hr as ([w r1] & Hw & Hr). apply bind_ok_inv in Hr as ([s r2] & Hs & Hr).
  apply normalizedBoolean_ok in Hw, Hs. apply normalizedAbsolutePath_ok in Hb. apply routeListeners_roundtrip in Hls as [Hls _].
  set (p := if bool_decide (b = "") then "/" else b) in *.
  assert (path_normal p) as Hp.
  { unfold p. case_bool_decide; [|by destruct Hb]. split; [by split_and!; vm_compute|by left]. }
  assert (∃ m, r = match m with Some v => <["portMapping" := AObj {["available" := ABool v]}]> (delete "cookiePath" r2)
                             | None => delete "portMapping" (delete "cookiePath" r2) end) as [m ->].
  { destruct (as_obj _); [|injection Hr as <-; by exists None].
    apply bind_ok_inv in Hr as ([v ?] & _ & [= <-]). by exists (Some v). }
  subst r2 r1. constructor; [done|destruct m; by simplify_map_eq|destruct m; by simplify_map_eq|..].
  - destruct m; split_and!; by simplify_map_eq.
  - exists p. split; [|done]. destruct m; by simplify_map_eq.
  - exists w. destruct m; by simplify_map_eq.
  - exists s. destruct m; by simplify_map_eq.
  - destruct m as [v|]; [right; exists v|left]; by simplify_map_eq.
Qed.

(** Normalising a route specification a second time changes nothing, unless
    its base path ends in white space other than a blank (such as a vertical
    tab), which only the second normalisation removes. *)
Theorem normalizeRouteSpec_fixpoint spec r :
  normalizeRouteSpec spec = Ok r → (∀ b, get r "basePath" = AStr b → trim_space b = b) → normalizeRouteSpec r = Ok r.
Proof.
  intros (ls & _ & [Hok Hls Hport (G1 & G2 & G3 & G4) (b & Hb & Hbn) [w Hw] [s Hs] Hm])%normalizeRouteSpec_ok Ht.
  assert (trim_space b = b) as Hbt by (apply Ht; unfold get; by rewrite Hb).
  unfold normalizeRouteSpec. rewrite (routeListeners_encode r ls) by (try done; unfold get; by rewrite Hls).
  cbn [mbind result_bind]. rewrite (insert_id r "containerPort"), (insert_id r "listeners") by done.
  rewrite (delete_id r "portEditable"), (delete_id r "portEnvVar") by done.
  assert (get r "basePath" = AStr b) as -> by (unfold get; by rewrite Hb).
  rewrite (normalizedAbsolutePath_normal b) by done. cbn [mbind result_bind].
  rewrite bool_decide_eq_false_2 by (intros ->; destruct Hbn as [(H & _) _]; by vm_compute in H).
  rewrite (insert_id r "basePath"), (delete_id r "stripPrefix") by done.
  rewrite (normalizedBoolean_fix r "websocket" true w) by done. cbn [mbind result_bind].
  rewrite (normalizedBoolean_fix r "sse" true s) by done. cbn [mbind result_bind].
  rewrite (delete_id r "cookiePath") by done. unfold get. destruct Hm as [Hm|[a Hm]]; rewrite Hm; cbn [from_option id as_obj].
  - by rewrite delete_id.
  - rewrite (normalizedBoolean_fix _ "available" false a) by apply lookup_singleton_eq. cbn [mbind result_bind]. by rewrite insert_id.
Qed.

(** ** The choice of ports *)
(** What a selection may change of a listener. *)
Record listener_changed (l l' : routeListener) : Prop := {
  lc_key : ln_Key l' = ln_Key l;
  lc_remark : ln_Remark l' = ln_Remark l;
  lc_primary : ln_Primary l' = ln_Primary l;
  lc_editable : ln_UserEditable l' = ln_UserEditable l;
  lc_available : ln_MappingAvailable l' = ln_MappingAvailable l;
  lc_port : ln_UserEditable l = false → ln_ContainerPort l' = ln_ContainerPort l;
  lc_mapping : ln_MappingAvailable l = false → ln_MappingEnabled l' = false
}.
Definition choice_applied (i : selectedListenerPort) (l : routeListener) : Prop :=
  ln_Key l = sl_Key i ∧ ln_ContainerPort l = sl_ContainerPort i ∧ ln_MappingEnabled l = sl_MappingEnabled i.

Lemma requested_ports_ok items : ∀ acc req,
  (∀ k i, acc !! k = Some i → sl_Key i = k) → requested_ports acc items = Ok req →
  (∀ k i, req !! k = Some i → sl_Key i = k) ∧ acc ⊆ req ∧ (∀ i, i ∈ items → req !! sl_Key i = Some i).
Proof.
  induction items as [|i items IH]; intros acc req Hacc; cbn [requested_ports].
  - intros [= <-]. split_and!; [done|done|]. by intros i Hi%elem_of_nil.
  - destruct (acc !! sl_Key i) eqn:E; [done|]. intros Hr.
    apply IH in Hr as (H1 & H2 & H3).
    2: { intros k j. rewrite lookup_insert_Some. intros [[<- <-]|[_ ?]]; [done|by apply Hacc]. }
    split_and!; [done|..].
    + etrans; [|exact H2]. by apply insert_subseteq.
    + intros j [->|Hj]%elem_of_cons; [|by apply H3]. eapply lookup_weaken; [|exact H2]. apply lookup_insert_eq.
Qed.
Lemma choose_listener_ok l i l' : ln_Key l = sl_Key i → choose_listener l i = Ok l' →
  listener_changed l l' ∧ choice_applied i l' ∧ 1 <= ln_ContainerPort l' <= 65535.
Proof.
  intros Hk Hr. unfold choose_listener in Hr. inv_ok. bool_hyps. split_and!; try done; cbn; try lia.
  - constructor; cbn; try done.
    + intros E. rewrite E in Hrun. cbn in Hrun. rewrite andb_true_r in Hrun. bool_hyps. done.
    + intros E. rewrite E in Hrun1. cbn in Hrun1. by rewrite andb_true_r in Hrun1.
Qed.
Lemma listener_changed_refl l : listener_ok l → listener_changed l l.
Proof.
  intros [_ _ _ Hm]. constructor; try done. intros E. destruct (ln_MappingEnabled l); [|done]. by rewrite Hm in E.
Qed.
Definition ports_chosen (req : gmap string selectedListenerPort) (l l' : routeListener) : Prop :=
  listener_changed l l' ∧ 1 <= ln_ContainerPort l' <= 65535 ∧ ∀ i, req !! ln_Key l = Some i → choice_applied i l'.
Lemma listener_choice_key mapping req l i : (∀ k i, req !! k = Some i → sl_Key i = k) →
  listener_choice mapping req l = Some i → sl_Key i = ln_Key l.
Proof.
  intros Hreq Hc. unfold listener_choice in Hc. destruct (req !! ln_Key l) eqn:E; [injection Hc as <-; by eapply Hreq|].
  destruct mapping; [|done]. destruct (_ && _); [|done]. by injection Hc as <-.
Qed.
(** [req0]: the requests before any listener met its own. *)
Lemma choose_listeners_ok mapping req0 ls : ∀ req ls' unmet,
  (∀ k i, req !! k = Some i → sl_Key i = k) → (∀ k, k ∈ ln_Key <$> ls → req !! k = req0 !! k) →
  Forall listener_ok ls → NoDup (ln_Key <$> ls) → choose_listeners mapping req ls = Ok (ls', unmet) →
  Forall2 (ports_chosen req0) ls ls' ∧ ∀ k, is_Some (req !! k) → unmet !! k = None → k ∈ ln_Key <$> ls.
Proof.
  induction ls as [|l ls IH]; intros req ls' unmet Hreq Hsame HF Hnd; cbn [choose_listeners].
  - intros [= <- <-]. split; [constructor|]. intros k [? E] E'. congruence.
  - apply Forall_cons in HF as [Hl HF]. rewrite fmap_cons in *. apply NoDup_cons in Hnd as [Hk Hnd].
    pose proof (Hsame (ln_Key l) ltac:(left)) as Hsl. destruct (listener_choice mapping req l) as [choice|] eqn:Ec; intros Hr.
    + apply bind_ok_inv in Hr as (l' & Hl' & Hr). apply bind_ok_inv in Hr as ([rest u] & Hrest & [= <- <-]).
      apply IH in Hrest as [H1 H2]; [| | |done|done].
      2: { intros k i [_ E]%lookup_delete_Some. by apply Hreq. }
      2: { intros k Hin. rewrite lookup_delete_ne by (by intros <-). apply Hsame. by right. }
      apply choose_listener_ok in Hl' as (Hc1 & Hc2 & Hc3); [|by rewrite (listener_choice_key _ _ _ _ Hreq Ec)]. split.
      * constructor; [|done]. split; [done|split; [done|]]. intros i Hi. unfold listener_choice in Ec. rewrite Hsl, Hi in Ec.
        by injection Ec as <-.
      * intros k Hs Hu. destruct (decide (k = ln_Key l)) as [->|Hne]; [left|right]. apply H2; [|done].
        by rewrite lookup_delete_ne.
    + apply bind_ok_inv in Hr as ([rest u] & Hrest & [= <- <-]).
      apply IH in Hrest as [H1 H2]; [|done| |done|done]. 2: { intros k Hin. apply Hsame. by right. }
      assert (req !! ln_Key l = None) as En by (unfold listener_choice in Ec; by destruct (req !! ln_Key l)).
      split; [|intros k Hs Hu; right; by apply H2]. constructor; [|done]. split; [by apply listener_changed_refl|]. split; [apply Hl|]. intros i. by rewrite <- Hsl, En.
Qed.
(** What the loop reads from encoded listeners. *)
Lemma listener_loop_decode ls : ∀ keys ports n ls', Forall (λ l, 1 <= ln_ContainerPort l <= 65535) ls →
  listener_loop keys ports n (encodeRouteListeners ls) = Ok ls' → ls' = ls.
Proof.
  induction ls as [|l ls IH]; intros keys ports n ls' HF.
  - cbn. destruct (negb _); [done|]. by intros [= <-].
  - apply Forall_cons in HF as [Hp HF]. unfold encodeRouteListeners. rewrite fmap_cons.
    destruct (encode_fields l) as (item & -> & E1 & E2 & E3 & E4 & E5 & E6 & E7).
    intros (l' & rest & -> & _ & _ & _ & Hrest & item' & [= <-] & F1 & F2 & F3 & F4 & F5 & F6 & F7)%listener_loop_cons.
    rewrite E1, E2, E3, E4, E5, E6, E7 in *. rewrite exactInteger_of_Z in F2 by (by apply port_int64).
    injection F2 as F2. rewrite (IH _ _ _ _ HF Hrest). f_equal. destruct l, l'; cbn in *. congruence.
Qed.
Lemma routeListeners_decode spec ls ls' : Forall (λ l, 1 <= ln_ContainerPort l <= 65535) ls → ls ≠ [] →
  get spec "listeners" = AArr (encodeRouteListeners ls) → routeListeners spec = Ok ls' → ls' = ls.
Proof.
  intros HF Hne Hspec. unfold routeListeners. rewrite Hspec. cbn [as_arr from_option id].
  pose proof (λ k p n l, listener_loop_decode ls k p n l HF) as Hd.
  destruct (encodeRouteListeners ls) as [|v raw] eqn:E; [by destruct ls|]. destruct (_ <? _)%nat; [done|]. apply Hd.
Qed.
(** The port of the primary listener. *)
Lemma primary_port_find ls : List.length (primaries ls) = 1%nat →
  ∃ l, List.find ln_Primary ls = Some l ∧ ln_ContainerPort l = primary_port ls.
Proof.
  unfold primary_port. generalize 0. induction ls as [|l ls IH]; intros acc; cbn; [done|].
  destruct (ln_Primary l); [|apply IH]. cbn. intros [= Hn]. exists l. split; [done|].
  assert (∀ acc ls, primaries ls = [] → foldl (λ p l, if ln_Primary l then ln_ContainerPort l else p) acc ls = acc) as Hnone.
  { clear. intros acc ls. revert acc. induction ls as [|l ls IH]; intros acc; [done|]. cbn.
    destruct (ln_Primary l); [done|]. apply IH. }
  symmetry. apply Hnone. unfold primaries. by destruct (List.filter _ _).
Qed.

