(* ===== verification/SelectionFacts.v ===== *)
(** * What a customer's selection does to a runtime specification

    selectedRuntimeSpec and runtimeSpecForUpdate: only what the version declares
    editable changes, the result is valid, and the data volume never shrinks. *)
From S2P Require Import Prelude GoStrings Regex GoValue RuntimeSpec RuntimeSpecFacts ProductSpec.
From Stdlib Require Import QArith.
From stdpp Require Import list gmap.
Open Scope string_scope.
Open Scope Z_scope.
Open Scope list_scope.

(** An object as json.Unmarshal gives it: the specifications are read from the
    database. *)
Definition decoded (spec : obj) : Prop := json_value <$> spec = spec.
Lemma json_copy_decoded spec t : decoded spec → json_copy spec = Ok t → t = spec.
Proof. intros Hd. unfold json_copy. destruct (json_finite _); [|done]. intros [= <-]. exact Hd. Qed.

(** ** Frames *)
(** A stage that changes only [fields], and nothing unless the version makes
    [option] editable. *)
Definition stage (option : string) (fields : list string) (res res' : obj) : Prop :=
  (∀ k, k ∉ fields → res' !! k = res !! k) ∧ (editableRuntimeOption res option false = false → res' = res).
Lemma get_same (a b : obj) k : a !! k = b !! k → get a k = get b k.
Proof. unfold get. by intros ->. Qed.
Lemma editable_same (a b : obj) option dflt : a !! "editableOptions" = b !! "editableOptions" →
  editableRuntimeOption a option dflt = editableRuntimeOption b option dflt.
Proof. unfold editableRuntimeOption. by intros ->%get_same. Qed.

(** What a version declares editable: the option is set to true, or, for the
    options that older versions could change, nothing at all is declared. *)
Definition unlocks (spec : obj) (option : string) (legacy : Prop) : Prop :=
  (∃ options, spec !! "editableOptions" = Some (AObj options) ∧ options !! option = Some (ABool true)) ∨
  (legacy ∧ ∀ options, spec !! "editableOptions" ≠ Some (AObj options)).
Lemma editable_unlocks spec option dflt :
  ¬ unlocks spec option (dflt = true) → editableRuntimeOption spec option dflt = false.
Proof.
  intros Hn. apply not_true_iff_false. intros He. apply Hn. unfold unlocks, editableRuntimeOption, get in *.
  destruct (spec !! "editableOptions") as [[]|] eqn:E; cbn in He; try (right; split; [done|]; congruence).
  left. eexists. split; [done|]. destruct (_ !! option) as [[]|]; cbn in He; try done. by subst.
Qed.

Section stages.
Context `{GoRange}.

Lemma choose_compute_ok res sel res' : choose_compute res sel = Ok res' →
  ∃ m cpu memory, RuntimeResources res true = Ok m ∧
    res' = <["systemDiskGiB" := ANum DefaultSystemDiskGiB]> (<["memoryMiB" := ANum memory]> (<["cpuCores" := ANum cpu]> res)) ∧
    f_lt cpu (CPUCores m) = false ∧ f_lt memory (MemoryMiB m) = false ∧
    cpu = default (CPUCores m) (sr_CPUCores sel) ∧ memory = default (MemoryMiB m) (sr_MemoryMiB sel) ∧
    (editableRuntimeOption res "cpu" true = false → cpu = CPUCores m) ∧
    (editableRuntimeOption res "memory" true = false → memory = MemoryMiB m).
Proof.
  unfold choose_compute. intros Hr. inv_ok. bool_hyps. unfold spec_result in Hrun. destruct (RuntimeResources _ _) eqn:E; [|done].
  injection Hrun as <-. eexists _, _, _. split_and!; try done; intros Hed.
  - rewrite Hed in Hrun0. by destruct (sr_CPUCores sel).
  - rewrite Hed in Hrun1. by destruct (sr_MemoryMiB sel).
Qed.
Lemma foldl_larger x l : ∀ c, f_lt c (FFin x) = false → f_lt (foldl larger c l) (FFin x) = false.
Proof.
  induction l as [|[k v] l IH]; intros c Hc; cbn [foldl]; [done|]. apply IH. unfold larger. cbn [snd].
  destruct (f_lt c v) eqn:Ev; [|done]. destruct c as [|[]|p], v as [|[]|q]; cbn in *; try done.
  rewrite negb_false_iff, Qle_bool_iff in *. rewrite negb_true_iff, <- not_true_iff_false, Qle_bool_iff in Ev.
  apply Qle_trans with p; [done|]. by apply Qlt_le_weak, Qnot_le_lt.
Qed.
Lemma choose_volume_ok res sel res' : choose_volume res sel = Ok res' →
  stage "dataVolume" ["volumes"; "dataVolumeGiB"] res res' ∧
  (editableRuntimeOption res "dataVolume" false = false → sr_DataVolumeGiB sel = None) ∧
  (editableRuntimeOption res "dataVolume" false = true → ∃ v, res' = set_volume v res ∧
     ∀ x, f_lt (default (match RuntimeDataVolumeGiB res false with Ok v => v | Err _ => f_of_Z 0 end) (sr_DataVolumeGiB sel)) (FFin x) = false →
          f_lt v (FFin x) = false).
Proof.
  unfold choose_volume. intros Hr. inv_ok. bool_hyps.
  match goal with |- context [set_volume ?v res] => set (chosen := v) in * end. unfold stage.
  destruct (editableRuntimeOption res "dataVolume" false) eqn:E.
  - split; [split; [|done]|split; [done|]].
    + intros k Hk. unfold set_volume.
      destruct (as_arr _) as [[|v l]|]; rewrite ?lookup_delete_ne, ?lookup_insert_ne by set_solver; done.
    + intros _. eexists. split; [reflexivity|]. intros x Hx. by apply foldl_larger.
  - split; [done|]. split; [|done]. intros _. by destruct (sr_DataVolumeGiB sel).
Qed.
Lemma choose_command_ok res sel res' : choose_command res sel = Ok res' →
  stage "command" ["command"] res res' ∧ ∀ command, sr_Command sel = Some command → res' !! "command" = Some (AStrs command).
Proof.
  unfold choose_command, stage. destruct (sr_Command sel); [|by intros [= <-]]. intros Hr. inv_ok.
  split; [split; [|by rewrite Hrun]|].
  - intros k Hk. by rewrite lookup_insert_ne by set_solver.
  - intros command [= <-]. by rewrite lookup_insert_eq.
Qed.
Lemma set_environment_set allowed kvs : ∀ env env', NoDup kvs.*1 → set_environment allowed env kvs = Ok env' →
  ∀ k v, (k, v) ∈ kvs → env' !! k = Some (AStr v).
Proof.
  assert (∀ kvs env env' k, set_environment allowed env kvs = Ok env' → k ∉ kvs.*1 → env' !! k = env !! k) as Hframe.
  { clear kvs. induction kvs as [|[k' v'] kvs IH]; intros env env' k; cbn [set_environment]; [by intros [= <-]|].
    intros Hr Hk. inv_ok. rewrite (IH _ _ k Hr) by set_solver. rewrite lookup_insert_ne; [done|set_solver]. }
  induction kvs as [|[k' v'] kvs IH]; intros env env' Hnd; cbn [set_environment]; [by intros _ ?? ?%elem_of_nil|].
  apply NoDup_cons in Hnd as [Hk' Hnd]. intros Hr k v Hin. inv_ok.
  apply elem_of_cons in Hin as [[= -> ->]|Hin]; [|by eapply IH].
  rewrite (Hframe kvs _ env' k' Hr Hk'). by rewrite lookup_insert_eq.
Qed.
Lemma set_environment_ok allowed kvs : ∀ env env', set_environment allowed env kvs = Ok env' →
  ∀ k, k ∉ allowed → env' !! k = env !! k.
Proof.
  induction kvs as [|[k v] kvs IH]; intros env env'; cbn [set_environment]; [by intros [= <-]|].
  intros Hr k' Hk'. inv_ok. bool_hyps. rewrite (IH _ _ Hr k' Hk'). by rewrite lookup_insert_ne by (by intros <-).
Qed.
Definition env_of (spec : obj) : obj := default ∅ (as_obj (get spec "env")).
Lemma choose_environment_ok res sel res' : choose_environment res sel = Ok res' →
  stage "environment" ["env"] res res' ∧
  (∀ k, k ∉ string_list (get res "editableEnvKeys") → env_of res' !! k = env_of res !! k) ∧
  ∀ chosen k v, sr_Environment sel = Some chosen → chosen !! k = Some v → env_of res' !! k = Some (AStr v).
Proof.
  unfold choose_environment, stage. destruct (sr_Environment sel); [|by intros [= <-]]. intros Hr. inv_ok.
  split; [split; [|by rewrite Hrun]|split].
  - intros k Hk. by rewrite lookup_insert_ne by set_solver.
  - intros k Hk. unfold env_of at 1, get at 1. rewrite lookup_insert_eq. cbn. by eapply set_environment_ok.
  - intros chosen k v [= <-] Hv. unfold env_of, get. rewrite lookup_insert_eq. cbn.
    eapply set_environment_set; [|done|].
    + rewrite (go_range_perm _ _). apply NoDup_fst_map_to_list.
    + rewrite (go_range_perm _ _). by apply elem_of_map_to_list.
Qed.
Lemma choose_dependencies_ok res sel res' : choose_dependencies res sel = Ok res' →
  stage "dependencies" ["dependencies"] res res' ∧
  ∀ ds, sr_Dependencies sel = Some ds → res' !! "dependencies" = Some (AArr (encode_dependency <$> ds)).
Proof.
  unfold choose_dependencies, stage. destruct (sr_Dependencies sel); [|by intros [= <-]]. intros Hr. inv_ok.
  split; [split; [|by rewrite Hrun]|].
  - intros k Hk. by rewrite lookup_insert_ne by set_solver.
  - intros ds [= <-]. by rewrite lookup_insert_eq.
Qed.
Lemma stage_field option fields a b c k :
  stage option fields a b → a !! "editableOptions" = c !! "editableOptions" → editableRuntimeOption c option false = false → b !! k = a !! k.
Proof. intros [_ Hs] He Hf. rewrite Hs; [done|]. by rewrite (editable_same a c). Qed.
End stages.

(** ** The selection *)
(** The fields that a selection can reach, and the option each depends on. *)
Definition option_fields : list (string * string) :=
  [("dataVolume", "volumes"); ("dataVolume", "dataVolumeGiB"); ("command", "command"); ("environment", "env");
   ("dependencies", "dependencies")].
Definition compute_fields : list string := ["cpuCores"; "memoryMiB"; "systemDiskGiB"].

Section selection.
Context `{GoRange}.

(** The stages of a selection, one after the other. *)
Lemma selection_stages template selected r : decoded template → selectedRuntimeSpec template selected = Ok r →
  ∃ a b c d, choose_compute template selected = Ok a ∧ choose_volume a selected = Ok b ∧
    choose_command b selected = Ok c ∧ choose_environment c selected = Ok d ∧
    choose_dependencies d selected = Ok r ∧ ValidateRuntimeSpec r = Ok tt.
Proof.
  unfold selectedRuntimeSpec. intros Hd Hr. apply bind_ok_inv in Hr as (t & Ht & Hr). apply (json_copy_decoded _ _ Hd) in Ht as ->.
  apply bind_ok_inv in Hr as (a & ? & Hr). apply bind_ok_inv in Hr as (b & ? & Hr). apply bind_ok_inv in Hr as (c & ? & Hr).
  apply bind_ok_inv in Hr as (d & ? & Hr). apply bind_ok_inv in Hr as (e & ? & Hr). apply bind_ok_inv in Hr as ([] & Hv & [= <-]).
  exists a, b, c, d. split_and!; try done. unfold spec_result in Hv. destruct (ValidateRuntimeSpec e) as [[]|]; [done|done].
Qed.
Lemma ValidateRuntimeSpec_resources r : ValidateRuntimeSpec r = Ok tt → ∃ c, RuntimeResources r true = Ok c.
Proof. unfold ValidateRuntimeSpec. intros Hr. apply bind_ok_inv in Hr as (c & ? & _). eauto. Qed.
Lemma RuntimeResources_numbers r c cpu memory : RuntimeResources r true = Ok c →
  r !! "cpuCores" = Some (ANum cpu) → r !! "memoryMiB" = Some (ANum memory) → CPUCores c = cpu ∧ MemoryMiB c = memory.
Proof.
  unfold RuntimeResources, get. intros Hr Ec Em. rewrite Ec, Em in Hr. cbn in Hr. rewrite ?is_some_true in Hr. cbn in Hr.
  destruct (f_bad cpu _ _); [done|]. destruct (f_bad memory _ _); [done|]. by injection Hr as <-.
Qed.

End selection.

(** ** The data volume *)
(** The capacity of mounts is within the limits of the platform, and without
    mounts it is zero. *)
Lemma RuntimeDataVolumeGiB_volumes spec d x l : get spec "volumes" = AArr (x :: l) →
  RuntimeDataVolumeGiB spec false = Ok d → f_within d MinVolumeGiB MaxVolumeGiB.
Proof.
  unfold RuntimeDataVolumeGiB, RuntimeStorage. intros Hvs Hr. rewrite Hvs in Hr. destruct (f_bad _ MinSystemDiskGiB _); [done|].
  apply bind_ok_inv in Hr as (st & Hst & [= <-]). apply bind_ok_inv in Hst as (v & Hv & Hst). cbn [as_arr from_option id] in Hv, Hst.
  destruct (bool_decide (is_Some _) && f_bad v _ _) eqn:E; [done|]. injection Hst as <-. cbn [DataDiskGiB].
  destruct (numeric (get spec "dataVolumeGiB")) as [q|].
  - rewrite is_some_true in E. cbn in E. by apply f_bad_spec.
  - rewrite is_some_false in Hv. clear E Hvs. revert Hv. cbn [from_option id]. generalize (f_of_Z 0).
    revert x. induction l as [|y l IH]; intros x acc Hv; apply volume_sizes_cons in Hv as [Hv Hw].
    + by injection Hv as <-.
    + by eapply IH.
Qed.
Lemma RuntimeDataVolumeGiB_range spec d : RuntimeDataVolumeGiB spec false = Ok d →
  d = f_of_Z 0 ∨ f_within d MinVolumeGiB MaxVolumeGiB.
Proof.
  intros Hr. destruct (as_arr (get spec "volumes")) as [[|x l]|] eqn:Ev.
  2: { right. apply as_arr_some in Ev. by eapply RuntimeDataVolumeGiB_volumes. }
  all: left; unfold RuntimeDataVolumeGiB, RuntimeStorage in Hr; rewrite Ev in Hr; cbn [from_option id] in Hr;
    destruct (f_bad _ MinSystemDiskGiB _); [done|]; rewrite is_some_false in Hr; by injection Hr as <-.
Qed.
Definition volume_fields : list string := ["systemDiskGiB"; "volumes"; "dataVolumeGiB"].
Lemma RuntimeDataVolumeGiB_same a b : (∀ k, k ∈ volume_fields → a !! k = b !! k) →
  RuntimeDataVolumeGiB a false = RuntimeDataVolumeGiB b false.
Proof.
  intros Hs. unfold RuntimeDataVolumeGiB, RuntimeStorage.
  rewrite (get_same a b "systemDiskGiB"), (get_same a b "volumes"), (get_same a b "dataVolumeGiB") by (apply Hs; unfold volume_fields; set_solver).
  done.
Qed.
(** Only the mounts and the declared capacity matter, for a valid system disk. *)
Lemma RuntimeDataVolumeGiB_disk a c f : RuntimeDataVolumeGiB a false = Ok c →
  f_bad f MinSystemDiskGiB MaxSystemDiskGiB = false → RuntimeDataVolumeGiB (<["systemDiskGiB" := ANum f]> a) false = Ok c.
Proof.
  unfold RuntimeDataVolumeGiB, RuntimeStorage. intros Hr Hf.
  assert (∀ k, k ≠ "systemDiskGiB" → get (<["systemDiskGiB" := ANum f]> a) k = get a k) as Hg.
  { intros k Hk. apply get_same. by rewrite lookup_insert_ne. }
  rewrite (Hg "volumes"), (Hg "dataVolumeGiB") by done. unfold get at 1. rewrite lookup_insert_eq. cbn [from_option id numeric].
  rewrite Hf. destruct (f_bad _ MinSystemDiskGiB _); [done|].
  destruct (volume_sizes _ _ _ _) as [v|]; [|done]. cbn [mbind result_bind] in *. by destruct (_ && _).
Qed.
Lemma volume_sizes_false ok d items r : volume_sizes true ok d items = Ok r → volume_sizes false ok d items = Ok r.
Proof.
  revert d. induction items as [|i items IH]; intros d; cbn [volume_sizes]; [done|].
  destruct (as_obj i); [|done]. cbn [andb]. destruct (negb _); [done|]. destruct (f_bad _ _ _); [done|]. apply IH.
Qed.
Lemma RuntimeDataVolumeGiB_valid `{GoRange} r : ValidateRuntimeSpec r = Ok tt → ∃ d, RuntimeDataVolumeGiB r false = Ok d.
Proof.
  unfold ValidateRuntimeSpec. intros Hr. apply bind_ok_inv in Hr as (? & _ & Hr). apply bind_ok_inv in Hr as (? & _ & Hr).
  apply bind_ok_inv in Hr as (st & Hst & _). unfold RuntimeDataVolumeGiB, RuntimeStorage in *.
  destruct (f_bad _ MinSystemDiskGiB _); [done|]. apply bind_ok_inv in Hst as (v & Hv & Hst).
  rewrite (volume_sizes_false _ _ _ _ Hv). cbn [mbind result_bind]. destruct (_ && _); [done|]. eauto.
Qed.
(** Every mount has the chosen capacity. *)
Lemma volume_sizes_equal v l w : volume_sizes false true v (with_size v <$> l) = Ok w → w = v.
Proof.
  induction l as [|y l IH]; [by intros [= <-]|]. rewrite fmap_cons. cbn [volume_sizes]. unfold with_size at 1.
  destruct (as_obj y) as [m|] eqn:E; [|by rewrite E]. cbn [as_obj]. unfold get. rewrite lookup_insert_eq. cbn.
  destruct (f_bad v _ _); [done|]. by destruct (f_lt v v).
Qed.
Lemma set_volume_capacity v res x l d : get res "volumes" = AArr (x :: l) →
  RuntimeDataVolumeGiB (set_volume v res) false = Ok d → d = v.
Proof.
  intros Hv. unfold set_volume. rewrite Hv. cbn [as_arr]. unfold RuntimeDataVolumeGiB, RuntimeStorage. intros Hr.
  destruct (f_bad _ MinSystemDiskGiB _); [done|]. unfold get in Hr.
  rewrite (lookup_insert_ne _ "dataVolumeGiB" "volumes"), !lookup_insert_eq in Hr by done. rewrite fmap_cons in Hr.
  cbn [as_arr from_option id numeric] in Hr. rewrite is_some_true in Hr. cbn [from_option id andb] in Hr.
  apply bind_ok_inv in Hr as (st & Hst & [= <-]). apply bind_ok_inv in Hst as (w & Hw & Hst).
  destruct (f_bad w _ _); [done|]. injection Hst as <-. cbn. rewrite <- fmap_cons in Hw. by eapply volume_sizes_equal.
Qed.

(** ** Updates *)
Lemma f_max_fin p t : ∃ u, f_max (FFin p) (FFin t) = FFin u ∧ (p <= u)%Q ∧ (t <= u)%Q.
Proof.
  cbn [f_max]. destruct (f_lt (FFin t) (FFin p)) eqn:E; [exists p|exists t].
  - cbn in E. rewrite negb_true_iff, <- not_true_iff_false, Qle_bool_iff in E.
    split_and!; [done|apply Qle_refl|]. by apply Qlt_le_weak, Qnot_le_lt.
  - split_and!; [done|by apply f_lt_fin|apply Qle_refl].
Qed.
Lemma f_lt_pos p u : f_lt (f_of_Z 0) (FFin p) = true → (p <= u)%Q → f_lt (f_of_Z 0) (FFin u) = true.
Proof.
  cbn. rewrite !negb_true_iff, <- !not_true_iff_false, !Qle_bool_iff. intros H1 H2 H3. apply H1. by apply Qle_trans with u.
Qed.
Lemma editable_strict template option : editableRuntimeOption template option true = false →
  editableRuntimeOption template option false = false.
Proof. unfold editableRuntimeOption. by destruct (as_obj _). Qed.
Lemma VolumeMounts_nonempty spec : VolumeMounts spec ≠ [] → ∃ x l, get spec "volumes" = AArr (x :: l).
Proof.
  unfold VolumeMounts. destruct (as_arr _) as [[|x l]|] eqn:E; [done| |done]. intros _. exists x, l. by apply as_arr_some.
Qed.
Section update.
Context `{GoRange}.

(** The selection that an update makes. *)
Lemma update_selection template current requested r : runtimeSpecForUpdate template current requested = Ok r →
  ∃ c m volume sel, RuntimeDataVolumeGiB current false = Ok c ∧ RuntimeDataVolumeGiB template false = Ok m ∧
    keep_volume template c m (default no_selection requested) = Ok volume ∧ sr_DataVolumeGiB sel = volume ∧
    selectedRuntimeSpec template sel = Ok r.
Proof.
  unfold runtimeSpecForUpdate. intros Hr. apply bind_ok_inv in Hr as (res & Hres & Hr).
  destruct (keep_compute _ _ _ _) as [cpu memory]. apply bind_ok_inv in Hr as (c & Hc & Hr). apply bind_ok_inv in Hr as (m & Hm & Hr).
  apply bind_ok_inv in Hr as (volume & Hv & Hr). apply bind_ok_inv in Hr as (command & _ & Hr).
  apply bind_ok_inv in Hr as (deps & _ & Hr). eexists c, m, volume, _. split_and!; [| |exact Hv| |exact Hr]; [| |done].
  - unfold spec_result in Hc. destruct (RuntimeDataVolumeGiB current false); [by injection Hc as ->|done].
  - unfold spec_result in Hm. destruct (RuntimeDataVolumeGiB template false); [by injection Hm as ->|done].
Qed.
(** The capacity a selection ends with. *)
Lemma selection_capacity template sel r m : decoded template → RuntimeDataVolumeGiB template false = Ok m →
  selectedRuntimeSpec template sel = Ok r →
  ∃ d, RuntimeDataVolumeGiB r false = Ok d ∧
    (editableRuntimeOption template "dataVolume" false = false → d = m ∧ sr_DataVolumeGiB sel = None) ∧
    (editableRuntimeOption template "dataVolume" false = true → (∃ x l, get template "volumes" = AArr (x :: l)) →
     ∀ q, f_lt (default m (sr_DataVolumeGiB sel)) (FFin q) = false → f_lt d (FFin q) = false).
Proof.
  intros Hdec Hm (a & b & c & e & Ha & Hb & Hc & He & Hr & Hv)%selection_stages; [|done].
  destruct (RuntimeDataVolumeGiB_valid _ Hv) as [d Hd]. exists d. split; [done|].
  apply choose_compute_ok in Ha as (res & cpu & memory & _ & Ha & _). apply choose_volume_ok in Hb as (Hb & Hnone & Hset).
  apply choose_command_ok in Hc as [[Fc _] _]. apply choose_environment_ok in He as [[Fe _] _]. apply choose_dependencies_ok in Hr as [[Fr _] _].
  assert (RuntimeDataVolumeGiB r false = RuntimeDataVolumeGiB b false) as Hrb.
  { apply RuntimeDataVolumeGiB_same. unfold volume_fields. intros k Hk. rewrite Fr, Fe, Fc by set_solver. done. }
  assert (RuntimeDataVolumeGiB a false = Ok m) as Hma.
  { rewrite Ha. apply RuntimeDataVolumeGiB_disk; [|by vm_compute]. rewrite <- Hm. apply RuntimeDataVolumeGiB_same.
    unfold volume_fields. intros k Hk. rewrite !lookup_insert_ne by set_solver. done. }
  assert (∀ o, editableRuntimeOption a o false = editableRuntimeOption template o false) as Hed.
  { intros o. apply editable_same. rewrite Ha. by simplify_map_eq. }
  rewrite Hed, Hma in *. split.
  - intros Hno. destruct Hb as [_ Hb]. rewrite Hed in Hb. rewrite Hb in Hrb by done. split; [congruence|by apply Hnone].
  - intros Hyes (x & l & Hx) q Hq. destruct (Hset Hyes) as (v & -> & Hv').
    assert (get a "volumes" = AArr (x :: l)) as Hax by (rewrite <- Hx; apply get_same; rewrite Ha; by simplify_map_eq).
    rewrite (set_volume_capacity v a x l d) by congruence. by apply Hv'.
Qed.

#[local] Arguments f_max : simpl never.
#[local] Arguments f_lt : simpl never.

(** C40: an update never shrinks the data volume of an application: when the new
    runtime specification is accepted its capacity is at least the capacity the
    application has. *)
Theorem runtimeSpecForUpdate_grows template current requested r :
  decoded template → runtimeSpecForUpdate template current requested = Ok r →
  ∃ p q, RuntimeDataVolumeGiB current false = Ok (FFin p) ∧ RuntimeDataVolumeGiB r false = Ok (FFin q) ∧ (p <= q)%Q.
Proof.
  intros Hdec (c & m & volume & sel & Hc & Hm & Hk & <- & Hr)%update_selection.
  destruct (selection_capacity _ _ _ _ Hdec Hm Hr) as (d & Hd & Hfixed & Hfree).
  assert (∀ x, x = f_of_Z 0 ∨ f_within x MinVolumeGiB MaxVolumeGiB → ∃ q, x = FFin q ∧ (0 <= q)%Q ∧ (f_lt (f_of_Z 0) x = true ∨ x = f_of_Z 0)) as Hfin.
  { intros x [->|(q & -> & H1 & H2)]; [exists (inject_Z 0); by split_and!; [|discriminate|right]|].
    assert (0 < q)%Q as Hq by (by apply Qlt_le_trans with MinVolumeGiB). exists q. split_and!; [done|by apply Qlt_le_weak|left].
    unfold f_lt, f_of_Z. rewrite negb_true_iff, <- not_true_iff_false, Qle_bool_iff. by apply Qlt_not_le. }
  destruct (Hfin c (RuntimeDataVolumeGiB_range _ _ Hc)) as (p & -> & Hp & Hpos).
  destruct (Hfin d (RuntimeDataVolumeGiB_range _ _ Hd)) as (q & -> & Hq & _).
  destruct (Hfin m (RuntimeDataVolumeGiB_range _ _ Hm)) as (t & -> & _).
  exists p, q. split_and!; [done..|]. destruct Hpos as [Hpos|[= ->]]; [|done].
  unfold keep_volume in Hk. rewrite Hpos in Hk. inv_ok. cbn [andb] in *. bool_hyps. case_bool_decide; [done|].
  destruct (editableRuntimeOption template "dataVolume" true) eqn:Ed.
  - assert (∃ v, sr_DataVolumeGiB sel = Some v ∧ f_lt v (FFin p) = false) as (v & Hv & Hvp).
    { destruct (sr_DataVolumeGiB (default no_selection requested)) as [v|]; inv_ok; bool_hyps; [by exists v|].
      destruct (f_max_fin p t) as (u & Hu & Hpu & _). rewrite Hu, (f_lt_pos p u) in Hk by done. exists (FFin u). split; [congruence|].
      by apply f_lt_fin. }
    destruct (editableRuntimeOption template "dataVolume" false) eqn:Ef.
    + apply f_lt_fin. apply Hfree; [done|by apply VolumeMounts_nonempty|]. by rewrite Hv.
    + destruct Hfixed as [_ ?]; [done|]. congruence.
  - destruct Hfixed as [[= <-] _]; [by apply editable_strict|]. rewrite andb_true_r in *. bool_hyps. by apply f_lt_fin.
Qed.

(** A published version with data volumes that says nothing about what is
    editable can never be updated to: the update takes the volume for editable
    and selects a capacity, which the selection then refuses because it takes
    the volume for fixed. *)
Theorem runtimeSpecForUpdate_legacy template current requested r :
  decoded template → template !! "editableOptions" = None → VolumeMounts template ≠ [] →
  runtimeSpecForUpdate template current requested ≠ Ok r.
Proof.
  intros Hdec Hnone Hmounts (c & m & volume & sel & Hc & Hm & Hk & <- & Hr)%update_selection.
  assert (∀ dflt, editableRuntimeOption template "dataVolume" dflt = dflt) as He.
  { intros dflt. unfold editableRuntimeOption, get. by rewrite Hnone. }
  destruct (selection_capacity _ _ _ _ Hdec Hm Hr) as (d & _ & Hfixed & _). destruct Hfixed as [_ Hsel]; [done|].
  unfold keep_volume in Hk. rewrite He, Hsel in Hk. inv_ok. bool_hyps. case_bool_decide; [done|].
  destruct (sr_DataVolumeGiB (default no_selection requested)) as [v|]; [by inv_ok|]. inv_ok.
  destruct (VolumeMounts_nonempty _ Hmounts) as (x & l & Hx).
  destruct (RuntimeDataVolumeGiB_volumes _ _ _ _ Hx Hm) as (t & -> & Ht & _).
  assert (∃ p, c = FFin p) as [p ->] by (destruct (RuntimeDataVolumeGiB_range _ _ Hc) as [->|(p & -> & _)]; by eexists).
  destruct (f_max_fin p t) as (u & Hu & _ & Htu). rewrite Hu, (f_lt_pos MinVolumeGiB u) in Hk; [done|by vm_compute|].
  by apply Qle_trans with t.
Qed.
End update.
