(* ===== verification/ProductRuns.v ===== *)
(** * Selections on a concrete product version *)
From S2P Require Import Prelude GoStrings Regex GoValue RuntimeSpec RuntimeSpecFacts ProductSpec ProductSpecFacts SelectionFacts.
From Stdlib Require Import QArith.
From stdpp Require Import list gmap.
Open Scope string_scope.
Open Scope Z_scope.
Open Scope list_scope.
#[local] Existing Instance map_order.

(** ** Decoded objects *)
Lemma decoded_empty : decoded ∅.
Proof. apply fmap_empty. Qed.
Lemma decoded_insert k v (m : obj) : json_value v = v → decoded m → decoded (<[k := v]> m).
Proof. unfold decoded. intros Hv Hm. by rewrite fmap_insert, Hv, Hm. Qed.
Lemma decoded_delete k (m : obj) : decoded m → decoded (delete k m).
Proof. unfold decoded. intros Hm. by rewrite fmap_delete, Hm. Qed.
Lemma json_value_obj (m : obj) : decoded m → json_value (AObj m) = AObj m.
Proof. unfold decoded. intros Hm. cbn [json_value]. by rewrite Hm. Qed.
Lemma json_value_arr l : Forall (λ v, json_value v = v) l → json_value (AArr l) = AArr l.
Proof. intros HF. cbn [json_value]. f_equal. induction HF as [|v l Hv _ IH]; [done|]. cbn. by rewrite Hv, IH. Qed.
Ltac solve_decoded :=
  repeat first [apply decoded_empty | apply decoded_insert | apply decoded_delete | apply json_value_obj | apply json_value_arr
               | apply Forall_cons; split | apply Forall_nil | reflexivity].
(** The value of a run that succeeds. *)
Definition value_of {E} (r : result E obj) : obj := match r with Ok v => v | Err _ => ∅ end.
Lemma value_of_ok {E} (r : result E obj) : is_ok r = true → r = Ok (value_of r).
Proof. by destruct r. Qed.

Module Shop.
Definition num (z : Z) : any := ANum (f_of_Z z).
Definition listener (key : string) (port : Z) (primary editable available : bool) : any :=
  AObj {["key" := AStr key; "containerPort" := num port; "remark" := AStr "port"; "primary" := ABool primary;
         "userEditable" := ABool editable; "mappingAvailable" := ABool available; "mappingEnabled" := ABool false]}.
(** The route of a version: a fixed web port and a game port the customer may
    move and map. *)
Definition route : obj :=
  {["listeners" := AArr [listener "web" 8080 true false false; listener "game" 25565 false true true];
    "basePath" := AStr " /app/ "; "portEditable" := ABool true]}.
Definition port (key : string) (p : Z) (mapped : bool) : selectedListenerPort :=
  {| sl_Key := key; sl_ContainerPort := p; sl_MappingEnabled := mapped |}.
Definition selection (cpu volume : option Z) (ports : list selectedListenerPort) : selectedResources :=
  {| sr_CPUCores := f_of_Z <$> cpu; sr_MemoryMiB := None; sr_DataVolumeGiB := f_of_Z <$> volume; sr_VolumeSizes := ∅;
     sr_Command := None; sr_Environment := Some {["MODE" := "debug"]}; sr_Dependencies := None; sr_PortMappingEnabled := None;
     sr_ContainerPort := None; sr_ListenerPorts := Some ports |}.
Definition chosen : selectedResources := selection (Some 4) (Some 40) [port "game" 7777 true].
Definition options (volume : bool) : any :=
  AObj {["cpu" := ABool true; "dataVolume" := ABool volume; "environment" := ABool true]}.
Definition version : obj := <["editableOptions" := options true]> example_spec.
Definition legacy : obj := delete "editableOptions" version.
Definition chosen_spec : obj := value_of (selectedRuntimeSpec version chosen).
(** The version that follows, with a smaller volume. *)
Definition next : obj := <["dataVolumeGiB" := num 2]> (<["volumes" := AArr [example_volume "data" "/data" 2]]> version).
Definition updated : obj := value_of (runtimeSpecForUpdate next chosen_spec None).
Definition chosen_route : obj := value_of (selectedRouteSpec route chosen).
Definition normal_route : obj := value_of (normalizeRouteSpec route).
Definition listeners : list routeListener := match routeListeners route with Ok ls => ls | Err _ => [] end.
Lemma version_decoded : decoded version.
Proof. unfold version, example_spec, example_volume, options. solve_decoded. Qed.
Lemma next_decoded : decoded next.
Proof. unfold next, version, example_spec, options, example_volume, num. solve_decoded. Qed.

Example selections :
  (RuntimeDataVolumeGiB chosen_spec false, RuntimeDataVolumeGiB updated false) = (Ok (f_of_Z 40), Ok (f_of_Z 40)) ∧
  selectedRouteSpec route (selection None None [port "web" 9090 false]) = Err (EListenerFixed "web") ∧
  selectedRouteSpec route (selection None None [port "ssh" 22 false]) = Err EListenerUnknown ∧
  runtimeSpecForUpdate (<["editableOptions" := options false]> next) chosen_spec None = Err EVolumeShrinks ∧
  runtimeSpecForUpdate legacy chosen_spec None = Err EVolumeFixed.
Proof. vm_compute. done. Qed.
End Shop.

Lemma routeListeners_roundtrip_witness : listeners_ok Shop.listeners.
Proof. apply (routeListeners_roundtrip Shop.route). by vm_compute. Defined.
Lemma normalizeRouteSpec_fixpoint_witness : normalizeRouteSpec Shop.normal_route = Ok Shop.normal_route.
Proof.
  apply (normalizeRouteSpec_fixpoint Shop.route); [apply value_of_ok; by vm_compute|].
  intros b Hb. assert (get Shop.normal_route "basePath" = AStr "/app") as E by (by vm_compute).
  rewrite E in Hb. injection Hb as <-. by vm_compute.
Defined.
Lemma runtimeSpecForUpdate_grows_witness :
  ∃ p q, RuntimeDataVolumeGiB Shop.chosen_spec false = Ok (FFin p) ∧ RuntimeDataVolumeGiB Shop.updated false = Ok (FFin q) ∧ (p <= q)%Q.
Proof.
  apply (runtimeSpecForUpdate_grows Shop.next Shop.chosen_spec None Shop.updated Shop.next_decoded).
  apply value_of_ok. by vm_compute.
Defined.
Lemma runtimeSpecForUpdate_legacy_witness : runtimeSpecForUpdate Shop.legacy Shop.chosen_spec None ≠ Ok Shop.legacy.
Proof.
  apply runtimeSpecForUpdate_legacy; [apply decoded_delete, Shop.version_decoded|by vm_compute|by vm_compute].
Defined.
