(* ===== verification/Graph.v ===== *)
(** * Reachability in a finite graph

    WITH RECURSIVE reachable(id) AS (SELECT start UNION SELECT target ... JOIN
    edges), executable: a list of edges, expanded as often as there are edges. *)
From S2P Require Import Prelude.
From stdpp Require Import list gmap relations.

Section graph.
Context `{Countable K}.
Implicit Types (es : list (K * K)) (X : gset K).

Definition edge es (a b : K) : Prop := (a, b) ∈ es.
Definition leaving es X : list (K * K) := List.filter (λ e, bool_decide (e.1 ∈ X)) es.
Definition expand es X : gset K := X ∪ list_to_set (leaving es X).*2.
Fixpoint expand_n (n : nat) es X : gset K :=
  match n with O => X | S n => expand_n n es (expand es X) end.
Definition reachable es (start : K) : gset K := expand_n (List.length es) es {[start]}.
Definition acyclic es : Prop := ∀ x, ¬ tc (edge es) x x.

Lemma elem_of_expand es X y : y ∈ expand es X ↔ y ∈ X ∨ ∃ x, x ∈ X ∧ edge es x y.
Proof.
  unfold expand, leaving, edge. rewrite elem_of_union, elem_of_list_to_set, list_elem_of_fmap. apply or_iff_compat_l. split.
  - intros ([a b] & -> & Hin%list_elem_of_In). apply List.filter_In in Hin as [Hin%list_elem_of_In Ha]. bool_hyps. eauto.
  - intros (x & Hx & He). exists (x, y). split; [done|]. apply list_elem_of_In, List.filter_In.
    split; [by apply list_elem_of_In|]. by apply bool_decide_eq_true_2.
Qed.
Lemma expand_subset es X : X ⊆ expand es X.
Proof. intros x Hx. apply elem_of_expand. by left. Qed.
Lemma expand_n_sound es n : ∀ X y, y ∈ expand_n n es X → ∃ x, x ∈ X ∧ rtc (edge es) x y.
Proof.
  induction n as [|n IH]; intros X y; cbn [expand_n]; [intros Hy; by exists y|].
  intros (x & [Hx|(z & Hz & He)]%elem_of_expand & Hr)%IH; [by exists x|]. exists z. split; [done|]. by apply (rtc_l _ _ x).
Qed.
Lemma expand_n_fix es X n : expand es X = X → expand_n n es X = X.
Proof. intros HX. induction n as [|n IH]; [done|]. cbn. by rewrite HX. Qed.
Lemma expand_n_comm es n : ∀ X, expand es (expand_n n es X) = expand_n n es (expand es X).
Proof. induction n as [|n IH]; intros X; [done|]. cbn. apply IH. Qed.
Lemma expand_n_subset es n : ∀ X, X ⊆ expand_n n es X.
Proof. induction n as [|n IH]; intros X; [done|]. cbn. etrans; [apply expand_subset|apply IH]. Qed.
(** Every round that is not the last adds a vertex. *)
Lemma expand_n_grows es n : ∀ X,
  expand es (expand_n n es X) = expand_n n es X ∨ (size X + n <= size (expand_n n es X))%nat.
Proof.
  induction n as [|n IH]; intros X; [right; cbn; lia|]. cbn [expand_n].
  destruct (decide (expand es X = X)) as [HX|HX].
  - left. rewrite HX, (expand_n_fix es X n HX). done.
  - destruct (IH (expand es X)) as [Hs|Hs]; [by left|right].
    assert (size X < size (expand es X))%nat; [|lia]. apply subset_size. split; [apply expand_subset|].
    intros Hsub. apply HX. apply set_eq. intros y. split; [apply Hsub|apply expand_subset].
Qed.
Lemma expand_n_bound es n : ∀ X, expand_n n es X ⊆ X ∪ list_to_set es.*2.
Proof.
  intros X y Hy. apply expand_n_sound in Hy as (x & Hx & Hr). apply rtc_inv_r in Hr as [->|(z & _ & He)]; [set_solver|].
  apply elem_of_union_r, elem_of_list_to_set, list_elem_of_fmap. by exists (z, y).
Qed.
Lemma size_add (x : K) X : (size ({[x]} ∪ X) <= 1 + size X)%nat.
Proof.
  rewrite size_union_alt, size_singleton. assert (size (X ∖ {[x]}) <= size X)%nat; [|lia]. apply subseteq_size. set_solver.
Qed.
Lemma size_targets es : (size (list_to_set es.*2 : gset K) <= List.length es)%nat.
Proof.
  induction es as [|[a b] es IH]; [done|]. cbn. pose proof (size_add b (list_to_set es.*2)). lia.
Qed.
Lemma reachable_closed es s : expand es (reachable es s) = reachable es s.
Proof.
  unfold reachable. destruct (expand_n_grows es (List.length es) {[s]}) as [Hs|Hs]; [done|].
  set (R := expand_n _ _ _) in *. rewrite size_singleton in Hs.
  assert (R = {[s]} ∪ list_to_set es.*2) as HR.
  { apply set_eq. intros y. split; [apply expand_n_bound|].
    assert (R ⊆ {[s]} ∪ list_to_set es.*2) as Hsub by apply expand_n_bound.
    assert (size ({[s]} ∪ list_to_set es.*2 : gset K) <= size R)%nat as Hle.
    { pose proof (size_add s (list_to_set es.*2)). pose proof (size_targets es). lia. }
    intros Hy. destruct (decide (y ∈ R)) as [|Hn]; [done|]. exfalso.
    assert (size R < size ({[s]} ∪ list_to_set es.*2 : gset K))%nat; [|lia]. apply subset_size. split; [done|]. set_solver. }
  apply set_eq. intros y. split; [|apply expand_subset]. intros [Hy|(x & _ & He)]%elem_of_expand; [done|].
  rewrite HR. apply elem_of_union_r, elem_of_list_to_set, list_elem_of_fmap. by exists (x, y).
Qed.
(** The closure is reachability. *)
Lemma reachable_spec es s x : x ∈ reachable es s ↔ rtc (edge es) s x.
Proof.
  split.
  - intros (y & Hy & Hr)%expand_n_sound. by apply elem_of_singleton in Hy as ->.
  - revert x. apply rtc_ind_r.
    + apply expand_n_subset. by apply elem_of_singleton.
    + intros x y _ He IH. rewrite <- reachable_closed. apply elem_of_expand. right. eauto.
Qed.

(** Edges from [p] to vertices that do not reach [p] close no cycle. *)
Section add.
Context (es : list (K * K)) (p : K) (ds : list K).
Definition added : list (K * K) := es ++ (pair p <$> ds).
Lemma edge_added a b : edge added a b ↔ edge es a b ∨ (a = p ∧ b ∈ ds).
Proof.
  unfold edge, added. rewrite elem_of_app, list_elem_of_fmap. apply or_iff_compat_l. split.
  - by intros (d & [= -> ->] & ?).
  - intros [-> ?]. by exists b.
Qed.
Lemma added_back a : rtc (edge added) a p → rtc (edge es) a p.
Proof.
  revert a. apply rtc_ind_l; [done|]. intros a b [He|[-> _]]%edge_added _ IH; [|done]. by apply (rtc_l _ _ b).
Qed.
Lemma added_path a b : tc (edge added) a b →
  tc (edge es) a b ∨ rtc (edge added) a p ∧ ∃ d, d ∈ ds ∧ rtc (edge added) d b.
Proof.
  induction 1 as [a b He|a c b He Hr IH]; apply edge_added in He as [He|[-> Hd]].
  - left. by apply tc_once.
  - right. split; [done|]. by exists b.
  - destruct IH as [IH|[IH Hd]]; [left; by apply (tc_l _ _ c)|right]. split; [|done].
    apply (rtc_l _ _ c); [|done]. apply edge_added. by left.
  - right. split; [done|]. exists c. split; [done|]. by apply tc_rtc.
Qed.
Lemma acyclic_added : acyclic es → (∀ d, d ∈ ds → p ∉ reachable es d) → acyclic added.
Proof.
  intros Hac Hds x Hx. apply added_path in Hx as [Hx|[Hxp (d & Hd & Hdx)]]; [by apply (Hac x)|].
  apply (Hds d Hd). apply reachable_spec, added_back. by trans x.
Qed.
End add.
Lemma acyclic_subset es es' : (∀ e, e ∈ es' → e ∈ es) → acyclic es → acyclic es'.
Proof. 
  intros Hsub Hac x Hx. apply (Hac x). revert Hx. generalize x at 1 3. intros y.
  induction 1 as [a b He|a b c He _ IH]; [by apply tc_once, Hsub|]. by apply (tc_l _ _ b); [apply Hsub|].
Qed.
End graph.
