(* ===== verification/Crypto.v ===== *)
(** * Message digests

    [crypto/md5] and [crypto/sha256], which sign payment callbacks and scope
    resource names, on the bytes of a string (RFC 1321, FIPS 180-4), with
    32-bit words as [Z] below [2^32], and [encoding/hex]. *)
From S2P Require Import Prelude GoStrings.
From stdpp Require Import list.
Open Scope Z_scope.
Open Scope list_scope.

Definition w32 (z : Z) : Z := z mod 2 ^ 32.
Definition add32 (x y : Z) : Z := w32 (x + y).
Definition not32 (x : Z) : Z := Z.lxor x (2 ^ 32 - 1).
Definition rotl32 (x n : Z) : Z := w32 (Z.lor (Z.shiftl x n) (Z.shiftr x (32 - n))).
Definition rotr32 (x n : Z) : Z := rotl32 x (32 - n).
Definition bytes_of (s : string) : list Z := (λ c, Z.of_nat (code c)) <$> chars s.

(** [x] as [n] bytes, least or most significant first. *)
Fixpoint le_bytes (n : nat) (x : Z) : list Z :=
  match n with O => [] | S n => x mod 256 :: le_bytes n (x / 256) end.
Definition be_bytes (n : nat) (x : Z) : list Z := reverse (le_bytes n x).
Fixpoint le_word (bs : list Z) : Z :=
  match bs with [] => 0 | b :: bs => b + 256 * le_word bs end.
Definition be_word (bs : list Z) : Z := le_word (reverse bs).

(** Split a list into pieces of [n]; [fuel] is its length. *)
Fixpoint chunks_fuel {A} (fuel n : nat) (l : list A) : list (list A) :=
  match fuel, l with
  | _, [] | O, _ => []
  | S fuel, _ => take n l :: chunks_fuel fuel n (drop n l)
  end.
Definition chunks {A} (n : nat) (l : list A) : list (list A) := chunks_fuel (List.length l) n l.

(** Padding to a multiple of 64 bytes: 0x80, zeros, the length in bits. *)
Definition pad (len_bytes : Z → list Z) (bs : list Z) : list Z :=
  let n := Z.of_nat (List.length bs) in
  bs ++ [128] ++ repeat 0 (Z.to_nat ((55 - n) mod 64)) ++ len_bytes (8 * n).

Definition nthz (l : list Z) (i : Z) : Z := nth (Z.to_nat i) l 0.

(** ** MD5 *)
Definition md5_k : list Z :=
  [3614090360; 3905402710; 606105819; 3250441966; 4118548399; 1200080426; 2821735955; 4249261313;
   1770035416; 2336552879; 4294925233; 2304563134; 1804603682; 4254626195; 2792965006; 1236535329;
   4129170786; 3225465664; 643717713; 3921069994; 3593408605; 38016083; 3634488961; 3889429448;
   568446438; 3275163606; 4107603335; 1163531501; 2850285829; 4243563512; 1735328473; 2368359562;
   4294588738; 2272392833; 1839030562; 4259657740; 2763975236; 1272893353; 4139469664; 3200236656;
   681279174; 3936430074; 3572445317; 76029189; 3654602809; 3873151461; 530742520; 3299628645;
   4096336452; 1126891415; 2878612391; 4237533241; 1700485571; 2399980690; 4293915773; 2240044497;
   1873313359; 4264355552; 2734768916; 1309151649; 4149444226; 3174756917; 718787259; 3951481745].
Definition md5_r : list Z :=
  [7; 12; 17; 22; 7; 12; 17; 22; 7; 12; 17; 22; 7; 12; 17; 22;
   5; 9; 14; 20; 5; 9; 14; 20; 5; 9; 14; 20; 5; 9; 14; 20;
   4; 11; 16; 23; 4; 11; 16; 23; 4; 11; 16; 23; 4; 11; 16; 23;
   6; 10; 15; 21; 6; 10; 15; 21; 6; 10; 15; 21; 6; 10; 15; 21].
Definition md5_step (m : list Z) (s : Z * Z * Z * Z) (i : Z) : Z * Z * Z * Z :=
  let '(a, b, c, d) := s in
  let '(f, g) :=
    if i <? 16 then (Z.lor (Z.land b c) (Z.land (not32 b) d), i)
    else if i <? 32 then (Z.lor (Z.land d b) (Z.land (not32 d) c), (5 * i + 1) mod 16)
    else if i <? 48 then (Z.lxor b (Z.lxor c d), (3 * i + 5) mod 16)
    else (Z.lxor c (Z.lor b (not32 d)), (7 * i) mod 16) in
  let f := w32 (f + a + nthz md5_k i + nthz m g) in
  (d, add32 b (rotl32 f (nthz md5_r i)), b, c).
Definition md5_block (s : Z * Z * Z * Z) (block : list Z) : Z * Z * Z * Z :=
  let m := le_word <$> chunks 4 block in
  let '(a, b, c, d) := fold_left (md5_step m) (Z.of_nat <$> seq 0 64) s in
  let '(a0, b0, c0, d0) := s in
  (add32 a0 a, add32 b0 b, add32 c0 c, add32 d0 d).
Definition md5_sum (s : string) : list Z :=
  let '(a, b, c, d) := fold_left md5_block (chunks 64 (pad (le_bytes 8) (bytes_of s)))
    (1732584193, 4023233417, 2562383102, 271733878) in
  le_bytes 4 a ++ le_bytes 4 b ++ le_bytes 4 c ++ le_bytes 4 d.

(** ** SHA-256 *)
Definition sha_k : list Z :=
  [1116352408; 1899447441; 3049323471; 3921009573; 961987163; 1508970993; 2453635748; 2870763221;
   3624381080; 310598401; 607225278; 1426881987; 1925078388; 2162078206; 2614888103; 3248222580;
   3835390401; 4022224774; 264347078; 604807628; 770255983; 1249150122; 1555081692; 1996064986;
   2554220882; 2821834349; 2952996808; 3210313671; 3336571891; 3584528711; 113926993; 338241895;
   666307205; 773529912; 1294757372; 1396182291; 1695183700; 1986661051; 2177026350; 2456956037;
   2730485921; 2820302411; 3259730800; 3345764771; 3516065817; 3600352804; 4094571909; 275423344;
   430227734; 506948616; 659060556; 883997877; 958139571; 1322822218; 1537002063; 1747873779;
   1955562222; 2024104815; 2227730452; 2361852424; 2428436474; 2756734187; 3204031479; 3329325298].
Fixpoint sha_schedule (fuel : nat) (w : list Z) : list Z :=
  (* [w] holds the words so far, the last first *)
  match fuel with
  | O => reverse w
  | S fuel =>
      let w15 := nthz w 14 in let w2 := nthz w 1 in
      let s0 := Z.lxor (rotr32 w15 7) (Z.lxor (rotr32 w15 18) (Z.shiftr w15 3)) in
      let s1 := Z.lxor (rotr32 w2 17) (Z.lxor (rotr32 w2 19) (Z.shiftr w2 10)) in
      sha_schedule fuel (w32 (nthz w 15 + s0 + nthz w 6 + s1) :: w)
  end.
Definition sha_round (h : list Z) (kw : Z * Z) : list Z :=
  match h with
  | [a; b; c; d; e; f; g; hh] =>
      let s1 := Z.lxor (rotr32 e 6) (Z.lxor (rotr32 e 11) (rotr32 e 25)) in
      let ch := Z.lxor (Z.land e f) (Z.land (not32 e) g) in
      let t1 := w32 (hh + s1 + ch + kw.1 + kw.2) in
      let s0 := Z.lxor (rotr32 a 2) (Z.lxor (rotr32 a 13) (rotr32 a 22)) in
      let maj := Z.lxor (Z.land a b) (Z.lxor (Z.land a c) (Z.land b c)) in
      [add32 t1 (add32 s0 maj); a; b; c; add32 d t1; e; f; g]
  | _ => h
  end.
Definition sha_block (h : list Z) (block : list Z) : list Z :=
  let w := sha_schedule 48 (reverse (be_word <$> chunks 4 block)) in
  zip_with add32 h (fold_left sha_round (zip sha_k w) h).
Definition sha256_sum (s : string) : list Z :=
  fold_left sha_block (chunks 64 (pad (be_bytes 8) (bytes_of s)))
    [1779033703; 3144134277; 1013904242; 2773480762; 1359893119; 2600822924; 528734635; 1541459225]
  ≫= be_bytes 4.

(** ** Hexadecimal *)
Definition hex_digit (z : Z) : ascii :=
  ascii_of_nat (Z.to_nat (if z <? 10 then 48 + z else 87 + z)).
Definition hex_encode (bs : list Z) : string :=
  str (bs ≫= λ b, [hex_digit (b / 16); hex_digit (b mod 16)]).
Definition md5_hex (s : string) : string := hex_encode (md5_sum s).

(** HMAC-SHA256 (crypto/hmac), of a key and a message. *)
Definition bytes_string (bs : list Z) : string := str ((λ b, ascii_of_nat (Z.to_nat b)) <$> bs).
Definition hmac_sha256 (key msg : string) : list Z :=
  let k := if 64 <? slen key then sha256_sum key else bytes_of key in
  let k := k ++ replicate (64 - List.length k) 0 in
  let inner := sha256_sum (bytes_string ((λ b, Z.lxor b 54) <$> k) ^+ msg)%string in
  sha256_sum (bytes_string ((λ b, Z.lxor b 92) <$> k) ^+ bytes_string inner)%string.

(** The test vectors of the standards. *)
Example hmac_rfc4231 : hex_encode (hmac_sha256 "Jefe" "what do ya want for nothing?") =
  "5bdcc146bf60754e6a042426089575c75a003f089d2739839dec58b964ec3843"%string.
Proof. by vm_compute. Qed.
Example md5_empty : md5_hex "" = "d41d8cd98f00b204e9800998ecf8427e"%string.
Proof. by vm_compute. Qed.
Example md5_digits :
  md5_hex "12345678901234567890123456789012345678901234567890123456789012345678901234567890"
  = "57edf4a22be3c955ac49da2e2107b67a"%string.
Proof. by vm_compute. Qed.
Example sha256_abc : hex_encode (sha256_sum "abc") =
  "ba7816bf8f01cfea414140de5dae2223b00361a396177a9cb410ff61f20015ad"%string.
Proof. by vm_compute. Qed.

(** A digest in hexadecimal has a fixed length, whatever the input. *)
Lemma le_bytes_length n x : List.length (le_bytes n x) = n.
Proof. revert x. induction n; intros x; cbn; auto. Qed.
Lemma md5_sum_length s : List.length (md5_sum s) = 16%nat.
Proof.
  unfold md5_sum. destruct (fold_left _ _ _) as [[[a b] c] d].
  by rewrite !length_app, !le_bytes_length.
Qed.
