(* ===== verification/Money.v ===== *)
(** * Amounts of money and EPay signatures

    [parseAmountCents] and [centsAmountText] (decimal yuan to cents and back),
    the payment method settings, and the signed parameters of the EPay gateway
    (internal/httpapi/payment_features.go, epay_callback.go).  Go's [int64]
    arithmetic is [wrap64]. *)
From S2P Require Import Prelude GoStrings Regex GoValue Crypto.
From stdpp Require Import list sorting.
Open Scope string_scope.
Open Scope Z_scope.
Open Scope list_scope.

(** ** Amounts *)
Inductive amount_error := ErrSyntax | ErrRange.
#[export] Instance amount_error_eq_dec : EqDecision amount_error.
Proof. solve_decision. Defined.

(** [for len(frac) < 2 { frac += "0" }], on a string of at most 2 bytes. *)
Fixpoint pad_fraction (fuel : nat) (frac : string) : string :=
  match fuel with
  | O => frac
  | S fuel => if slen frac <? 2 then pad_fraction fuel (frac ^+ "0")%string else frac
  end.

Definition parseAmountCents (value : string) : result amount_error Z :=
  let value := trim_space value in
  if bool_decide (value = "") || has_prefix value "-" || has_prefix value "+" then Err ErrSyntax
  else
    let parts := GoStrings.split value "." in
    let first := default "" (head parts) in
    if (2 <? List.length parts)%nat || bool_decide (first = "") then Err ErrSyntax
    else
      let frac := default "" (parts !! 1%nat) in
      if 2 <? slen frac then Err ErrSyntax
      else
        let frac := pad_fraction 2 frac in
        match parse_int first with
        | None => Err ErrSyntax
        | Some whole =>
            if whole <? 0 then Err ErrSyntax
            else match parse_int frac with
            | None => Err ErrSyntax
            | Some minor =>
                if Z.quot (wrap64 (int64_max - minor)) 100 <? whole then Err ErrRange
                else Ok (wrap64 (wrap64 (whole * 100) + minor))
            end
        end.

(** [%02d]: at least two digits, padded with zeros; the sign counts. *)
Definition format_02d (n : Z) : string :=
  if (0 <=? n) && (n <? 10) then ("0" ^+ format_int n)%string else format_int n.
Definition centsAmountText (amount : Z) : string :=
  (format_int (Z.quot amount 100) ^+ "." ^+ format_02d (Z.rem amount 100))%string.

(** ** Payment methods *)
Record paymentMethod := { pm_Name : string; pm_Type : string; pm_MinAmountCents : Z; pm_Enabled : bool }.
Definition paymentTypePattern : regex :=
  RCat (RCls [("A", "Z"); ("a", "z"); ("0", "9")]%char)
    (rrep 0 31 (RCls [("A", "Z"); ("a", "z"); ("0", "9"); ("_", "_"); ("-", "-")]%char)).
Inductive methods_error := MethodsCount | MethodInvalid | MethodDuplicate | MethodMinimum.

(** The loop normalises the methods in place, one by one; the first bad method
    ends it. *)
Fixpoint payment_methods_loop (seen : gset string) (methods : list paymentMethod) :
    result methods_error (list paymentMethod) :=
  match methods with
  | [] => Ok []
  | m :: methods =>
      let m := {| pm_Name := trim_space (pm_Name m); pm_Type := trim_space (pm_Type m);
                  pm_MinAmountCents := pm_MinAmountCents m; pm_Enabled := pm_Enabled m |} in
      if bool_decide (pm_Name m = "") || (40 <? rune_count (pm_Name m))
         || negb (match_string paymentTypePattern (pm_Type m)) then Err MethodInvalid
      else if bool_decide (pm_Type m ∈ seen) then Err MethodDuplicate
      else if (pm_MinAmountCents m <? 100) || (100000000 <? pm_MinAmountCents m) then Err MethodMinimum
      else rest ← payment_methods_loop ({[pm_Type m]} ∪ seen) methods; Ok (m :: rest)
  end.
Definition validatedPaymentMethods (methods : list paymentMethod) :
    result methods_error (list paymentMethod) :=
  if (List.length methods =? 0)%nat || (20 <? List.length methods)%nat then Err MethodsCount
  else payment_methods_loop ∅ methods.

(** ** EPay signatures *)

(** The byte order of [sort.Strings]. *)
Fixpoint bytes_le (s t : list ascii) : bool :=
  match s, t with
  | [], _ => true
  | _ :: _, [] => false
  | a :: s, b :: t =>
      if (code a <? code b)%nat then true else if (code b <? code a)%nat then false else bytes_le s t
  end.
Definition string_le (s t : string) : Prop := bytes_le (chars s) (chars t) = true.
#[export] Instance string_le_dec : RelDecision string_le.
Proof. intros s t. unfold string_le. apply _. Defined.

Definition signed_pair (kv : string * string) : bool :=
  negb (bool_decide (kv.1 = "sign")) && negb (bool_decide (kv.1 = "sign_type"))
  && negb (bool_decide (kv.2 = "")).
Section signature.
Context `{GoRange}.
Definition signed_keys (values : gmap string string) : list string :=
  merge_sort string_le (List.filter signed_pair (go_range values)).*1.
Definition signed_text (values : gmap string string) : string :=
  GoStrings.join "&" ((λ k, k ^+ "=" ^+ default "" (values !! k))%string <$> signed_keys values).
Definition epaySignature (values : gmap string string) (secret : string) : string :=
  md5_hex (signed_text values ^+ secret)%string.
End signature.

(** ** Callbacks *)
Record providerCallback := { cb_OrderID : string; cb_AmountCents : Z; cb_ProviderRef : string; cb_Succeeded : bool }.
Inductive callback_error := CallbackFields | CallbackSignature | CallbackAmount (e : amount_error).

(** url.Values: [form.Get] is the first value of a key, or the empty string. *)
Definition form_get (form : gmap string (list string)) (key : string) : string :=
  default "" (vs ← form !! key; head vs).
Definition form_values (form : gmap string (list string)) : gmap string string :=
  (λ vs, default "" (head vs)) <$> form.
Definition value_of (values : gmap string string) (key : string) : string :=
  default "" (values !! key).

Section callback.
Context `{GoRange} `{UnicodeLower}.
Definition verifyEPayCallback (form : gmap string (list string)) (merchant secret : string) :
    result callback_error providerCallback :=
  let values := form_values form in
  let orderID := trim_space (value_of values "out_trade_no") in
  let tradeNo := trim_space (value_of values "trade_no") in
  let amountText := trim_space (value_of values "money") in
  let status := trim_space (value_of values "trade_status") in
  if bool_decide (orderID = "") || bool_decide (tradeNo = "") || bool_decide (amountText = "")
     || bool_decide (status = "") || negb (bool_decide (value_of values "pid" = merchant))
     || negb (equal_fold (value_of values "sign_type") "MD5")
  then Err CallbackFields
  else if negb (bool_decide (to_lower (value_of values "sign") = epaySignature values secret))
  then Err CallbackSignature
  else match parseAmountCents amountText with
  | Err e => Err (CallbackAmount e)
  | Ok amount => Ok {| cb_OrderID := orderID; cb_AmountCents := amount; cb_ProviderRef := tradeNo;
                       cb_Succeeded := bool_decide (status = "SUCCESS") || bool_decide (status = "TRADE_SUCCESS") |}
  end.
End callback.

(** ** Correctness of the amounts *)
Example parse_plain : parseAmountCents " 12.5 " = Ok 1250.
Proof. by_eval. Qed.
Example parse_three_digits : parseAmountCents "1.234" = Err ErrSyntax.
Proof. by_eval. Qed.

(** A parsed fraction: at most two characters, padded to two. *)
Lemma split_digits a b :
  Forall is_digit a → Forall is_digit b → split_l "." (a ++ "."%char :: b) = [a; b].
Proof.
  assert (∀ l, Forall is_digit l → "."%char ∉ l) as H.
  { intros l Hl Hin. rewrite Forall_forall in Hl. destruct (Hl _ Hin) as [H1 _].
    assert (code "."%char = 46%nat) as E by done. rewrite E in H1. lia. }
  intros Ha Hb. rewrite split_l_app by auto. by rewrite split_l_last by auto.
Qed.
Lemma format_02d_digits n : 0 <= n < 100 →
  ∃ a b, format_02d n = str [digit_char a; digit_char b] ∧ 0 <= a < 10 ∧ 0 <= b < 10 ∧ n = 10 * a + b.
Proof.
  intros Hn. exists (n / 10), (n mod 10).
  assert (format_02d n = str [digit_char (n / 10); digit_char (n mod 10)]) as ->.
  { assert (n ∈ Z.of_nat <$> seq 0 100) as Hin.
    { apply list_elem_of_fmap. exists (Z.to_nat n). split; [lia|]. apply elem_of_seq. lia. }
    revert Hin. generalize n. apply Forall_forall. repeat constructor; by vm_compute. }
  split; [done|]. pose proof (Z.div_mod n 10). pose proof (Z.mod_pos_bound n 10). 
  assert (n / 10 < 10) by (apply Z.div_lt_upper_bound; lia).
  assert (0 <= n / 10) by (apply Z.div_pos; lia). lia.
Qed.

Lemma dot_plain : plain "."%char.
Proof. by_eval. Qed.
(** The text of a decimal with two fraction digits. *)
Lemma parse_amount_plain ds fs w m :
  parse_digits 0 ds = Some w → ds ≠ [] → parse_digits 0 fs = Some m → List.length fs = 2%nat →
  w * 100 + m <= int64_max →
  parseAmountCents (str (ds ++ "."%char :: fs)) = Ok (w * 100 + m).
Proof.
  intros Hw Hne Hm Hlen Hmax.
  pose proof (parse_digits_all _ _ _ Hw) as Hds. pose proof (parse_digits_all _ _ _ Hm) as Hfs.
  pose proof (parse_digits_bound _ _ _ Hw ltac:(lia)) as Hw0.
  pose proof (parse_digits_bound _ _ _ Hm ltac:(lia)) as Hm0.
  unfold parseAmountCents. rewrite trim_space_plain.
  2: { rewrite chars_str. apply Forall_app. split; [|constructor; [exact dot_plain|]].
       - eapply Forall_impl; [exact Hds|apply is_digit_plain].
       - eapply Forall_impl; [exact Hfs|apply is_digit_plain]. }
  destruct ds as [|c ds]; [done|]. pose proof Hds as Hds'. apply Forall_cons in Hds' as [Hc _].
  assert (∀ x, ¬ is_digit x → has_prefix (str ((c :: ds) ++ "."%char :: fs)) (str [x]) = false) as Hpre.
  { intros x Hx. unfold has_prefix. rewrite !chars_str. cbn.
    by rewrite bool_decide_eq_false_2 by (intros ->; done). }
  rewrite (bool_decide_eq_false_2 (_ = "")).
  2: { intros E. apply (f_equal chars) in E. rewrite chars_str in E. done. }
  change "-"%string with (str ["-"%char]). change "+"%string with (str ["+"%char]).
  rewrite !Hpre by by_eval. cbn [orb].
  assert (GoStrings.split (str ((c :: ds) ++ "."%char :: fs)) "." = [str (c :: ds); str fs]) as ->.
  { unfold GoStrings.split. by rewrite chars_str, split_digits. }
  cbn [List.length head list_lookup lookup from_option id]. 
  rewrite (bool_decide_eq_false_2 (_ = "")).
  2: { intros E. apply (f_equal chars) in E. rewrite chars_str in E. done. }
  assert (slen (str fs) = 2) as Hs by (unfold slen; rewrite chars_str; lia).
  cbn [Nat.ltb Nat.leb orb pad_fraction]. rewrite Hs. cbn.
  rewrite (parse_int_digits _ w), (parse_int_digits _ m) by (done || lia || (by destruct fs)).
  rewrite (proj2 (Z.ltb_ge _ _)) by lia.
  unfold int64_max in *. rewrite (wrap64_id (_ - m)), (wrap64_id (w * 100)), (wrap64_id (_ + _))
    by (unfold is_int64, int64_min, int64_max; lia).
  rewrite Z.quot_div_nonneg by lia.
  rewrite (proj2 (Z.ltb_ge _ _)); [done|]. apply Z.div_le_lower_bound; lia.
Qed.

(** C26: what [centsAmountText] prints for a non-negative amount of cents,
    [parseAmountCents] reads back as the same amount: the money text of a
    checkout page and of its callback agree. *)
Theorem parse_centsAmountText amount :
  0 <= amount <= int64_max → parseAmountCents (centsAmountText amount) = Ok amount.
Proof.
  intros Ha. unfold centsAmountText.
  rewrite Z.quot_div_nonneg, Z.rem_mod_nonneg by lia.
  pose proof (Z.mod_pos_bound amount 100 ltac:(lia)) as Hr.
  pose proof (Z.div_pos amount 100 ltac:(lia) ltac:(lia)) as Hq.
  pose proof (Z.div_mod amount 100 ltac:(lia)) as Hqr.
  destruct (format_02d_digits _ Hr) as (a & b & -> & Hda & Hdb & Hrab).
  unfold format_int. rewrite (proj2 (Z.ltb_ge _ _)) by done.
  replace (str (format_nat (amount / 100)) ^+ "." ^+ str [digit_char a; digit_char b])%string
    with (str (format_nat (amount / 100) ++ "."%char :: [digit_char a; digit_char b])).
  2: { change ("."%char :: ?l) with (chars "." ++ l). by rewrite !str_app, str_chars. }
  rewrite (parse_amount_plain _ _ (amount / 100) (10 * a + b)).
  - f_equal. lia.
  - by apply parse_format_nat.
  - apply format_nat_nonempty.
  - cbn [parse_digits]. by rewrite !digit_val_char by done.
  - done.
  - lia.
Qed.
Lemma parse_centsAmountText_witness :
  0 <= 1250 <= int64_max ∧ parseAmountCents (centsAmountText 1250) = Ok 1250.
Proof. split; [by vm_compute|]. apply (parse_centsAmountText 1250). by vm_compute. Defined.

(** ** Bounds *)
(** A text of two bytes is a number between -9 and 99. *)
Lemma signed_digits (neg : bool) ds z :
  (List.length ds <= if neg then 1 else 2)%nat →
  match ds with
  | [] => None
  | _ => match parse_digits 0 ds with
         | Some v => let z := if neg then (- v)%Z else v in
                     if (int64_min <=? z)%Z && (z <=? int64_max)%Z then Some z else None
         | None => None
         end
  end = Some z → -9 <= z <= 99.
Proof.
  intros Hl. destruct ds as [|c ds]; [done|].
  destruct (parse_digits 0 (c :: ds)) as [v|] eqn:Ev; [|done]. cbv zeta.
  destruct (_ && _); [|done]. intros [= <-].
  pose proof (parse_digits_bound _ _ _ Ev ltac:(lia)) as Hb.
  destruct neg.
  - assert (10 ^ Z.of_nat (List.length (c :: ds)) <= 10 ^ 1) by (apply Z.pow_le_mono_r; lia). lia.
  - assert (10 ^ Z.of_nat (List.length (c :: ds)) <= 10 ^ 2) by (apply Z.pow_le_mono_r; lia). lia.
Qed.
Lemma parse_int_two s z : slen s <= 2 → parse_int s = Some z → -9 <= z <= 99.
Proof.
  unfold slen, parse_int. intros Hl.
  destruct (chars s) as [|c l]; [done|]. cbn [List.length] in Hl.
  destruct (bool_decide (c = "-"%char)); [|destruct (bool_decide (c = "+"%char))].
  - apply (signed_digits true l). lia.
  - apply (signed_digits false l). lia.
  - apply (signed_digits false (c :: l)). cbn [List.length]. lia.
Qed.
Lemma pad_fraction_len frac : slen frac <= 2 → slen (pad_fraction 2 frac) <= 2.
Proof.
  intros H. cbn [pad_fraction].
  assert (∀ s, slen (s ^+ "0") = slen s + 1) as Ha.
  { intros s. unfold slen. rewrite chars_app, length_app. change (List.length (chars "0")) with 1%nat. lia. }
  destruct (slen frac <? 2) eqn:E; bool_hyps; [|done].
  destruct (slen (frac ^+ "0") <? 2) eqn:E'; bool_hyps; rewrite ?Ha in *; lia.
Qed.

(** An amount that [parseAmountCents] accepts is never negative and never
    the result of a wrapped multiplication or addition: it is exactly a hundred
    times the parsed whole part plus the two parsed fraction digits, within
    int64. *)
Theorem parseAmountCents_exact value amount :
  parseAmountCents value = Ok amount →
  0 <= amount <= int64_max ∧
  ∃ first frac whole minor,
    (GoStrings.split (trim_space value) "." = [first] ∧ frac = "" ∨
     GoStrings.split (trim_space value) "." = [first; frac]) ∧
    parse_int first = Some whole ∧ parse_int (pad_fraction 2 frac) = Some minor ∧
    0 <= whole ∧ 0 <= minor <= 99 ∧ amount = 100 * whole + minor.
Proof.
  unfold parseAmountCents. destruct (_ || _ || _); [done|].
  destruct (GoStrings.split _ _) as [|first parts] eqn:Es; [done|].
  destruct (_ || _) eqn:El; [done|]. apply orb_false_iff in El as [El _]. bool_hyps.
  set (frac := default "" ((first :: parts) !! 1%nat)).
  destruct (2 <? slen frac) eqn:Ef; [done|]. bool_hyps. cbn [head from_option id].
  destruct (parse_int first) as [whole|] eqn:Ew; [|done].
  destruct (whole <? 0) eqn:E0; [done|]. bool_hyps.
  destruct (parse_int (pad_fraction 2 frac)) as [minor|] eqn:Em; [|done].
  destruct (_ <? whole) eqn:Er; [done|]. bool_hyps. intros [= <-].
  pose proof (parse_int_range _ _ Ew) as Hw.
  pose proof (parse_int_two _ _ (pad_fraction_len _ Ef) Em) as Hm.
  unfold is_int64, int64_min, int64_max in *.
  assert (0 <= minor) as Hm0.
  { destruct (Z.le_gt_cases 0 minor) as [|Hneg]; [done|exfalso].
    assert (wrap64 (2 ^ 63 - 1 - minor) < 0) as Hwrap.
    { unfold wrap64. replace (2 ^ 63 - 1 - minor + 2 ^ 63) with (1 * 2 ^ 64 + (- minor - 1)) by lia.
      rewrite Z.add_comm, Z.mod_add by lia. rewrite Z.mod_small by lia. lia. }
    pose proof (wrap64_range (2 ^ 63 - 1 - minor)) as Hrng. unfold is_int64, int64_min, int64_max in Hrng.
    pose proof (Z.quot_opp_l (wrap64 (2 ^ 63 - 1 - minor)) 100 ltac:(lia)) as Ho.
    rewrite (Z.quot_div_nonneg (- _)) in Ho by lia.
    assert (1 <= - wrap64 (2 ^ 63 - 1 - minor) / 100); [|lia].
    apply Z.div_le_lower_bound; [lia|]. 
    unfold wrap64. replace (2 ^ 63 - 1 - minor + 2 ^ 63) with (1 * 2 ^ 64 + (- minor - 1)) by lia.
    rewrite Z.add_comm, Z.mod_add by lia. rewrite Z.mod_small by lia. lia. }
  rewrite (wrap64_id (2 ^ 63 - 1 - minor)) in Er by (unfold is_int64, int64_min, int64_max; lia).
  rewrite Z.quot_div_nonneg in Er by lia.
  assert (whole * 100 + minor <= 2 ^ 63 - 1) as Hmax.
  { pose proof (Z.mul_div_le (2 ^ 63 - 1 - minor) 100 ltac:(lia)). lia. }
  rewrite (wrap64_id (whole * 100)), wrap64_id by (unfold is_int64, int64_min, int64_max; lia).
  split; [lia|]. exists first, frac, whole, minor. split_and!; try done; try lia.
  destruct parts as [|p [|]]; cbn in El; [by left|by right|lia].
Qed.
Lemma parseAmountCents_exact_witness :
  parseAmountCents "12.50" = Ok 1250 ∧ 0 <= 1250 <= int64_max.
Proof. split; [by_eval|]. by apply (parseAmountCents_exact "12.50"); by_eval. Defined.

(** The fraction goes through ParseInt, so a sign in it is accepted. *)
Example parse_signed_fraction : parseAmountCents "1.+5" = Ok 105 ∧ parseAmountCents "1.-" = Ok 100.
Proof. split; by_eval. Qed.

(** ** Signatures *)
#[export] Instance string_le_antisym : AntiSymm (=) string_le.
Proof.
  assert (∀ s t, bytes_le s t = true → bytes_le t s = true → s = t) as H.
  { induction s as [|a s IH]; intros [|b t]; cbn [bytes_le]; try done.
    destruct (code a <? code b)%nat eqn:E1, (code b <? code a)%nat eqn:E2; bool_hyps; intros;
      try done; try (exfalso; lia); f_equal; [apply (inj code); lia|auto]. }
  intros s t Hst Hts. apply (inj chars). by apply H.
Qed.
#[export] Instance string_le_total : Total string_le.
Proof.
  assert (∀ s t, bytes_le s t = true ∨ bytes_le t s = true) as H.
  { induction s as [|a s IH]; intros [|b t]; cbn [bytes_le]; auto.
    destruct (code a <? code b)%nat eqn:E1, (code b <? code a)%nat eqn:E2; auto. }
  intros s t. apply H.
Qed.
#[export] Instance string_le_trans : Transitive string_le.
Proof.
  assert (∀ s t u, bytes_le s t = true → bytes_le t u = true → bytes_le s u = true) as H.
  { induction s as [|a s IH]; intros [|b t] [|c u]; cbn [bytes_le]; try done.
    destruct (code a <? code b)%nat eqn:E1, (code b <? code a)%nat eqn:E2,
      (code b <? code c)%nat eqn:E3, (code c <? code b)%nat eqn:E4,
      (code a <? code c)%nat eqn:E5, (code c <? code a)%nat eqn:E6;
      bool_hyps; try done; try (exfalso; lia); eauto. }
  intros s t u. apply H.
Qed.

Lemma filter_perm {A} (p : A → bool) l k : l ≡ₚ k → List.filter p l ≡ₚ List.filter p k.
Proof.
  induction 1 as [|x l k _ IH|x y l|l k m _ IH1 _ IH2]; cbn; [done|..].
  - by destruct (p x); rewrite ?IH.
  - destruct (p x), (p y); try done. by constructor.
  - by rewrite IH1.
Qed.

(** C27: the signature of a set of parameters does not depend on the order in
    which Go ranges over them: both sides of a payment compute the same
    signature from the same parameters and the same secret. *)
Theorem epaySignature_order (r1 r2 : GoRange) values secret :
  @epaySignature r1 values secret = @epaySignature r2 values secret.
Proof.
  assert (@signed_keys r1 values = @signed_keys r2 values) as E.
  { unfold signed_keys.
    apply (StronglySorted_unique string_le); [apply StronglySorted_merge_sort; apply _..|].
    rewrite !merge_sort_Permutation. apply fmap_Permutation, filter_perm.
    by rewrite !go_range_perm. }
  unfold epaySignature, signed_text. by rewrite E.
Qed.

(** A callback is accepted only when its lower-cased signature is the
    digest of its other non-empty parameters and the merchant's secret, when it
    names the configured merchant, an order, a trade and a status, and its
    amount is the exact amount of its money text; it counts as a payment
    exactly for the two success statuses. *)
Theorem verifyEPayCallback_sound `{GoRange} `{UnicodeLower} form merchant secret cb :
  verifyEPayCallback form merchant secret = Ok cb →
  let v := value_of (form_values form) in
  to_lower (v "sign") = md5_hex (signed_text (form_values form) ^+ secret) ∧
  v "pid" = merchant ∧ equal_fold (v "sign_type") "MD5" = true ∧
  cb_OrderID cb = trim_space (v "out_trade_no") ∧ cb_OrderID cb ≠ "" ∧
  cb_ProviderRef cb = trim_space (v "trade_no") ∧ cb_ProviderRef cb ≠ "" ∧
  parseAmountCents (trim_space (v "money")) = Ok (cb_AmountCents cb) ∧
  (cb_Succeeded cb = true ↔ trim_space (v "trade_status") ∈ ["SUCCESS"; "TRADE_SUCCESS"]).
Proof.
  unfold verifyEPayCallback. destruct (_ || _) eqn:E; [done|]. bool_hyps.
  destruct (negb (bool_decide (to_lower _ = _))) eqn:Es; [done|]. bool_hyps.
  destruct (parseAmountCents _) as [amount|] eqn:Ea; [|done]. intros [= <-]. cbn.
  split_and!; try done. rewrite orb_true_iff, !bool_decide_eq_true. set_solver.
Qed.
Definition example_form : gmap string (list string) :=
  {["pid" := ["1001"]; "out_trade_no" := ["o-1"]; "trade_no" := ["t-9"]; "money" := ["12.50"];
    "trade_status" := ["TRADE_SUCCESS"]; "sign_type" := ["MD5"];
    "sign" := ["78AD3E53816C9A986C2889AAC2B45BD5"]]}.

Definition example_callback : providerCallback :=
  {| cb_OrderID := "o-1"; cb_AmountCents := 1250; cb_ProviderRef := "t-9"; cb_Succeeded := true |}.
Lemma verifyEPayCallback_sound_witness :
  @verifyEPayCallback map_order AsciiLower example_form "1001" "secret" = Ok example_callback ∧
  parseAmountCents (trim_space (value_of (form_values example_form) "money")) = Ok 1250.
Proof.
  split; [by vm_compute|].
  apply (@verifyEPayCallback_sound map_order AsciiLower example_form "1001" "secret" example_callback).
  by vm_compute.
Defined.
