(* ===== verification/Tx.v ===== *)
(** * Transactions

    The handlers of the control plane and of the worker run their SQL inside
    one [pgx.Tx]: [BeginTx], a sequence of statements, [Commit], and a deferred
    [Rollback] that undoes the work of every path that did not commit.  A
    handler is a program of the monad [tx D R]: [D] is the database, [R] the
    handler's answer (an HTTP response, or nothing for a worker loop).

    Every interaction with PostgreSQL can fail: an [oracle] decides, per
    interaction, whether it succeeds, fails, or (for a commit) takes effect
    although the client sees an error.  A failed statement aborts the
    transaction: PostgreSQL refuses the statements that follow and turns
    [COMMIT] into a rollback.  [pgx.ErrNoRows] does not abort.  Deferred
    constraint triggers run when the transaction commits. *)
From S2P Require Import Prelude.
From stdpp Require Import list.

Inductive sqlerr :=
  | NoRows                    (* pgx.ErrNoRows *)
  | Unavailable               (* connection, serialization or deadlock error *)
  | Constraint (name : string) (* a CHECK, UNIQUE, FOREIGN KEY or trigger *)
  | OutOfRange                (* bigint out of range *)
  | TxDone.                   (* the transaction is aborted or closed *)

Inductive verdict := Succeeds | Fails | FailsApplied.
Definition oracle := nat → verdict.
Definition no_faults : oracle := λ _, Succeeds.

Section tx.
Context {D R : Type}.

Inductive status := Open | Aborted | Closed.
Record txst := { work : D; st : status; committed : option D;
                 deferred : list (D → bool); tick : nat }.

(** A program ends with a value, with an error of a statement that nobody
    handled, or with an early [return]. *)
Inductive out (A : Type) := Val (a : A) | Throw (e : sqlerr) | Exit (r : R).
Arguments Val {A} a.
Arguments Throw {A} e.
Arguments Exit {A} r.

Definition tx (A : Type) := oracle → txst → out A * txst.

#[export] Instance tx_ret : MRet tx := λ A a _ s, (Val a, s).
#[export] Instance tx_bind : MBind tx := λ A B f m orc s,
  match m orc s with
  | (Val a, s) => f a orc s
  | (Throw e, s) => (Throw e, s)
  | (Exit r, s) => (Exit r, s)
  end.
Definition throw {A} (e : sqlerr) : tx A := λ _ s, (Throw e, s).
Definition exit {A} (r : R) : tx A := λ _ s, (Exit r, s).
(** [if err = m; err != nil { h err }]. *)
Definition handle {A} (m : tx A) (h : sqlerr → tx A) : tx A := λ orc s,
  match m orc s with
  | (Throw e, s) => h e orc s
  | r => r
  end.
(** [err == pgx.ErrNoRows], every other error being passed on. *)
Definition on_no_rows {A} (m h : tx A) : tx A :=
  handle m (λ e, match e with NoRows => h | _ => throw e end).
(** The row, or [None] when there is none. *)
Definition optional {A} (m : tx A) : tx (option A) :=
  on_no_rows (a ← m; mret (Some a)) (mret None).
(** [if err != nil { answer r }], whatever the error. *)
Definition on_error {A} (m : tx A) (r : R) : tx A := handle m (λ _, exit r).
(** [_ = m]: the error is dropped. *)
Definition ignore (m : tx unit) : tx unit := handle m (λ _, mret tt).
Definition guard_exit (b : bool) (r : R) : tx unit := if b then exit r else mret tt.

(** ** Talking to the database *)
Definition begin_tx : tx unit := λ orc s,
  let with_ t := {| work := work s; st := t; committed := committed s;
                    deferred := deferred s; tick := S (tick s) |} in
  match orc (tick s) with
  | Succeeds => (Val tt, with_ (st s))
  | _ => (Throw Unavailable, with_ Aborted)
  end.

(** A query on the pool, outside of the transaction, against the database [d]
    of that moment. *)
Definition pool {A} (d : D) (q : D → result sqlerr A) : tx A := λ orc s,
  let s' := {| work := work s; st := st s; committed := committed s;
               deferred := deferred s; tick := S (tick s) |} in
  match orc (tick s) with
  | Succeeds => match q d with Ok a => (Val a, s') | Err e => (Throw e, s') end
  | _ => (Throw Unavailable, s')
  end.

Definition stmt {A} (f : D → result sqlerr (A * D)) : tx A := λ orc s,
  let with_ w t := {| work := w; st := t; committed := committed s;
                      deferred := deferred s; tick := S (tick s) |} in
  match st s with
  | Open =>
      match orc (tick s) with
      | Succeeds =>
          match f (work s) with
          | Ok (a, w) => (Val a, with_ w Open)
          | Err NoRows => (Throw NoRows, with_ (work s) Open)
          | Err e => (Throw e, with_ (work s) Aborted)
          end
      | _ => (Throw Unavailable, with_ (work s) Aborted)
      end
  | _ => (Throw TxDone, with_ (work s) (st s))
  end.
Definition query {A} (q : D → result sqlerr A) : tx A :=
  stmt (λ d, match q d with Ok a => Ok (a, d) | Err e => Err e end).
Definition exec (f : D → result sqlerr D) : tx unit :=
  stmt (λ d, match f d with Ok d => Ok (tt, d) | Err e => Err e end).
(** A row trigger that is [DEFERRABLE INITIALLY DEFERRED]. *)
Definition defer (check : D → bool) : tx unit := λ _ s,
  (Val tt, {| work := work s; st := st s; committed := committed s;
              deferred := check :: deferred s; tick := tick s |}).

Definition commit : tx unit := λ orc s,
  let closed c := {| work := work s; st := Closed; committed := c;
                     deferred := deferred s; tick := S (tick s) |} in
  match st s with
  | Open =>
      if forallb (λ check, check (work s)) (deferred s) then
        match orc (tick s) with
        | Succeeds => (Val tt, closed (Some (work s)))
        | Fails => (Throw Unavailable, closed (committed s))
        | FailsApplied => (Throw Unavailable, closed (Some (work s)))
        end
      else (Throw (Constraint "deferred"), closed (committed s))
  | _ => (Throw TxDone, closed (committed s))
  end.

Fixpoint for_each {A} (f : A → tx unit) (xs : list A) : tx unit :=
  match xs with [] => mret tt | x :: xs => f x;; for_each f xs end.

(** [run on_err m orc d]: the answer of the handler and the database after it.
    An error that the program leaves unhandled is answered by [on_err]
    (s.internalError); without a commit the deferred rollback restores [d]. *)
Definition start (d : D) : txst :=
  {| work := d; st := Open; committed := None; deferred := []; tick := 0 |}.
Definition run (on_err : sqlerr → R) (m : tx R) (orc : oracle) (d : D) : R * D :=
  let '(o, s) := m orc (start d) in
  (match o with Val r | Exit r => r | Throw e => on_err e end, default d (committed s)).

(** ** Runs without faults

    [wp m Φ s]: when no interaction fails, [m] ends in [Φ] from [s]. *)
Definition wp {A} (m : tx A) (Φ : out A → txst → Prop) (s : txst) : Prop :=
  let '(o, s') := m no_faults s in Φ o s'.

Definition live (w : D) (dl : list (D → bool)) (n : nat) : txst :=
  {| work := w; st := Open; committed := None; deferred := dl; tick := n |}.
Definition aborted (w : D) (dl : list (D → bool)) (n : nat) : txst :=
  {| work := w; st := Aborted; committed := None; deferred := dl; tick := n |}.
Definition ended (w : D) (c : option D) (dl : list (D → bool)) (n : nat) : txst :=
  {| work := w; st := Closed; committed := c; deferred := dl; tick := n |}.

Definition finish (on_err : sqlerr → R) (d : D) (o : out R) (s : txst) : R * D :=
  (match o with Val r | Exit r => r | Throw e => on_err e end, default d (committed s)).

Lemma run_wp on_err m d (Φ : R * D → Prop) :
  wp m (λ o s, Φ (finish on_err d o s)) (live d [] 0) → Φ (run on_err m no_faults d).
Proof.
  unfold wp, run. change (start d) with (live d [] 0). by destruct (m no_faults (live d [] 0)).
Qed.

Section rules.
Context {A : Type}.
Implicit Types Φ : out A → txst → Prop.

Lemma wp_mono (m : tx A) Φ (Ψ : out A → txst → Prop) s :
  (∀ o s', Φ o s' → Ψ o s') → wp m Φ s → wp m Ψ s.
Proof. unfold wp. destruct (m no_faults s). auto. Qed.
Lemma wp_ret (a : A) Φ s : Φ (Val a) s → wp (mret a) Φ s.
Proof. done. Qed.
Lemma wp_throw e Φ s : Φ (Throw e) s → wp (throw e) Φ s.
Proof. done. Qed.
Lemma wp_exit r Φ s : Φ (Exit r) s → wp (exit r) Φ s.
Proof. done. Qed.
Lemma wp_bind {B} (m : tx B) (k : B → tx A) Φ s :
  wp m (λ o s', match o with
                | Val a => wp (k a) Φ s'
                | Throw e => Φ (Throw e) s'
                | Exit r => Φ (Exit r) s' end) s →
  wp (m ≫= k) Φ s.
Proof. unfold wp, mbind, tx_bind. by destruct (m no_faults s) as [[a|e|r] s']. Qed.
Lemma wp_handle (m : tx A) (h : sqlerr → tx A) Φ s :
  wp m (λ o s', match o with Throw e => wp (h e) Φ s' | o => Φ o s' end) s →
  wp (handle m h) Φ s.
Proof. unfold wp, handle. by destruct (m no_faults s) as [[a|e|r] s']. Qed.
Lemma wp_pool d (q : D → result sqlerr A) Φ w dl n :
  match q d with Ok a => Φ (Val a) (live w dl (S n)) | Err e => Φ (Throw e) (live w dl (S n)) end →
  wp (pool d q) Φ (live w dl n).
Proof. unfold wp, pool. cbn. by destruct (q d). Qed.
(** The error of a statement either is [NoRows], or aborts the transaction. *)
Lemma wp_stmt (g : D → result sqlerr (A * D)) Φ w dl n :
  match g w with
  | Ok (a, w') => Φ (Val a) (live w' dl (S n))
  | Err NoRows => Φ (Throw NoRows) (live w dl (S n))
  | Err e => Φ (Throw e) (aborted w dl (S n))
  end → wp (stmt g) Φ (live w dl n).
Proof. unfold wp, stmt. cbn. by destruct (g w) as [[a w']|[]]. Qed.
Lemma wp_query (q : D → result sqlerr A) Φ w dl n :
  match q w with
  | Ok a => Φ (Val a) (live w dl (S n))
  | Err NoRows => Φ (Throw NoRows) (live w dl (S n))
  | Err e => Φ (Throw e) (aborted w dl (S n))
  end → wp (query q) Φ (live w dl n).
Proof. intros H. apply wp_stmt. by destruct (q w). Qed.
End rules.

Lemma wp_guard (b : bool) (r : R) (Φ : out unit → txst → Prop) s :
  (b = true → Φ (Exit r) s) → (b = false → Φ (Val tt) s) → wp (guard_exit b r) Φ s.
Proof. destruct b; intros H1 H2; [by apply H1|by apply H2]. Qed.
Lemma wp_pass (b : bool) (r : R) (Φ : out unit → txst → Prop) s :
  b = false → Φ (Val tt) s → wp (guard_exit b r) Φ s.
Proof. by intros ->. Qed.
Lemma wp_begin (Φ : out unit → txst → Prop) w dl n :
  Φ (Val tt) (live w dl (S n)) → wp begin_tx Φ (live w dl n).
Proof. done. Qed.
Lemma wp_exec (g : D → result sqlerr D) (Φ : out unit → txst → Prop) w dl n :
  match g w with
  | Ok w' => Φ (Val tt) (live w' dl (S n))
  | Err NoRows => Φ (Throw NoRows) (live w dl (S n))
  | Err e => Φ (Throw e) (aborted w dl (S n))
  end → wp (exec g) Φ (live w dl n).
Proof. intros H. apply wp_stmt. by destruct (g w). Qed.
Lemma wp_defer check (Φ : out unit → txst → Prop) w dl n :
  Φ (Val tt) (live w (check :: dl) n) → wp (defer check) Φ (live w dl n).
Proof. done. Qed.
Lemma wp_commit (Φ : out unit → txst → Prop) w dl n :
  (if forallb (λ check, check w) dl then Φ (Val tt) (ended w (Some w) dl (S n))
   else Φ (Throw (Constraint "deferred")) (ended w None dl (S n))) →
  wp commit Φ (live w dl n).
Proof. unfold wp, commit. cbn. by destruct (forallb _ _). Qed.
Lemma wp_for_each {A} (g : A → tx unit) (I : list A → txst → Prop)
    (Φ : out unit → txst → Prop) xs s :
  (∀ x xs s, I (x :: xs) s →
     wp (g x) (λ o s', match o with Val _ => I xs s' | o => Φ o s' end) s) →
  (∀ s, I [] s → Φ (Val tt) s) →
  I xs s → wp (for_each g xs) Φ s.
Proof.
  intros Hstep Hend. revert s. induction xs as [|x xs IH]; intros s HI; cbn.
  - by apply wp_ret, Hend.
  - apply wp_bind. eapply wp_mono; [|by apply Hstep].
    intros [[]|e|r] s'; [apply IH|done|done].
Qed.

(** ** Faults

    A program is [Atomic] when, whatever fails, it leaves either the database
    it found or the one of the run without faults; [strict] programs moreover
    report every fault as an error. *)
Definition inert (s : txst) : Prop := st s ≠ Open.
Definition failed {A} (strict : bool) (o : out A) (s : txst) : Prop :=
  (∃ e, o = Throw e ∧ e ≠ NoRows) ∨ (strict = false ∧ (inert s ∨ ∃ r, o = Exit r)).

Class Atomic (strict : bool) {A} (m : tx A) : Prop := {
  at_inert : ∀ orc s, inert s → inert (m orc s).2 ∧ committed (m orc s).2 = committed s;
  at_commit : ∀ orc s, committed (m orc s).2 = committed s ∨ inert (m orc s).2;
  at_faults : ∀ orc s, m orc s = m no_faults s ∨
    failed strict (m orc s).1 (m orc s).2 ∧
    (committed (m orc s).2 = committed s ∨
     committed (m orc s).2 = committed (m no_faults s).2)
}.

(** A program that does not talk to the database. *)
Lemma atomic_const strict {A} (o : out A) : Atomic strict (λ _ s, (o, s)).
Proof. constructor; cbn; auto. Qed.

Section instances.
Context (strict : bool).
#[export] Instance atomic_ret A (a : A) : Atomic strict (mret a).
Proof. apply atomic_const. Qed.
#[export] Instance atomic_throw A e : Atomic strict (@throw A e).
Proof. apply atomic_const. Qed.
#[export] Instance atomic_exit A r : Atomic strict (@exit A r).
Proof. apply atomic_const. Qed.
#[export] Instance atomic_guard b r : Atomic strict (guard_exit b r).
Proof. unfold guard_exit. destruct b; apply _. Qed.
#[export] Instance atomic_defer c : Atomic strict (defer c).
Proof. constructor; cbn; auto. Qed.
#[export] Instance atomic_begin : Atomic strict begin_tx.
Proof.
  constructor; intros orc s; unfold begin_tx; cbn.
  - intros Hs. destruct (orc (tick s)); cbn; [done|..]; by split.
  - destruct (orc (tick s)); cbn; auto.
  - destruct (orc (tick s)); cbn; auto; right; (split; [left; eauto|by left]).
Qed.
#[export] Instance atomic_pool A d (q : D → result sqlerr A) : Atomic strict (pool d q).
Proof.
  constructor; intros orc s; unfold pool; cbn.
  - destruct (orc (tick s)), (q d); cbn; auto.
  - destruct (orc (tick s)), (q d); cbn; auto.
  - destruct (orc (tick s)); [auto|..]; right; (split; [left; eauto|by left]).
Qed.
#[export] Instance atomic_stmt A (g : D → result sqlerr (A * D)) : Atomic strict (stmt g).
Proof.
  constructor; intros orc s; unfold stmt.
  - unfold inert. by destruct (st s).
  - destruct (st s); cbn; auto. destruct (orc (tick s)); auto.
    destruct (g (work s)) as [[? ?]|[]]; auto.
  - destruct (st s); cbn; [|by auto..]. destruct (orc (tick s)); [by auto|..];
      right; (split; [left; eauto|by left]).
Qed.
#[export] Instance atomic_query A (q : D → result sqlerr A) : Atomic strict (query q).
Proof. apply atomic_stmt. Qed.
#[export] Instance atomic_exec (g : D → result sqlerr D) : Atomic strict (exec g).
Proof. apply atomic_stmt. Qed.
#[export] Instance atomic_commit : Atomic strict commit.
Proof.
  constructor; intros orc s; unfold commit.
  - unfold inert. by destruct (st s).
  - right. unfold inert. destruct (st s); [|done..]. destruct (forallb _ _); [|done].
    by destruct (orc (tick s)).
  - destruct (st s); cbn; [|by auto..]. destruct (forallb _ _); [|by auto].
    destruct (orc (tick s)); cbn; [by auto|..]; right; (split; [left; eauto|by auto]).
Qed.
Lemma atomic_ignore_commit : Atomic false (ignore commit).
Proof.
  constructor; intros orc s; unfold ignore, handle, commit.
  - unfold inert. by destruct (st s).
  - right. unfold inert. destruct (st s); [|done..]. destruct (forallb _ _); [|done].
    by destruct (orc (tick s)).
  - destruct (st s); cbn; [|by auto..]. destruct (forallb _ _); [|by auto].
    destruct (orc (tick s)); cbn; [by auto|..]; right; (split; [right|by auto]);
      (split; [done|by left]).
Qed.

#[export] Instance atomic_bind {A B} (m : tx A) (k : A → tx B) :
  Atomic strict m → (∀ a, Atomic strict (k a)) → Atomic strict (m ≫= k).
Proof.
  intros Hm Hk. constructor; intros orc s; unfold mbind, tx_bind.
  - intros Hs. destruct (at_inert (m := m) orc s Hs) as [H1 H2].
    destruct (m orc s) as [[a|e|r] s1]; cbn in *; [|done..].
    destruct (at_inert (m := k a) orc s1 H1) as [H3 H4]. split; [done|congruence].
  - destruct (at_commit (m := m) orc s) as [H1|H1]; destruct (m orc s) as [[a|e|r] s1]; cbn in *; auto.
    + destruct (at_commit (m := k a) orc s1) as [H2|H2]; [left; congruence|by right].
    + right. by apply (at_inert (m := k a)).
  - destruct (at_faults (m := m) orc s) as [E|[Hf Hc]].
    + rewrite E. pose proof (at_commit (m := m) no_faults s) as Hn.
      destruct (m no_faults s) as [[a|e|r] s1]; cbn in *; [|by left..].
      destruct (at_faults (m := k a) orc s1) as [->|[Hf Hc]]; [by left|right]. split; [done|].
      destruct Hn as [<-|Hn]; [done|]. right.
      destruct (at_inert (m := k a) no_faults s1 Hn) as [_ H2]. destruct Hc as [->| ->]; congruence.
    + right.
      assert (committed (m orc s).2 = committed s ∨
        committed (m orc s).2 = committed (match m no_faults s with
          | (Val a, s) => k a no_faults s | (Throw e, s) => (Throw e, s) | (Exit r, s) => (Exit r, s)
          end).2) as Hc'.
      { destruct Hc as [Hc|Hc]; [by left|]. pose proof (at_commit (m := m) no_faults s) as Hn.
        destruct (m no_faults s) as [[a|e|r] s1]; cbn in *; [|by right..].
        destruct Hn as [Hn|Hn]; [left; congruence|right].
        destruct (at_inert (m := k a) no_faults s1 Hn) as [_ H2]. congruence. }
      clear Hc. destruct (m orc s) as [o s1] eqn:E; cbn in *.
      destruct Hf as [(e & -> & He)|[-> [Hi|[r ->]]]].
      * split; [|done]. left; eauto.
      * destruct o as [a|e|r]; [|split; [right; auto|done]..].
        destruct (at_inert (m := k a) orc s1 Hi) as [H1 H2]. rewrite H2. split; [right; auto|done].
      * split; [right; eauto|done].
Qed.
#[export] Instance atomic_on_no_rows {A} (m h : tx A) :
  Atomic strict m → Atomic strict h → Atomic strict (on_no_rows m h).
Proof.
  intros Hm Hh. constructor; intros orc s; unfold on_no_rows, handle.
  - intros Hs. destruct (at_inert (m := m) orc s Hs) as [H1 H2].
    destruct (m orc s) as [[a|[]|r] s1]; cbn in *; try done.
    destruct (at_inert (m := h) orc s1 H1) as [H3 H4]. split; [done|congruence].
  - destruct (at_commit (m := m) orc s) as [H1|H1]; destruct (m orc s) as [[a|[]|r] s1]; cbn in *; auto.
    + destruct (at_commit (m := h) orc s1) as [H2|H2]; [left; congruence|by right].
    + right. by apply (at_inert (m := h)).
  - destruct (at_faults (m := m) orc s) as [E|[Hf Hc]].
    + rewrite E. pose proof (at_commit (m := m) no_faults s) as Hn.
      destruct (m no_faults s) as [[a|[]|r] s1]; cbn in *; try by left.
      destruct (at_faults (m := h) orc s1) as [->|[Hf Hc]]; [by left|right]. split; [done|].
      destruct Hn as [<-|Hn]; [done|]. right.
      destruct (at_inert (m := h) no_faults s1 Hn) as [_ H2]. destruct Hc as [->| ->]; congruence.
    + right.
      assert (committed (m orc s).2 = committed s ∨
        committed (m orc s).2 = committed (match m no_faults s with
          | (Throw e, s) => (match e with NoRows => h | _ => throw e end) no_faults s
          | r => r end).2) as Hc'.
      { destruct Hc as [Hc|Hc]; [by left|]. pose proof (at_commit (m := m) no_faults s) as Hn.
        destruct (m no_faults s) as [[a|[]|r] s1]; cbn in *; try by right.
        destruct Hn as [Hn|Hn]; [left; congruence|right].
        destruct (at_inert (m := h) no_faults s1 Hn) as [_ H2]. congruence. }
      clear Hc. destruct (m orc s) as [o s1] eqn:E; cbn in *.
      destruct Hf as [(e & -> & He)|[-> [Hi|[r ->]]]].
      * destruct e; [done|..]; (split; [|done]; left; eauto).
      * destruct o as [a|[]|r]; try (split; [right; auto|done]).
        destruct (at_inert (m := h) orc s1 Hi) as [H1 H2]. rewrite H2. split; [right; auto|done].
      * split; [right; eauto|done].
Qed.
#[export] Instance atomic_optional {A} (m : tx A) :
  Atomic strict m → Atomic strict (optional m).
Proof. intros. apply _. Qed.
#[export] Instance atomic_for_each {A} (g : A → tx unit) xs :
  (∀ x, Atomic strict (g x)) → Atomic strict (for_each g xs).
Proof. intros Hg. induction xs as [|x xs IH]; cbn; apply _. Qed.
End instances.

Lemma on_error_run {A} (m : tx A) r orc s :
  on_error m r orc s =
  (match (m orc s).1 with Throw _ => Exit r | o => o end, (m orc s).2).
Proof. unfold on_error, handle. by destruct (m orc s) as [[] ?]. Qed.
#[export] Instance atomic_on_error {A} (m : tx A) r : Atomic false m → Atomic false (on_error m r).
Proof.
  intros Hm. constructor; intros orc s; rewrite !on_error_run; cbn.
  - apply (at_inert (m := m)).
  - apply (at_commit (m := m)).
  - destruct (at_faults (m := m) orc s) as [->|[Hf Hc]]; [by left|right]. split; [|done].
    destruct (m orc s) as [o s1]. cbn in *.
    destruct Hf as [(e & -> & _)|[_ [Hi|[r' ->]]]]; right; (split; [done|]); [eauto|..|eauto].
    by left.
Qed.

(** A handler, whatever fails: the run without faults, or an answer after
    which the database is the one it found or the one of that run. *)
Theorem run_atomic strict (on_err : sqlerr → R) (m : tx R) orc d :
  Atomic strict m →
  run on_err m orc d = run on_err m no_faults d ∨
  (((run on_err m orc d).2 = d ∨ (run on_err m orc d).2 = (run on_err m no_faults d).2) ∧
   (strict = true → ∃ e, (run on_err m orc d).1 = on_err e)).
Proof.
  intros Hm. unfold run. destruct (at_faults orc (start d)) as [->|[Hf Hc]]; [by left|right].
  destruct (m orc (start d)) as [o s]. destruct (m no_faults (start d)) as [o' s']. cbn in *.
  split.
  - destruct Hc as [-> | ->]; [by left|by right].
  - intros ->. destruct Hf as [(e & -> & _)|[? _]]; [eauto|done].
Qed.
End tx.
Arguments Val {R A} a.
Arguments Throw {R A} e.
Arguments Exit {R A} r.
Arguments tx : clear implicits.
Arguments txst : clear implicits.
Arguments out : clear implicits.

#[export] Hint Extern 4 (Atomic _ (match ?x with _ => _ end)) => destruct x : typeclass_instances.
#[export] Hint Extern 3 (Atomic false (ignore commit)) => apply atomic_ignore_commit : typeclass_instances.

(** ** Symbolic execution of a run without faults *)
Ltac tx_step :=
  lazymatch goal with
  | |- wp (mbind _ _) _ _ => apply wp_bind
  | |- wp (mret _) _ _ => apply wp_ret
  | |- wp (throw _) _ _ => apply wp_throw
  | |- wp (exit _) _ _ => apply wp_exit
  | |- wp (handle _ _) _ _ => apply wp_handle
  | |- wp (on_no_rows _ _) _ _ => apply wp_handle
  | |- wp (on_error _ _) _ _ => apply wp_handle
  | |- wp (ignore _) _ _ => apply wp_handle
  | |- wp (optional _) _ _ => apply wp_handle
  | |- wp begin_tx _ _ => apply wp_begin
  | |- wp (pool _ _) _ _ => apply wp_pool
  | |- wp (query _) _ _ => apply wp_query
  | |- wp (exec _) _ _ => apply wp_exec
  | |- wp (stmt _) _ _ => apply wp_stmt
  | |- wp (defer _) _ _ => apply wp_defer
  | |- wp commit _ _ => apply wp_commit
  | |- wp (guard_exit _ _) _ _ => apply wp_guard; intros ?
  end.

(** The guards at the head of a program; [t] closes the refused cases. *)
Ltac tx_guards t :=
  repeat (lazymatch goal with
          | |- wp (mbind _ (guard_exit _ _)) _ _ => apply wp_bind, wp_guard; intros ?; cbv beta iota
          | |- wp (guard_exit _ _) _ _ => apply wp_guard; intros ?; cbv beta iota
          end; [solve [t]|]).

(** A guard that the run passes: its condition is false. *)
Ltac tx_pass :=
  lazymatch goal with
  | |- wp (mbind _ (guard_exit _ _)) _ _ => apply wp_bind, wp_pass; [|cbv beta iota]
  | |- wp (guard_exit _ _) _ _ => apply wp_pass; [|cbv beta iota]
  end.
