(* ===== verification/Table.v ===== *)
(** * Tables

    A table is the list of its rows, in insertion order.  The SQL the program
    sends is expressed with [select] (a row, or [NoRows]), [update] (UPDATE ...
    WHERE) and appending an inserted row; [exists_row] is [EXISTS (SELECT 1
    ...)]. *)
From S2P Require Import Prelude Tx.
From Stdlib Require Import Sorted.
From stdpp Require Import list.

Section table.
Context {A : Type}.
Implicit Types (p : A → bool) (f : A → A) (t : list A).

Definition select p t : result sqlerr A :=
  match List.find p t with Some r => Ok r | None => Err NoRows end.
Definition exists_row p t : bool := existsb p t.
Definition update p f t : list A := (λ r, if p r then f r else r) <$> t.
Definition count_rows p t : Z := Z.of_nat (List.length (List.filter p t)).

Lemma select_ok p t r : select p t = Ok r → r ∈ t ∧ p r = true.
Proof.
  unfold select. destruct (List.find p t) as [x|] eqn:E; [|done]. intros [= <-].
  apply List.find_some in E as [? ?]. split; [by apply list_elem_of_In|done].
Qed.
Lemma select_err p t e : select p t = Err e → e = NoRows ∧ ∀ r, r ∈ t → p r = false.
Proof.
  unfold select. destruct (List.find p t) eqn:E; [done|]. intros [= <-]. split; [done|].
  intros r Hr%list_elem_of_In. by eapply List.find_none.
Qed.
Lemma key_inj {K} (key : A → K) t r r' :
  NoDup (key <$> t) → r ∈ t → r' ∈ t → key r = key r' → r = r'.
Proof.
  intros Hnd [i Hi]%list_elem_of_lookup [j Hj]%list_elem_of_lookup Hk.
  assert (i = j) as <-; [|congruence].
  eapply NoDup_lookup; [exact Hnd|..]; rewrite list_lookup_fmap; [by rewrite Hi|by rewrite Hj, Hk].
Qed.
(** On a key that is unique, the row found is the row. *)
Lemma select_unique {K} (key : A → K) p t r :
  NoDup (key <$> t) → r ∈ t → p r = true →
  (∀ r', p r' = true → key r' = key r) → select p t = Ok r.
Proof.
  intros Hnd Hin Hp Hk. unfold select. destruct (List.find p t) as [x|] eqn:E.
  - apply List.find_some in E as [Hx Hpx]. apply list_elem_of_In in Hx.
    f_equal. eapply key_inj; eauto.
  - apply list_elem_of_In in Hin. by rewrite (List.find_none _ _ E r Hin) in Hp.
Qed.
Lemma exists_row_false p t : exists_row p t = false ↔ ∀ r, r ∈ t → p r = false.
Proof.
  unfold exists_row. rewrite <- not_true_iff_false, existsb_exists.
  setoid_rewrite <- list_elem_of_In. split.
  - intros H r Hr. apply not_true_iff_false. intros Hp. apply H. eauto.
  - intros H (r & Hr & Hp). rewrite (H r Hr) in Hp. done.
Qed.
Lemma exists_row_true p t : exists_row p t = true ↔ ∃ r, r ∈ t ∧ p r = true.
Proof. unfold exists_row. rewrite existsb_exists. by setoid_rewrite <- list_elem_of_In. Qed.

Lemma elem_of_update p f t r :
  r ∈ update p f t ↔ ∃ r0, r0 ∈ t ∧ r = if p r0 then f r0 else r0.
Proof. unfold update. rewrite list_elem_of_fmap. naive_solver. Qed.
(** An update that keeps the columns a search looks at. *)
Lemma find_update q p f t :
  (∀ r, q (f r) = q r) →
  List.find q (update p f t) = (λ r, if p r then f r else r) <$> List.find q t.
Proof.
  intros Hq. induction t as [|r t IH]; [done|]. cbn [update fmap list_fmap List.find].
  fold (update p f t).
  assert (q (if p r then f r else r) = q r) as -> by (by destruct (p r)).
  destruct (q r); [done|]. exact IH.
Qed.
Lemma find_app q t u :
  List.find q (t ++ u) = match List.find q t with Some r => Some r | None => List.find q u end.
Proof. induction t as [|r t IH]; [done|]. cbn. by destruct (q r). Qed.
Lemma find_key_none q t : (∀ r, r ∈ t → q r = false) → List.find q t = None.
Proof.
  intros H. destruct (List.find q t) as [r|] eqn:E; [|done].
  apply List.find_some in E as [Hr Hq]. rewrite H in Hq; [done|]. by apply list_elem_of_In.
Qed.
Lemma select_find p t r : select p t = Ok r ↔ List.find p t = Some r.
Proof. unfold select. destruct (List.find p t); naive_solver. Qed.
Lemma length_update p f t : List.length (update p f t) = List.length t.
Proof. apply length_fmap. Qed.
(** An update keeps the columns it does not assign. *)
Lemma update_column {B} (col : A → B) p f t :
  (∀ r, col (f r) = col r) → col <$> update p f t = col <$> t.
Proof.
  intros H. unfold update. rewrite <- list_fmap_compose. apply list_fmap_ext.
  intros i r _. cbn. by destruct (p r).
Qed.
Lemma update_ext p f g t :
  (∀ r, r ∈ t → p r = true → f r = g r) → update p f t = update p g t.
Proof.
  intros H. apply list_fmap_ext. intros i r Hr. destruct (p r) eqn:E; [|done].
  apply H; [|done]. by eapply list_elem_of_lookup_2.
Qed.
(** The rows selected by a unique key. *)
Lemma filter_unique {K} (key : A → K) p t r :
  NoDup (key <$> t) → r ∈ t → p r = true → (∀ r', p r' = true → key r' = key r) →
  List.filter p t = [r].
Proof.
  intros Hnd Hin Hp Hk. induction t as [|x t IH]; [set_solver|].
  cbn in Hnd |- *. apply NoDup_cons in Hnd as [Hx Hnd].
  apply elem_of_cons in Hin as [<-|Hin].
  - rewrite Hp. f_equal. destruct (List.filter p t) as [|y ys] eqn:E; [done|].
    exfalso. apply Hx. assert (y ∈ List.filter p t) as Hy by (rewrite E; left).
    apply list_elem_of_In, List.filter_In in Hy as [Hy Hpy]. apply Hk in Hpy. rewrite <- Hpy.
    apply list_elem_of_fmap. exists y. by rewrite list_elem_of_In.
  - destruct (p x) eqn:E; [|by apply IH]. exfalso. apply Hx. apply Hk in E. rewrite E.
    apply list_elem_of_fmap. eauto.
Qed.
Lemma update_update p f g t :
  (∀ r, p (g r) = p r) → update p f (update p g t) = update p (λ r, f (g r)) t.
Proof.
  intros Hp. unfold update. rewrite <- list_fmap_compose. apply list_fmap_ext.
  intros i r _. cbn. destruct (p r) eqn:E; [by rewrite Hp, E|by rewrite E].
Qed.
Lemma update_app p f t u : update p f (t ++ u) = update p f t ++ update p f u.
Proof. apply fmap_app. Qed.
Lemma update_none p f t : (∀ r, r ∈ t → p r = false) → update p f t = t.
Proof.
  intros H. unfold update. rewrite <- (list_fmap_id t) at 2. apply list_fmap_ext.
  intros i r Hr. cbn. by rewrite H by (by eapply list_elem_of_lookup_2).
Qed.
Lemma update_id p f t : (∀ r, r ∈ t → p r = true → f r = r) → update p f t = t.
Proof.
  intros H. unfold update. rewrite <- (list_fmap_id t) at 2. apply list_fmap_ext.
  intros i r Hr. cbn. destruct (p r) eqn:E; [|done]. apply H; [|done].
  by eapply list_elem_of_lookup_2.
Qed.
Lemma Forall_update (P : A → Prop) p f t :
  Forall P t → (∀ r, r ∈ t → p r = true → P r → P (f r)) → Forall P (update p f t).
Proof.
  rewrite !Forall_forall. intros Ht Hf r (r0 & Hr & ->)%elem_of_update.
  destruct (p r0) eqn:E; auto.
Qed.
Lemma filter_none p t : (∀ r, r ∈ t → p r = false) → List.filter p t = [].
Proof.
  intros H. destruct (List.filter p t) as [|r u] eqn:E; [done|]. exfalso.
  assert (r ∈ List.filter p t) as Hr by (rewrite E; left).
  apply list_elem_of_In, List.filter_In in Hr as [Hr Hp]. by rewrite H in Hp by (by apply list_elem_of_In).
Qed.
(** A change of the rows that selects no new one and loses one. *)
Lemma filter_fmap_lt (q q' : A → bool) f t r :
  (∀ x, x ∈ t → q' (f x) = true → q x = true) → r ∈ t → q r = true → q' (f r) = false →
  List.length (List.filter q' (f <$> t)) < List.length (List.filter q t).
Proof.
  intros Hq Hr Hqr Hno. induction t as [|x t IH]; [by apply elem_of_nil in Hr|].
  assert (∀ u, (∀ x, x ∈ u → q' (f x) = true → q x = true) →
    List.length (List.filter q' (f <$> u)) ≤ List.length (List.filter q u)) as Hle.
  { clear. intros u Hq. induction u as [|x u IH]; [done|]. cbn. pose proof (Hq x ltac:(left)) as Hx.
    specialize (IH (λ y Hy, Hq y ltac:(by right))).
    destruct (q' (f x)); [rewrite Hx by done|destruct (q x)]; cbn; lia. }
  specialize (Hle t (λ y Hy, Hq y ltac:(by right))). cbn.
  apply elem_of_cons in Hr as [<-|Hr].
  - rewrite Hno, Hqr. cbn. lia.
  - specialize (IH (λ y Hy, Hq y ltac:(by right)) Hr). pose proof (Hq x ltac:(left)) as Hx.
    destruct (q' (f x)); [rewrite Hx by done|destruct (q x)]; cbn; lia.
Qed.
(** Rows that are appended under a new key. *)
Lemma NoDup_snoc {K} (key : A → K) t r :
  NoDup (key <$> t) → (∀ x, x ∈ t → key x ≠ key r) → NoDup (key <$> t ++ [r]).
Proof.
  intros Ht Hr. rewrite fmap_app. apply NoDup_app. split_and!; [done| |apply NoDup_singleton].
  intros k (x & -> & Hx)%list_elem_of_fmap Hk%list_elem_of_singleton. by apply (Hr x).
Qed.
End table.

(** ** ORDER BY *)
Section sort.
Context {A : Type} (le : A → A → bool).
Fixpoint insert_by (x : A) (l : list A) : list A :=
  match l with
  | [] => [x]
  | y :: l => if le x y then x :: y :: l else y :: insert_by x l
  end.
(** Rows that compare equal keep their order. *)
Definition sort_by (l : list A) : list A := foldr insert_by [] l.

Lemma insert_by_perm x l : insert_by x l ≡ₚ x :: l.
Proof.
  induction l as [|y l IH]; [done|]. cbn. destruct (le x y); [done|]. rewrite IH. apply Permutation_swap.
Qed.
Lemma sort_by_perm l : sort_by l ≡ₚ l.
Proof. induction l as [|x l IH]; [done|]. cbn. by rewrite insert_by_perm, IH. Qed.
Lemma elem_of_sort_by x l : x ∈ sort_by l ↔ x ∈ l.
Proof. by rewrite sort_by_perm. Qed.

Hypothesis le_total : ∀ x y, le x y = false → le y x = true.
Hypothesis le_trans : ∀ x y z, le x y = true → le y z = true → le x z = true.
Lemma sort_by_sorted l : StronglySorted (λ x y, le x y = true) (sort_by l).
Proof.
  assert (∀ x l, StronglySorted (λ x y, le x y = true) l → StronglySorted (λ x y, le x y = true) (insert_by x l)) as H.
  { clear l. intros x l. induction 1 as [|y l Hl IH Hy]; [by repeat constructor|]. cbn.
    destruct (le x y) eqn:E.
    - constructor; [by constructor|]. constructor; [done|]. eapply Forall_impl; [exact Hy|].
      intros z Hz. by eapply le_trans.
    - constructor; [done|]. rewrite insert_by_perm. constructor; [by apply le_total|done]. }
  induction l as [|x l IH]; [constructor|]. by apply H.
Qed.
End sort.
