(* ===== verification/Triple.v ===== *)
(** * A program logic for transactions under faults

    [triple P m Q E]: run under any oracle from a transaction that has not
    committed and whose database satisfies [P] as long as it accepts
    statements, [m] commits nothing; a value it returns and the database it
    leaves satisfy [Q], an early answer satisfies [E].  [ends P m C E] is for a
    program with its commit: the answer and the committed database satisfy [C],
    an answer without a commit satisfies [E].  No assumption is made on which
    statements fail. *)
From S2P Require Import Prelude Tx.
From stdpp Require Import list.

Section logic.
Context {D R : Type}.
Implicit Types (P : D → Prop) (E : R → Prop).

Definition good P (s : txst D) : Prop := committed s = None ∧ (st s = Open → P (work s)).
Definition triple {A} P (m : tx D R A) (Q : A → D → Prop) E : Prop := ∀ orc s, good P s →
  match m orc s with
  | (Val a, s') => good (Q a) s'
  | (Throw _, s') => committed s' = None
  | (Exit r, s') => committed s' = None ∧ E r
  end.

(** After a commit: no statement, and the answer satisfies [K]. *)
Definition closing (m : tx D R R) (K : R → Prop) : Prop := ∀ orc s, st s = Closed →
  committed (m orc s).2 = committed s ∧ match (m orc s).1 with Val r | Exit r => K r | Throw _ => True end.

Section ends.
Context (on_err : sqlerr → R).
Definition ends P (m : tx D R R) (C : R → D → Prop) E : Prop := ∀ orc s, good P s →
  let '(o, s') := m orc s in
  let answer := match o with Val r | Exit r => r | Throw e => on_err e end in
  match committed s' with Some w => C answer w | None => E answer end.

Lemma run_ends P m C E orc d :
  ends P m C E → P d →
  ((run on_err m orc d).2 = d ∧ E (run on_err m orc d).1) ∨
  C (run on_err m orc d).1 (run on_err m orc d).2.
Proof.
  intros Hm Hd. unfold run. specialize (Hm orc (start d)). destruct (m orc (start d)) as [o s'].
  cbn in Hm. specialize (Hm (conj eq_refl (λ _, Hd))). destruct (committed s') as [w|]; cbn; auto.
Qed.
Lemma ends_bind {A} P (m : tx D R A) k Q C E :
  triple P m Q E → (∀ e, E (on_err e)) → (∀ a, ends (Q a) (k a) C E) → ends P (m ≫= k) C E.
Proof.
  intros Hm He Hk orc s Hs. specialize (Hm orc s Hs). unfold mbind, tx_bind.
  destruct (m orc s) as [[a|e|r] s']; [by apply Hk|by rewrite Hm|]. destruct Hm as [-> Hr]. done.
Qed.
(** A row that the program cannot do without. *)
Lemma ends_claim {A} P (q : D → result sqlerr A) r k C E :
  E r → (∀ e, E (on_err e)) → (∀ w a, P w → q w = Ok a → ends (λ w', w' = w) (k a) C E) →
  ends P (on_no_rows (query q) (exit r) ≫= k) C E.
Proof.
  intros Hr He Hk orc s [Hc Hs]. unfold on_no_rows, handle, mbind, tx_bind, query, stmt.
  destruct (st s) eqn:Est; [|cbn; by rewrite Hc..]. destruct (orc (tick s)); [|cbn; by rewrite Hc..].
  destruct (q (work s)) as [a|[]] eqn:Eq; cbn; rewrite ?Hc; try done.
  apply (Hk (work s) a); [by apply Hs|done|]. by split.
Qed.
(** A query whose every error has the answer [r]. *)
Lemma ends_query_or {A} P (q : D → result sqlerr A) r k C E :
  E r → (∀ w a, P w → q w = Ok a → ends (λ w', w' = w) (k a) C E) → ends P (on_error (query q) r ≫= k) C E.
Proof.
  intros Hr Hk orc s [Hc Hs]. unfold on_error, handle, mbind, tx_bind, query, stmt.
  destruct (st s) eqn:Est; [|cbn; by rewrite Hc..]. destruct (orc (tick s)); [|cbn; by rewrite Hc..].
  destruct (q (work s)) as [a|[]] eqn:Eq; cbn; rewrite ?Hc; try done.
  apply (Hk (work s) a); [by apply Hs|done|]. by split.
Qed.
Lemma ends_query {A} P (q : D → result sqlerr A) k C E :
  (∀ e, E (on_err e)) → (∀ w a, P w → q w = Ok a → ends (λ w', w' = w) (k a) C E) →
  ends P (query q ≫= k) C E.
Proof.
  intros He Hk orc s [Hc Hs]. unfold mbind, tx_bind, query, stmt.
  destruct (st s) eqn:Est; [|cbn; by rewrite Hc..]. destruct (orc (tick s)); [|cbn; by rewrite Hc..].
  destruct (q (work s)) as [a|[]] eqn:Eq; cbn; rewrite ?Hc; try done.
  apply (Hk (work s) a); [by apply Hs|done|]. by split.
Qed.
Lemma ends_optional {A} P (q : D → result sqlerr A) k C E :
  (∀ e, E (on_err e)) → (∀ w a, P w → q w = Ok a → ends (λ w', w' = w) (k (Some a)) C E) →
  (∀ w, P w → q w = Err NoRows → ends (λ w', w' = w) (k None) C E) →
  ends P (optional (query q) ≫= k) C E.
Proof.
  intros He Hk Hn orc s [Hc Hs]. unfold optional, on_no_rows, handle, mbind, tx_bind, query, stmt.
  destruct (st s) eqn:Est; [|cbn; by rewrite Hc..]. destruct (orc (tick s)); [|cbn; by rewrite Hc..].
  destruct (q (work s)) as [a|[]] eqn:Eq; cbn; rewrite ?Hc; try done.
  - apply (Hk (work s) a); [by apply Hs|done|by split].
  - apply (Hn (work s)); [by apply Hs|done|by split].
Qed.
Lemma ends_pre P P' m C E : (∀ w, P' w → P w) → ends P m C E → ends P' m C E.
Proof. intros HP Hm orc s [? Hs]. apply Hm. split; [done|]. intros ?. by apply HP, Hs. Qed.
Lemma ends_exit P r C E : E r → ends P (exit r) C E.
Proof. intros Hr orc s [Hc _]. cbn. by rewrite Hc. Qed.
Lemma ends_guard P (b : bool) r (k : unit → tx D R R) C E :
  (b = true → E r) → (b = false → ends P (k tt) C E) → ends P (guard_exit b r ≫= k) C E.
Proof.
  destruct b; intros Hr Hk; [|by apply Hk]. intros orc s [Hc _]. unfold mbind, tx_bind. cbn. rewrite Hc. by apply Hr.
Qed.
Lemma ends_commit P (k : tx D R R) (K : R → Prop) (C : R → D → Prop) E :
  (∀ e, K (on_err e) ∧ E (on_err e)) → closing k K → (∀ r w, K r → P w → C r w) → ends P (commit;; k) C E.
Proof.
  intros He Hk HC orc s [Hc Hw]. unfold mbind, tx_bind, commit.
  assert (∀ e, E (on_err e)) as He' by (intros; apply He).
  destruct (st s) eqn:Es; [|cbn; by rewrite Hc..].
  destruct (forallb _ _); [|cbn; by rewrite Hc].
  destruct (orc (tick s)); cbn.
  - match goal with |- context [k orc ?s'] => destruct (Hk orc s' eq_refl) as [H1 H2]; destruct (k orc s') as [o s1] end.
    cbn in *. rewrite H1. apply HC; [|by apply Hw]. destruct o; [done|apply He|done].
  - by rewrite Hc.
  - apply HC; [apply He|by apply Hw].
Qed.
(** A commit whose error has the answer [r]. *)
Lemma ends_commit_or P r (k : tx D R R) (K : R → Prop) (C : R → D → Prop) E :
  E r → K r → (∀ e, K (on_err e)) → closing k K → (∀ r w, K r → P w → C r w) → ends P (on_error commit r;; k) C E.
Proof.
  intros He Hr Herr Hk HC orc s [Hc Hw]. unfold on_error, handle, mbind, tx_bind, commit.
  destruct (st s) eqn:Es; [|cbn; by rewrite Hc..].
  destruct (forallb _ _); [|cbn; by rewrite Hc].
  destruct (orc (tick s)); cbn.
  - match goal with |- context [k orc ?s'] => destruct (Hk orc s' eq_refl) as [H1 H2]; destruct (k orc s') as [o s1] end.
    cbn in *. rewrite H1. apply HC; [|by apply Hw]. destruct o; [done|apply Herr|done].
  - by rewrite Hc.
  - by apply HC; [|apply Hw].
Qed.
(** A commit whose error is dropped. *)
Lemma ends_ignore_commit P (k : tx D R R) (K : R → Prop) (C : R → D → Prop) E :
  (∀ e, K (on_err e)) → closing k K → (∀ r, K r → E r) → (∀ r w, K r → P w → C r w) →
  (∀ orc s, committed s = None → committed (k orc s).2 = None ∧ E (match (k orc s).1 with Val r | Exit r => r | Throw e => on_err e end)) →
  ends P (ignore commit;; k) C E.
Proof.
  intros He Hk HE HC Hno orc s [Hc Hw]. unfold ignore, handle, mbind, tx_bind, commit.
  assert (∀ s', committed s' = None → let '(o, s1) := k orc s' in
    match committed s1 with Some w => C (match o with Val r | Exit r => r | Throw e => on_err e end) w
                          | None => E (match o with Val r | Exit r => r | Throw e => on_err e end) end) as Hnone.
  { intros s' Hs'. destruct (Hno orc s' Hs') as [H1 H2]. destruct (k orc s') as [o s1]. cbn in *. by rewrite H1. }
  destruct (st s) eqn:Es; [|cbn; by apply Hnone..].
  destruct (forallb _ _); [|cbn; by apply Hnone].
  assert (∀ s', st s' = Closed → committed s' = Some (work s) → let '(o, s1) := k orc s' in
    match committed s1 with Some w => C (match o with Val r | Exit r => r | Throw e => on_err e end) w
                          | None => E (match o with Val r | Exit r => r | Throw e => on_err e end) end) as Hsome.
  { intros s' H1 H2. destruct (Hk orc s' H1) as [H3 H4]. destruct (k orc s') as [o s1]. cbn in *. rewrite H3, H2.
    apply HC; [|by apply Hw]. destruct o; [done|apply He|done]. }
  destruct (orc (tick s)); cbn; [by apply Hsome|by apply Hnone|by apply Hsome].
Qed.
End ends.
Lemma closing_ret r (K : R → Prop) : K r → closing (mret r) K.
Proof. by intros Hr orc s _. Qed.

(** ** Rules *)
Section rules.
Context {A : Type}.
Implicit Types (m : tx D R A) (Q : A → D → Prop).

Lemma triple_mono P m Q (Q' : A → D → Prop) E :
  (∀ a w, Q a w → Q' a w) → triple P m Q E → triple P m Q' E.
Proof.
  intros HQ Hm orc s Hs. specialize (Hm orc s Hs). destruct (m orc s) as [[a|e|r] s']; try done.
  destruct Hm as [? Hm]. split; [done|]. intros ?. by apply HQ, Hm.
Qed.
Lemma triple_pre P P' m Q E : (∀ w, P' w → P w) → triple P m Q E → triple P' m Q E.
Proof. intros HP Hm orc s [? Hs]. apply Hm. split; [done|]. intros ?. by apply HP, Hs. Qed.
Lemma triple_ret P Q E (a : A) : (∀ w, P w → Q a w) → triple P (mret a) Q E.
Proof. intros HQ orc s [? Hs]. split; [done|]. intros ?. by apply HQ, Hs. Qed.
Lemma triple_exit P Q E (r : R) : E r → triple P (exit r : tx D R A) Q E.
Proof. intros Hr orc s [? Hs]. by split. Qed.
Lemma triple_throw P Q E e : triple P (throw e : tx D R A) Q E.
Proof. by intros orc s [? Hs]. Qed.
Lemma triple_bind {B} P (m : tx D R B) (k : B → tx D R A) (S : B → D → Prop) Q E :
  triple P m S E → (∀ b, triple (S b) (k b) Q E) → triple P (m ≫= k) Q E.
Proof.
  intros Hm Hk orc s Hs. specialize (Hm orc s Hs). unfold mbind, tx_bind.
  destruct (m orc s) as [[b|e|r] s']; [by apply Hk|done..].
Qed.
Lemma triple_stmt P (g : D → result sqlerr (A * D)) Q E :
  (∀ w a w', P w → g w = Ok (a, w') → Q a w') → triple P (stmt g) Q E.
Proof.
  intros Hg orc s [Hc Hs]. unfold stmt. destruct (st s) eqn:Est; [|done..].
  destruct (orc (tick s)); [|done..]. destruct (g (work s)) as [[a w']|[]] eqn:Eg; try done.
  split; [done|]. intros _. cbn. by eapply Hg; [apply Hs|].
Qed.
Lemma triple_query P (q : D → result sqlerr A) Q E :
  (∀ w a, P w → q w = Ok a → Q a w) → triple P (query q) Q E.
Proof. intros Hq. apply triple_stmt. intros w a w' HP. destruct (q w) eqn:Eq; [|done]. intros [= <- <-]. auto. Qed.
Lemma triple_pool P d (q : D → result sqlerr A) Q E :
  (∀ w a, P w → q d = Ok a → Q a w) → triple P (pool d q) Q E.
Proof.
  intros Hq orc s [Hc Hs]. unfold pool. destruct (orc (tick s)); [|done..].
  destruct (q d) eqn:Eq; [|done]. split; [done|]. intros ?. by apply Hq; [apply Hs|].
Qed.
(** A query whose error is dropped: without a row, the program goes on. *)
Lemma triple_or P (q : D → result sqlerr A) (x : A) Q E :
  (∀ w a, P w → q w = Ok a → Q a w) → (∀ w, P w → q w = Err NoRows → Q x w) →
  triple P (handle (query q) (λ _, mret x)) Q E.
Proof.
  intros Hq Hx orc s [Hc Hs]. unfold handle, query, stmt. destruct (st s) eqn:Est; [|by split..].
  destruct (orc (tick s)); [|by split..]. destruct (q (work s)) as [a|[]] eqn:Eq; (split; [done|]); try done; intros _; cbn.
  - by apply Hq; [apply Hs|].
  - by apply Hx; [apply Hs|].
Qed.
(** Every error ends the program with an answer of its own. *)
Lemma triple_handle_exit P m (f : sqlerr → tx D R A) Q E :
  triple P m Q E → (∀ e, triple (λ _, True) (f e) Q E) → triple P (handle m f) Q E.
Proof.
  intros Hm Hf orc s Hs. specialize (Hm orc s Hs). unfold handle.
  destruct (m orc s) as [[a|e|r] s']; [done| |done]. by apply Hf.
Qed.
Lemma triple_no_rows_exit P m (h : tx D R A) Q E :
  triple P m Q E → triple (λ _, True) h Q E → triple P (on_no_rows m h) Q E.
Proof. intros Hm Hh. apply triple_handle_exit; [done|]. intros []; [done|apply triple_throw..]. Qed.
Lemma triple_optional P (q : D → result sqlerr A) (Q : option A → D → Prop) E :
  (∀ w a, P w → q w = Ok a → Q (Some a) w) → (∀ w, P w → q w = Err NoRows → Q None w) →
  triple P (optional (query q)) Q E.
Proof.
  intros Hq Hn orc s [Hc Hs]. unfold optional, on_no_rows, handle, mbind, tx_bind, query, stmt.
  destruct (st s) eqn:Est; [|done..]. destruct (orc (tick s)); [|done..].
  destruct (q (work s)) as [a|[]] eqn:Eq; try done; (split; [done|]; intros _; cbn).
  - by apply Hq; [apply Hs|].
  - by apply Hn; [apply Hs|].
Qed.
End rules.

Lemma triple_begin P E : triple P begin_tx (λ _, P) E.
Proof. intros orc s [Hc Hs]. unfold begin_tx. by destruct (orc (tick s)). Qed.
Lemma triple_guard P (b : bool) (r : R) (Q : unit → D → Prop) E :
  (b = true → E r) → (b = false → ∀ w, P w → Q tt w) → triple P (guard_exit b r) Q E.
Proof. destruct b; intros H1 H2; [by apply triple_exit, H1|by apply triple_ret, H2]. Qed.
Lemma triple_exec P (f : D → result sqlerr D) (Q : unit → D → Prop) E :
  (∀ w w', P w → f w = Ok w' → Q tt w') → triple P (exec f) Q E.
Proof. intros Hf. apply triple_stmt. intros w a w' HP. destruct (f w) eqn:Ef; [|done]. intros [= <- <-]. eauto. Qed.
Lemma triple_ignore P (f : D → result sqlerr D) (Q : unit → D → Prop) E :
  (∀ w w', P w → f w = Ok w' → Q tt w') → (∀ w, P w → f w = Err NoRows → Q tt w) →
  triple P (ignore (exec f)) Q E.
Proof.
  intros Hf Hn orc s [Hc Hs]. unfold ignore, handle, exec, stmt. destruct (st s) eqn:Est; [|by split..].
  destruct (orc (tick s)); [|by split..]. destruct (f (work s)) as [w'|[]] eqn:Ef; (split; [done|]); try done; intros _; cbn.
  - by eapply Hf; [apply Hs|].
  - by apply Hn; [apply Hs|].
Qed.

(** *** Strongest postconditions *)
Lemma sp_exec P (f : D → result sqlerr D) E : triple P (exec f) (λ _ w', ∃ w, P w ∧ f w = Ok w') E.
Proof. apply triple_exec. eauto. Qed.
Lemma sp_query {A} P (q : D → result sqlerr A) E : triple P (query q) (λ a w, P w ∧ q w = Ok a) E.
Proof. by apply triple_query. Qed.
Lemma sp_guard P (b : bool) (r : R) E : (b = true → E r) → triple P (guard_exit b r) (λ _, P) E.
Proof. intros H. by apply triple_guard. Qed.
End logic.
