(* ===== verification/Ledger.v ===== *)
(** * Wallets and the append-only ledger

    The tables [wallets], [wallet_ledger_entries] and
    [balance_alert_settings] with their constraints and triggers
    (migrations 1, 50, 69 and 87), the statements the program runs on them,
    and the invariant every writer of the ledger keeps: the balance of a
    wallet is the sum of its entries, and every entry records the balance it
    left. *)
From S2P Require Import Prelude Tx Table.
From stdpp Require Import list.
Open Scope Z_scope.

Inductive jsonv := JNull | JBool (b : bool) | JStr (s : string) | JInt (z : Z).
Abbreviation jsonb := (list (string * jsonv)).

Record wallet := { w_id : string; w_user : string; w_balance : Z; w_version : Z }.
Record entry := {
  e_id : Z; e_wallet : string; e_type : string; e_ref : string;
  e_amount : Z; e_after : Z; e_meta : jsonb
}.
Record alert := {
  al_user : string; al_enabled : bool; al_threshold : Z; al_cooldown_hours : Z;
  al_last_notified : option Z; al_below : bool
}.
(** [next_entry] is the next value of the [bigserial] sequence. *)
Record ledger_t := {
  wallets : list wallet; entries : list entry; next_entry : Z; alerts : list alert
}.

(** [business_type IN (...)], as migration 69 leaves it. *)
Definition business_types : list string :=
  ["topup"; "usage"; "subscription"; "refund"; "grant"; "adjustment"; "reversal"; "checkin_reward"]%string.

(** ** Statements *)

(** SELECT ... FROM wallets WHERE user_id=$1 [FOR UPDATE]. *)
Definition select_wallet (user : string) (l : ledger_t) : result sqlerr wallet :=
  select (λ w, bool_decide (w_user w = user)) (wallets l).

Definition same_key (wid ty ref : string) (e : entry) : bool :=
  bool_decide (e_wallet e = wid) && bool_decide (e_type e = ty) && bool_decide (e_ref e = ref).
Definition select_entry (wid ty ref : string) (l : ledger_t) : result sqlerr entry :=
  select (same_key wid ty ref) (entries l).

(** INSERT INTO wallet_ledger_entries(...) VALUES(...) RETURNING id. *)
Definition insert_entry (wid ty ref : string) (amount after : Z) (meta : jsonb)
    (l : ledger_t) : result sqlerr (Z * ledger_t) :=
  if negb (exists_row (λ w, bool_decide (w_id w = wid)) (wallets l))
  then Err (Constraint "wallet_ledger_entries_wallet_id_fkey")
  else if negb (bool_decide (ty ∈ business_types))
  then Err (Constraint "wallet_ledger_entries_business_type_check")
  else if amount =? 0
  then Err (Constraint "wallet_ledger_entries_amount_cents_check")
  else if exists_row (same_key wid ty ref) (entries l)
  then Err (Constraint "wallet_ledger_entries_wallet_id_business_type_business_ref_key")
  else Ok (next_entry l,
    {| wallets := wallets l;
       entries := entries l ++
         [{| e_id := next_entry l; e_wallet := wid; e_type := ty; e_ref := ref;
             e_amount := amount; e_after := after; e_meta := meta |}];
       next_entry := next_entry l + 1; alerts := alerts l |}).

(** The trigger [wallets_balance_alert_recovery] after an update of
    [balance_cents]. *)
Definition reset_balance_alert_cycle (user : string) (balance : Z) (al : list alert) : list alert :=
  update (λ a, bool_decide (al_user a = user) && al_below a && (al_threshold a <? balance))
    (λ a, {| al_user := al_user a; al_enabled := al_enabled a; al_threshold := al_threshold a;
             al_cooldown_hours := al_cooldown_hours a; al_last_notified := al_last_notified a;
             al_below := false |}) al.

Definition with_balance (balance : Z) (w : wallet) : wallet :=
  {| w_id := w_id w; w_user := w_user w; w_balance := balance; w_version := w_version w + 1 |}.

(** UPDATE wallets SET balance_cents=<new>,version=version+1 WHERE <p>; a
    [bigint] overflow is an error of the statement. *)
Definition update_wallets (p : wallet → bool) (new : wallet → Z) (l : ledger_t) :
    result sqlerr ledger_t :=
  let hit := List.filter p (wallets l) in
  if forallb (λ w, (int64_min <=? new w) && (new w <=? int64_max)) hit then
    Ok {| wallets := update p (λ w, with_balance (new w) w) (wallets l);
          entries := entries l; next_entry := next_entry l;
          alerts := fold_left (λ al w, reset_balance_alert_cycle (w_user w) (new w) al) hit (alerts l) |}
  else Err OutOfRange.
Definition is_wallet (wid : string) (w : wallet) : bool := bool_decide (w_id w = wid).
Definition add_balance (amount : Z) (wid : string) : ledger_t → result sqlerr ledger_t :=
  update_wallets (is_wallet wid) (λ w, w_balance w + amount).
Definition set_balance (balance : Z) (wid : string) : ledger_t → result sqlerr ledger_t :=
  update_wallets (is_wallet wid) (λ _, balance).

(** INSERT INTO wallets(user_id) VALUES($1), with the trigger
    [wallets_initial_grant]; [grant] is system_state.initial_grant_cents and
    [wid] the generated identifier. *)
Definition insert_wallet (wid user : string) (grant : Z) (l : ledger_t) : result sqlerr ledger_t :=
  if exists_row (λ w, bool_decide (w_id w = wid) || bool_decide (w_user w = user)) (wallets l)
  then Err (Constraint "wallets_user_id_key")
  else
    let l := {| wallets := wallets l ++ [{| w_id := wid; w_user := user; w_balance := 0; w_version := 0 |}];
                entries := entries l; next_entry := next_entry l; alerts := alerts l |} in
    if grant <=? 0 then Ok l
    else
      '(_, l) ← insert_entry wid "grant" ("initial/" +:+ user) grant grant [("source", JStr "initial_grant")]%string l;
      set_balance grant wid l.

(** ** The invariant *)
Definition of_wallet (wid : string) (e : entry) : bool := bool_decide (e_wallet e = wid).
Definition amounts (p : entry → bool) (es : list entry) : list Z := e_amount <$> List.filter p es.
Definition posted (es : list entry) (wid : string) : Z := sumZ (amounts (of_wallet wid) es).
Definition entry_key (e : entry) : string * string * string := (e_wallet e, e_type e, e_ref e).

Record ledger_ok (l : ledger_t) : Prop := {
  lo_ids : NoDup (w_id <$> wallets l);
  lo_users : NoDup (w_user <$> wallets l);
  lo_range : Forall (λ w, is_int64 (w_balance w)) (wallets l);
  lo_balance : Forall (λ w, w_balance w = posted (entries l) (w_id w)) (wallets l);
  lo_fresh : Forall (λ e, e_id e < next_entry l) (entries l);
  lo_entry_ids : NoDup (e_id <$> entries l);
  lo_keys : NoDup (entry_key <$> entries l);
  lo_amounts : Forall (λ e, e_amount e ≠ 0) (entries l);
  lo_owner : Forall (λ e, e_wallet e ∈ w_id <$> wallets l) (entries l);
  lo_after : ∀ p e s, entries l = p ++ e :: s → e_after e = posted (p ++ [e]) (e_wallet e)
}.

Lemma amounts_app p es fs : amounts p (es ++ fs) = amounts p es ++ amounts p fs.
Proof. unfold amounts. by rewrite List.filter_app, fmap_app. Qed.
Lemma posted_app es fs wid : posted (es ++ fs) wid = posted es wid + posted fs wid.
Proof. unfold posted. by rewrite amounts_app, sumZ_app. Qed.
Lemma posted_one e wid :
  posted [e] wid = if bool_decide (e_wallet e = wid) then e_amount e else 0.
Proof.
  unfold posted, amounts, of_wallet. cbn [List.filter].
  destruct (bool_decide (e_wallet e = wid)); cbn; lia.
Qed.

Lemma same_key_spec wid ty ref e : same_key wid ty ref e = true ↔ entry_key e = (wid, ty, ref).
Proof.
  unfold same_key, entry_key. rewrite !andb_true_iff, !bool_decide_eq_true. naive_solver.
Qed.

(** ** Posting an entry

    Every writer inserts an entry and writes the new balance into the wallet.
    [post l w ...] is the ledger after both statements. *)
Section post.
Context (l : ledger_t) (w : wallet) (ty ref : string) (amount : Z) (meta : jsonb).

Definition new_entry : entry :=
  {| e_id := next_entry l; e_wallet := w_id w; e_type := ty; e_ref := ref;
     e_amount := amount; e_after := w_balance w + amount; e_meta := meta |}.
Definition post : ledger_t :=
  {| wallets := update (is_wallet (w_id w)) (λ w', with_balance (w_balance w + amount) w') (wallets l);
     entries := entries l ++ [new_entry];
     next_entry := next_entry l + 1;
     alerts := reset_balance_alert_cycle (w_user w) (w_balance w + amount) (alerts l) |}.

Hypothesis Hok : ledger_ok l.
Hypothesis Hw : w ∈ wallets l.

Lemma wallet_by_id w' : w' ∈ wallets l → w_id w' = w_id w → w' = w.
Proof. intros ? ?. eapply key_inj; [apply Hok|done..]. Qed.
Lemma is_wallet_spec wid w' : is_wallet wid w' = true ↔ w_id w' = wid.
Proof. unfold is_wallet. apply bool_decide_eq_true. Qed.

(** Both ways of writing the new balance give [post]. *)
Lemma update_wallets_one l1 new :
  wallets l1 = wallets l → alerts l1 = alerts l → new w = w_balance w + amount →
  update_wallets (is_wallet (w_id w)) new l1 =
    if in64 (w_balance w + amount)
    then Ok {| wallets := wallets post; entries := entries l1; next_entry := next_entry l1;
               alerts := alerts post |}
    else Err OutOfRange.
Proof.
  intros Hws Hal Hnew. unfold update_wallets. rewrite Hws.
  rewrite (filter_unique w_id _ _ w); [|apply Hok|done|by apply is_wallet_spec|].
  2: { intros w' Hw'. by apply is_wallet_spec in Hw'. }
  cbn [forallb fold_left]. rewrite andb_true_r, Hnew. unfold in64. destruct (_ && _); [|done].
  f_equal. cbn [post wallets alerts]. rewrite Hal. f_equal.
  apply update_ext. intros w' Hin Hw'%is_wallet_spec.
  rewrite (wallet_by_id w' Hin Hw'), Hnew. done.
Qed.

Lemma insert_entry_inv id l1 wid after :
  insert_entry wid ty ref amount after meta l = Ok (id, l1) →
  id = next_entry l ∧ amount ≠ 0 ∧ ty ∈ business_types ∧
  (∀ e, e ∈ entries l → entry_key e ≠ (wid, ty, ref)) ∧
  l1 = {| wallets := wallets l;
          entries := entries l ++
            [{| e_id := next_entry l; e_wallet := wid; e_type := ty; e_ref := ref;
                e_amount := amount; e_after := after; e_meta := meta |}];
          next_entry := next_entry l + 1; alerts := alerts l |}.
Proof.
  unfold insert_entry. destruct (negb (exists_row _ _)); [done|].
  destruct (negb (bool_decide _)) eqn:E1; [done|]. destruct (amount =? 0) eqn:E2; [done|].
  destruct (exists_row (same_key wid ty ref) (entries l)) eqn:E3; [done|]. intros [= <- <-].
  bool_hyps. split_and!; try done. intros e He Hk. apply same_key_spec in Hk.
  rewrite exists_row_false in E3. by rewrite E3 in Hk.
Qed.
Lemma insert_entry_ok after :
  amount ≠ 0 → ty ∈ business_types →
  (∀ e, e ∈ entries l → entry_key e ≠ (w_id w, ty, ref)) →
  insert_entry (w_id w) ty ref amount after meta l = Ok (next_entry l,
    {| wallets := wallets l;
       entries := entries l ++
         [{| e_id := next_entry l; e_wallet := w_id w; e_type := ty; e_ref := ref;
             e_amount := amount; e_after := after; e_meta := meta |}];
       next_entry := next_entry l + 1; alerts := alerts l |}).
Proof.
  intros Ha Ht Hk. unfold insert_entry.
  assert (exists_row (λ w', bool_decide (w_id w' = w_id w)) (wallets l) = true) as ->.
  { apply exists_row_true. exists w. split; [done|]. by apply bool_decide_eq_true. }
  assert (exists_row (same_key (w_id w) ty ref) (entries l) = false) as ->.
  { apply exists_row_false. intros e He. apply not_true_iff_false.
    rewrite same_key_spec. by apply Hk. }
  rewrite (bool_decide_eq_true_2 _ Ht), (proj2 (Z.eqb_neq _ _) Ha). done.
Qed.

(** The two statements together, when the entry is new. *)
Lemma insert_then_update after new :
  amount ≠ 0 → ty ∈ business_types →
  (∀ e, e ∈ entries l → entry_key e ≠ (w_id w, ty, ref)) →
  new w = w_balance w + amount →
  (in64 (w_balance w + amount) = true → after = w_balance w + amount) →
  ∃ l1, insert_entry (w_id w) ty ref amount after meta l = Ok (next_entry l, l1) ∧
    update_wallets (is_wallet (w_id w)) new l1 =
      if in64 (w_balance w + amount) then Ok post else Err OutOfRange.
Proof.
  intros Ha Ht Hk Hnew Hafter. eexists. split; [by apply insert_entry_ok|].
  rewrite update_wallets_one by done. destruct (in64 _) eqn:E; [|done].
  f_equal. unfold post, new_entry. cbn. by rewrite Hafter.
Qed.

Lemma elem_post w' :
  w' ∈ wallets post ↔
  (w' ∈ wallets l ∧ w_id w' ≠ w_id w) ∨ w' = with_balance (w_balance w + amount) w.
Proof.
  cbn [post wallets]. rewrite elem_of_update. split.
  - intros (w0 & Hin & ->). destruct (is_wallet (w_id w) w0) eqn:E.
    + apply is_wallet_spec in E. right. by rewrite (wallet_by_id w0 Hin E).
    + left. split; [done|]. intros Hid%is_wallet_spec. congruence.
  - intros [[Hin Hid]| ->].
    + exists w'. split; [done|]. destruct (is_wallet (w_id w) w') eqn:E; [|done].
      by apply is_wallet_spec in E.
    + exists w. split; [done|]. by rewrite (proj2 (is_wallet_spec _ _)).
Qed.
Lemma posted_post wid :
  posted (entries post) wid =
    posted (entries l) wid + (if bool_decide (w_id w = wid) then amount else 0).
Proof. cbn [post entries]. by rewrite posted_app, posted_one. Qed.

(** Posting keeps the invariant. *)
Lemma post_ok :
  amount ≠ 0 → in64 (w_balance w + amount) = true →
  (∀ e, e ∈ entries l → entry_key e ≠ (w_id w, ty, ref)) → ledger_ok post.
Proof.
  intros Ha Hr%in64_spec Hk. destruct Hok as [H1 H2 H3 H4 H5 H6 H7 H8 H9 H10]. constructor.
  - cbn [post wallets]. by rewrite update_column.
  - cbn [post wallets]. by rewrite update_column.
  - apply Forall_forall. intros w' [[Hin _]| ->]%elem_post; [|done].
    rewrite Forall_forall in H3. auto.
  - apply Forall_forall. intros w' Hw'. rewrite posted_post.
    rewrite Forall_forall in H4. apply elem_post in Hw' as [[Hin Hid]| ->].
    + rewrite bool_decide_eq_false_2 by congruence. rewrite (H4 w' Hin). lia.
    + cbn. rewrite bool_decide_eq_true_2 by done. by rewrite <- (H4 w Hw).
  - cbn [post entries next_entry]. rewrite Forall_app. split.
    + eapply Forall_impl; [exact H5|]. cbn. lia.
    + repeat constructor. cbn. lia.
  - cbn [post entries]. rewrite fmap_app. apply NoDup_app. split_and!; [done| |apply NoDup_singleton].
    intros i Hi Hn. apply list_elem_of_fmap in Hi as (e & -> & He). rewrite Forall_forall in H5.
    specialize (H5 e He). cbn in Hn. apply list_elem_of_singleton in Hn. cbn in Hn. lia.
  - cbn [post entries]. rewrite fmap_app. apply NoDup_app. split_and!; [done| |apply NoDup_singleton].
    intros k Hi Hn. apply list_elem_of_fmap in Hi as (e & -> & He).
    apply list_elem_of_singleton in Hn. by apply (Hk e He).
  - cbn [post entries]. apply Forall_app. split; [done|]. by repeat constructor.
  - cbn [post entries wallets]. rewrite update_column by done. apply Forall_app. split; [done|].
    repeat constructor. cbn. apply list_elem_of_fmap. eauto.
  - intros p e s. cbn [post entries]. destruct s as [|x s _] using rev_ind.
    + intros [<- <-]%app_inj_tail. cbn [new_entry e_after e_wallet].
      rewrite posted_app, posted_one. cbn. rewrite bool_decide_eq_true_2 by done.
      rewrite Forall_forall in H4. by rewrite <- (H4 w Hw).
    + change (e :: s ++ [x]) with ((e :: s) ++ [x]). rewrite app_assoc.
      intros [He _]%app_inj_tail. by apply (H10 p e s).
Qed.
End post.

(** ** Lookups *)
Lemma select_wallet_inv user l w : select_wallet user l = Ok w → w ∈ wallets l ∧ w_user w = user.
Proof. intros [Hin Hu]%select_ok. bool_hyps. done. Qed.
Lemma select_wallet_ok l w : ledger_ok l → w ∈ wallets l → select_wallet (w_user w) l = Ok w.
Proof.
  intros Hok Hin. apply (select_unique w_user); [apply Hok|done|by apply bool_decide_eq_true|].
  intros w' Hw'. by bool_hyps.
Qed.
(** The entries of a key. *)
Definition key_amounts (wid ty ref : string) (l : ledger_t) : list Z :=
  amounts (same_key wid ty ref) (entries l).
Lemma key_amounts_nil wid ty ref l :
  key_amounts wid ty ref l = [] → ∀ e, e ∈ entries l → entry_key e ≠ (wid, ty, ref).
Proof.
  unfold key_amounts, amounts. intros H e He Hk. apply same_key_spec in Hk.
  apply fmap_nil_inv in H. assert (e ∈ List.filter (same_key wid ty ref) (entries l)) as Hin.
  { apply list_elem_of_In, List.filter_In. by rewrite <- list_elem_of_In. }
  rewrite H in Hin. by apply elem_of_nil in Hin.
Qed.
Lemma key_amounts_post l w ty ref amount meta wid ty' ref' :
  key_amounts wid ty' ref' (post l w ty ref amount meta) =
  key_amounts wid ty' ref' l ++
    if bool_decide ((w_id w, ty, ref) = (wid, ty', ref')) then [amount] else [].
Proof.
  unfold key_amounts. cbn [post entries]. rewrite amounts_app. f_equal.
  unfold amounts. cbn [List.filter]. case_bool_decide as E.
  - by rewrite (proj2 (same_key_spec wid ty' ref' (new_entry l w ty ref amount meta))).
  - destruct (same_key _ _ _ _) eqn:Es; [|done]. by apply same_key_spec in Es.
Qed.
(** The unused keys of a wallet that has no entries of a type. *)
Lemma key_fresh wid ty ref l : (∀ e, e ∈ entries l → entry_key e ≠ (wid, ty, ref)) →
  key_amounts wid ty ref l = [].
Proof.
  unfold key_amounts, amounts. intros H.
  destruct (List.filter (same_key wid ty ref) (entries l)) as [|e es] eqn:E; [done|].
  exfalso. assert (e ∈ List.filter (same_key wid ty ref) (entries l)) as Hin by (rewrite E; left).
  apply list_elem_of_In, List.filter_In in Hin as [Hin Hk]. apply same_key_spec in Hk.
  apply list_elem_of_In in Hin. by apply (H e).
Qed.

(** No wallet is overdrawn. *)
Definition solvent (l : ledger_t) : Prop := Forall (λ w, 0 <= w_balance w) (wallets l).
Lemma solvent_post l w ty ref amount meta :
  ledger_ok l → w ∈ wallets l → solvent l → 0 <= w_balance w + amount →
  solvent (post l w ty ref amount meta).
Proof.
  unfold solvent. rewrite !Forall_forall. intros Hok Hw Hs Hb w' Hw'.
  apply (elem_post l w ty ref amount meta Hok Hw) in Hw' as [[Hin _]| ->]; [auto|done].
Qed.

(** The wallets and their owners stay. *)
Lemma post_wallets l w ty ref amount meta w' :
  w' ∈ wallets (post l w ty ref amount meta) →
  ∃ w0, w0 ∈ wallets l ∧ w_id w0 = w_id w' ∧ w_user w0 = w_user w'.
Proof.
  cbn [post wallets]. intros (w0 & Hin & ->)%elem_of_update. exists w0. by destruct (is_wallet _ _).
Qed.
Lemma wallets_post l w ty ref amount meta w0 :
  w0 ∈ wallets l →
  ∃ w', w' ∈ wallets (post l w ty ref amount meta) ∧ w_id w' = w_id w0 ∧ w_user w' = w_user w0.
Proof.
  intros Hin. exists (if is_wallet (w_id w) w0 then with_balance (w_balance w + amount) w0 else w0).
  split; [|by destruct (is_wallet _ _)]. cbn [post wallets]. apply elem_of_update. eauto.
Qed.
