(* ===== verification/Schema.v ===== *)
(** * The database schema

    The tables the modelled handlers read and write, as records of rows, and
    the database [db] that holds them.  A column that is NULL-able is an
    [option]; timestamps are microseconds; identifiers are strings (uuid) or
    [Z] (bigserial).  A group of tables is a record of its own, with an update
    function [upd_<group>] on [db], so that the statements of a component are
    written against its group only.  Status columns whose CHECK lists the
    states of a machine of [Domain] use that machine's type. *)
From S2P Require Import Prelude GoValue Domain Money Tx Table Ledger.
From stdpp Require Import list.
Open Scope Z_scope.

Definition timestamp : Type := Z.

(** payment_orders.status: the states of the domain and 'failed', which no
    handler writes (migration 10). *)
Inductive order_status := OrderSt (s : OrderState) | OrderFailed.
#[export] Instance order_status_eq_dec : EqDecision order_status.
Proof. solve_decision. Defined.

(** user_subscriptions.status, subscription_purchases.action and .status. *)
Inductive sub_status := SubActive | SubGracePeriod | SubCanceled | SubExpired.
#[export] Instance sub_status_eq_dec : EqDecision sub_status.
Proof. solve_decision. Defined.
Inductive sub_action := ActPurchase | ActRenewal | ActUpgrade | ActDowngrade | ActChange.
Inductive purchase_status := PurchaseSucceeded | PurchaseInsufficientFunds.
#[export] Instance purchase_status_eq_dec : EqDecision purchase_status.
Proof. solve_decision. Defined.
(** user_apps.status (migration 57). *)
Inductive app_status :=
  | AppStopped | AppStopping | AppDeploying | AppRunning | AppUpdating | AppSuspended | AppFailed.
#[export] Instance app_status_eq_dec : EqDecision app_status.
Proof. solve_decision. Defined.
(** pricing_versions.rounding_mode. *)
Inductive rounding_mode := RoundUp | RoundDown | RoundHalfUp.
(** usage_aggregates.billing_disposition (migrations 28 and 58). *)
Inductive disposition := Pending | Charged | Unpriced | WaivedLegacy.
#[export] Instance disposition_eq_dec : EqDecision disposition.
Proof. solve_decision. Defined.

(** ** Rows *)
Record user_row := {
  u_id : string; u_status : string
}.
Record provider_config := {
  pc_provider : string; pc_enabled : bool; pc_merchant : string; pc_secret : string;
  pc_endpoint : string; pc_payment_type : string; pc_methods : list paymentMethod
}.
Record payment_order := {
  o_id : string; o_user : string; o_provider : string; o_payment_type : string; o_amount : Z;
  o_status : order_status; o_key : string; o_ref : option string; o_paid_at : option timestamp;
  o_closed_at : option timestamp; o_queried_at : option timestamp
}.
Record order_event := {
  oe_order : string; oe_from : option order_status; oe_to : order_status; oe_message : string
}.
Record refund := {
  rf_id : string; rf_order : string; rf_user : string; rf_provider : string; rf_amount : Z;
  rf_status : RefundState; rf_reason : string; rf_entry : option Z; rf_by_ : string;
  rf_request : string; rf_created : timestamp; rf_completed : option timestamp
}.
Record refund_event := {
  re_refund : string; re_from : option RefundState; re_to : RefundState; re_message : string;
  re_meta : jsonb
}.
Record provider_operation := {
  po_order : string; po_provider : string; po_operation : string; po_result : string;
  po_provider_status : string; po_message : string; po_request : string
}.
Record audit_row := {
  au_actor : option string; au_subject : option string; au_action : string; au_rtype : string;
  au_rid : string; au_request : string; au_meta : jsonb
}.
Record checkin := {
  ck_user : string; ck_date : string; ck_reward : Z; ck_entry : Z
}.
Record invite := {
  iv_id : string; iv_inviter : string; iv_code : string; iv_invited : option string;
  iv_reward : Z; iv_rewarded : option timestamp
}.
Record credit_grant := {
  cg_id : string; cg_user : string; cg_amount : Z; cg_remaining : Z; cg_ref : string;
  cg_note : string; cg_expires : option timestamp; cg_by_ : option string;
  cg_created : timestamp
}.
Record credit_consumption := {
  cc_grant : string; cc_charge : Z; cc_amount : Z
}.
Record notification := {
  n_user : string; n_event_key : string; n_kind : string; n_severity : string;
  n_title : string; n_meta : jsonb; n_email : string
}.
Record app_row := {
  a_id : string; a_user : string; a_slug : string; a_status : app_status;
  a_suspension : option string; a_suspended_at : option timestamp;
  a_last_release : option string; a_deleted_at : option timestamp
}.
Record route_row := {
  rt_app : string; rt_release : string; rt_upstream_container : string; rt_host_port : option Z
}.
Record job_row := {
  j_id : string; j_app : string; j_release : string; j_key : string; j_state : DeploymentState;
  j_operation : string; j_source : option string
}.
Record pricing_version := {
  pv_id : string; pv_item : string; pv_unit_price_micros : Z; pv_rounding : rounding_mode;
  pv_minimum : Z; pv_free : Z; pv_effective : timestamp
}.
Record usage_event := {
  ue_id : Z; ue_user : string; ue_app : option string; ue_code : string; ue_quantity : Z;
  ue_unit : string; ue_start : timestamp; ue_stop : timestamp; ue_price : option string;
  ue_aggregated : option timestamp
}.
Record usage_aggregate := {
  ua_id : Z; ua_user : string; ua_app : option string; ua_code : string; ua_unit : string;
  ua_start : timestamp; ua_stop : timestamp; ua_price : option string; ua_quantity : Z;
  ua_sealed : option timestamp; ua_disposition : disposition
}.
Record usage_charge := {
  uc_id : Z; uc_user : string; uc_app : option string; uc_code : string; uc_start : timestamp;
  uc_stop : timestamp; uc_pricing : string; uc_quantity : Z; uc_amount : Z; uc_entry : option Z
}.
Record billing_attempt := {
  ba_user : string; ba_app : option string; ba_code : string; ba_start : timestamp;
  ba_stop : timestamp; ba_pricing : string; ba_amount : Z; ba_charged : bool; ba_balance : Z;
  ba_credit : Z
}.
Record bill := {
  b_id : string; b_user : string; b_start : timestamp; b_stop : timestamp; b_total : Z
}.
Record plan := {
  pl_id : string; pl_code : string; pl_name : string; pl_purchase_enabled : bool
}.
Record plan_version := {
  pn_id : string; pn_plan : string; pn_version : Z; pn_price : Z; pn_entitlements : jsonb;
  pn_effective : timestamp
}.
Record user_subscription := {
  us_user : string; us_version : string; us_entitlements : jsonb; us_price : Z;
  us_status : sub_status; us_starts : timestamp; us_ends : option timestamp;
  us_grace : option timestamp
}.
Record subscription_purchase := {
  sp_id : string; sp_user : string; sp_version : string; sp_previous : option string;
  sp_key : string; sp_action : sub_action; sp_status : purchase_status; sp_amount : Z;
  sp_balance : Z; sp_start : timestamp; sp_stop : timestamp; sp_ends : option timestamp;
  sp_entry : option Z; sp_created : timestamp
}.
Record subscription_bill_item := {
  si_bill : string; si_purchase : string; si_version : string; si_code : string;
  si_name : string; si_action : sub_action; si_amount : Z; si_start : timestamp;
  si_stop : timestamp
}.
Record bill_item := {
  bi_bill : string; bi_charge : Z; bi_app : option string; bi_slug : option string;
  bi_code : string; bi_unit : string; bi_quantity : Z; bi_pricing : string; bi_price : Z;
  bi_amount : Z; bi_start : timestamp; bi_stop : timestamp
}.

(** ** Groups of tables *)
Record payments_t := {
  orders : list payment_order;
  order_events : list order_event;
  refunds : list refund;
  refund_events : list refund_event;
  provider_configs : list provider_config;
  provider_operations : list provider_operation
}.
Definition set_orders x t := {|
  orders := x; order_events := order_events t; refunds := refunds t;
  refund_events := refund_events t; provider_configs := provider_configs t;
  provider_operations := provider_operations t |}.
Definition set_order_events x t := {|
  orders := orders t; order_events := x; refunds := refunds t;
  refund_events := refund_events t; provider_configs := provider_configs t;
  provider_operations := provider_operations t |}.
Definition set_refunds x t := {|
  orders := orders t; order_events := order_events t; refunds := x;
  refund_events := refund_events t; provider_configs := provider_configs t;
  provider_operations := provider_operations t |}.
Definition set_refund_events x t := {|
  orders := orders t; order_events := order_events t; refunds := refunds t;
  refund_events := x; provider_configs := provider_configs t;
  provider_operations := provider_operations t |}.
Definition set_provider_configs x t := {|
  orders := orders t; order_events := order_events t; refunds := refunds t;
  refund_events := refund_events t; provider_configs := x;
  provider_operations := provider_operations t |}.
Definition set_provider_operations x t := {|
  orders := orders t; order_events := order_events t; refunds := refunds t;
  refund_events := refund_events t; provider_configs := provider_configs t;
  provider_operations := x |}.

Record credits_t := {
  grants : list credit_grant;
  consumptions : list credit_consumption
}.
Definition set_grants x t := {|
  grants := x; consumptions := consumptions t |}.
Definition set_consumptions x t := {|
  grants := grants t; consumptions := x |}.

Record apps_t := {
  user_apps : list app_row;
  app_routes : list route_row;
  deployment_jobs : list job_row
}.
Definition set_user_apps x t := {|
  user_apps := x; app_routes := app_routes t; deployment_jobs := deployment_jobs t |}.
Definition set_app_routes x t := {|
  user_apps := user_apps t; app_routes := x; deployment_jobs := deployment_jobs t |}.
Definition set_deployment_jobs x t := {|
  user_apps := user_apps t; app_routes := app_routes t; deployment_jobs := x |}.

Record usage_t := {
  pricing_versions : list pricing_version;
  usage_events : list usage_event;
  usage_aggregates : list usage_aggregate;
  next_aggregate : Z;
  usage_charges : list usage_charge;
  next_charge : Z;
  billing_attempts : list billing_attempt;
  bills : list bill;
  bill_items : list bill_item
}.
Definition set_pricing_versions x t := {|
  pricing_versions := x; usage_events := usage_events t;
  usage_aggregates := usage_aggregates t; next_aggregate := next_aggregate t;
  usage_charges := usage_charges t; next_charge := next_charge t;
  billing_attempts := billing_attempts t; bills := bills t; bill_items := bill_items t |}.
Definition set_usage_events x t := {|
  pricing_versions := pricing_versions t; usage_events := x;
  usage_aggregates := usage_aggregates t; next_aggregate := next_aggregate t;
  usage_charges := usage_charges t; next_charge := next_charge t;
  billing_attempts := billing_attempts t; bills := bills t; bill_items := bill_items t |}.
Definition set_usage_aggregates x t := {|
  pricing_versions := pricing_versions t; usage_events := usage_events t;
  usage_aggregates := x; next_aggregate := next_aggregate t;
  usage_charges := usage_charges t; next_charge := next_charge t;
  billing_attempts := billing_attempts t; bills := bills t; bill_items := bill_items t |}.
Definition set_next_aggregate x t := {|
  pricing_versions := pricing_versions t; usage_events := usage_events t;
  usage_aggregates := usage_aggregates t; next_aggregate := x;
  usage_charges := usage_charges t; next_charge := next_charge t;
  billing_attempts := billing_attempts t; bills := bills t; bill_items := bill_items t |}.
Definition set_usage_charges x t := {|
  pricing_versions := pricing_versions t; usage_events := usage_events t;
  usage_aggregates := usage_aggregates t; next_aggregate := next_aggregate t;
  usage_charges := x; next_charge := next_charge t;
  billing_attempts := billing_attempts t; bills := bills t; bill_items := bill_items t |}.
Definition set_next_charge x t := {|
  pricing_versions := pricing_versions t; usage_events := usage_events t;
  usage_aggregates := usage_aggregates t; next_aggregate := next_aggregate t;
  usage_charges := usage_charges t; next_charge := x;
  billing_attempts := billing_attempts t; bills := bills t; bill_items := bill_items t |}.
Definition set_billing_attempts x t := {|
  pricing_versions := pricing_versions t; usage_events := usage_events t;
  usage_aggregates := usage_aggregates t; next_aggregate := next_aggregate t;
  usage_charges := usage_charges t; next_charge := next_charge t; billing_attempts := x;
  bills := bills t; bill_items := bill_items t |}.
Definition set_bills x t := {|
  pricing_versions := pricing_versions t; usage_events := usage_events t;
  usage_aggregates := usage_aggregates t; next_aggregate := next_aggregate t;
  usage_charges := usage_charges t; next_charge := next_charge t;
  billing_attempts := billing_attempts t; bills := x; bill_items := bill_items t |}.
Definition set_bill_items x t := {|
  pricing_versions := pricing_versions t; usage_events := usage_events t;
  usage_aggregates := usage_aggregates t; next_aggregate := next_aggregate t;
  usage_charges := usage_charges t; next_charge := next_charge t;
  billing_attempts := billing_attempts t; bills := bills t; bill_items := x |}.

Record subs_t := {
  plans : list plan;
  plan_versions : list plan_version;
  user_subscriptions : list user_subscription;
  subscription_purchases : list subscription_purchase;
  subscription_bill_items : list subscription_bill_item
}.
Definition set_plans x t := {|
  plans := x; plan_versions := plan_versions t; user_subscriptions := user_subscriptions t;
  subscription_purchases := subscription_purchases t;
  subscription_bill_items := subscription_bill_items t |}.
Definition set_plan_versions x t := {|
  plans := plans t; plan_versions := x; user_subscriptions := user_subscriptions t;
  subscription_purchases := subscription_purchases t;
  subscription_bill_items := subscription_bill_items t |}.
Definition set_user_subscriptions x t := {|
  plans := plans t; plan_versions := plan_versions t; user_subscriptions := x;
  subscription_purchases := subscription_purchases t;
  subscription_bill_items := subscription_bill_items t |}.
Definition set_subscription_purchases x t := {|
  plans := plans t; plan_versions := plan_versions t;
  user_subscriptions := user_subscriptions t; subscription_purchases := x;
  subscription_bill_items := subscription_bill_items t |}.
Definition set_subscription_bill_items x t := {|
  plans := plans t; plan_versions := plan_versions t;
  user_subscriptions := user_subscriptions t;
  subscription_purchases := subscription_purchases t; subscription_bill_items := x |}.

(** ** The database

    [startup_balance_reserve_cents], [checkin_settings] (enabled, minimum,
    maximum) and [invite_reward_cents] are the settings rows the money handlers read. *)
Record db := {
  users : list user_row;
  ledger : ledger_t;
  payments : payments_t;
  credits : credits_t;
  checkins : list checkin;
  invites : list invite;
  apps : apps_t;
  usage : usage_t;
  subs : subs_t;
  notifications : list notification;
  audit_logs : list audit_row;
  startup_balance_reserve_cents : Z;
  checkin_settings : bool * Z * Z;
  invite_reward_cents : Z
}.
Definition upd_users (g : list user_row → list user_row) (d : db) : db := {|
  users := g (users d); ledger := ledger d; payments := payments d; credits := credits d;
  checkins := checkins d; invites := invites d; apps := apps d; usage := usage d;
  subs := subs d; notifications := notifications d; audit_logs := audit_logs d;
  startup_balance_reserve_cents := startup_balance_reserve_cents d;
  checkin_settings := checkin_settings d; invite_reward_cents := invite_reward_cents d |}.
Definition upd_ledger (g : ledger_t → ledger_t) (d : db) : db := {|
  users := users d; ledger := g (ledger d); payments := payments d; credits := credits d;
  checkins := checkins d; invites := invites d; apps := apps d; usage := usage d;
  subs := subs d; notifications := notifications d; audit_logs := audit_logs d;
  startup_balance_reserve_cents := startup_balance_reserve_cents d;
  checkin_settings := checkin_settings d; invite_reward_cents := invite_reward_cents d |}.
Definition upd_payments (g : payments_t → payments_t) (d : db) : db := {|
  users := users d; ledger := ledger d; payments := g (payments d); credits := credits d;
  checkins := checkins d; invites := invites d; apps := apps d; usage := usage d;
  subs := subs d; notifications := notifications d; audit_logs := audit_logs d;
  startup_balance_reserve_cents := startup_balance_reserve_cents d;
  checkin_settings := checkin_settings d; invite_reward_cents := invite_reward_cents d |}.
Definition upd_credits (g : credits_t → credits_t) (d : db) : db := {|
  users := users d; ledger := ledger d; payments := payments d; credits := g (credits d);
  checkins := checkins d; invites := invites d; apps := apps d; usage := usage d;
  subs := subs d; notifications := notifications d; audit_logs := audit_logs d;
  startup_balance_reserve_cents := startup_balance_reserve_cents d;
  checkin_settings := checkin_settings d; invite_reward_cents := invite_reward_cents d |}.
Definition upd_checkins (g : list checkin → list checkin) (d : db) : db := {|
  users := users d; ledger := ledger d; payments := payments d; credits := credits d;
  checkins := g (checkins d); invites := invites d; apps := apps d; usage := usage d;
  subs := subs d; notifications := notifications d; audit_logs := audit_logs d;
  startup_balance_reserve_cents := startup_balance_reserve_cents d;
  checkin_settings := checkin_settings d; invite_reward_cents := invite_reward_cents d |}.
Definition upd_invites (g : list invite → list invite) (d : db) : db := {|
  users := users d; ledger := ledger d; payments := payments d; credits := credits d;
  checkins := checkins d; invites := g (invites d); apps := apps d; usage := usage d;
  subs := subs d; notifications := notifications d; audit_logs := audit_logs d;
  startup_balance_reserve_cents := startup_balance_reserve_cents d;
  checkin_settings := checkin_settings d; invite_reward_cents := invite_reward_cents d |}.
Definition upd_apps (g : apps_t → apps_t) (d : db) : db := {|
  users := users d; ledger := ledger d; payments := payments d; credits := credits d;
  checkins := checkins d; invites := invites d; apps := g (apps d); usage := usage d;
  subs := subs d; notifications := notifications d; audit_logs := audit_logs d;
  startup_balance_reserve_cents := startup_balance_reserve_cents d;
  checkin_settings := checkin_settings d; invite_reward_cents := invite_reward_cents d |}.
Definition upd_usage (g : usage_t → usage_t) (d : db) : db := {|
  users := users d; ledger := ledger d; payments := payments d; credits := credits d;
  checkins := checkins d; invites := invites d; apps := apps d; usage := g (usage d);
  subs := subs d; notifications := notifications d; audit_logs := audit_logs d;
  startup_balance_reserve_cents := startup_balance_reserve_cents d;
  checkin_settings := checkin_settings d; invite_reward_cents := invite_reward_cents d |}.
Definition upd_subs (g : subs_t → subs_t) (d : db) : db := {|
  users := users d; ledger := ledger d; payments := payments d; credits := credits d;
  checkins := checkins d; invites := invites d; apps := apps d; usage := usage d;
  subs := g (subs d); notifications := notifications d; audit_logs := audit_logs d;
  startup_balance_reserve_cents := startup_balance_reserve_cents d;
  checkin_settings := checkin_settings d; invite_reward_cents := invite_reward_cents d |}.
Definition upd_notifications (g : list notification → list notification) (d : db) : db := {|
  users := users d; ledger := ledger d; payments := payments d; credits := credits d;
  checkins := checkins d; invites := invites d; apps := apps d; usage := usage d;
  subs := subs d; notifications := g (notifications d); audit_logs := audit_logs d;
  startup_balance_reserve_cents := startup_balance_reserve_cents d;
  checkin_settings := checkin_settings d; invite_reward_cents := invite_reward_cents d |}.
Definition upd_audit_logs (g : list audit_row → list audit_row) (d : db) : db := {|
  users := users d; ledger := ledger d; payments := payments d; credits := credits d;
  checkins := checkins d; invites := invites d; apps := apps d; usage := usage d;
  subs := subs d; notifications := notifications d; audit_logs := g (audit_logs d);
  startup_balance_reserve_cents := startup_balance_reserve_cents d;
  checkin_settings := checkin_settings d; invite_reward_cents := invite_reward_cents d |}.
Definition upd_startup_balance_reserve_cents (g : Z → Z) (d : db) : db := {|
  users := users d; ledger := ledger d; payments := payments d; credits := credits d;
  checkins := checkins d; invites := invites d; apps := apps d; usage := usage d;
  subs := subs d; notifications := notifications d; audit_logs := audit_logs d;
  startup_balance_reserve_cents := g (startup_balance_reserve_cents d);
  checkin_settings := checkin_settings d; invite_reward_cents := invite_reward_cents d |}.
Definition upd_checkin_settings (g : bool * Z * Z → bool * Z * Z) (d : db) : db := {|
  users := users d; ledger := ledger d; payments := payments d; credits := credits d;
  checkins := checkins d; invites := invites d; apps := apps d; usage := usage d;
  subs := subs d; notifications := notifications d; audit_logs := audit_logs d;
  startup_balance_reserve_cents := startup_balance_reserve_cents d;
  checkin_settings := g (checkin_settings d); invite_reward_cents := invite_reward_cents d |}.
Definition upd_invite_reward_cents (g : Z → Z) (d : db) : db := {|
  users := users d; ledger := ledger d; payments := payments d; credits := credits d;
  checkins := checkins d; invites := invites d; apps := apps d; usage := usage d;
  subs := subs d; notifications := notifications d; audit_logs := audit_logs d;
  startup_balance_reserve_cents := startup_balance_reserve_cents d;
  checkin_settings := checkin_settings d; invite_reward_cents := g (invite_reward_cents d) |}.

(** A statement on one group. *)
Definition on_ledger {A} (f : ledger_t → result sqlerr (A * ledger_t)) (d : db) :
    result sqlerr (A * db) :=
  match f (ledger d) with Ok (a, l) => Ok (a, upd_ledger (λ _, l) d) | Err e => Err e end.
Definition on_ledger_ (f : ledger_t → result sqlerr ledger_t) (d : db) : result sqlerr db :=
  match f (ledger d) with Ok l => Ok (upd_ledger (λ _, l) d) | Err e => Err e end.

(** INSERT INTO audit_logs(...). *)
Definition audit (row : audit_row) (d : db) : result sqlerr db :=
  Ok (upd_audit_logs (λ t, t ++ [row]) d).
(** INSERT INTO user_notifications(...) ON CONFLICT(user_id,event_key) DO NOTHING. *)
Definition notify (row : notification) (d : db) : result sqlerr db :=
  if exists_row (λ n, bool_decide (n_user n = n_user row) && bool_decide (n_event_key n = n_event_key row))
       (notifications d)
  then Ok d else Ok (upd_notifications (λ t, t ++ [row]) d).
(** SELECT id FROM users WHERE id=$1 AND status='active' FOR UPDATE. *)
Definition select_active_user (user : string) (d : db) : result sqlerr user_row :=
  select (λ u, bool_decide (u_id u = user) && bool_decide (u_status u = "active"%string)) (users d).

(** ** Extensionality: databases with equal columns are equal *)
Lemma db_eq (d d' : db) :
  users d = users d' → ledger d = ledger d' → payments d = payments d' →
  credits d = credits d' → checkins d = checkins d' → invites d = invites d' →
  apps d = apps d' → usage d = usage d' → subs d = subs d' →
  notifications d = notifications d' → audit_logs d = audit_logs d' →
  startup_balance_reserve_cents d = startup_balance_reserve_cents d' →
  checkin_settings d = checkin_settings d' →
  invite_reward_cents d = invite_reward_cents d' → d = d'.
Proof. destruct d, d'; cbn; congruence. Qed.
Lemma payments_eq (d d' : payments_t) :
  orders d = orders d' → order_events d = order_events d' → refunds d = refunds d' →
  refund_events d = refund_events d' → provider_configs d = provider_configs d' →
  provider_operations d = provider_operations d' → d = d'.
Proof. destruct d, d'; cbn; congruence. Qed.
Lemma credits_eq (d d' : credits_t) :
  grants d = grants d' → consumptions d = consumptions d' → d = d'.
Proof. destruct d, d'; cbn; congruence. Qed.
Lemma apps_eq (d d' : apps_t) :
  user_apps d = user_apps d' → app_routes d = app_routes d' →
  deployment_jobs d = deployment_jobs d' → d = d'.
Proof. destruct d, d'; cbn; congruence. Qed.
Lemma usage_eq (d d' : usage_t) :
  pricing_versions d = pricing_versions d' → usage_events d = usage_events d' →
  usage_aggregates d = usage_aggregates d' → next_aggregate d = next_aggregate d' →
  usage_charges d = usage_charges d' → next_charge d = next_charge d' →
  billing_attempts d = billing_attempts d' → bills d = bills d' →
  bill_items d = bill_items d' → d = d'.
Proof. destruct d, d'; cbn; congruence. Qed.
Lemma subs_eq (d d' : subs_t) :
  plans d = plans d' → plan_versions d = plan_versions d' →
  user_subscriptions d = user_subscriptions d' →
  subscription_purchases d = subscription_purchases d' →
  subscription_bill_items d = subscription_bill_items d' → d = d'.
Proof. destruct d, d'; cbn; congruence. Qed.
