(* ===== verification/Http.v ===== *)
(** * Requests and responses

    What a handler of internal/httpapi takes from the request context
    (principal, request identifier, clock) and the answers it writes.
    Interfaces to code the handlers call: the secret box, and PostgreSQL's
    reading of a UUID. *)
From S2P Require Import Prelude Tx Table Ledger.

(** [actor] is the administrator who impersonates the principal, if any. *)
Record request := { principal : string; actor : option string; request_id : string; now : Z; origin : string }.
Definition audit_actor (rq : request) : string := default (principal rq) (actor rq).

Inductive response :=
  | RError (status : Z) (code : string)         (* writeError *)
  | RJson (status : Z) (body : jsonb)           (* writeJSON *)
  | RText (status : Z) (body : string).
#[export] Instance jsonv_eq_dec : EqDecision jsonv.
Proof. solve_decision. Defined.
#[export] Instance response_eq_dec : EqDecision response.
Proof. solve_decision. Defined.
Definition status_of (r : response) : Z :=
  match r with RError s _ | RJson s _ | RText s _ => s end.

(** s.internalError(w, err). *)
Definition internal_error : response := RError 500 "internal_error".
Definition internalError (_ : sqlerr) : response := internal_error.

(** The secret box (internal/secretbox), which the handlers decrypt settings
    with. *)
Class Secrets := { decrypt : string → string → option string }.
(** A value for a [uuid] parameter: PostgreSQL refuses any other text.  The
    identifiers of requests are taken in the canonical spelling. *)
Class UuidSyntax := { valid_uuid : string → bool }.
