(* ===== verification/Payments.v ===== *)
(** * Payment orders

    Creation, settlement (by an administrator or by the EPay callback),
    closing and refund of payment orders
    (internal/httpapi/payment_features.go, epay_callback.go,
    payment_operations.go, payment_provider.go), over the tables and triggers
    of migrations 7, 10, 21, 45, 59 and 71. *)
From S2P Require Import Prelude GoStrings GoValue Domain Money Tx Table Ledger Schema Http.
From stdpp Require Import list.
Open Scope string_scope.
Open Scope Z_scope.
Open Scope list_scope.

(** ** Statements *)
Definition paid : order_status := OrderSt OrderPaid.
Definition pending : order_status := OrderSt OrderPending.
Definition refunding : order_status := OrderSt OrderRefunding.
Definition refunded : order_status := OrderSt OrderRefunded.

Definition order_is (id : string) (o : payment_order) : bool := bool_decide (o_id o = id).
(** SELECT ... FROM payment_orders WHERE id=$1 [AND <p>] [FOR UPDATE]. *)
Definition select_order_where `{UuidSyntax} (p : payment_order → bool) (id : string) (d : db) :
    result sqlerr payment_order :=
  if valid_uuid id then select (λ o, order_is id o && p o) (orders (payments d))
  else Err (Constraint "invalid input syntax for type uuid").
Definition select_order `{UuidSyntax} : string → db → result sqlerr payment_order :=
  select_order_where (λ _, true).
Definition on_payments (f : payments_t → result sqlerr payments_t) (d : db) : result sqlerr db :=
  match f (payments d) with Ok t => Ok (upd_payments (λ _, t) d) | Err e => Err e end.

(** INSERT INTO payment_orders(user_id,provider,payment_type,amount_cents,
    idempotency_key) ... RETURNING id; [id] is the generated uuid. *)
Definition insert_order (id user provider payment_type : string) (amount : Z) (key : string)
    (d : db) : result sqlerr db :=
  let t := payments d in
  if negb (exists_row (λ u, bool_decide (u_id u = user)) (users d))
  then Err (Constraint "payment_orders_user_id_fkey")
  else if negb (exists_row (λ c, bool_decide (pc_provider c = provider)) (provider_configs t))
  then Err (Constraint "payment_orders_provider_fkey")
  else if amount <=? 0 then Err (Constraint "payment_orders_amount_cents_check")
  else if exists_row (order_is id) (orders t) then Err (Constraint "payment_orders_pkey")
  else if exists_row (λ o, bool_decide (o_user o = user) && bool_decide (o_key o = key)) (orders t)
  then Err (Constraint "payment_orders_user_id_idempotency_key_key")
  else Ok (upd_payments (λ t, set_orders (orders t ++
    [{| o_id := id; o_user := user; o_provider := provider; o_payment_type := payment_type;
        o_amount := amount; o_status := pending; o_key := key; o_ref := None;
        o_paid_at := None; o_closed_at := None; o_queried_at := None |}]) t) d).

Definition with_status (s : order_status) (paid_at closed_at : option timestamp)
    (ref : option string) (o : payment_order) : payment_order :=
  {| o_id := o_id o; o_user := o_user o; o_provider := o_provider o;
     o_payment_type := o_payment_type o; o_amount := o_amount o; o_status := s; o_key := o_key o;
     o_ref := match ref with Some r => Some r | None => o_ref o end;
     o_paid_at := match paid_at with Some t => Some t | None => o_paid_at o end;
     o_closed_at := match closed_at with Some t => Some t | None => o_closed_at o end;
     o_queried_at := o_queried_at o |}.
(** The partial unique index [payment_orders_epay_provider_ref_uidx]. *)
Definition ref_taken (id ref : string) (o : payment_order) : bool :=
  bool_decide (o_provider o = "epay") && bool_decide (o_ref o = Some ref) && negb (order_is id o).
(** UPDATE payment_orders SET status=... WHERE id=$1. *)
Definition update_order (id : string) (s : order_status) (paid_at closed_at : option timestamp)
    (ref : option string) (t : payments_t) : result sqlerr payments_t :=
  match ref with
  | Some r =>
      if exists_row (λ o, order_is id o && bool_decide (o_provider o = "epay")) (orders t)
         && negb (bool_decide (r = "")) && exists_row (ref_taken id r) (orders t)
      then Err (Constraint "payment_orders_epay_provider_ref_uidx")
      else Ok (set_orders (update (order_is id) (with_status s paid_at closed_at ref) (orders t)) t)
  | None => Ok (set_orders (update (order_is id) (with_status s paid_at closed_at ref) (orders t)) t)
  end.
Definition insert_order_event (ev : order_event) (t : payments_t) : result sqlerr payments_t :=
  Ok (set_order_events (order_events t ++ [ev]) t).

(** *** Refunds and their triggers *)
Definition refund_of (order_id : string) (r : refund) : bool := bool_decide (rf_order r = order_id).
Definition refund_is (id : string) (r : refund) : bool := bool_decide (rf_id r = id).

(** [enforce_refund_order_alignment], deferred to the commit. *)
Definition refund_order_aligned (order_id : string) (d : db) : bool :=
  match List.find (order_is order_id) (orders (payments d)) with
  | None => true
  | Some o =>
      match List.find (refund_of order_id) (refunds (payments d)) with
      | None => negb (bool_decide (o_status o = refunding) || bool_decide (o_status o = refunded))
      | Some r =>
          bool_decide (o_status o = match rf_status r with
                                    | RefundProcessing => refunding
                                    | RefundSucceeded => refunded
                                    | RefundFailed => paid end)
          && bool_decide (o_user o = rf_user r) && bool_decide (o_provider o = rf_provider r)
          && bool_decide (o_amount o = rf_amount r)
      end
  end.
(** [enforce_refund_event_alignment], deferred to the commit. *)
Definition events_to (id : string) (s : RefundState) (t : payments_t) : nat :=
  List.length (List.filter (λ e, bool_decide (re_refund e = id) && bool_decide (re_to e = s))
                 (refund_events t)).
Definition refund_events_aligned (id : string) (d : db) : bool :=
  match List.find (refund_is id) (refunds (payments d)) with
  | None => true
  | Some r =>
      let n s := events_to id s (payments d) in
      (n RefundProcessing =? 1)%nat &&
      match rf_status r with
      | RefundProcessing => (n RefundSucceeded =? 0)%nat && (n RefundFailed =? 0)%nat
      | RefundSucceeded => (n RefundSucceeded =? 1)%nat && (n RefundFailed =? 0)%nat
      | RefundFailed => (n RefundSucceeded =? 0)%nat && (n RefundFailed =? 1)%nat
      end
  end.

(** INSERT INTO refunds(...) VALUES(...,'processing',...) with the CHECKs and
    the trigger [protect_refund_record]. *)
Definition insert_refund (r : refund) (d : db) : result sqlerr db :=
  let t := payments d in
  if exists_row (λ r', refund_is (rf_id r) r' || refund_of (rf_order r) r') (refunds t)
  then Err (Constraint "refunds_order_id_key")
  else if negb ((1 <=? rune_count (rf_reason r)) && (rune_count (rf_reason r) <=? 500))
  then Err (Constraint "refunds_reason_check")
  else if bool_decide (trim_space (rf_request r) = "")
  then Err (Constraint "refunds_request_id_check")
  else if negb (exists_row (λ o,
         order_is (rf_order r) o && bool_decide (o_user o = rf_user r)
         && bool_decide (o_provider o = rf_provider r) && bool_decide (o_amount o = rf_amount r)
         && (bool_decide (o_status o = refunding) || bool_decide (o_status o = refunded))) (orders t))
  then Err (Constraint "refund snapshot does not match a refundable payment order")
  else Ok (upd_payments (λ t, set_refunds (refunds t ++ [r]) t) d).
Definition insert_refund_event (ev : refund_event) (t : payments_t) : result sqlerr payments_t :=
  if exists_row (λ e, bool_decide (re_refund e = re_refund ev) && bool_decide (re_to e = re_to ev))
       (refund_events t)
  then Err (Constraint "refund_events_refund_id_to_status_key")
  else Ok (set_refund_events (refund_events t ++ [ev]) t).

(** The ledger entry a succeeded refund must point to. *)
Definition refund_entry_matches (r : refund) (entry : Z) (d : db) : bool :=
  exists_row (λ e, (e_id e =? entry) && bool_decide (e_type e = "refund")
                   && bool_decide (e_ref e = rf_order r) && (e_amount e =? - rf_amount r)
                   && exists_row (λ w, bool_decide (w_id w = e_wallet e)
                                       && bool_decide (w_user w = rf_user r)) (wallets (ledger d)))
    (entries (ledger d)).
(** UPDATE refunds SET status='succeeded',ledger_entry_id=$2,completed_at=now()
    WHERE id=$1 RETURNING completed_at. *)
Definition succeed_refund (id : string) (entry : Z) (at_ : timestamp) (d : db) : result sqlerr db :=
  match List.find (refund_is id) (refunds (payments d)) with
  | None => Err NoRows
  | Some r =>
      if negb (bool_decide (rf_status r = RefundProcessing))
      then Err (Constraint "refund terminal state is immutable")
      else if negb (refund_entry_matches r entry d)
      then Err (Constraint "refund ledger entry does not match the refund snapshot")
      else Ok (upd_payments (λ t, set_refunds (update (refund_is id) (λ r,
        {| rf_id := rf_id r; rf_order := rf_order r; rf_user := rf_user r;
           rf_provider := rf_provider r; rf_amount := rf_amount r; rf_status := RefundSucceeded;
           rf_reason := rf_reason r; rf_entry := Some entry; rf_by_ := rf_by_ r;
           rf_request := rf_request r; rf_created := rf_created r;
           rf_completed := Some at_ |}) (refunds t)) t) d)
  end.

Definition program := tx db response.

(** ** Settlement by an administrator *)
Section handlers.
Context (rq : request).

(** The statements both settlements share: INSERT the ledger entry, credit the
    wallet, mark the order as paid, log the event. *)
Definition markPaymentPaid `{UuidSyntax} (orderID : string) : program response :=
  begin_tx;;
  o ← on_no_rows (query (select_order orderID)) (exit (RError 404 "order_not_found"));
  if bool_decide (o_status o = paid) then
    w ← query (λ d, select_wallet (o_user o) (ledger d));
    commit;;
    mret (RJson 200 [("orderId", JStr orderID); ("status", JStr "paid");
                     ("balanceCents", JInt (w_balance w)); ("idempotent", JBool true)])
  else if negb (bool_decide (o_status o = pending)) then exit (RError 409 "order_not_pending")
  else
    w ← query (λ d, select_wallet (o_user o) (ledger d));
    let newBalance := wrap64 (w_balance w + o_amount o) in
    entryID ← stmt (on_ledger (insert_entry (w_id w) "topup" orderID (o_amount o) newBalance
                                [("order_id", JStr orderID)]));
    exec (on_ledger_ (add_balance (o_amount o) (w_id w)));;
    exec (on_payments (update_order orderID paid (Some (now rq)) None None));;
    defer (refund_order_aligned orderID);;
    exec (on_payments (insert_order_event
      {| oe_order := orderID; oe_from := Some pending; oe_to := paid;
         oe_message := "manual payment verified" |}));;
    exec (audit {| au_actor := Some (principal rq); au_subject := Some (o_user o);
                   au_action := "payment.mark_paid"; au_rtype := "payment_order"; au_rid := orderID;
                   au_request := request_id rq;
                   au_meta := [("amount_cents", JInt (o_amount o)); ("entry_id", JInt entryID)] |});;
    commit;;
    mret (RJson 200 [("orderId", JStr orderID); ("status", JStr "paid");
                     ("balanceCents", JInt newBalance)]).

(** ** Settlement by the EPay callback

    [form] is the parsed form, [None] when parsing fails; [d0] the database the
    configuration is read from, before the transaction begins. *)
Definition epay_config (d : db) : result sqlerr provider_config :=
  select (λ c, bool_decide (pc_provider c = "epay")) (provider_configs (payments d)).
Definition select_epay_order `{UuidSyntax} : string → db → result sqlerr payment_order :=
  select_order_where (λ o, bool_decide (o_provider o = "epay")).
(** SELECT id FROM payment_orders WHERE provider='epay' AND provider_ref=$1
    AND id<>$2. *)
Definition select_conflict (ref id : string) (d : db) : result sqlerr payment_order :=
  select (ref_taken id ref) (orders (payments d)).

Section callback.
Context `{GoRange} `{UnicodeLower} `{Secrets} `{UuidSyntax}.

Definition epayCallback (d0 : db) (form : option (gmap string (list string))) : program response :=
  match form with
  | None => exit (RError 400 "invalid_request")
  | Some form =>
    let values := form_values form in
    let field k := trim_space (value_of values k) in
    let sign := field "sign" in
    let orderID := field "out_trade_no" in
    let status := field "trade_status" in
    let merchant := field "pid" in
    let amountText := field "money" in
    let tradeNo := field "trade_no" in
    guard_exit (bool_decide (sign = "") || bool_decide (orderID = "") || bool_decide (amountText = "")
                || bool_decide (status = "") || bool_decide (tradeNo = ""))
      (RError 400 "invalid_callback");;
    guard_exit (negb (equal_fold (field "sign_type") "MD5")) (RError 400 "unsupported_signature_type");;
    guard_exit (negb (bool_decide (status = "TRADE_SUCCESS")) && negb (bool_decide (status = "SUCCESS")))
      (RError 409 "payment_not_succeeded");;
    c ← pool d0 epay_config;
    guard_exit (negb (pc_enabled c) || bool_decide (pc_secret c = "") || bool_decide (pc_merchant c = "")
                || negb (bool_decide (merchant = pc_merchant c)))
      (RError 403 "callback_rejected");;
    match decrypt "payment.secret.epay" (pc_secret c) with
    | None => exit internal_error
    | Some secret =>
      guard_exit (negb (bool_decide (to_lower sign = epaySignature values secret)))
        (RError 403 "invalid_signature");;
      match parseAmountCents amountText with
      | Err _ => exit (RError 400 "invalid_amount")
      | Ok amountCents =>
        guard_exit (amountCents <=? 0) (RError 400 "invalid_amount");;
        begin_tx;;
        o ← on_no_rows (query (select_epay_order orderID)) (exit (RError 404 "order_not_found"));
        guard_exit (negb (o_amount o =? amountCents)) (RError 400 "amount_mismatch");;
        conflict ← optional (query (select_conflict tradeNo orderID));
        guard_exit (bool_decide (is_Some conflict)) (RError 409 "provider_reference_reused");;
        guard_exit (bool_decide (o_status o = paid)) (RText 200 "success");;
        guard_exit (negb (bool_decide (o_status o = pending))) (RError 409 "order_not_pending");;
        w ← query (λ d, select_wallet (o_user o) (ledger d));
        let newBalance := wrap64 (w_balance w + amountCents) in
        entryID ← stmt (on_ledger (insert_entry (w_id w) "topup" orderID amountCents newBalance
                                    [("order_id", JStr orderID); ("provider", JStr "epay")]));
        exec (on_ledger_ (add_balance amountCents (w_id w)));;
        exec (on_payments (update_order orderID paid (Some (now rq)) None (Some tradeNo)));;
        defer (refund_order_aligned orderID);;
        exec (on_payments (insert_order_event
          {| oe_order := orderID; oe_from := Some pending; oe_to := paid;
             oe_message := "EPay callback verified" |}));;
        commit;;
        mret (RText 200 "success")
      end
    end
  end.
End callback.

(** ** Refund *)
Definition refundReasonTooLong (reason : string) : bool := 500 <? rune_count reason.
Definition supportsImmediateRefund (provider : string) : bool := bool_decide (provider = "manual").

Definition refund_status_text (s : RefundState) : string :=
  match s with
  | RefundProcessing => "processing" | RefundSucceeded => "succeeded" | RefundFailed => "failed"
  end.

(** [reason] is the decoded body, [None] when decoding fails; [refundID] the
    identifier PostgreSQL generates. *)
Definition refundPayment `{UuidSyntax} (refundID orderID : string) (reason : option string) :
    program response :=
  guard_exit (negb (valid_uuid orderID)) (RError 400 "validation_failed");;
  match reason with
  | None => exit (RError 400 "invalid_request")
  | Some reason =>
    let reason := trim_space reason in
    let reason := if bool_decide (reason = "") then "administrator full refund" else reason in
    guard_exit (refundReasonTooLong reason) (RError 400 "validation_failed");;
    begin_tx;;
    o ← on_no_rows (query (select_order orderID)) (exit (RError 404 "order_not_found"));
    if bool_decide (o_status o = refunded) then
      rf ← query (λ d, select (refund_of orderID) (refunds (payments d)));
      w ← query (λ d, select_wallet (rf_user rf) (ledger d));
      commit;;
      mret (RJson 200 [("orderId", JStr orderID); ("status", JStr "refunded");
                       ("balanceCents", JInt (w_balance w)); ("refundId", JStr (rf_id rf));
                       ("refundStatus", JStr (refund_status_text (rf_status rf)));
                       ("ledgerEntryId", match rf_entry rf with Some e => JInt e | None => JNull end);
                       ("completedAt", match rf_completed rf with Some t => JInt t | None => JNull end);
                       ("idempotent", JBool true)])
    else if bool_decide (o_status o = refunding) then exit (RError 409 "refund_in_progress")
    else if negb (bool_decide (o_status o = paid)) then exit (RError 409 "order_not_refundable")
    else if negb (supportsImmediateRefund (o_provider o)) then
      exec (audit {| au_actor := Some (principal rq); au_subject := Some (o_user o);
                     au_action := "payment.refund.rejected"; au_rtype := "payment_order";
                     au_rid := orderID; au_request := request_id rq;
                     au_meta := [("provider", JStr (o_provider o)); ("reason", JStr reason);
                                 ("cause", JStr "provider_refund_unconfigured")] |});;
      commit;;
      mret (RError 503 "payment_provider_refund_unconfigured")
    else
      w ← query (λ d, select_wallet (o_user o) (ledger d));
      if w_balance w <? o_amount o then
        exec (audit {| au_actor := Some (principal rq); au_subject := Some (o_user o);
                       au_action := "payment.refund.rejected"; au_rtype := "payment_order";
                       au_rid := orderID; au_request := request_id rq;
                       au_meta := [("provider", JStr (o_provider o)); ("reason", JStr reason);
                                   ("cause", JStr "insufficient_balance");
                                   ("balance_cents", JInt (w_balance w));
                                   ("amount_cents", JInt (o_amount o))] |});;
        commit;;
        mret (RError 409 "insufficient_balance")
      else
        let newBalance := wrap64 (w_balance w - o_amount o) in
        exec (on_payments (update_order orderID refunding None None None));;
        defer (refund_order_aligned orderID);;
        exec (on_payments (insert_order_event
          {| oe_order := orderID; oe_from := Some paid; oe_to := refunding;
             oe_message := "refund initiated" |}));;
        exec (insert_refund
          {| rf_id := refundID; rf_order := orderID; rf_user := o_user o; rf_provider := o_provider o;
             rf_amount := o_amount o; rf_status := RefundProcessing; rf_reason := reason;
             rf_entry := None; rf_by_ := principal rq; rf_request := request_id rq;
             rf_created := now rq; rf_completed := None |});;
        defer (refund_order_aligned orderID);; defer (refund_events_aligned refundID);;
        exec (on_payments (insert_refund_event
          {| re_refund := refundID; re_from := None; re_to := RefundProcessing;
             re_message := "refund requested"; re_meta := [] |}));;
        defer (refund_events_aligned refundID);;
        entryID ← stmt (on_ledger (insert_entry (w_id w) "refund" orderID (wrap64 (- o_amount o)) newBalance
                                    [("order_id", JStr orderID); ("refund_id", JStr refundID)]));
        exec (on_ledger_ (set_balance newBalance (w_id w)));;
        exec (succeed_refund refundID entryID (now rq));;
        defer (refund_order_aligned orderID);; defer (refund_events_aligned refundID);;
        exec (on_payments (insert_refund_event
          {| re_refund := refundID; re_from := Some RefundProcessing; re_to := RefundSucceeded;
             re_message := "refund completed"; re_meta := [("ledger_entry_id", JInt entryID)] |}));;
        defer (refund_events_aligned refundID);;
        exec (on_payments (update_order orderID refunded None None None));;
        defer (refund_order_aligned orderID);;
        exec (on_payments (insert_order_event
          {| oe_order := orderID; oe_from := Some refunding; oe_to := refunded;
             oe_message := "refund completed" |}));;
        exec (audit {| au_actor := Some (principal rq); au_subject := Some (o_user o);
                       au_action := "payment.refund"; au_rtype := "refund"; au_rid := refundID;
                       au_request := request_id rq;
                       au_meta := [("order_id", JStr orderID); ("amount_cents", JInt (o_amount o));
                                   ("entry_id", JInt entryID); ("provider", JStr (o_provider o))] |});;
        commit;;
        mret (RJson 200 [("orderId", JStr orderID); ("status", JStr "refunded");
                         ("balanceCents", JInt newBalance); ("refundId", JStr refundID);
                         ("refundStatus", JStr "succeeded"); ("ledgerEntryId", JInt entryID);
                         ("completedAt", JInt (now rq)); ("idempotent", JBool false)])
  end.
End handlers.
