(* ===== verification/PaymentFacts.v ===== *)
(** * Correctness of payment orders

    The invariant [payments_ok] ties the orders to the ledger: an order that
    was paid is credited exactly once, a refunded one is debited exactly once,
    any other order not at all, and nothing else is booked as a topup or a
    refund.  Every handler keeps it, whatever fails; each handler without
    faults computes exactly the specification stated here. *)
From S2P Require Import Prelude GoStrings GoValue Domain Money Tx Table Ledger Schema Http Payments.
From stdpp Require Import list.
Open Scope string_scope.
Open Scope Z_scope.
Open Scope list_scope.

(** ** The invariant *)
Definition credited (s : order_status) : bool :=
  match s with OrderSt (OrderPaid | OrderRefunding | OrderRefunded) => true | _ => false end.
Definition owns (w : wallet) (o : payment_order) : Prop := w_user w = o_user o.
(** What the ledger holds for the order. *)
Definition booked (l : ledger_t) (o : payment_order) (w : wallet) : Prop :=
  key_amounts (w_id w) "topup" (o_id o) l = (if credited (o_status o) then [o_amount o] else []) ∧
  key_amounts (w_id w) "refund" (o_id o) l =
    (if bool_decide (o_status o = refunded) then [- o_amount o] else []).
Record order_ok (d : db) (o : payment_order) : Prop := {
  oo_amount : 0 < o_amount o <= int64_max;
  oo_booked : ∀ w, w ∈ wallets (ledger d) → owns w o → booked (ledger d) o w;
  oo_wallet : credited (o_status o) = true → ∃ w, w ∈ wallets (ledger d) ∧ owns w o;
  oo_aligned : refund_order_aligned (o_id o) d = true
}.
Definition payment_entry (e : entry) : Prop := e_type e = "topup" ∨ e_type e = "refund".
Record payments_ok (d : db) : Prop := {
  po_ledger : ledger_ok (ledger d);
  po_solvent : solvent (ledger d);
  po_ids : NoDup (o_id <$> orders (payments d));
  po_orders : ∀ o, o ∈ orders (payments d) → order_ok d o;
  po_entries : ∀ e, e ∈ entries (ledger d) → payment_entry e →
    ∃ o w, o ∈ orders (payments d) ∧ w ∈ wallets (ledger d) ∧ owns w o ∧
           e_ref e = o_id o ∧ e_wallet e = w_id w;
  po_events : ∀ ev, ev ∈ refund_events (payments d) →
    ∃ r, r ∈ refunds (payments d) ∧ rf_id r = re_refund ev;
  po_refunds : ∀ r, r ∈ refunds (payments d) →
    ∃ o, o ∈ orders (payments d) ∧ o_id o = rf_order r
}.

(** ** Settling an order *)
Definition settle (o : payment_order) (w : wallet) (meta : jsonb) (at_ : timestamp)
    (ref : option string) (message : string) (d : db) : db :=
  upd_payments (λ t, set_order_events
    (order_events t ++ [{| oe_order := o_id o; oe_from := Some pending; oe_to := paid;
                           oe_message := message |}])
    (set_orders (update (order_is (o_id o)) (with_status paid (Some at_) None ref) (orders t)) t))
  (upd_ledger (λ l, post l w "topup" (o_id o) (o_amount o) meta) d).

Lemma order_is_spec id o : order_is id o = true ↔ o_id o = id.
Proof. apply bool_decide_eq_true. Qed.
Lemma select_order_where_inv `{UuidSyntax} p id d o :
  select_order_where p id d = Ok o → o ∈ orders (payments d) ∧ o_id o = id ∧ p o = true.
Proof.
  unfold select_order_where. destruct (valid_uuid id); [|done]. intros [Hin Ho]%select_ok.
  apply andb_true_iff in Ho as [Ho Hp]. by apply order_is_spec in Ho.
Qed.
Lemma select_order_inv `{UuidSyntax} id d o :
  select_order id d = Ok o → o ∈ orders (payments d) ∧ o_id o = id.
Proof. intros (? & ? & _)%select_order_where_inv. done. Qed.
Lemma pending_no_refund d o :
  order_ok d o → o ∈ orders (payments d) → NoDup (o_id <$> orders (payments d)) →
  credited (o_status o) = false →
  List.find (refund_of (o_id o)) (refunds (payments d)) = None.
Proof.
  intros [_ _ _ Ha] Hin Hnd Hc. unfold refund_order_aligned in Ha.
  assert (List.find (order_is (o_id o)) (orders (payments d)) = Some o) as E.
  { apply select_find. apply (select_unique o_id); [done|done|by apply order_is_spec|].
    intros o' Ho'. by apply order_is_spec in Ho'. }
  rewrite E in Ha. destruct (List.find _ _) as [r|]; [|done]. bool_hyps.
  destruct (rf_status r); subst; rewrite H in Hc; discriminate.
Qed.

(** Any posting that is not a payment leaves the orders as they were. *)
Section frame.
Context (d : db) (w : wallet) (ty ref : string) (amount : Z) (meta : jsonb).
Abbreviation l := (ledger d).
Abbreviation l' := (post l w ty ref amount meta).
Hypothesis Hok : payments_ok d.
Hypothesis Hw : w ∈ wallets l.
Hypothesis Ha : amount ≠ 0.
Hypothesis Hr : in64 (w_balance w + amount) = true.
Hypothesis Hpos : 0 <= w_balance w + amount.
Hypothesis Hnew : ∀ e, e ∈ entries l → entry_key e ≠ (w_id w, ty, ref).
Hypothesis Hty : ty ≠ "topup" ∧ ty ≠ "refund".

Lemma payments_ok_post : payments_ok (upd_ledger (λ _, l') d).
Proof.
  destruct Hok as [H1 H2 H3 H4 H5 H6 H7]. constructor; cbn [ledger payments upd_ledger].
  - by apply post_ok.
  - by apply solvent_post.
  - done.
  - intros o Ho. destruct (H4 o Ho) as [Hp Hb Hc Hal]. constructor; [done|..|done].
    + intros w' Hw' How. apply post_wallets in Hw' as (w0 & Hw0 & Hid & Hus).
      assert (owns w0 o) as Ho0 by (unfold owns in *; congruence).
      specialize (Hb w0 Hw0 Ho0). unfold booked. cbn [ledger upd_ledger].
      rewrite !key_amounts_post, <- Hid. destruct Hty as [Ht1 Ht2].
      rewrite !(bool_decide_eq_false_2 ((_, _, _) = (_, _, _))) by congruence.
        by rewrite !app_nil_r.
    + intros Hcr. destruct (Hc Hcr) as (w0 & Hw0 & Ho0).
      destruct (wallets_post l w ty ref amount meta w0 Hw0) as (w' & Hw' & Hid & Hus).
      exists w'. split; [done|]. unfold owns in *. congruence.
  - cbn [post entries]. intros e [He|He%list_elem_of_singleton]%elem_of_app Hpe.
    + destruct (H5 e He Hpe) as (o & w0 & Ho & Hw0 & Ho0 & Hr0 & He0).
      destruct (wallets_post l w ty ref amount meta w0 Hw0) as (w' & Hw' & Hid & Hus).
      exists o, w'. unfold owns in *. split_and!; try done; congruence.
    + subst e. destruct Hty, Hpe as [E|E]; cbn in E; congruence.
  - done.
  - done.
Qed.
End frame.

(** A payment posting together with the change of the order it is for. *)
Section transition.
Context (d d' : db) (o : payment_order) (w : wallet) (ty : string) (amount : Z) (meta : jsonb).
Context (f : payment_order → payment_order).
Hypothesis Hok : payments_ok d.
Hypothesis Ho : o ∈ orders (payments d).
Hypothesis Hw : w ∈ wallets (ledger d).
Hypothesis How : owns w o.
Hypothesis Ha : amount ≠ 0.
Hypothesis Hr : in64 (w_balance w + amount) = true.
Hypothesis Hpos : 0 <= w_balance w + amount.
Hypothesis Hty : ty = "topup" ∨ ty = "refund".
Hypothesis Hnew : key_amounts (w_id w) ty (o_id o) (ledger d) = [].
Hypothesis Hledger : ledger d' = post (ledger d) w ty (o_id o) amount meta.
Hypothesis Horders : orders (payments d') = update (order_is (o_id o)) f (orders (payments d)).
Hypothesis Hf : ∀ o, o_id (f o) = o_id o ∧ o_user (f o) = o_user o ∧ o_amount (f o) = o_amount o.
Hypothesis Hcr : credited (o_status (f o)) = true.
Hypothesis Htopup : if bool_decide (ty = "topup") then amount = o_amount o ∧ o_status (f o) = paid ∧ o_status o = pending
                    else amount = - o_amount o ∧ o_status (f o) = refunded ∧ o_status o = paid.
Hypothesis Halign : ∀ o', o' ∈ orders (payments d') → refund_order_aligned (o_id o') d' = true.
Hypothesis Hevents : ∀ ev, ev ∈ refund_events (payments d') →
  ∃ r, r ∈ refunds (payments d') ∧ rf_id r = re_refund ev.
Hypothesis Hrefunds : ∀ r, r ∈ refunds (payments d') →
  r ∈ refunds (payments d) ∨ rf_order r = o_id o.

Lemma transition_booked w' :
  w' ∈ wallets (ledger d') → owns w' (f o) → booked (ledger d') (f o) w'.
Proof.
  rewrite Hledger. intros Hw' How'. apply post_wallets in Hw' as (w0 & Hw0 & Hid & Hus).
  unfold owns in *. destruct (Hf o) as (F1 & F2 & F3). assert (w0 = w) as ->.
  { eapply key_inj; [apply (lo_users _ (po_ledger _ Hok))|done|done|]. congruence. }
  destruct (oo_booked _ _ (po_orders _ Hok o Ho) w Hw How) as [Hb1 Hb2].
  unfold booked. rewrite !key_amounts_post, <- Hid, F1, F3, Hb1, Hb2.
  destruct (bool_decide (ty = "topup")) eqn:E; bool_hyps; destruct Htopup as (-> & Es & Es').
  - rewrite E, Es, Es'. rewrite (bool_decide_eq_true_2 (_ = _)) by done.
    by rewrite !bool_decide_eq_false_2 by done.
  - destruct Hty as [?| ->]; [done|]. rewrite Es, Es'. cbn [credited paid refunded].
    rewrite (bool_decide_eq_false_2 ((_, "refund", _) = (_, "topup", _))) by done.
    by rewrite (bool_decide_eq_false_2 (paid = refunded)), !bool_decide_eq_true_2 by done.
Qed.
Lemma transition_ok : payments_ok d'.
Proof.
  assert (∀ o', o' ∈ orders (payments d) → o_id o' = o_id o → o' = o) as Huniq.
  { intros o' Ho' He. eapply key_inj; [apply Hok|done..]. }
  pose proof (key_amounts_nil _ _ _ _ Hnew) as Hk.
  pose proof Hok as [H1 H2 H3 H4 H5 H6 H7]. constructor; [..|done|].
  - rewrite Hledger. by apply post_ok.
  - rewrite Hledger. by apply solvent_post.
  - rewrite Horders, update_column; [done|]. intros x. apply Hf.
  - intros o' Ho'. pose proof (Halign o' Ho') as Hal. rewrite Horders in Ho'.
    apply elem_of_update in Ho' as (o0 & Ho0 & ->). destruct (H4 o0 Ho0) as [Hamt0 Hb0 Hc0 Hal0].
    destruct (order_is (o_id o) o0) eqn:Eo.
    + apply order_is_spec in Eo. rewrite (Huniq o0 Ho0 Eo) in *. destruct (Hf o) as (F1 & F2 & F3).
      constructor; [by rewrite F3|apply transition_booked| |done].
      intros _. rewrite Hledger. destruct (wallets_post (ledger d) w ty (o_id o) amount meta w Hw)
        as (w' & Hw' & Hid & Hus). exists w'. split; [done|]. unfold owns in *. congruence.
    + assert (o_id o0 ≠ o_id o) as Hne by (intros E%order_is_spec; congruence).
      constructor; [done|..|done]; rewrite Hledger.
      * intros w' Hw' How'. apply post_wallets in Hw' as (w0 & Hw0 & Hid & Hus).
        unfold owns in *. destruct (Hb0 w0 Hw0) as [Hx Hy]; [congruence|].
        unfold booked. rewrite !key_amounts_post, <- Hid, Hx, Hy.
        rewrite !(bool_decide_eq_false_2 ((_, _, _) = (_, _, _))) by congruence.
        by rewrite !app_nil_r.
      * intros Hcr0. destruct (Hc0 Hcr0) as (w0 & Hw0 & Ho1).
        destruct (wallets_post (ledger d) w ty (o_id o) amount meta w0 Hw0)
          as (w' & Hw' & Hid & Hus). exists w'. split; [done|]. unfold owns in *. congruence.
  - rewrite Hledger, Horders. cbn [post entries].
    intros e [He|He%list_elem_of_singleton]%elem_of_app Hpe.
    + destruct (H5 e He Hpe) as (o' & w0 & Ho' & Hw0 & Ho0 & Hr0 & He0).
      destruct (wallets_post (ledger d) w ty (o_id o) amount meta w0 Hw0) as (w' & Hw' & Hid & Hus).
      exists (if order_is (o_id o) o' then f o' else o'), w'. destruct (Hf o') as (F1 & F2 & F3).
      unfold owns in *. split_and!; [apply elem_of_update; eauto|done|..];
        destruct (order_is (o_id o) o'); congruence.
    + subst e. destruct (wallets_post (ledger d) w ty (o_id o) amount meta w Hw) as (w' & Hw' & Hid & Hus).
      destruct (Hf o) as (F1 & F2 & F3).
      exists (f o), w'. unfold owns in *. split_and!; [|done|..]; cbn; try congruence.
      apply elem_of_update. exists o. split; [done|]. by rewrite (proj2 (order_is_spec _ _)).
  - rewrite Horders. intros r Hr0.
    assert (∃ o', o' ∈ orders (payments d) ∧ o_id o' = rf_order r) as (o' & Ho' & Hid).
    { destruct (Hrefunds r Hr0) as [Hr1|Hr1]; [by apply H7|by exists o]. }
    exists (if order_is (o_id o) o' then f o' else o'). destruct (Hf o') as (F1 & _).
    split; [apply elem_of_update; eauto|]. destruct (order_is (o_id o) o'); congruence.
Qed.
End transition.

(** The orders that a change of [o] does not touch stay aligned. *)
Lemma aligned_other d d' o f o' :
  orders (payments d') = update (order_is (o_id o)) f (orders (payments d)) →
  (∀ o, o_id (f o) = o_id o) → o_id o' ≠ o_id o →
  List.find (refund_of (o_id o')) (refunds (payments d')) =
    List.find (refund_of (o_id o')) (refunds (payments d)) →
  refund_order_aligned (o_id o') d = true → refund_order_aligned (o_id o') d' = true.
Proof.
  intros Horders Hf Hne Hfind. unfold refund_order_aligned. rewrite Horders, Hfind.
  rewrite find_update by (intros r; unfold order_is; by rewrite Hf).
  destruct (List.find (order_is (o_id o')) (orders (payments d))) as [x|] eqn:Ex; [|done].
  cbn [fmap option_fmap option_map]. destruct (order_is (o_id o) x) eqn:Ex'; [|done].
  apply List.find_some in Ex as [_ Ex]. apply order_is_spec in Ex, Ex'. congruence.
Qed.
Lemma aligned_self d d' o f :
  payments_ok d → o ∈ orders (payments d) →
  orders (payments d') = update (order_is (o_id o)) f (orders (payments d)) →
  (∀ o, o_id (f o) = o_id o) →
  refund_order_aligned (o_id o) d' =
    match List.find (refund_of (o_id o)) (refunds (payments d')) with
    | None => negb (bool_decide (o_status (f o) = refunding) || bool_decide (o_status (f o) = refunded))
    | Some r =>
        bool_decide (o_status (f o) = match rf_status r with
                                      | RefundProcessing => refunding
                                      | RefundSucceeded => refunded
                                      | RefundFailed => paid end)
        && bool_decide (o_user (f o) = rf_user r) && bool_decide (o_provider (f o) = rf_provider r)
        && bool_decide (o_amount (f o) = rf_amount r)
    end.
Proof.
  intros Hok Ho Horders Hf. unfold refund_order_aligned. rewrite Horders.
  rewrite find_update by (intros r; unfold order_is; by rewrite Hf).
  assert (List.find (order_is (o_id o)) (orders (payments d)) = Some o) as ->.
  { apply select_find. apply (select_unique o_id); [apply Hok|done|by apply order_is_spec|].
    intros o' Ho'. by apply order_is_spec in Ho'. }
  cbn [fmap option_fmap option_map]. by rewrite (proj2 (order_is_spec _ _)).
Qed.
(** The cases of an order of the changed table. *)
Lemma aligned_cases d d' o f :
  payments_ok d → o ∈ orders (payments d) →
  orders (payments d') = update (order_is (o_id o)) f (orders (payments d)) →
  (∀ o, o_id (f o) = o_id o) →
  (∀ id, id ≠ o_id o → List.find (refund_of id) (refunds (payments d')) =
    List.find (refund_of id) (refunds (payments d))) →
  refund_order_aligned (o_id o) d' = true →
  ∀ o', o' ∈ orders (payments d') → refund_order_aligned (o_id o') d' = true.
Proof.
  intros Hok Ho Horders Hf Hfind Hself o'. rewrite Horders.
  intros (o0 & Ho0 & ->)%elem_of_update.
  assert (o_id (if order_is (o_id o) o0 then f o0 else o0) = o_id o0) as ->
    by (destruct (order_is _ _); [apply Hf|done]).
  destruct (decide (o_id o0 = o_id o)) as [->|Hne]; [done|].
  apply (aligned_other d d' o f o0 Horders Hf Hne (Hfind _ Hne)), (po_orders _ Hok o0 Ho0).
Qed.

(** Settling a pending order keeps the invariant. *)
Lemma settle_aligned d o w meta at_ ref message :
  payments_ok d → o ∈ orders (payments d) → o_status o = pending →
  refund_order_aligned (o_id o) (settle o w meta at_ ref message d) = true.
Proof.
  intros Hok Ho Hs.
  rewrite (aligned_self d (settle o w meta at_ ref message d) o (with_status paid (Some at_) None ref)) by done.
  cbn [settle payments upd_payments upd_ledger set_order_events set_orders refunds].
  by rewrite (pending_no_refund d o (po_orders _ Hok o Ho) Ho (po_ids _ Hok)) by (by rewrite Hs).
Qed.
Lemma settle_ok d o w meta at_ ref message :
  payments_ok d → o ∈ orders (payments d) → o_status o = pending →
  w ∈ wallets (ledger d) → owns w o → in64 (w_balance w + o_amount o) = true →
  payments_ok (settle o w meta at_ ref message d).
Proof.
  intros Hok Ho Hs Hw How Hr.
  destruct (po_orders _ Hok o Ho) as [Hamt Hb _ _]. destruct (Hb w Hw How) as [Hb1 _]. rewrite Hs in Hb1.
  pose proof (po_solvent _ Hok) as Hsol. unfold solvent in Hsol. rewrite Forall_forall in Hsol.
  specialize (Hsol w Hw).
  apply (transition_ok d _ o w "topup" (o_amount o) meta (with_status paid (Some at_) None ref));
    try done; try lia; auto.
  - apply (aligned_cases d _ o (with_status paid (Some at_) None ref)); try done.
    by apply settle_aligned.
  - apply (po_events _ Hok).
Qed.

(** ** Settlement by an administrator *)
Definition log_paid (rq : request) (o : payment_order) (entryID : Z) : audit_row :=
  {| au_actor := Some (principal rq); au_subject := Some (o_user o);
     au_action := "payment.mark_paid"; au_rtype := "payment_order"; au_rid := o_id o;
     au_request := request_id rq;
     au_meta := [("amount_cents", JInt (o_amount o)); ("entry_id", JInt entryID)] |}.
Definition mark_paid_spec `{UuidSyntax} (rq : request) (id : string) (d : db) : response * db :=
  match select_order id d with
  | Err NoRows => (RError 404 "order_not_found", d)
  | Err _ => (internal_error, d)
  | Ok o =>
      match select_wallet (o_user o) (ledger d) with
      | Err _ => (if bool_decide (o_status o = paid) || bool_decide (o_status o = pending)
                  then internal_error else RError 409 "order_not_pending", d)
      | Ok w =>
          if bool_decide (o_status o = paid) then
            (RJson 200 [("orderId", JStr id); ("status", JStr "paid");
                        ("balanceCents", JInt (w_balance w)); ("idempotent", JBool true)], d)
          else if negb (bool_decide (o_status o = pending)) then (RError 409 "order_not_pending", d)
          else if in64 (w_balance w + o_amount o) then
            (RJson 200 [("orderId", JStr id); ("status", JStr "paid");
                        ("balanceCents", JInt (w_balance w + o_amount o))],
             upd_audit_logs (λ t, t ++ [log_paid rq o (next_entry (ledger d))])
               (settle o w [("order_id", JStr id)] (now rq) None "manual payment verified" d))
          else (internal_error, d)
      end
  end.

(** The topup entry of a pending order is new. *)
Lemma pending_new d o w :
  payments_ok d → o ∈ orders (payments d) → o_status o = pending → w ∈ wallets (ledger d) → owns w o →
  0 < o_amount o <= int64_max ∧ 
  ∀ e, e ∈ entries (ledger d) → entry_key e ≠ (w_id w, "topup", o_id o).
Proof.
  intros [H1 H2 H3 H4 H5 H6 _] Ho Hs Hw How. destruct (H4 o Ho) as [Ha Hb _ _].
  split; [done|]. destruct (Hb w Hw How) as [Hb1 _]. rewrite Hs in Hb1. by apply key_amounts_nil.
Qed.

(** The two ledger statements of a settlement. *)
Lemma settle_ledger d o w meta after :
  payments_ok d → o ∈ orders (payments d) → o_status o = pending →
  w ∈ wallets (ledger d) → owns w o → after = wrap64 (w_balance w + o_amount o) →
  ∃ l1, insert_entry (w_id w) "topup" (o_id o) (o_amount o) after meta (ledger d)
          = Ok (next_entry (ledger d), l1) ∧
    add_balance (o_amount o) (w_id w) l1 =
      if in64 (w_balance w + o_amount o)
      then Ok (post (ledger d) w "topup" (o_id o) (o_amount o) meta) else Err OutOfRange.
Proof.
  intros Hok Ho Hs Hw How ->. destruct (pending_new d o w Hok Ho Hs Hw How) as [Ha Hnew].
  apply (insert_then_update (ledger d) w "topup" (o_id o) (o_amount o) meta (po_ledger _ Hok) Hw);
    [lia|set_solver|done|done|apply wrap64_in64].
Qed.

Lemma mark_paid_run `{UuidSyntax} rq id d :
  payments_ok d → run internalError (markPaymentPaid rq id) no_faults d = mark_paid_spec rq id d.
Proof.
  intros Hok. apply (run_wp internalError _ d (λ x, x = _)). unfold markPaymentPaid, mark_paid_spec.
  repeat tx_step. destruct (select_order id d) as [o|[]] eqn:Eo; try done.
  apply select_order_inv in Eo as [Ho Hid]. subst id.
  destruct (select_wallet (o_user o) (ledger d)) as [w|e] eqn:Ew.
  2: { apply select_err in Ew as Hn. destruct Hn as [-> _].
    destruct (bool_decide (o_status o = paid)) eqn:Ep; [repeat tx_step; by rewrite Ew|].
    destruct (bool_decide (o_status o = pending)) eqn:Eq; cbn [negb]; repeat tx_step; [by rewrite Ew|done]. }
  destruct (bool_decide (o_status o = paid)) eqn:Ep; [repeat tx_step; rewrite Ew; by repeat tx_step|].
  destruct (bool_decide (o_status o = pending)) eqn:Eq; cbn [negb]; repeat tx_step; [|done].
  rewrite Ew. repeat tx_step. apply bool_decide_eq_true_1 in Eq.
  apply select_wallet_inv in Ew as [Hw How].
  destruct (settle_ledger d o w [("order_id", JStr (o_id o))] _ Hok Ho Eq Hw How eq_refl) as (l1 & Hi & Hu).
  unfold on_ledger, on_ledger_. rewrite Hi. repeat tx_step.
  cbn [ledger upd_ledger]. rewrite Hu. destruct (in64 _) eqn:E64; [|done].
  rewrite wrap64_in64 by done. repeat tx_step. unfold on_payments. cbn [update_order]. repeat tx_step.
  unfold insert_order_event. repeat tx_step. unfold audit. repeat tx_step.
  pose proof (settle_aligned d o w [("order_id", JStr (o_id o))] (now rq) None "manual payment verified"
    Hok Ho Eq) as Hal.
  cbn [forallb]. match goal with |- context [refund_order_aligned ?i ?x] =>
    change (refund_order_aligned i x) with
      (refund_order_aligned i (settle o w [("order_id", JStr (o_id o))] (now rq) None "manual payment verified" d)) end.
  rewrite Hal. by repeat tx_step.
Qed.

(** C2: without faults, the settlement of an order by an administrator is
    [mark_paid_spec]: unknown
    and closed orders are refused, a paid order is
    answered again without a change, and a pending order is credited to its
    owner's wallet with one ledger entry, marked as paid and logged; a balance
    that would leave int64 changes nothing. *)
Theorem markPaymentPaid_run `{UuidSyntax} rq id d :
  payments_ok d → run internalError (markPaymentPaid rq id) no_faults d = mark_paid_spec rq id d.
Proof. apply mark_paid_run. Qed.

(** ** Settlement by the EPay callback *)
Section epay.
Context `{GoRange} `{UnicodeLower} `{Secrets} `{UuidSyntax}.

Definition field (form : gmap string (list string)) (k : string) : string :=
  trim_space (value_of (form_values form) k).
(** The callback is signed with the secret of the configured, enabled merchant. *)
Definition authentic (d0 : db) (form : gmap string (list string)) : Prop :=
  ∃ c secret, epay_config d0 = Ok c ∧ pc_enabled c = true ∧ pc_merchant c ≠ "" ∧
    field form "pid" = pc_merchant c ∧ decrypt "payment.secret.epay" (pc_secret c) = Some secret ∧
    to_lower (field form "sign") = epaySignature (form_values form) secret.
(** ... reports a successful trade of [amount] cents of order [o] ... *)
Definition reports (form : gmap string (list string)) (o : payment_order) : Prop :=
  field form "out_trade_no" = o_id o ∧ o_provider o = "epay" ∧ field form "trade_no" ≠ "" ∧
  field form "trade_status" ∈ ["TRADE_SUCCESS"; "SUCCESS"] ∧
  parseAmountCents (field form "money") = Ok (o_amount o).
(** ... under a trade number that no other order has used. *)
Definition unused (d : db) (form : gmap string (list string)) (o : payment_order) : Prop :=
  ∀ o', o' ∈ orders (payments d) → ref_taken (o_id o) (field form "trade_no") o' = false.

Definition epay_settled (rq : request) (form : gmap string (list string)) (o : payment_order)
    (w : wallet) (d : db) : db :=
  settle o w [("order_id", JStr (o_id o)); ("provider", JStr "epay")] (now rq)
    (Some (field form "trade_no")) "EPay callback verified" d.


Lemma one_of_two (x a b : string) :
  negb (bool_decide (x = a)) && negb (bool_decide (x = b)) = false → x ∈ [a; b].
Proof. intros [E|E]%andb_false_iff; bool_hyps; subst; set_solver. Qed.

(** The statements from the wallet on, for an order that may be settled. *)
Definition settle_tail (rq : request) (form : gmap string (list string)) (o : payment_order) :
    program response :=
  w ← query (λ d, select_wallet (o_user o) (ledger d));
  let newBalance := wrap64 (w_balance w + o_amount o) in
  entryID ← stmt (on_ledger (insert_entry (w_id w) "topup" (o_id o) (o_amount o) newBalance
                              [("order_id", JStr (o_id o)); ("provider", JStr "epay")]));
  exec (on_ledger_ (add_balance (o_amount o) (w_id w)));;
  exec (on_payments (update_order (o_id o) paid (Some (now rq)) None (Some (field form "trade_no"))));;
  defer (refund_order_aligned (o_id o));;
  exec (on_payments (insert_order_event
    {| oe_order := o_id o; oe_from := Some pending; oe_to := paid;
       oe_message := "EPay callback verified" |}));;
  commit;;
  mret (RText 200 "success").
Lemma settle_tail_wp rq form o d n (Φ : out response response → txst db → Prop) :
  payments_ok d → o ∈ orders (payments d) → o_status o = pending → unused d form o →
  (∀ e s, committed s = None →
     (∀ w, w ∈ wallets (ledger d) → owns w o → in64 (w_balance w + o_amount o) = false) →
     Φ (Throw e) s) →
  (∀ w s, w ∈ wallets (ledger d) → owns w o → in64 (w_balance w + o_amount o) = true →
     committed s = Some (epay_settled rq form o w d) → Φ (Val (RText 200 "success")) s) →
  wp (settle_tail rq form o) Φ (live d [] n).
Proof.
  intros Hok Ho Hs Hun Hfail Hdone. unfold settle_tail. repeat tx_step.
  destruct (select_wallet (o_user o) (ledger d)) as [w|e] eqn:Ew.
  2: { apply select_err in Ew as [-> Hno]. apply Hfail; [done|]. intros w Hw How.
       specialize (Hno w Hw). unfold owns in How. by bool_hyps. }
  apply select_wallet_inv in Ew as [Hw How]. repeat tx_step.
  destruct (settle_ledger d o w [("order_id", JStr (o_id o)); ("provider", JStr "epay")] _
    Hok Ho Hs Hw How eq_refl) as (l1 & Hi & Hu).
  unfold on_ledger, on_ledger_. rewrite Hi. repeat tx_step.
  cbn [ledger upd_ledger]. rewrite Hu. destruct (in64 _) eqn:E64.
  2: { apply Hfail; [done|]. intros w' Hw' How'. replace w' with w; [done|].
       eapply key_inj; [apply (lo_users _ (po_ledger _ Hok))|done|done|]. unfold owns in *. congruence. }
 
  repeat tx_step. unfold on_payments, update_order.
  assert (exists_row (ref_taken (o_id o) (field form "trade_no")) (orders (payments d)) = false) as Hex.
  { by apply exists_row_false. }
  cbn [payments upd_ledger]. rewrite Hex, andb_false_r. repeat tx_step.
  unfold insert_order_event. repeat tx_step.
  pose proof (settle_aligned d o w [("order_id", JStr (o_id o)); ("provider", JStr "epay")] (now rq)
    (Some (field form "trade_no")) "EPay callback verified" Hok Ho Hs) as Hal.
  cbn [forallb]. match goal with |- context [refund_order_aligned ?i ?x] =>
    change (refund_order_aligned i x) with (refund_order_aligned i (epay_settled rq form o w d)) end.
  unfold epay_settled. rewrite Hal. cbn [andb]. repeat tx_step. by apply (Hdone w).
Qed.

Lemma epay_cases rq d0 d form :
  payments_ok d →
  let '(r, d') := run internalError (epayCallback rq d0 (Some form)) no_faults d in
  d' = d ∨
  r = RText 200 "success" ∧ authentic d0 form ∧
  ∃ o w, o ∈ orders (payments d) ∧ o_status o = pending ∧ reports form o ∧ unused d form o ∧
    w ∈ wallets (ledger d) ∧ owns w o ∧ in64 (w_balance w + o_amount o) = true ∧
    d' = epay_settled rq form o w d.
Proof.
  intros Hok. apply (run_wp internalError _ d (λ '(r, d'), _)). unfold epayCallback. cbv zeta.
  repeat (tx_step; try (left; reflexivity)).
  destruct (epay_config d0) as [c|e] eqn:Ec; [|by left].
  repeat (tx_step; try (left; reflexivity)).
  destruct (decrypt _ _) as [secret|] eqn:Ed; repeat (tx_step; try (left; reflexivity)).
  destruct (parseAmountCents _) as [amount|] eqn:Ea; repeat (tx_step; try (left; reflexivity)).
  destruct (select_epay_order _ d) as [o|[]] eqn:Eo; repeat (tx_step; try (left; reflexivity)); try by left.
  destruct (select_conflict _ _ d) as [o'|e] eqn:Ex; repeat (tx_step; try (left; reflexivity)).
  apply select_err in Ex as [-> Hun]. do 2 (tx_step; cbv beta iota).
  tx_guards ltac:(left; reflexivity).
  apply select_order_where_inv in Eo as (Ho & Hoid & Hprov). bool_hyps.
  rewrite <- Hoid in *. subst amount.
  apply (settle_tail_wp rq form o d).
  - done.
  - done.
  - done.
  - intros o' Ho'. by apply Hun.
  - intros e s He _. left. cbn. by rewrite He.
  - intros w s Hw How E64 Hc. right. unfold finish. rewrite Hc. cbn. split; [done|]. split.
    { exists c, secret. by split_and!. }
    exists o, w. split_and!; try done. split_and!; try done.
    by apply one_of_two.
Qed.

(** C4: an EPay callback changes the database only when it is authentic (its
    signature is the one of the configured merchant's secret), reports a
    successful trade of exactly the amount of a pending EPay order, and uses a
    trade number no other order has; it then answers success and settles that
    order. *)
Theorem epayCallback_sound rq d0 d form :
  payments_ok d →
  let '(r, d') := run internalError (epayCallback rq d0 (Some form)) no_faults d in
  d' = d ∨
  r = RText 200 "success" ∧ authentic d0 form ∧
  ∃ o w, o ∈ orders (payments d) ∧ o_status o = pending ∧ reports form o ∧ unused d form o ∧
    w ∈ wallets (ledger d) ∧ owns w o ∧ in64 (w_balance w + o_amount o) = true ∧
    d' = epay_settled rq form o w d.
Proof. apply epay_cases. Qed.

(** C5: conversely, an authentic callback that reports a successful trade of a
    pending order, under a trade number no other order has, is answered with
    success and settles the order, provided the balance stays within int64. *)
Theorem epayCallback_complete rq d0 d form o w :
  payments_ok d → o ∈ orders (payments d) → o_status o = pending → w ∈ wallets (ledger d) → owns w o →
  in64 (w_balance w + o_amount o) = true →
  authentic d0 form → reports form o → unused d form o →
  field form "sign" ≠ "" → field form "out_trade_no" ≠ "" → field form "money" ≠ "" →
  valid_uuid (o_id o) = true → equal_fold (field form "sign_type") "MD5" = true →
  (∀ c, epay_config d0 = Ok c → pc_secret c ≠ "") →
  run internalError (epayCallback rq d0 (Some form)) no_faults d =
    (RText 200 "success", epay_settled rq form o w d).
Proof.
  intros Hok Ho Hs Hw How H64 (c & secret & Hc & Hen & Hm & Hpid & Hdec & Hsig)
    (Hid & Hprov & Htn & Hst & Hamt) Hun Hsign Hout Hmoney Huuid Htype Hsec.
  apply (run_wp internalError _ d (λ x, x = _)). unfold epayCallback. cbv zeta.
  fold (field form "sign") (field form "out_trade_no") (field form "money") (field form "trade_status")
    (field form "trade_no") (field form "pid") (field form "sign_type").
  assert (field form "trade_status" ≠ "") as Hst' by (intros E; rewrite E in Hst; set_solver).
  tx_pass; [by rewrite !bool_decide_eq_false_2 by done|]. tx_pass; [by rewrite Htype|].
  tx_pass; [apply andb_false_iff; apply elem_of_cons in Hst as [->|Hst%list_elem_of_singleton];
            [left|right; rewrite Hst]; by rewrite bool_decide_eq_true_2|].
  repeat tx_step. rewrite Hc. 
  tx_pass; [by rewrite Hen, Hpid, !bool_decide_eq_false_2, bool_decide_eq_true_2 by eauto|].
  rewrite Hdec. tx_pass; [by rewrite bool_decide_eq_true_2 by done|].
  rewrite Hamt. destruct (po_orders _ Hok o Ho) as [Ho1 _ _ _].
  tx_pass; [apply Z.leb_gt; lia|]. repeat tx_step.
  assert (select_epay_order (field form "out_trade_no") d = Ok o) as ->.
  { unfold select_epay_order, select_order_where. rewrite Hid, Huuid. apply (select_unique o_id); [apply Hok|done|..].
    - by rewrite (proj2 (order_is_spec _ _)), Hprov.
    - intros o' Ho'. bool_hyps. by apply order_is_spec. }
  tx_pass; [by rewrite Z.eqb_refl|]. 
  rewrite Hid.
  assert (select_conflict (field form "trade_no") (o_id o) d = Err NoRows) as Hcf.
  { unfold select_conflict, select. rewrite find_key_none; [done|]. by apply Hun. }
  do 4 tx_step. rewrite Hcf. do 2 tx_step.
  tx_pass; [by rewrite is_some_false|]. rewrite Hs. tx_pass; [done|]. tx_pass; [done|].
  apply (settle_tail_wp rq form o d); try done.
  - intros e s _ Hno. by rewrite (Hno w) in H64.
  - intros w' s Hw' How' _ Hcm. unfold finish. rewrite Hcm. cbn. do 2 f_equal.
    eapply key_inj; [apply (lo_users _ (po_ledger _ Hok))|done|done|]. unfold owns in *. congruence.
Qed.
End epay.

(** ** A concrete database

    One customer with three orders: a manual and an EPay one that are pending,
    and a manual one that is paid. *)
Module Sample.
Definition order (id provider : string) (amount : Z) (key : string) : payment_order :=
  {| o_id := id; o_user := "u-1"; o_provider := provider; o_payment_type := ""; o_amount := amount;
     o_status := pending; o_key := key; o_ref := None; o_paid_at := None; o_closed_at := None;
     o_queried_at := None |}.
Definition config (provider secret : string) : provider_config :=
  {| pc_provider := provider; pc_enabled := true; pc_merchant := "1001"; pc_secret := secret;
     pc_endpoint := "https://pay.example"; pc_payment_type := "alipay"; pc_methods := [] |}.
Definition customer : wallet := {| w_id := "w-1"; w_user := "u-1"; w_balance := 0; w_version := 0 |}.
Definition empty : db :=
  {| users := [{| u_id := "u-1"; u_status := "active" |}];
     ledger := {| wallets := [customer]; entries := []; next_entry := 1; alerts := [] |};
     payments := {| orders := [order "o-1" "epay" 1250 "k-1"; order "o-2" "manual" 300 "k-2";
                               order "o-3" "manual" 100 "k-3"];
                    order_events := []; refunds := []; refund_events := [];
                    provider_configs := [config "manual" ""; config "epay" "secret"];
                    provider_operations := [] |};
     credits := {| grants := []; consumptions := [] |}; checkins := []; invites := [];
     apps := {| user_apps := []; app_routes := []; deployment_jobs := [] |};
     usage := {| pricing_versions := []; usage_events := []; usage_aggregates := []; next_aggregate := 1;
                 usage_charges := []; next_charge := 1; billing_attempts := []; bills := [];
                 bill_items := [] |};
     subs := {| plans := []; plan_versions := []; user_subscriptions := []; subscription_purchases := [];
                subscription_bill_items := [] |};
     notifications := []; audit_logs := []; startup_balance_reserve_cents := 0;
     checkin_settings := (true, 1, 10); invite_reward_cents := 50 |}.
Definition rq : request := {| principal := "admin"; actor := None; request_id := "r-1"; now := 7; origin := "https://c.example" |}.
Definition db1 : db :=
  settle (order "o-3" "manual" 100 "k-3") customer [("order_id", JStr "o-3")] 5 None
    "manual payment verified" empty.
(** The customer after that settlement. *)
Definition customer1 : wallet := with_balance 100 customer.

Definition any_uuid : UuidSyntax := {| valid_uuid := λ _, true |}.
Definition plain_secrets : Secrets := {| decrypt := λ _ s, Some s |}.

Lemma empty_ledger_ok : ledger_ok (ledger empty).
Proof. constructor; try by_eval. by intros [|? []] ? ?. Qed.
Lemma empty_ok : payments_ok empty.
Proof.
  constructor.
  - apply empty_ledger_ok.
  - by_eval.
  - by_eval.
  - intros o Ho. repeat (apply elem_of_cons in Ho as [->|Ho]); [..|by apply elem_of_nil in Ho];
      (constructor; [by_eval|by intros w ->%list_elem_of_singleton _|done|done]).
  - by intros e He%elem_of_nil.
  - by intros e He%elem_of_nil.
  - by intros e He%elem_of_nil.
Qed.
Lemma db1_ok : payments_ok db1.
Proof. apply settle_ok; [apply empty_ok|do 2 right; left|done|by left|done|by vm_compute]. Qed.
End Sample.

Lemma markPaymentPaid_run_witness :
  payments_ok Sample.db1 ∧
  (run internalError (@markPaymentPaid Sample.rq Sample.any_uuid "o-2") no_faults Sample.db1).1 =
    RJson 200 [("orderId", JStr "o-2"); ("status", JStr "paid"); ("balanceCents", JInt 400)].
Proof.
  split; [apply Sample.db1_ok|].
  rewrite (@markPaymentPaid_run Sample.any_uuid Sample.rq "o-2" Sample.db1 Sample.db1_ok).
  by vm_compute.
Defined.

Section epay_witness.
#[local] Existing Instances map_order AsciiLower Sample.plain_secrets Sample.any_uuid.
Lemma sample_authentic : authentic Sample.db1 example_form.
Proof.
  exists (Sample.config "epay" "secret"), "secret". split_and!; try done; by vm_compute.
Qed.
Lemma sample_reports : reports example_form (Sample.order "o-1" "epay" 1250 "k-1").
Proof.
  split_and!; try done; try by vm_compute.
  assert (field example_form "trade_status" = "TRADE_SUCCESS") as -> by by vm_compute. left.
Qed.
Lemma sample_unused : unused Sample.db1 example_form (Sample.order "o-1" "epay" 1250 "k-1").
Proof.
  intros o Ho. assert (field example_form "trade_no" = "t-9") as -> by by vm_compute.
  assert (Forall (λ o, ref_taken "o-1" "t-9" o = false) (orders (payments Sample.db1))) as HF by by_eval.
  rewrite Forall_forall in HF. by apply HF.
Qed.
Lemma epayCallback_sound_witness :
  ∃ o w, o ∈ orders (payments Sample.db1) ∧ w ∈ wallets (ledger Sample.db1) ∧
    (run internalError (epayCallback Sample.rq Sample.db1 (Some example_form)) no_faults Sample.db1).2 =
      epay_settled Sample.rq example_form o w Sample.db1.
Proof.
  pose proof (epayCallback_sound Sample.rq Sample.db1 Sample.db1 example_form Sample.db1_ok) as H.
  assert (next_entry (ledger (run internalError (epayCallback Sample.rq Sample.db1 (Some example_form))
    no_faults Sample.db1).2) = 3) as Hn by by vm_compute.
  destruct (run internalError _ _ _) as [r d'].
  destruct H as [->|(_ & _ & o & w & Ho & _ & _ & _ & Hw & _ & _ & ->)]; [by vm_compute in Hn|].
  exists o, w. by split_and!.
Defined.
Lemma epayCallback_complete_witness :
  (run internalError (epayCallback Sample.rq Sample.db1 (Some example_form)) no_faults Sample.db1).1 =
    RText 200 "success".
Proof.
  rewrite (epayCallback_complete Sample.rq Sample.db1 Sample.db1 example_form
    (Sample.order "o-1" "epay" 1250 "k-1") Sample.customer1).
  - done.
  - apply Sample.db1_ok.
  - left.
  - done.
  - left.
  - done.
  - by vm_compute.
  - apply sample_authentic.
  - apply sample_reports.
  - apply sample_unused.
  - by vm_compute.
  - by vm_compute.
  - by vm_compute.
  - done.
  - by vm_compute.
  - by intros c [= <-].
Defined.
End epay_witness.
