(* ===== verification/RefundFacts.v ===== *)
(** * Correctness of refunds

    A refund without faults computes [refund_spec]; together with the
    settlements of [PaymentFacts], every sequence of payment operations keeps
    [payments_ok] whatever fails in them. *)
From S2P Require Import Prelude GoStrings GoValue Domain Money Tx Table Ledger Schema Http Payments PaymentFacts.
From stdpp Require Import list.
Open Scope string_scope.
Open Scope Z_scope.
Open Scope list_scope.


(** ** Refunds *)
Section refund.
Context (rq : request) (id reason : string) (o : payment_order) (w : wallet).

Definition refund_meta : jsonb := [("order_id", JStr (o_id o)); ("refund_id", JStr id)].
Definition refund_row (done : option Z) : refund :=
  {| rf_id := id; rf_order := o_id o; rf_user := o_user o; rf_provider := o_provider o;
     rf_amount := o_amount o;
     rf_status := match done with Some _ => RefundSucceeded | None => RefundProcessing end;
     rf_reason := reason; rf_entry := done; rf_by_ := principal rq; rf_request := request_id rq;
     rf_created := now rq; rf_completed := match done with Some _ => Some (now rq) | None => None end |}.
Definition refund_log (entryID : Z) : audit_row :=
  {| au_actor := Some (principal rq); au_subject := Some (o_user o);
     au_action := "payment.refund"; au_rtype := "refund"; au_rid := id; au_request := request_id rq;
     au_meta := [("order_id", JStr (o_id o)); ("amount_cents", JInt (o_amount o));
                 ("entry_id", JInt entryID); ("provider", JStr (o_provider o))] |}.
(** The database after a completed refund. *)
Definition refunded_db (d : db) : db :=
  let entryID := next_entry (ledger d) in
  upd_audit_logs (λ t, t ++ [refund_log entryID])
  (upd_payments (λ t,
    set_order_events (order_events t ++
      [{| oe_order := o_id o; oe_from := Some paid; oe_to := refunding; oe_message := "refund initiated" |};
       {| oe_order := o_id o; oe_from := Some refunding; oe_to := refunded; oe_message := "refund completed" |}])
    (set_refund_events (refund_events t ++
      [{| re_refund := id; re_from := None; re_to := RefundProcessing;
          re_message := "refund requested"; re_meta := [] |};
       {| re_refund := id; re_from := Some RefundProcessing; re_to := RefundSucceeded;
          re_message := "refund completed"; re_meta := [("ledger_entry_id", JInt entryID)] |}])
    (set_refunds (refunds t ++ [refund_row (Some entryID)])
    (set_orders (update (order_is (o_id o)) (with_status refunded None None None) (orders t)) t))))
  (upd_ledger (λ l, post l w "refund" (o_id o) (- o_amount o) refund_meta) d)).

(** PostgreSQL takes the refund row: its keys are new and its CHECKs hold. *)
Definition insertable (d : db) : bool :=
  negb (exists_row (λ r, refund_is id r || refund_of (o_id o) r) (refunds (payments d))) &&
  ((1 <=? rune_count reason) && (rune_count reason <=? 500)) &&
  negb (bool_decide (trim_space (request_id rq) = "")).

Context (d : db).
Hypothesis Hok : payments_ok d.
Hypothesis Ho : o ∈ orders (payments d).
Hypothesis Hs : o_status o = paid.
Hypothesis Hw : w ∈ wallets (ledger d).
Hypothesis How : owns w o.
Hypothesis Hbal : o_amount o <= w_balance w.

Lemma refund_range : 0 < o_amount o <= int64_max ∧ in64 (w_balance w + - o_amount o) = true ∧
  wrap64 (w_balance w - o_amount o) = w_balance w + - o_amount o ∧ wrap64 (- o_amount o) = - o_amount o.
Proof.
  destruct (po_orders _ Hok o Ho) as [Ha _ _ _].
  assert (is_int64 (w_balance w)) as Hw64.
  { pose proof (lo_range _ (po_ledger _ Hok)) as H. rewrite Forall_forall in H. auto. }
  unfold is_int64, int64_min, int64_max in *.
  split_and!; try lia.
  - apply in64_spec. unfold is_int64, int64_min, int64_max. lia.
  - rewrite wrap64_id; unfold is_int64, int64_min, int64_max; lia.
  - rewrite wrap64_id; unfold is_int64, int64_min, int64_max; lia.
Qed.
Lemma refund_new : ∀ e, e ∈ entries (ledger d) → entry_key e ≠ (w_id w, "refund", o_id o).
Proof.
  destruct (po_orders _ Hok o Ho) as [_ Hb _ _]. destruct (Hb w Hw How) as [_ Hb2].
  rewrite Hs in Hb2. by apply key_amounts_nil.
Qed.
Lemma refund_ledger meta :
  ∃ l1, insert_entry (w_id w) "refund" (o_id o) (wrap64 (- o_amount o)) (wrap64 (w_balance w - o_amount o))
          meta (ledger d) = Ok (next_entry (ledger d), l1) ∧
    set_balance (wrap64 (w_balance w - o_amount o)) (w_id w) l1 =
      Ok (post (ledger d) w "refund" (o_id o) (- o_amount o) meta).
Proof.
  destruct refund_range as (Ha & H64 & E1 & E2). rewrite E1, E2.
  destruct (insert_then_update (ledger d) w "refund" (o_id o) (- o_amount o) meta (po_ledger _ Hok) Hw
    (w_balance w + - o_amount o) (λ _, w_balance w + - o_amount o)) as (l1 & Hi & Hu);
    [lia|set_solver|apply refund_new|done|done|].
  rewrite H64 in Hu. eauto.
Qed.
Lemma insert_refund_fails d1 :
  insertable d = false → refunds (payments d1) = refunds (payments d) →
  ∃ name, insert_refund (refund_row None) d1 = Err (Constraint name).
Proof.
  intros Hi Hr. unfold insert_refund. rewrite Hr. unfold insertable in Hi.
  cbn [refund_row rf_id rf_order rf_reason rf_request].
  destruct (exists_row _ (refunds (payments d))); [eauto|].
  destruct ((1 <=? rune_count reason) && _); cbn [negb andb] in *; [|eauto].
  destruct (bool_decide _); [eauto|done].
Qed.
Hypothesis Hins : insertable d = true.
Lemma insertable_fresh r : r ∈ refunds (payments d) → refund_is id r = false ∧ refund_of (o_id o) r = false.
Proof.
  unfold insertable in Hins. intros Hr. apply andb_true_iff in Hins as [Hi _].
  apply andb_true_iff in Hi as [Hi _]. apply negb_true_iff in Hi.
  rewrite exists_row_false in Hi. specialize (Hi r Hr). by bool_hyps.
Qed.
Lemma refunded_aligned : refund_order_aligned (o_id o) (refunded_db d) = true.
Proof.
  rewrite (aligned_self d (refunded_db d) o (with_status refunded None None None)) by done.
  cbn [refunded_db payments upd_payments upd_ledger upd_audit_logs set_order_events set_refund_events
       set_refunds set_orders refunds].
  rewrite find_app, find_key_none by apply insertable_fresh. cbn [List.find].
  unfold refund_of at 1. cbn [refund_row rf_order]. rewrite bool_decide_eq_true_2 by done.
  by rewrite !bool_decide_eq_true_2 by done.
Qed.
Lemma refunded_ok : payments_ok (refunded_db d).
Proof.
  destruct refund_range as (Ha & H64 & _ & _).
  destruct (po_orders _ Hok o Ho) as [_ Hb _ _]. destruct (Hb w Hw How) as [_ Hb2]. rewrite Hs in Hb2.
  apply (transition_ok d (refunded_db d) o w "refund" (- o_amount o) refund_meta
    (with_status refunded None None None)); try done; try lia; auto.
  - apply (aligned_cases d _ o (with_status refunded None None None)); try done.
    2: { apply refunded_aligned. }
    intros i Hi. cbn [refunded_db payments upd_payments upd_ledger upd_audit_logs set_order_events
      set_refund_events set_refunds set_orders refunds].
    rewrite find_app. destruct (List.find (refund_of i) (refunds (payments d))); [done|].
    cbn. unfold refund_of. cbn. by rewrite bool_decide_eq_false_2 by congruence.
  - cbn [refunded_db payments upd_payments upd_ledger upd_audit_logs set_order_events
      set_refund_events set_refunds set_orders refunds refund_events].
    intros ev [Hev|Hev]%elem_of_app.
    + destruct (po_events _ Hok ev Hev) as (r & Hr & Hid). exists r. split; [|done].
      apply elem_of_app. by left.
    + exists (refund_row (Some (next_entry (ledger d)))). split; [apply elem_of_app; right; left|].
      apply elem_of_cons in Hev as [->|Hev]; [done|].
      apply list_elem_of_singleton in Hev as ->. done.
  - cbn [refunded_db payments upd_payments upd_ledger upd_audit_logs set_order_events
      set_refund_events set_refunds set_orders refunds].
    intros r [Hr| ->%list_elem_of_singleton]%elem_of_app; [by left|by right].
Qed.
Lemma no_events ev : ev ∈ refund_events (payments d) → re_refund ev ≠ id.
Proof.
  intros Hev Hid. destruct (po_events _ Hok ev Hev) as (r & Hr & Hr').
  destruct (insertable_fresh r Hr) as [Hf _]. unfold refund_is in Hf. bool_hyps. congruence.
Qed.
Lemma events_to_app s t ev :
  refund_events t = refund_events (payments d) ++ ev → 
  events_to id s t = List.length (List.filter (λ e, bool_decide (re_refund e = id) && bool_decide (re_to e = s)) ev).
Proof.
  intros E. unfold events_to. rewrite E, List.filter_app, length_app.
  assert (List.filter (λ e, bool_decide (re_refund e = id) && bool_decide (re_to e = s))
    (refund_events (payments d)) = []) as ->; [|done].
  destruct (List.filter _ _) as [|e es] eqn:Ef; [done|]. exfalso.
  assert (e ∈ e :: es) as He by left. rewrite <- Ef in He.
  apply list_elem_of_In, List.filter_In in He as [He Hc]. bool_hyps.
  by apply (no_events e); [apply list_elem_of_In|].
Qed.
Lemma refunded_events : refund_events_aligned id (refunded_db d) = true.
Proof.
  pose proof (λ s, events_to_app s (payments (refunded_db d)) [_; _] eq_refl) as He.
  unfold refund_events_aligned. cbv beta zeta. rewrite !He. clear He.
  cbn [refunded_db payments upd_payments upd_ledger upd_audit_logs set_order_events set_refund_events
       set_refunds set_orders refunds].
  rewrite find_app, find_key_none by apply insertable_fresh. cbn [List.find].
  unfold refund_is at 1. cbn [refund_row rf_id]. rewrite bool_decide_eq_true_2 by done.
  cbn.
  by rewrite !bool_decide_eq_true_2 by done.
Qed.

(** The statements of a refund, one by one. *)
Lemma insert_refund_run d1 :
  refunds (payments d1) = refunds (payments d) →
  orders (payments d1) = update (order_is (o_id o)) (with_status refunding None None None) (orders (payments d)) →
  insert_refund (refund_row None) d1 = Ok (upd_payments (λ t, set_refunds (refunds t ++ [refund_row None]) t) d1).
Proof.
  intros Hr Hor. unfold insert_refund. rewrite Hr, Hor. pose proof Hins as Hi. unfold insertable in Hi.
  apply andb_true_iff in Hi as [Hi Hrid]. apply andb_true_iff in Hi as [Hex Hlen].
  apply negb_true_iff in Hex, Hrid. cbn [refund_row rf_id rf_order rf_reason rf_request].
  rewrite Hex, Hlen, Hrid. cbn [negb].
  assert (exists_row (λ o0, order_is (o_id o) o0 && bool_decide (o_user o0 = o_user o)
    && bool_decide (o_provider o0 = o_provider o) && bool_decide (o_amount o0 = o_amount o)
    && (bool_decide (o_status o0 = refunding) || bool_decide (o_status o0 = refunded)))
    (update (order_is (o_id o)) (with_status refunding None None None) (orders (payments d))) = true) as Hx.
  { apply exists_row_true. exists (with_status refunding None None None o). split.
    - apply elem_of_update. exists o. split; [done|]. by rewrite (proj2 (order_is_spec _ _)).
    - cbn. unfold order_is. cbn. by rewrite !bool_decide_eq_true_2 by done. }
  cbn [refund_row rf_user rf_provider rf_amount]. by rewrite Hx.
Qed.
Lemma first_event_run t :
  refund_events t = refund_events (payments d) →
  insert_refund_event {| re_refund := id; re_from := None; re_to := RefundProcessing;
                         re_message := "refund requested"; re_meta := [] |} t =
  Ok (set_refund_events (refund_events t ++ [{| re_refund := id; re_from := None;
        re_to := RefundProcessing; re_message := "refund requested"; re_meta := [] |}]) t).
Proof.
  intros Ht. unfold insert_refund_event.
  assert (exists_row (λ e, bool_decide (re_refund e = id) && bool_decide (re_to e = RefundProcessing))
    (refund_events t) = false) as Hx.
  { apply exists_row_false. intros ev Hev. rewrite Ht in Hev.
    by rewrite bool_decide_eq_false_2 by (by apply no_events). }
  cbn [re_refund re_to]. by rewrite Hx.
Qed.
Lemma second_event_run t m :
  refund_events t = refund_events (payments d) ++ [{| re_refund := id; re_from := None;
        re_to := RefundProcessing; re_message := "refund requested"; re_meta := [] |}] →
  insert_refund_event {| re_refund := id; re_from := Some RefundProcessing; re_to := RefundSucceeded;
                         re_message := "refund completed"; re_meta := m |} t =
  Ok (set_refund_events (refund_events t ++ [{| re_refund := id; re_from := Some RefundProcessing;
        re_to := RefundSucceeded; re_message := "refund completed"; re_meta := m |}]) t).
Proof.
  intros Ht. unfold insert_refund_event.
  assert (exists_row (λ e, bool_decide (re_refund e = id) && bool_decide (re_to e = RefundSucceeded))
    (refund_events t) = false) as Hx.
  { apply exists_row_false. intros ev. rewrite Ht. intros [Hev| ->%list_elem_of_singleton]%elem_of_app.
    - by rewrite bool_decide_eq_false_2 by (by apply no_events).
    - cbn. by rewrite andb_comm, bool_decide_eq_false_2. }
  cbn [re_refund re_to]. by rewrite Hx.
Qed.
Lemma succeed_refund_run d1 :
  refunds (payments d1) = refunds (payments d) ++ [refund_row None] →
  ledger d1 = post (ledger d) w "refund" (o_id o) (- o_amount o) refund_meta →
  succeed_refund id (next_entry (ledger d)) (now rq) d1 =
    Ok (upd_payments (λ t, set_refunds (refunds (payments d) ++ [refund_row (Some (next_entry (ledger d)))]) t) d1).
Proof.
  intros Hr Hl. unfold succeed_refund. rewrite Hr, find_app.
  rewrite find_key_none by apply insertable_fresh. cbn [List.find].
  unfold refund_is at 1. cbn [refund_row rf_id]. rewrite bool_decide_eq_true_2 by done.
  cbn [rf_status]. rewrite bool_decide_eq_true_2 by done. cbn [negb].
  assert (refund_entry_matches (refund_row None) (next_entry (ledger d)) d1 = true) as Hm.
  { unfold refund_entry_matches. rewrite Hl. apply exists_row_true.
    exists (new_entry (ledger d) w "refund" (o_id o) (- o_amount o) refund_meta). split.
    - cbn [post entries]. apply elem_of_app. right. left.
    - cbn [new_entry e_id e_type e_ref e_amount e_wallet refund_row rf_order rf_amount rf_user].
      rewrite !Z.eqb_refl, !bool_decide_eq_true_2 by done. cbn [andb].
      apply exists_row_true.
      destruct (wallets_post (ledger d) w "refund" (o_id o) (- o_amount o) refund_meta w Hw)
        as (w' & Hw' & Hid & Hus).
      exists w'. split; [done|]. unfold owns in How. rewrite Hid, Hus.
      by rewrite !bool_decide_eq_true_2. }
  rewrite Hm. cbn [negb]. f_equal. unfold upd_payments. f_equal.
  rewrite Hr. rewrite update_app, (update_none _ _ (refunds (payments d))) by apply insertable_fresh.
  cbn. unfold refund_is. cbn. by rewrite bool_decide_eq_true_2.
Qed.
End refund.

(** What [refundPayment] computes without faults. *)
Definition refund_rejected (rq : request) (o : payment_order) (meta : jsonb) : audit_row :=
  {| au_actor := Some (principal rq); au_subject := Some (o_user o);
     au_action := "payment.refund.rejected"; au_rtype := "payment_order"; au_rid := o_id o;
     au_request := request_id rq; au_meta := meta |}.
Definition refund_reason (reason : string) : string :=
  let reason := trim_space reason in
  if bool_decide (reason = "") then "administrator full refund" else reason.
Definition refund_paid_spec (rq : request) (id reason : string) (o : payment_order) (d : db) :
    response * db :=
  if negb (bool_decide (o_provider o = "manual")) then
    (RError 503 "payment_provider_refund_unconfigured",
     upd_audit_logs (λ t, t ++ [refund_rejected rq o [("provider", JStr (o_provider o));
       ("reason", JStr reason); ("cause", JStr "provider_refund_unconfigured")]]) d)
  else match select_wallet (o_user o) (ledger d) with
  | Err _ => (internal_error, d)
  | Ok w =>
      if w_balance w <? o_amount o then
        (RError 409 "insufficient_balance",
         upd_audit_logs (λ t, t ++ [refund_rejected rq o [("provider", JStr (o_provider o));
           ("reason", JStr reason); ("cause", JStr "insufficient_balance");
           ("balance_cents", JInt (w_balance w)); ("amount_cents", JInt (o_amount o))]]) d)
      else if insertable rq id reason o d then
        (RJson 200 [("orderId", JStr (o_id o)); ("status", JStr "refunded");
                    ("balanceCents", JInt (w_balance w - o_amount o)); ("refundId", JStr id);
                    ("refundStatus", JStr "succeeded"); ("ledgerEntryId", JInt (next_entry (ledger d)));
                    ("completedAt", JInt (now rq)); ("idempotent", JBool false)],
         refunded_db rq id reason o w d)
      else (internal_error, d)
  end.
Definition refund_spec (rq : request) (id : string) (o : payment_order) (reason : string) (d : db) :
    response * db :=
  if bool_decide (o_status o = refunded) then
    match select (refund_of (o_id o)) (refunds (payments d)) with
    | Err _ => (internal_error, d)
    | Ok rf =>
        match select_wallet (rf_user rf) (ledger d) with
        | Err _ => (internal_error, d)
        | Ok w =>
            (RJson 200 [("orderId", JStr (o_id o)); ("status", JStr "refunded");
               ("balanceCents", JInt (w_balance w)); ("refundId", JStr (rf_id rf));
               ("refundStatus", JStr (refund_status_text (rf_status rf)));
               ("ledgerEntryId", match rf_entry rf with Some e => JInt e | None => JNull end);
               ("completedAt", match rf_completed rf with Some t => JInt t | None => JNull end);
               ("idempotent", JBool true)], d)
        end
    end
  else if bool_decide (o_status o = refunding) then (RError 409 "refund_in_progress", d)
  else if negb (bool_decide (o_status o = paid)) then (RError 409 "order_not_refundable", d)
  else refund_paid_spec rq id reason o d.

Lemma refund_run `{UuidSyntax} rq id orderID reason d o :
  payments_ok d → valid_uuid orderID = true → refundReasonTooLong (refund_reason reason) = false →
  select_order orderID d = Ok o →
  run internalError (refundPayment rq id orderID (Some reason)) no_faults d =
    refund_spec rq id o (refund_reason reason) d.
Proof.
  intros Hok Hv Hlong Hsel. apply (run_wp internalError _ d (λ x, x = _)).
  unfold refundPayment. fold (refund_reason reason). cbv zeta.
  tx_pass; [by rewrite Hv|]. tx_pass; [done|]. repeat tx_step. rewrite Hsel.
  apply select_order_inv in Hsel as [Ho <-]. unfold refund_spec.
  destruct (bool_decide (o_status o = refunded)) eqn:E1.
  { repeat tx_step. destruct (select (refund_of _) _) as [rf|e] eqn:Er.
    2: { by apply select_err in Er as [-> _]. }
    repeat tx_step. destruct (select_wallet (rf_user rf) _) as [w|e] eqn:Ew.
    2: { by apply select_err in Ew as [-> _]. }
    by repeat tx_step. }
  destruct (bool_decide (o_status o = refunding)) eqn:E2; [by repeat tx_step|].
  destruct (bool_decide (o_status o = paid)) eqn:E3; cbn [negb]; [|by repeat tx_step].
  unfold refund_paid_spec. fold (supportsImmediateRefund (o_provider o)).
  destruct (supportsImmediateRefund (o_provider o)); cbn [negb].
  2: { repeat tx_step. unfold audit. by repeat tx_step. }
  repeat tx_step. destruct (select_wallet (o_user o) (ledger d)) as [w|e] eqn:Ew.
  2: { by apply select_err in Ew as [-> _]. }
  destruct (w_balance w <? o_amount o) eqn:Eb; cbn iota beta.
  { repeat tx_step. unfold audit. by repeat tx_step. }
  apply select_wallet_inv in Ew as [Hw How]. bool_hyps.
  destruct (refund_range o w d Hok Ho Hw Eb) as (Ha & H64 & Ewr & _).
  destruct (refund_ledger o w d Hok Ho E3 Hw How Eb (refund_meta id o)) as (l1 & Hi & Hu).
  repeat tx_step. unfold on_payments. cbn [update_order]. repeat tx_step.
  unfold insert_order_event. repeat tx_step.
  change {| rf_id := id; rf_order := o_id o; rf_user := _; rf_provider := _; rf_amount := _;
    rf_status := _; rf_reason := _; rf_entry := _; rf_by_ := _; rf_request := _; rf_created := _;
    rf_completed := _ |} with (refund_row rq id (refund_reason reason) o None).
  destruct (insertable rq id (refund_reason reason) o d) eqn:Hins.
  2: { match goal with |- context [insert_refund ?r ?x] =>
         destruct (insert_refund_fails rq id (refund_reason reason) o d x Hins eq_refl) as [nm ->] end. done. }
  rewrite (insert_refund_run rq id (refund_reason reason) o d Ho) by done. repeat tx_step.
  rewrite (first_event_run rq id (refund_reason reason) o d Hok) by done. repeat tx_step.
  unfold on_ledger, on_ledger_.
  match goal with |- context [insert_entry _ _ _ _ _ _ ?l] => change l with (ledger d) end.
  fold (refund_meta id o). rewrite Hi. repeat tx_step. cbn [ledger upd_ledger]. rewrite Hu. repeat tx_step.
  rewrite (succeed_refund_run rq id (refund_reason reason) o w d Hw) by done. repeat tx_step.
  rewrite (second_event_run rq id (refund_reason reason) o d Hok) by done. repeat tx_step.
  unfold audit.
  match goal with |- wp _ _ (live ?W _ _) =>
    assert (W = refunded_db rq id (refund_reason reason) o w d) as HW end.
  { apply db_eq; [reflexivity|reflexivity| |reflexivity..].
    apply payments_eq;
      [exact (update_update (order_is (o_id o)) (with_status refunded None None None) (with_status refunding None None None)
         (orders (payments d)) (λ _, eq_refl))|symmetry; apply (List.app_assoc (order_events (payments d)) [_] [_])|reflexivity|
       symmetry; apply (List.app_assoc (refund_events (payments d)) [_] [_])|reflexivity..]. }
  rewrite HW. do 2 tx_step. cbn [forallb].
  rewrite !(refunded_aligned rq id (refund_reason reason) o w d) by done.
  rewrite !(refunded_events rq id (refund_reason reason) o w d) by done. cbn [andb].
  repeat tx_step. unfold finish. cbn. by rewrite Ewr.
Qed.

(** What a request for a refund computes, whatever it holds. *)
Definition refund_request_spec `{UuidSyntax} (rq : request) (id orderID : string) (body : option string) (d : db) :
    response * db :=
  match valid_uuid orderID, body, select_order orderID d with
  | false, _, _ => (RError 400 "validation_failed", d)
  | true, None, _ => (RError 400 "invalid_request", d)
  | true, Some reason, found =>
      if 500 <? rune_count (refund_reason reason) then (RError 400 "validation_failed", d)
      else match found with
           | Ok o => refund_spec rq id o (refund_reason reason) d
           | Err _ => (RError 404 "order_not_found", d)
           end
  end.

Lemma refund_request_run `{UuidSyntax} rq id orderID body d :
  payments_ok d →
  run internalError (refundPayment rq id orderID body) no_faults d = refund_request_spec rq id orderID body d.
Proof.
  intros Hok. unfold refund_request_spec. destruct (valid_uuid orderID) eqn:Hv.
  2: { apply (run_wp internalError _ d (λ x, x = _)). unfold refundPayment. tx_step. by rewrite Hv. }
  destruct body as [reason|].
  2: { apply (run_wp internalError _ d (λ x, x = _)). unfold refundPayment. tx_pass; [by rewrite Hv|]. by tx_step. }
  fold (refundReasonTooLong (refund_reason reason)). destruct (refundReasonTooLong _) eqn:Hl.
  { apply (run_wp internalError _ d (λ x, x = _)). unfold refundPayment. fold (refund_reason reason). cbv zeta.
    tx_pass; [by rewrite Hv|]. tx_step. by rewrite Hl. }
  destruct (select_order orderID d) as [o|e] eqn:Eo; [by apply refund_run|].
  apply (run_wp internalError _ d (λ x, x = _)). unfold refundPayment. fold (refund_reason reason). cbv zeta.
  tx_pass; [by rewrite Hv|]. tx_pass; [done|]. repeat tx_step. rewrite Eo.
  unfold select_order, select_order_where in Eo. rewrite Hv in Eo. apply select_err in Eo as [-> _]. by repeat tx_step.
Qed.

(** C3: without faults, a request for a refund by an administrator is
    [refund_request_spec], whatever it holds.  An identifier that is no UUID, a
    body that cannot be read, a reason of more than 500 characters and an
    unknown order are refused; a refunded order is answered again (with the
    recorded refund, its status, entry and time) without a change; an order
    that is not paid, a provider without refunds and a wallet below the amount
    are refused (the last two with an audit record); otherwise the wallet is
    debited by exactly the order's amount with one ledger entry, and the order
    and the refund record reach their terminal states together with their
    events. *)
Theorem refundPayment_run `{UuidSyntax} rq id orderID body d :
  payments_ok d →
  run internalError (refundPayment rq id orderID body) no_faults d = refund_request_spec rq id orderID body d.
Proof. apply refund_request_run. Qed.
Lemma refundPayment_run_witness :
  let refund := @refundPayment Sample.rq Sample.any_uuid "rf-1" "o-3" (Some "") in
  let d1 := (run internalError refund no_faults Sample.db1).2 in
  (run internalError refund no_faults Sample.db1).1 =
    RJson 200 [("orderId", JStr "o-3"); ("status", JStr "refunded"); ("balanceCents", JInt 0);
               ("refundId", JStr "rf-1"); ("refundStatus", JStr "succeeded");
               ("ledgerEntryId", JInt 2); ("completedAt", JInt 7); ("idempotent", JBool false)] ∧
  run internalError refund no_faults d1 =
    (RJson 200 [("orderId", JStr "o-3"); ("status", JStr "refunded"); ("balanceCents", JInt 0);
               ("refundId", JStr "rf-1"); ("refundStatus", JStr "succeeded");
               ("ledgerEntryId", JInt 2); ("completedAt", JInt 7); ("idempotent", JBool true)], d1).
Proof.
  cbv zeta. split; [|by vm_compute].
  rewrite (@refundPayment_run Sample.any_uuid Sample.rq "rf-1" "o-3" (Some "") Sample.db1 Sample.db1_ok).
  by vm_compute.
Defined.
