(* ===== verification/Posting.v ===== *)
(** * Moving money in a transaction

    The two statements every writer of the ledger runs, an INSERT of the entry
    and an UPDATE of the wallet, as one step of a fault-free run: the lemma
    [wp_post] is the interface between the ledger and the handlers that move
    money, whatever table they work on besides. *)
From S2P Require Import Prelude GoStrings Domain Money Tx Table Ledger Schema Http Payments PaymentFacts.
From stdpp Require Import list.
Open Scope string_scope.
Open Scope Z_scope.
Open Scope list_scope.

Lemma update_wallets_ext p q new l :
  (∀ w, w ∈ wallets l → p w = q w) → update_wallets p new l = update_wallets q new l.
Proof.
  intros Hpq. unfold update_wallets.
  assert (List.filter p (wallets l) = List.filter q (wallets l)) as ->.
  { apply List.filter_ext_in. intros w Hw. apply Hpq. by apply list_elem_of_In. }
  destruct (forallb _ _); [|done]. do 2 f_equal. unfold update.
  apply list_fmap_ext. intros i w Hw. apply list_elem_of_lookup_2 in Hw. by rewrite (Hpq w Hw).
Qed.

Section wp_post.
Context {R A : Type} (d : db) (w : wallet) (ty ref : string) (amount after : Z) (meta : jsonb).
Context (p : wallet → bool) (new : wallet → Z).
Context (k : Z → tx db R A) (dl : list (db → bool)) (n : nat).
Context (Φ : out R A → txst db → Prop).
Hypothesis Hok : ledger_ok (ledger d).
Hypothesis Hw : w ∈ wallets (ledger d).
Hypothesis Hp : ∀ w', w' ∈ wallets (ledger d) → p w' = is_wallet (w_id w) w'.
Hypothesis Hnew : new w = w_balance w + amount.
Hypothesis Hafter : in64 (w_balance w + amount) = true → after = w_balance w + amount.
Hypothesis Hfail : ∀ e s, committed s = None → Φ (Throw e) s.

Lemma wp_post :
  (amount ≠ 0 → in64 (w_balance w + amount) = true →
   (∀ e, e ∈ entries (ledger d) → entry_key e ≠ (w_id w, ty, ref)) →
   wp (k (next_entry (ledger d))) Φ
     (live (upd_ledger (λ l, post l w ty ref amount meta) d) dl (S (S n)))) →
  wp (entryID ← stmt (on_ledger (insert_entry (w_id w) ty ref amount after meta));
      exec (on_ledger_ (update_wallets p new));; k entryID) Φ (live d dl n).
Proof.
  intros Hk. repeat tx_step. unfold on_ledger.
  destruct (insert_entry _ _ _ _ _ _ _) as [[id l1]|e] eqn:Ei.
  2: { assert (e ≠ NoRows) as Hne.
       { intros ->. unfold insert_entry in Ei. by repeat (case_match; try done). }
       destruct e; try done; by apply Hfail. }
  destruct (insert_entry_inv _ _ _ _ _ _ _ _ _ Ei) as (-> & Ha & Hty & Hfresh & Hl1).
  repeat tx_step. unfold on_ledger_. cbn [ledger upd_ledger].
  rewrite (update_wallets_ext p (is_wallet (w_id w))) by (by rewrite Hl1).
  destruct (insert_then_update (ledger d) w ty ref amount meta Hok Hw after new Ha Hty Hfresh Hnew Hafter)
    as (l2 & Hi & Hu).
  rewrite Hi in Ei. injection Ei as <-. rewrite Hu.
  destruct (in64 _) eqn:E64; [|by apply Hfail]. by apply Hk.
Qed.

(** The step of a handler that knows the entry to be new and in range. *)
Lemma wp_post_fresh :
  amount ≠ 0 → ty ∈ business_types → in64 (w_balance w + amount) = true →
  (∀ e, e ∈ entries (ledger d) → entry_key e ≠ (w_id w, ty, ref)) →
  wp (k (next_entry (ledger d))) Φ
    (live (upd_ledger (λ l, post l w ty ref amount meta) d) dl (S (S n))) →
  wp (entryID ← stmt (on_ledger (insert_entry (w_id w) ty ref amount after meta));
      exec (on_ledger_ (update_wallets p new));; k entryID) Φ (live d dl n).
Proof using Hok Hw Hp Hnew Hafter.
  intros Ha Hty H64 Hfresh Hk. repeat tx_step. unfold on_ledger.
  destruct (insert_then_update (ledger d) w ty ref amount meta Hok Hw after new Ha Hty Hfresh Hnew Hafter)
    as (l1 & Hi & Hu). rewrite Hi. repeat tx_step. unfold on_ledger_. cbn [ledger upd_ledger].
  destruct (insert_entry_inv _ _ _ _ _ _ _ _ _ Hi) as (_ & _ & _ & _ & Hl1).
  rewrite (update_wallets_ext p (is_wallet (w_id w))) by (by rewrite Hl1).
  by rewrite Hu, H64.
Qed.
End wp_post.
Lemma wp_unit {D R : Type} (m : tx D R unit) (Φ : out R unit → txst D → Prop) s :
  wp (m;; mret tt) Φ s → wp m Φ s.
Proof. unfold wp, mbind, tx_bind. by destruct (m no_faults s) as [[[]|e|r] s']. Qed.
Lemma wp_assoc {D R A B : Type} (m : tx D R A) (k : A → tx D R unit) (h : tx D R B) Φ s :
  wp (a ← m; (k a;; h)) Φ s → wp ((a ← m; k a);; h) Φ s.
Proof. unfold wp, mbind, tx_bind. by destruct (m no_faults s) as [[a|e|r] s']. Qed.
(** The kinds of entry. *)
Ltac kind := repeat first [apply list_elem_of_here | apply list_elem_of_further].
(** The wallet a statement selects by its identifier and a column. *)
Lemma same_wallet d w (q : wallet → bool) w' :
  ledger_ok (ledger d) → w ∈ wallets (ledger d) → w' ∈ wallets (ledger d) → q w = true →
  is_wallet (w_id w) w' && q w' = is_wallet (w_id w) w'.
Proof.
  intros Hok Hw Hw' Hq. destruct (is_wallet (w_id w) w') eqn:E; [|done].
  apply is_wallet_spec in E. by rewrite (wallet_by_id _ _ Hok Hw w' Hw' E).
Qed.

(** ** The frame of the other tables *)
Lemma payments_ok_frame d d' :
  ledger d' = ledger d → payments d' = payments d → payments_ok d → payments_ok d'.
Proof.
  intros Hl Hp [H1 H2 H3 H4 H5 H6 H7]. constructor; rewrite ?Hl, ?Hp; try done.
  intros o Ho. destruct (H4 o Ho) as [Ha Hb Hc Hd]. constructor; [done|..].
  - intros w Hw How. unfold booked. rewrite Hl in *. by apply Hb.
  - by rewrite Hl.
  - unfold refund_order_aligned in *. by rewrite Hp.
Qed.
Lemma payments_wallet d w : payments_ok d → w ∈ wallets (ledger d) → 0 <= w_balance w <= int64_max.
Proof.
  intros Hok Hw. pose proof (po_solvent _ Hok) as H. unfold solvent in H. rewrite Forall_forall in H.
  pose proof (lo_range _ (po_ledger _ Hok)) as H'. rewrite Forall_forall in H'.
  specialize (H w Hw). destruct (H' w Hw). lia.
Qed.
(** A posting of any other kind than the payments'. *)
Lemma post_payments_ok d w ty ref amount meta :
  payments_ok d → w ∈ wallets (ledger d) → amount ≠ 0 → in64 (w_balance w + amount) = true →
  0 <= w_balance w + amount → (∀ e, e ∈ entries (ledger d) → entry_key e ≠ (w_id w, ty, ref)) →
  ty ≠ "topup" → ty ≠ "refund" →
  payments_ok (upd_ledger (λ l, post l w ty ref amount meta) d).
Proof. intros. by apply (payments_ok_post d w ty ref amount meta). Qed.

(** ** Runs whose failures leave the database alone *)
Section tolerant.
Context {R A : Type} (dl : list (db → bool)) (n : nat) (d : db).
Implicit Types Φ : out R A → txst db → Prop.
Definition tolerates {B} (Φ : out R B → txst db → Prop) : Prop := ∀ e s, committed s = None → Φ (Throw e) s.

Lemma wp_stmt_ok (g : db → result sqlerr (A * db)) Φ :
  tolerates Φ → (∀ a d', g d = Ok (a, d') → Φ (Val a) (live d' dl (S n))) → wp (stmt g) Φ (live d dl n).
Proof.
  intros HΦ Hg. apply wp_stmt. destruct (g d) as [[a d']|[]]; [by apply Hg|by apply HΦ..].
Qed.
Lemma wp_query_ok (q : db → result sqlerr A) Φ :
  tolerates Φ → (∀ a, q d = Ok a → Φ (Val a) (live d dl (S n))) → wp (query q) Φ (live d dl n).
Proof. intros HΦ Hq. apply wp_query. destruct (q d) as [a|[]]; [by apply Hq|by apply HΦ..]. Qed.
Lemma wp_exec_ok (g : db → result sqlerr db) (Φ : out R unit → txst db → Prop) :
  tolerates Φ → (∀ d', g d = Ok d' → Φ (Val tt) (live d' dl (S n))) → wp (exec g) Φ (live d dl n).
Proof. intros HΦ Hg. apply wp_exec. destruct (g d) as [d'|[]]; [by apply Hg|by apply HΦ..]. Qed.
(** A row that may be absent. *)
Lemma wp_optional_ok (q : db → result sqlerr A) (Φ : out R (option A) → txst db → Prop) :
  tolerates Φ → (∀ a, q d = Ok a → Φ (Val (Some a)) (live d dl (S n))) →
  (q d = Err NoRows → Φ (Val None) (live d dl (S n))) →
  wp (optional (query q)) Φ (live d dl n).
Proof.
  intros HΦ Hq Hn. do 3 tx_step. destruct (q d) as [a|[]]; [by apply Hq|by apply Hn|by apply HΦ..].
Qed.
(** A row without which the program ends. *)
Lemma wp_query_or_exit (q : db → result sqlerr A) r Φ :
  tolerates Φ → (∀ a, q d = Ok a → Φ (Val a) (live d dl (S n))) → (q d = Err NoRows → Φ (Exit r) (live d dl (S n))) →
  wp (on_no_rows (query q) (exit r)) Φ (live d dl n).
Proof.
  intros HΦ Hq Hn. do 2 tx_step. destruct (q d) as [a|[]]; [by apply Hq|by apply Hn|by apply HΦ..].
Qed.
End tolerant.
