(* ===== verification/Orders.v ===== *)
(** * Creating, querying and closing payment orders

    [createPaymentOrder] (internal/httpapi/payment_features.go), the EPay
    checkout URL (epay_callback.go), the providers (payment_provider.go) and
    the provider operations (payment_operations.go). *)
From S2P Require Import Prelude GoStrings GoValue Domain Money Tx Table Ledger Schema Http Payments.
From stdpp Require Import list.
Open Scope string_scope.
Open Scope Z_scope.
Open Scope list_scope.

(** ** The checkout URL

    net/url: [parse_url] is [url.Parse], [url_query] the parsed query of the
    result ([base.Query()]), [render_url] its [String()] with the given query
    encoded. *)
Record url := { u_Scheme : string; u_Host : string; u_Path : string; u_rest : string }.
Class NetURL := {
  parse_url : string → option url;
  url_query : url → gmap string (list string);
  render_url : url → gmap string (list string) → string
}.
Section checkout.
Context `{NetURL} `{GoRange} `{UnicodeLower}.

Definition with_path (path : string) (u : url) : url :=
  {| u_Scheme := u_Scheme u; u_Host := u_Host u; u_Path := path; u_rest := u_rest u |}.
Definition epayPurchaseEndpoint (endpoint : string) : option url :=
  base ← parse_url endpoint;
  if bool_decide (u_Scheme base = "") || bool_decide (u_Host base = "") then None
  else
    let path := trim_right (u_Path base) "/" in
    if bool_decide (path = "") then Some (with_path "/submit.php" base)
    else if negb (has_suffix (to_lower path) "/submit.php")
    then Some (with_path (path ^+ "/submit.php")%string base)
    else Some base.
Definition buildEPayCheckoutURL (endpoint : string) (values : gmap string string) (secret : string) :
    option string :=
  base ← epayPurchaseEndpoint endpoint;
  let query := foldl (λ q kv, <[kv.1 := [kv.2]]> q) (url_query base) (go_range values) in
  let query := <["sign_type" := ["MD5"]]> query in
  let query := <["sign" := [epaySignature values secret]]> query in
  Some (render_url base query).

(** The signed parameters of an order. *)
Definition checkout_values (merchant payment_type id origin : string) (amount : Z) : gmap string string :=
  list_to_map [("pid", merchant); ("type", payment_type); ("out_trade_no", id);
    ("notify_url", (origin ^+ "/api/payments/epay/callback")%string);
    ("return_url", (origin ^+ "/console/recharge")%string);
    ("name", "CloudMeter 账户充值"); ("money", centsAmountText amount); ("device", "pc")].
End checkout.

(** ** Creation *)
Section create.
Context `{NetURL} `{GoRange} `{UnicodeLower} `{Secrets}.
Context (rq : request).

Record order_request := {
  q_AmountCents : Z; q_Provider : string; q_PaymentType : string; q_IdempotencyKey : string
}.
(** The EPay settings the order is created with; zero values for the manual
    provider. *)
Record epay_settings := {
  es_endpoint : string; es_secret : string; es_merchant : string; es_payment_type : string
}.
Definition no_settings : epay_settings :=
  {| es_endpoint := ""; es_secret := ""; es_merchant := ""; es_payment_type := "" |}.

(** The block [if provider == "epay"], against the settings of database [d1]. *)
Definition epay_order_settings (d1 : db) (amount : Z) (payment_type : string) : program epay_settings :=
  c ← pool d1 epay_config;
  let requested := trim_space payment_type in
  let requestedType :=
    if bool_decide (requested = "") then default "" (pm_Type <$> head (pc_methods c)) else requested in
  match List.find (λ m, pm_Enabled m && bool_decide (pm_Type m = requestedType)) (pc_methods c) with
  | None => exit (RError 400 "payment_method_unavailable")
  | Some m =>
      guard_exit (amount <? pm_MinAmountCents m) (RError 400 "minimum_topup");;
      guard_exit (bool_decide (pc_endpoint c = "") || bool_decide (pc_secret c = ""))
        (RError 503 "payment_provider_pending");;
      match decrypt "payment.secret.epay" (pc_secret c) with
      | None => exit internal_error
      | Some secret =>
          mret {| es_endpoint := pc_endpoint c; es_secret := secret; es_merchant := pc_merchant c;
                  es_payment_type := requestedType |}
      end
  end.
Definition select_by_key (user key : string) (d : db) : result sqlerr payment_order :=
  select (λ o, bool_decide (o_user o = user) && bool_decide (o_key o = key)) (orders (payments d)).
Definition status_text (s : order_status) : string :=
  match s with
  | OrderSt OrderPending => "pending" | OrderSt OrderPaid => "paid" | OrderSt OrderClosed => "closed"
  | OrderSt OrderRefunding => "refunding" | OrderSt OrderRefunded => "refunded" | OrderFailed => "failed"
  end.

(** [d0], [d1]: the databases the settings are read from, before the
    transaction; [id] the identifier PostgreSQL generates.  A failed read of
    the provider leaves [enabled] false, and so gives the same answer as a
    provider that is not configured. *)
Definition createPaymentOrder (d0 d1 : db) (id : string) (q : option order_request) : program response :=
  match q with
  | None => exit (RError 400 "invalid_request")
  | Some q =>
    let amount := q_AmountCents q in
    let provider := trim_space (q_Provider q) in
    let key := trim_space (q_IdempotencyKey q) in
    let provider := if bool_decide (provider = "") then "manual" else provider in
    guard_exit ((amount <=? 0) || (100000000 <? amount) || bool_decide (key = ""))
      (RError 400 "validation_failed");;
    c ← on_error (pool d0 (λ d, select (λ c, bool_decide (pc_provider c = provider))
                                  (provider_configs (payments d))))
          (RError 503 "payment_provider_unavailable");
    guard_exit (negb (pc_enabled c)) (RError 503 "payment_provider_unavailable");;
    guard_exit (negb (bool_decide (provider = "manual")) && negb (bool_decide (provider = "epay")))
      (RError 400 "validation_failed");;
    es ← (if bool_decide (provider = "epay")
          then epay_order_settings d1 amount (q_PaymentType q) else mret no_settings);
    begin_tx;;
    existing ← optional (query (select_by_key (principal rq) key));
    match existing with
    | Some o =>
        guard_exit (negb (bool_decide (o_provider o = provider))
                    || negb (bool_decide (o_payment_type o = es_payment_type es))
                    || negb (o_amount o =? amount)) (RError 409 "idempotency_conflict");;
        commit;;
        mret (RJson 200 ([("orderId", JStr (o_id o)); ("provider", JStr (o_provider o));
                          ("status", JStr (status_text (o_status o)));
                          ("amountCents", JInt (o_amount o)); ("idempotent", JBool true)] ++
          if bool_decide (o_provider o = "epay") && negb (bool_decide (es_endpoint es = ""))
             && negb (bool_decide (es_secret es = ""))
          then match buildEPayCheckoutURL (es_endpoint es)
                       (checkout_values (es_merchant es) (o_payment_type o) (o_id o) (origin rq) (o_amount o))
                       (es_secret es) with
               | Some checkout => [("checkoutUrl", JStr checkout)]
               | None => []
               end
          else []))
    | None =>
        exec (insert_order id (principal rq) provider (es_payment_type es) amount key);;
        defer (refund_order_aligned id);;
        commit;;
        checkout ← (if bool_decide (provider = "epay")
          then match buildEPayCheckoutURL (es_endpoint es)
                       (checkout_values (es_merchant es) (es_payment_type es) id (origin rq) amount)
                       (es_secret es) with
               | Some checkout => mret checkout
               | None => exit (RError 503 "payment_provider_pending")
               end
          else mret "");
        mret (RJson 201 ([("orderId", JStr id); ("provider", JStr provider);
                          ("status", JStr "pending"); ("amountCents", JInt amount);
                          ("idempotent", JBool false)] ++
          if bool_decide (checkout = "") then [] else [("checkoutUrl", JStr checkout)]))
    end
  end.
End create.

(** ** Providers

    The interface [paymentProvider] with its two implementations; an error is
    its text. *)
Record providerOrder := { p_ID : string; p_AmountCents : Z; p_Status : order_status; p_ProviderRef : string }.
Record providerResult := { pr_Status : string; pr_Message : string }.
Definition errProviderOperationUnconfigured : string := "payment provider operation is not configured".

Inductive paymentProvider :=
  | manualPaymentProvider
  | epayPaymentProvider (merchant endpoint secret paymentType : string).

Section provider.
Context `{NetURL} `{GoRange} `{UnicodeLower} `{Secrets}.
Definition CreatePayment (p : paymentProvider) (order : providerOrder) (origin : string) : option string :=
  match p with
  | manualPaymentProvider => Some ""
  | epayPaymentProvider merchant endpoint secret paymentType =>
      buildEPayCheckoutURL endpoint
        (checkout_values merchant paymentType (p_ID order) origin (p_AmountCents order)) secret
  end.
Definition VerifyCallback (p : paymentProvider) (form : gmap string (list string)) :
    result (option callback_error) providerCallback :=
  match p with
  | manualPaymentProvider => Err None
  | epayPaymentProvider merchant _ secret _ =>
      match verifyEPayCallback form merchant secret with Ok cb => Ok cb | Err e => Err (Some e) end
  end.
Definition QueryPayment (p : paymentProvider) (order : providerOrder) : result string providerResult :=
  match p with
  | manualPaymentProvider =>
      Ok {| pr_Status := status_text (p_Status order);
            pr_Message := "manual order status read from the platform ledger" |}
  | epayPaymentProvider _ _ _ _ => Err errProviderOperationUnconfigured
  end.
Definition ClosePayment (p : paymentProvider) (order : providerOrder) : result string providerResult :=
  match p with
  | manualPaymentProvider =>
      if bool_decide (p_Status order = OrderSt OrderClosed)
      then Ok {| pr_Status := "closed"; pr_Message := "manual order is already closed" |}
      else if negb (bool_decide (p_Status order = pending))
      then Err "only pending manual orders can be closed"
      else Ok {| pr_Status := "closed"; pr_Message := "manual order closed" |}
  | epayPaymentProvider _ _ _ _ => Err errProviderOperationUnconfigured
  end.

(** [error_text] and [decrypt_error] are the texts of errors of pgx and of the
    secret box. *)
Class ErrorTexts := { error_text : sqlerr → string; decrypt_error : string }.
Context `{ErrorTexts}.

(** [s.paymentProvider]; [r] is the settings row, read for EPay only. *)
Definition paymentProvider_of (name : string) (r : result sqlerr provider_config) :
    result string paymentProvider :=
  if bool_decide (name = "manual") then Ok manualPaymentProvider
  else if negb (bool_decide (name = "epay")) then Err "unsupported payment provider"
  else match r with
  | Err e => Err (error_text e)
  | Ok c =>
      if negb (pc_enabled c) || bool_decide (pc_merchant c = "") || bool_decide (pc_endpoint c = "")
         || bool_decide (pc_secret c = "") then Err "EPay is not configured"
      else match decrypt "payment.secret.epay" (pc_secret c) with
           | None => Err decrypt_error
           | Some secret => Ok (epayPaymentProvider (pc_merchant c) (pc_endpoint c) secret (pc_payment_type c))
           end
  end.
End provider.
Arguments ErrorTexts : clear implicits.

(** ** Operations on a provider *)
Inductive operation := OpQuery | OpClose.
Definition operation_text (op : operation) : string :=
  match op with OpQuery => "query" | OpClose => "close" end.

(** INSERT INTO payment_provider_operations. *)
Definition insert_provider_operation (row : provider_operation) (d : db) : result sqlerr db :=
  if negb (exists_row (order_is (po_order row)) (orders (payments d)))
  then Err (Constraint "payment_provider_operations_order_id_fkey")
  else if negb (exists_row (λ c, bool_decide (pc_provider c = po_provider row)) (provider_configs (payments d)))
  then Err (Constraint "payment_provider_operations_provider_fkey")
  else if negb (bool_decide (po_operation row ∈ ["query"; "close"]))
  then Err (Constraint "payment_provider_operations_operation_check")
  else if negb (bool_decide (po_result row ∈ ["succeeded"; "unconfigured"; "failed"]))
  then Err (Constraint "payment_provider_operations_result_check")
  else Ok (upd_payments (λ t, set_provider_operations (provider_operations t ++ [row]) t) d).

Section operations.
Context `{NetURL} `{GoRange} `{UnicodeLower} `{Secrets} `{ErrorTexts} `{UuidSyntax}.
Context (rq : request).

(** A transaction of its own, with the result it returns to the handler. *)
Definition transact {A} (m : tx db (result sqlerr A) A) (orc : oracle) (d : db) : result sqlerr A * db :=
  run Err (a ← m; mret (Ok a)) orc d.

Definition recordPaymentOperation (orderID provider : string) (op : operation)
    (res providerStatus message : string) : tx db (result sqlerr unit) unit :=
  begin_tx;;
  exec (insert_provider_operation
    {| po_order := orderID; po_provider := provider; po_operation := operation_text op;
       po_result := res; po_provider_status := providerStatus; po_message := message;
       po_request := request_id rq |});;
  exec (audit {| au_actor := Some (principal rq); au_subject := None;
                 au_action := ("payment.provider." ^+ operation_text op)%string;
                 au_rtype := "payment_order"; au_rid := orderID; au_request := request_id rq;
                 au_meta := [("provider", JStr provider); ("result", JStr res);
                             ("provider_status", JStr providerStatus)] |});;
  commit.

(** The transaction that closes a pending order. *)
Definition closePending (orderID provider message : string) : tx db (result sqlerr unit) unit :=
  begin_tx;;
  o ← query (select_order orderID);
  (if bool_decide (o_status o = pending) then
     exec (on_payments (update_order orderID (OrderSt OrderClosed) None (Some (now rq)) None));;
     defer (refund_order_aligned orderID);;
     exec (on_payments (insert_order_event
       {| oe_order := orderID; oe_from := Some pending; oe_to := OrderSt OrderClosed;
          oe_message := message |}));;
     exec (audit {| au_actor := Some (principal rq); au_subject := None;
                    au_action := "payment.order.close"; au_rtype := "payment_order"; au_rid := orderID;
                    au_request := request_id rq; au_meta := [("provider", JStr provider)] |})
   else mret tt);;
  commit.
Definition touch_queried (orderID : string) (d : db) : result sqlerr db :=
  Ok (upd_payments (λ t, set_orders (update (order_is orderID) (λ o,
    {| o_id := o_id o; o_user := o_user o; o_provider := o_provider o;
       o_payment_type := o_payment_type o; o_amount := o_amount o; o_status := o_status o;
       o_key := o_key o; o_ref := o_ref o; o_paid_at := o_paid_at o; o_closed_at := o_closed_at o;
       o_queried_at := Some (now rq) |}) (orders t)) t) d).

(** [env k] is what other requests do to the database before the [k]-th
    interaction of this one with it. *)
Definition paymentOperation (env : nat → db → db) (orc : nat → oracle) (orderID : string)
    (op : operation) (d : db) : response * db :=
  let '(r, d) := transact (query (select_order orderID)) (orc 0%nat) (env 0%nat d) in
  match r with
  | Err NoRows => (RError 404 "order_not_found", d)
  | Err _ => (internal_error, d)
  | Ok o =>
    let provider := o_provider o in
    let order := {| p_ID := o_id o; p_AmountCents := o_amount o; p_Status := o_status o;
                    p_ProviderRef := default "" (o_ref o) |} in
    let '(c, d) := transact (query epay_config) (orc 1%nat) (env 1%nat d) in
    let record res providerStatus message d :=
      transact (recordPaymentOperation orderID provider op res providerStatus message)
        (orc 2%nat) (env 2%nat d) in
    match paymentProvider_of provider c with
    | Err text =>
        let '(r, d) := record "unconfigured" "" text d in
        (if is_ok r then RError 503 "payment_provider_operation_unconfigured" else internal_error, d)
    | Ok impl =>
      match (match op with OpQuery => QueryPayment impl order | OpClose => ClosePayment impl order end) with
      | Err text =>
          let classification :=
            if bool_decide (text = errProviderOperationUnconfigured) then "unconfigured" else "failed" in
          let '(r, d) := record classification "" text d in
          (if is_ok r
           then RError (if bool_decide (classification = "unconfigured") then 503 else 502)
                  "payment_provider_operation_failed"
           else internal_error, d)
      | Ok result =>
        let '(r, d) := record "succeeded" (pr_Status result) (pr_Message result) d in
        if negb (is_ok r) then (internal_error, d)
        else
          let answer status := RJson 200 [("orderId", JStr orderID); ("provider", JStr provider);
            ("status", JStr status); ("providerStatus", JStr (pr_Status result));
            ("message", JStr (pr_Message result))] in
          match op with
          | OpClose =>
              if bool_decide (pr_Status result = "closed") then
                let '(r, d) := transact (closePending orderID provider (pr_Message result))
                                 (orc 3%nat) (env 3%nat d) in
                (if is_ok r then answer "closed" else internal_error, d)
              else (answer (status_text (p_Status order)), d)
          | OpQuery =>
              let '(_, d) := transact (exec (touch_queried orderID);; defer (refund_order_aligned orderID);; commit) (orc 3%nat) (env 3%nat d) in
              (answer (status_text (p_Status order)), d)
          end
      end
    end
  end.
End operations.
