(* ===== verification/PaymentHistory.v ===== *)
(** * Histories of payment operations

    The transactions of the payment handlers as a step relation on the
    database, with any fault in any of them; what every interleaving of them
    preserves. *)
From S2P Require Import Prelude GoStrings GoValue Domain Money Tx Table Ledger Schema Http.
From S2P Require Import Payments PaymentFacts Posting RefundFacts Orders.
From stdpp Require Import list.
Open Scope string_scope.
Open Scope Z_scope.
Open Scope list_scope.

(** A property that a fault-free run establishes holds after any run. *)
Lemma run_safe strict {D R} (on_err : sqlerr → R) (m : tx D R R) (P : D → Prop) orc d :
  Atomic strict m → P d → P (run on_err m no_faults d).2 → P (run on_err m orc d).2.
Proof.
  intros Hm Hd Hr. destruct (run_atomic strict on_err m orc d Hm) as [->|[[->| ->] _]]; done.
Qed.

(** ** Progress of an order *)
Definition order_path (a b : order_status) : Prop :=
  a = b ∨ ∃ x y, a = OrderSt x ∧ b = OrderSt y ∧ rtc order_step x y.
Definition same_order (o o' : payment_order) : Prop :=
  o_id o' = o_id o ∧ o_user o' = o_user o ∧ o_amount o' = o_amount o ∧ o_provider o' = o_provider o.
Definition advances (d d' : db) : Prop :=
  ∀ o, o ∈ orders (payments d) →
    ∃ o', o' ∈ orders (payments d') ∧ same_order o o' ∧ order_path (o_status o) (o_status o').

#[export] Instance order_path_preorder : PreOrder order_path.
Proof.
  split; [by left|]. intros a b c [->|(x & y & -> & -> & Hxy)]; [done|].
  intros [<-|(y' & z & [= <-] & -> & Hyz)]; right; [by exists x, y|].
  exists x, z. split_and!; [done..|]. by etrans.
Qed.
#[export] Instance advances_preorder : PreOrder advances.
Proof.
  split.
  - intros d o Ho. exists o. by split_and!.
  - intros d1 d2 d3 H12 H23 o Ho. destruct (H12 o Ho) as (o2 & Ho2 & (?&?&?&?) & Hp).
    destruct (H23 o2 Ho2) as (o3 & Ho3 & (?&?&?&?) & Hp'). exists o3.
    unfold same_order. split_and!; [done|congruence..|by etrans].
Qed.
Lemma path_step x y : order_step x y → order_path (OrderSt x) (OrderSt y).
Proof. intros H. right. exists x, y. split_and!; [done..|]. by apply rtc_once. Qed.

(** An update that only moves the status of some orders along the machine. *)
Lemma update_advances d d' p f :
  orders (payments d') = update p f (orders (payments d)) →
  (∀ o, o ∈ orders (payments d) → p o = true → same_order o (f o) ∧ order_path (o_status o) (o_status (f o))) →
  advances d d'.
Proof.
  intros Hor Hf o Ho. exists (if p o then f o else o). rewrite Hor.
  split; [apply elem_of_update; eauto|]. destruct (p o) eqn:E; [by apply Hf|by split].
Qed.

Definition good (d d' : db) : Prop := payments_ok d' ∧ advances d d'.
Lemma good_refl d : payments_ok d → good d d.
Proof. by split. Qed.
Lemma good_frame d d1 d' :
  ledger d' = ledger d1 → payments d' = payments d1 → good d d1 → good d d'.
Proof.
  intros Hl Hp [H1 H2]. split; [by apply (payments_ok_frame d1)|].
  intros o Ho. rewrite Hp. by apply H2.
Qed.

Lemma good_audit d d1 g : good d d1 → good d (upd_audit_logs g d1).
Proof. by apply good_frame. Qed.

(** ** The ledger-moving handlers *)
Section handlers.
Context `{UuidSyntax}.
Implicit Types (rq : request) (d : db).

Lemma same_with_status o s a b c : same_order o (with_status s a b c o).
Proof. done. Qed.
Lemma order_by_id d o o' :
  payments_ok d → o ∈ orders (payments d) → o' ∈ orders (payments d) → order_is (o_id o) o' = true → o' = o.
Proof. intros Hok Ho Ho' Hid%order_is_spec. eapply key_inj; [apply Hok|done..]. Qed.
Lemma settle_good d o w meta at_ ref msg :
  payments_ok d → o ∈ orders (payments d) → o_status o = pending → w ∈ wallets (ledger d) → owns w o →
  in64 (w_balance w + o_amount o) = true → good d (settle o w meta at_ ref msg d).
Proof.
  intros Hok Ho Hs Hw How H64. split; [by apply settle_ok|].
  eapply update_advances; [reflexivity|]. intros o' Ho' Hid.
  rewrite (order_by_id d o o') by done. split; [done|]. rewrite Hs. by apply path_step.
Qed.
Lemma refunded_good rq id reason d o w :
  payments_ok d → o ∈ orders (payments d) → o_status o = paid → w ∈ wallets (ledger d) → owns w o →
  o_amount o <= w_balance w → insertable rq id reason o d = true →
  good d (refunded_db rq id reason o w d).
Proof.
  intros Hok Ho Hs Hw How Hb Hi. split; [by apply refunded_ok|].
  eapply update_advances; [reflexivity|]. intros o' Ho' Hid.
  rewrite (order_by_id d o o') by done. split; [done|]. rewrite Hs.
  transitivity refunding; by apply path_step.
Qed.

Lemma mark_paid_good rq id d :
  payments_ok d → good d (run internalError (markPaymentPaid rq id) no_faults d).2.
Proof.
  intros Hok. rewrite mark_paid_run by done. unfold mark_paid_spec.
  destruct (select_order id d) as [o|[]] eqn:Eo; try by apply good_refl.
  apply select_order_inv in Eo as [Ho _].
  destruct (select_wallet _ _) as [w|] eqn:Ew; [|by apply good_refl].
  apply select_wallet_inv in Ew as [Hw How].
  destruct (bool_decide (o_status o = paid)); [by apply good_refl|].
  destruct (bool_decide (o_status o = pending)) eqn:Es; [|by apply good_refl]. bool_hyps. cbn [negb].
  destruct (in64 _) eqn:E64; [|by apply good_refl].
  apply good_audit. by apply settle_good.
Qed.
Lemma epay_good `{GoRange} `{UnicodeLower} `{Secrets} rq d0 d form :
  payments_ok d → good d (run internalError (epayCallback rq d0 form) no_faults d).2.
Proof.
  intros Hok. destruct form as [form|]; [|by apply good_refl].
  pose proof (epay_cases rq d0 d form Hok) as Hc.
  destruct (run _ _ _ _) as [r d']. destruct Hc as [->|(_ & _ & o & w & Ho & Hs & _ & _ & Hw & How & E64 & ->)].
  - by apply good_refl.
  - by apply settle_good.
Qed.

Lemma refund_spec_good rq id reason d o :
  payments_ok d → o ∈ orders (payments d) → good d (refund_spec rq id o reason d).2.
Proof.
  intros Hok Ho. unfold refund_spec.
  destruct (bool_decide (o_status o = refunded)).
  { destruct (select (refund_of _) _); [|by apply good_refl].
    destruct (select_wallet _ _); by apply good_refl. }
  destruct (bool_decide (o_status o = refunding)); [by apply good_refl|].
  destruct (bool_decide (o_status o = paid)) eqn:Es; [|by apply good_refl]. bool_hyps. cbn [negb].
  unfold refund_paid_spec. destruct (bool_decide (o_provider o = "manual")); [|by apply good_audit, good_refl].
  cbn [negb]. destruct (select_wallet _ _) as [w|] eqn:Ew; [|by apply good_refl].
  apply select_wallet_inv in Ew as [Hw How].
  destruct (w_balance w <? o_amount o) eqn:Eb; [by apply good_audit, good_refl|]. bool_hyps.
  destruct (insertable _ _ _ _ _) eqn:Ei; [|by apply good_refl]. by apply refunded_good.
Qed.
Lemma refund_good rq id orderID reason d :
  payments_ok d → good d (run internalError (refundPayment rq id orderID reason) no_faults d).2.
Proof.
  intros Hok. rewrite refund_request_run by done. unfold refund_request_spec.
  destruct (valid_uuid orderID); [|by apply good_refl]. destruct reason as [reason|]; [|by apply good_refl].
  destruct (_ <? _); [by apply good_refl|].
  destruct (select_order orderID d) as [o|] eqn:Eo; [|by apply good_refl].
  apply select_order_inv in Eo as [Ho _]. by apply refund_spec_good.
Qed.
End handlers.

(** ** Orders that change without the ledger *)
Lemma orders_ok d d' p f :
  payments_ok d → ledger d' = ledger d → refunds (payments d') = refunds (payments d) →
  refund_events (payments d') = refund_events (payments d) →
  orders (payments d') = update p f (orders (payments d)) →
  (∀ o, same_order o (f o)) →
  (∀ o, o ∈ orders (payments d) → p o = true →
     o_status (f o) = o_status o ∨ credited (o_status o) = false ∧ credited (o_status (f o)) = false) →
  payments_ok d'.
Proof.
  intros Hok Hl Hr He Ho Hsame Hst. pose proof Hok as [H1 H2 H3 H4 H5 H6 H7].
  assert (∀ x, same_order x (if p x then f x else x)) as Hs by (intros x; destruct (p x); [apply Hsame|done]).
  constructor; rewrite ?Hl, ?Hr, ?He, ?Ho; try done.
  - rewrite update_column; [done|]. intros x. apply Hsame.
  - intros o (o0 & Ho0 & ->)%elem_of_update. destruct (H4 o0 Ho0) as [Ha Hb Hc Hal].
    destruct (Hs o0) as (S1 & S2 & S3 & S4). set (o := if p o0 then f o0 else o0) in *.
    assert (o_status o = o_status o0 ∨ credited (o_status o0) = false ∧ credited (o_status o) = false) as Hcase.
    { unfold o. destruct (p o0) eqn:Ep; [by apply Hst|by left]. }
    constructor; [by rewrite S3|..].
    + rewrite Hl. intros w Hw How. unfold booked, owns in *. rewrite S1, S3.
      destruct (Hb w Hw) as [Hb1 Hb2]; [congruence|]. rewrite Hb1, Hb2.
      destruct Hcase as [->|[E1 E2]]; [done|]. rewrite E1, E2. split; [done|].
      rewrite !bool_decide_eq_false_2; [done|intros E; by rewrite E in E2|intros E; by rewrite E in E1].
    + rewrite Hl. intros Hcr. destruct Hcase as [E|[_ E]]; [|congruence]. rewrite E in Hcr.
      destruct (Hc Hcr) as (w & Hw & How). exists w. split; [done|]. unfold owns in *. congruence.
    + unfold refund_order_aligned. rewrite Ho, Hr, S1.
      rewrite find_update by (intros x; unfold order_is; by destruct (Hsame x) as [-> _]).
      assert (List.find (order_is (o_id o0)) (orders (payments d)) = Some o0) as E.
      { apply select_find. apply (select_unique o_id); [done|done|by apply order_is_spec|].
        intros o' Ho'. by apply order_is_spec in Ho'. }
      rewrite E. cbn [fmap option_fmap option_map]. fold o.
      unfold refund_order_aligned in Hal. rewrite E in Hal. rewrite S2, S3, S4.
      destruct Hcase as [->|[E1 E2]]; [done|].
      rewrite (pending_no_refund d o0 (H4 o0 Ho0) Ho0 H3 E1).
      by rewrite !bool_decide_eq_false_2 by (intros E'; by rewrite E' in E2).
  - intros e Hein Hp. destruct (H5 e Hein Hp) as (o & w & Ho' & Hw & How & Hre & Hwe).
    destruct (Hs o) as (S1 & S2 & _ & _). exists (if p o then f o else o), w. unfold owns in *.
    split_and!; [apply elem_of_update; eauto|congruence..].
  - intros r Hrin. destruct (H7 r Hrin) as (o & Ho' & Hid). destruct (Hs o) as (S1 & _).
    exists (if p o then f o else o). split; [apply elem_of_update; eauto|congruence].
Qed.

(** A new order: nothing in the ledger refers to its identifier. *)
Lemma insert_order_good id user provider pt amount key d d' :
  payments_ok d → amount <= int64_max →
  insert_order id user provider pt amount key d = Ok d' → good d d'.
Proof.
  intros Hok Hmax. unfold insert_order.
  destruct (negb (exists_row _ (users d))); [done|].
  destruct (negb (exists_row _ (provider_configs _))); [done|].
  destruct (amount <=? 0) eqn:Ea; [done|].
  destruct (exists_row (order_is id) _) eqn:Eid; [done|].
  case_match; [done|]. intros [= <-]. bool_hyps.
  rewrite exists_row_false in Eid. pose proof Hok as [H1 H2 H3 H4 H5 H6 H7].
  assert (∀ o, o ∈ orders (payments d) → o_id o ≠ id) as Hfresh.
  { intros o Ho Hid. specialize (Eid o Ho). unfold order_is in Eid. by bool_hyps. }
  set (o := {| o_id := id; o_user := user; o_provider := provider; o_payment_type := pt;
        o_amount := amount; o_status := pending; o_key := key; o_ref := None;
        o_paid_at := None; o_closed_at := None; o_queried_at := None |}).
  split.
  2: { intros x Hx. exists x. split; [apply elem_of_app; by left|by split]. }
  constructor; cbn [upd_payments payments ledger set_orders orders refunds refund_events]; try done.
  - rewrite fmap_app. apply NoDup_app. split_and!; [done| |apply NoDup_singleton].
    intros i Hi Hn. apply list_elem_of_fmap in Hi as (x & -> & Hx). apply list_elem_of_singleton in Hn.
    by apply (Hfresh x).
  - intros x [Hx| ->%list_elem_of_singleton]%elem_of_app.
    + destruct (H4 x Hx) as [Ha Hb Hc Hal]. constructor; [done..|].
      unfold refund_order_aligned in *. cbn [upd_payments payments set_orders orders refunds].
      rewrite find_app. destruct (List.find (order_is (o_id x)) (orders (payments d))) eqn:E; [done|].
      exfalso. apply list_elem_of_In, (List.find_none _ _ E) in Hx.
      assert (order_is (o_id x) x = true) by (by apply order_is_spec). congruence.
    + constructor; cbn [o o_id o_amount o_status credited pending]; [done| |done|].
      * intros w Hw _. split; cbn [upd_payments ledger o o_id o_status credited pending];
          apply key_fresh; intros e He [= Hwe Hty Href].
        -- destruct (H5 e He) as (y & _ & Hy & _ & _ & Hr & _); [by left|]. apply (Hfresh y Hy). congruence.
        -- destruct (H5 e He) as (y & _ & Hy & _ & _ & Hr & _); [by right|]. apply (Hfresh y Hy). congruence.
      * unfold refund_order_aligned. cbn [upd_payments payments set_orders orders refunds].
        rewrite find_app, find_key_none by done. cbn [List.find order_is o_id]. unfold order_is. cbn [o_id].
        rewrite bool_decide_eq_true_2 by done. rewrite find_key_none; [done|].
        intros r Hr. unfold refund_of. apply bool_decide_eq_false_2. intros Hrf.
        destruct (H7 r Hr) as (y & Hy & Hid). apply (Hfresh y Hy). congruence.
  - intros e He Hp. destruct (H5 e He Hp) as (x & w & Hx & Hrest). exists x, w.
    split; [apply elem_of_app; by left|done].
  - intros r Hr. destruct (H7 r Hr) as (x & Hx & Hid). exists x. split; [apply elem_of_app; by left|done].
Qed.

Section others.
Context `{NetURL} `{GoRange} `{UnicodeLower} `{Secrets} `{ErrorTexts} `{UuidSyntax}.
Implicit Types (rq : request) (d : db).

(** The settings block does not touch the database. *)
Lemma epay_order_settings_wp d1 amount pt (Φ : out response epay_settings → txst db → Prop) d n :
  (∀ o n, Φ o (live d [] n)) → wp (epay_order_settings d1 amount pt) Φ (live d [] n).
Proof.
  intros HΦ. unfold epay_order_settings. repeat tx_step.
  destruct (epay_config d1) as [c|e]; [|apply HΦ]. cbv zeta.
  destruct (List.find _ _); repeat tx_step; try apply HΦ.
  destruct (decrypt _ _); repeat tx_step; apply HΦ.
Qed.
Lemma create_good rq d0 d1 id q d :
  payments_ok d → good d (run internalError (createPaymentOrder rq d0 d1 id q) no_faults d).2.
Proof.
  intros Hok. apply (run_wp internalError _ d (λ x, good d x.2)).
  pose proof (good_refl d Hok) as Hd.
  unfold createPaymentOrder. destruct q as [q|]; [|by apply wp_exit]. cbv zeta.
  tx_step. tx_step; intros; [done|]. bool_hyps. do 3 tx_step.
  destruct (select _ _) as [c|e]; [|by apply wp_exit]. 
  tx_step. tx_step; intros; [done|]. tx_step. tx_step; intros; [done|]. tx_step.
  match goal with |- wp ?m _ _ => 
    assert (∀ (Φ : out response epay_settings → txst db → Prop), (∀ o n, Φ o (live d [] n)) →
      ∀ n, wp m Φ (live d [] n)) as Hset end.
  { intros Φ HΦ n. match goal with |- wp (if ?b then _ else _) _ _ => destruct b end; [by apply epay_order_settings_wp|apply wp_ret, HΦ]. }
  apply Hset. intros [es|e|r] n; [|done|done]. repeat tx_step.
  destruct (select_by_key _ _ d) as [o|e] eqn:Ek.
  { repeat tx_step; try done. }
  apply select_err in Ek as [-> _]. repeat tx_step.
  destruct (insert_order _ _ _ _ _ _ d) as [d'|[]] eqn:Ei; repeat tx_step; try done.
  apply insert_order_good in Ei; [|done|unfold int64_max; lia].
  destruct (forallb _ _); [|done]. repeat tx_step.
  match goal with |- wp (if ?b then _ else _) _ _ => destruct b end; [|by repeat tx_step].
  destruct (buildEPayCheckoutURL _ _ _); by repeat tx_step.
Qed.
Lemma record_good rq id provider op res ps msg d :
  payments_ok d → good d (transact (recordPaymentOperation rq id provider op res ps msg) no_faults d).2.
Proof.
  intros Hok. apply (run_wp Err _ d (λ x, good d x.2)). unfold recordPaymentOperation.
  repeat tx_step. unfold insert_provider_operation.
  repeat match goal with |- context [if ?b then Err _ else _] => destruct b; [by apply good_refl|] end. repeat tx_step. unfold audit. repeat tx_step.
  apply good_audit. destruct (good_refl d Hok) as [_ Ha]. split; [|done].
  apply (orders_ok d _ (λ _, false) (λ o, o)); try done.
  cbn. symmetry. by apply update_none.
Qed.
Lemma touch_good rq id d :
  payments_ok d →
  good d (transact (exec (touch_queried rq id);; defer (refund_order_aligned id);; commit) no_faults d).2.
Proof.
  intros Hok. apply (run_wp Err _ d (λ x, good d x.2)). repeat tx_step.
  unfold touch_queried at 1. repeat tx_step. destruct (forallb _ _); [|by apply good_refl].
  repeat tx_step. split.
  - eapply (orders_ok d _ (order_is id)); [done|reflexivity..| |]; [done|by left].
  - eapply update_advances; [reflexivity|]. intros o Ho _. split; [done|reflexivity].
Qed.
Lemma close_good rq id provider msg d :
  payments_ok d → good d (transact (closePending rq id provider msg) no_faults d).2.
Proof.
  intros Hok. apply (run_wp Err _ d (λ x, good d x.2)). unfold closePending. repeat tx_step.
  destruct (select_order id d) as [o|[]] eqn:Eo; try by apply good_refl. repeat tx_step.
  destruct (bool_decide (o_status o = pending)) eqn:Es; [|repeat tx_step; by apply good_refl].
  bool_hyps. apply select_order_inv in Eo as [Ho <-]. unfold on_payments. repeat tx_step.
  cbn [update_order]. repeat tx_step. unfold insert_order_event, audit. repeat tx_step.
  destruct (forallb _ _); [|by apply good_refl]. repeat tx_step. apply good_audit. split.
  - eapply (orders_ok d _ (order_is (o_id o))); [done|reflexivity..| |]; [done|].
    intros o' Ho' Hid. rewrite (order_by_id d o o') by done. right. by rewrite Es.
  - eapply update_advances; [reflexivity|]. intros o' Ho' Hid. rewrite (order_by_id d o o') by done.
    split; [done|]. rewrite Es. by apply path_step.
Qed.

(** ** Every interleaving

    One step is one transaction of a payment handler, with any fault. *)
Inductive payment_step : db → db → Prop :=
  | step_mark rq id orc d :
      payment_step d (run internalError (markPaymentPaid rq id) orc d).2
  | step_callback rq d0 form orc d :
      payment_step d (run internalError (epayCallback rq d0 form) orc d).2
  | step_refund rq id orderID reason orc d :
      payment_step d (run internalError (refundPayment rq id orderID reason) orc d).2
  | step_create rq d0 d1 id q orc d :
      payment_step d (run internalError (createPaymentOrder rq d0 d1 id q) orc d).2
  | step_record rq id provider op res ps msg orc d :
      payment_step d (transact (recordPaymentOperation rq id provider op res ps msg) orc d).2
  | step_close rq id provider msg orc d :
      payment_step d (transact (closePending rq id provider msg) orc d).2
  | step_touch rq id orc d :
      payment_step d (transact (exec (touch_queried rq id);; defer (refund_order_aligned id);; commit) orc d).2.

Lemma payment_step_good d d' : payments_ok d → payment_step d d' → good d d'.
Proof.
  intros Hok Hst.
  destruct Hst; pose proof (good_refl d Hok);
    (eapply (run_safe false _ _ (good d)); [unfold markPaymentPaid, epayCallback, refundPayment,
      createPaymentOrder, epay_order_settings, recordPaymentOperation, closePending; cbv zeta; apply _|done|]).
  - by apply mark_paid_good.
  - by apply epay_good.
  - by apply refund_good.
  - by apply create_good.
  - by apply record_good.
  - by apply close_good.
  - by apply touch_good.
Qed.

(** C1: whatever transactions of the payment handlers run, in whatever order
    and with whatever faults, the invariant is kept (every paid order is
    credited exactly once, every refunded one debited exactly once, no other
    one at all, and every balance is the sum of its entries), no order
    disappears or changes its owner, amount or provider, and its status moves
    along [ValidateOrderTransition] only. *)
Theorem payments_history d d' :
  payments_ok d → rtc payment_step d d' → payments_ok d' ∧ advances d d'.
Proof.
  intros Hok Hst. induction Hst as [d|d1 d2 d3 Hst _ IH]; [by split|].
  destruct (payment_step_good d1 d2 Hok Hst) as [Hok2 Ha]. destruct (IH Hok2) as [Hok3 Ha'].
  split; [done|]. by etrans.
Qed.
End others.

(** ** Idempotency of creation *)
Section idempotent.
Context `{NetURL} `{GoRange} `{UnicodeLower} `{Secrets}.
Context (rq : request) (d0 d1 : db).

(** The order of an idempotency key, once it is created. *)
Lemma insert_order_select id user provider pt amount key d d' :
  select_by_key user key d = Err NoRows → insert_order id user provider pt amount key d = Ok d' →
  ∃ o, select_by_key user key d' = Ok o ∧ o_id o = id ∧ o_provider o = provider ∧
    o_payment_type o = pt ∧ o_amount o = amount ∧ o_status o = pending.
Proof.
  unfold select_by_key, insert_order. intros [_ Hno]%select_err.
  repeat match goal with |- context [if ?b then Err _ else _] => destruct b; [done|] end.
  intros [= <-]. eexists. split.
  - apply select_find. cbn [upd_payments payments set_orders orders]. rewrite find_app, find_key_none by done.
    cbn. by rewrite !bool_decide_eq_true_2 by done.
  - done.
Qed.

Lemma insert_order_rows id user provider pt amount key d d' :
  insert_order id user provider pt amount key d = Ok d' →
  ∃ o, orders (payments d') = orders (payments d) ++ [o] ∧ o_id o = id ∧ o_status o = pending ∧ o_user o = user.
Proof.
  unfold insert_order.
  repeat match goal with |- context [if ?b then Err _ else _] => destruct b; [done|] end.
  intros [= <-]. by eexists.
Qed.
(** The settings only depend on the database they are read from. *)
Lemma epay_order_settings_run amount pt :
  ∃ o, (∀ d n, epay_order_settings d1 amount pt no_faults (live d [] n) = (o, live d [] (S n))) ∧
    match o with Exit r => status_of r ≠ 201 | _ => True end.
Proof.
  unfold epay_order_settings, mbind, tx_bind, pool. cbn.
  destruct (epay_config d1) as [c|e]; [|by eexists].
  destruct (List.find _ _) as [m|]; [|by eexists]. unfold guard_exit.
  destruct (_ <? _); [by eexists|]. cbn. destruct (_ || _); [by eexists|]. cbn.
  destruct (decrypt _ _); by eexists.
Qed.
Lemma order_settings_run provider amount pt :
  ∃ o k, (∀ d n, (if bool_decide (provider = "epay") then epay_order_settings d1 amount pt
               else mret no_settings) no_faults (live d [] n) = (o, live d [] (k + n))) ∧
    match o with Exit r => status_of r ≠ 201 | _ => True end.
Proof.
  case_bool_decide.
  - destruct (epay_order_settings_run amount pt) as (o & Ho & Hr). by exists o, 1%nat.
  - by exists (Val no_settings), 0%nat.
Qed.
Lemma wp_det {D R A} (m : tx D R A) (Φ : out R A → txst D → Prop) s o s' :
  m no_faults s = (o, s') → Φ o s' → wp m Φ s.
Proof. unfold wp. by intros ->. Qed.

(** The order a creation inserts for the customer. *)
Definition created_order (id : string) (d d' : db) : Prop :=
  ∃ o, orders (payments d') = orders (payments d) ++ [o] ∧ o_id o = id ∧ o_status o = pending ∧
       o_user o = principal rq.
(** C6: a creation that answers 201 has inserted one pending order; the same
    request again (a retry of the client, with a new identifier) answers 200
    with the identifier of that order and changes nothing. *)
Theorem createPaymentOrder_idempotent id id' q d r d' :
  run internalError (createPaymentOrder rq d0 d1 id q) no_faults d = (r, d') → status_of r = 201 →
  created_order id d d' ∧
  ∃ rest, run internalError (createPaymentOrder rq d0 d1 id' q) no_faults d' =
    (RJson 200 ([("orderId", JStr id)] ++ rest), d').
Proof.
  intros Hrun. revert Hrun.
  apply (run_wp internalError (createPaymentOrder rq d0 d1 id q) d (λ x, x = (r, d') → status_of r = 201 → _)).
  unfold createPaymentOrder at 1. destruct q as [q|]; [|tx_step; by injection 1 as <- <-]. cbv zeta.
  tx_step. apply wp_guard; intros Hg1; [by injection 1 as <- <-|]. do 3 tx_step.
  destruct (select _ (provider_configs (payments d0))) as [c|e] eqn:Ec; [|tx_step; by injection 1 as <- <-].
  tx_step. apply wp_guard; intros Hg2; [by injection 1 as <- <-|]. tx_step. apply wp_guard; intros Hg3; [by injection 1 as <- <-|].
  tx_step. destruct (order_settings_run (if bool_decide (trim_space (q_Provider q) = "") then "manual"
      else trim_space (q_Provider q)) (q_AmountCents q) (q_PaymentType q)) as (o & k & Hset & Hx).
  eapply wp_det; [apply Hset|]. destruct o as [es|e|x]; [|by injection 1 as <- <-|].
  2: { by injection 1 as <- <-. }
  repeat tx_step.
  destruct (select_by_key (principal rq) (trim_space (q_IdempotencyKey q)) d) as [o|e] eqn:Ek.
  { do 2 tx_step. repeat tx_step; try by injection 1 as <- <-. }
  apply select_err in Ek as Hn. destruct Hn as [-> _]. repeat tx_step.
  destruct (insert_order id _ _ _ _ _ d) as [d2|e] eqn:Ei; [|destruct e; by injection 1 as <- <-].
  repeat tx_step. destruct (forallb _ _); [|by injection 1 as <- <-]. tx_step.
  assert ((∃ o, orders (payments d2) = orders (payments d) ++ [o] ∧ o_id o = id ∧ o_status o = pending ∧
      o_user o = principal rq) ∧
    ∃ rest, run internalError (createPaymentOrder rq d0 d1 id' (Some q)) no_faults d2 =
      (RJson 200 ([("orderId", JStr id)] ++ rest), d2)) as Hdone.
  { split; [by eapply insert_order_rows|].
    destruct (insert_order_select _ _ _ _ _ _ _ _ Ek Ei) as (o & Ho & Hid & Hpr & Hpt & Ham & _).
    eexists. apply (run_wp internalError _ d2 (λ x, x = _)). unfold createPaymentOrder.
    cbv zeta. tx_pass; [done|]. do 3 tx_step. rewrite Ec. tx_pass; [done|]. tx_pass; [done|].
    tx_step. eapply wp_det; [apply Hset|]. cbv iota beta. repeat tx_step. rewrite Ho. do 2 tx_step.
    tx_pass; [by rewrite Hpr, Hpt, Ham, !bool_decide_eq_true_2, Z.eqb_refl by done|].
    do 2 tx_step. cbn [forallb]. tx_step. unfold finish. cbn [committed ended default]. 
    by rewrite Hid. }
  match goal with |- wp (if ?b then _ else _) _ _ => destruct b end; [destruct (buildEPayCheckoutURL _ _ _)|];
    repeat tx_step; by injection 1 as <- <-.
Qed.

End idempotent.

(** ** Closing an order that is settled meanwhile *)
Section close.
Context `{NetURL} `{GoRange} `{UnicodeLower} `{Secrets} `{ErrorTexts} `{UuidSyntax}.
Context (rq : request).

Definition closed_answer (id : string) : response :=
  RJson 200 [("orderId", JStr id); ("provider", JStr "manual"); ("status", JStr "closed");
             ("providerStatus", JStr "closed"); ("message", JStr "manual order closed")].
(** The operation is recorded: the order and its provider exist. *)
Definition recordable (id provider : string) (d : db) : bool :=
  exists_row (order_is id) (orders (payments d)) &&
  exists_row (λ c, bool_decide (pc_provider c = provider)) (provider_configs (payments d)).
Definition recorded (id provider : string) (d : db) : db :=
  (transact (recordPaymentOperation rq id provider OpClose "succeeded" "closed" "manual order closed") no_faults d).2.
Lemma record_run id provider d :
  recordable id provider d = true →
  transact (recordPaymentOperation rq id provider OpClose "succeeded" "closed" "manual order closed") no_faults d =
    (Ok tt, recorded id provider d).
Proof.
  intros [Ho Hc]%andb_true_iff. unfold recorded.
  assert ((transact (recordPaymentOperation rq id provider OpClose "succeeded" "closed" "manual order closed")
    no_faults d).1 = Ok tt) as E.
  { apply (run_wp Err _ d (λ x, x.1 = _)). unfold recordPaymentOperation. repeat tx_step.
    unfold insert_provider_operation. cbn [po_order po_provider po_operation po_result]. rewrite Ho, Hc. cbn [negb].
    rewrite !bool_decide_eq_true_2 by (cbn; set_solver). cbn [negb]. repeat tx_step. unfold audit. by repeat tx_step. }
  destruct (transact _ _ _) as [a d']. cbn in *. by subst.
Qed.
(** The closing transaction leaves an order alone that is not pending. *)
Lemma close_settled_run id provider msg d o :
  select_order id d = Ok o → o_status o ≠ pending →
  transact (closePending rq id provider msg) no_faults d = (Ok tt, d).
Proof.
  intros Ho Hs. apply (run_wp Err _ d (λ x, x = _)). unfold closePending. repeat tx_step. rewrite Ho. repeat tx_step.
  rewrite bool_decide_eq_false_2 by done. by repeat tx_step.
Qed.

(** C7: a close request for a pending manual order races with other requests
    ([env k] before its [k]-th access to the database): when one of them has
    settled the order (or refunded it since) by the time the closing transaction
    begins, this one changes nothing, so the order stays as it is; but the
    handler still answers that the order is closed ([order.Status = "closed"] is
    not conditional). *)
Theorem paymentOperation_close_race env id d o o3 :
  select_order id (env 0%nat d) = Ok o → o_provider o = "manual" → o_status o = pending →
  let d2 := env 2%nat (env 1%nat (env 0%nat d)) in
  recordable id "manual" d2 = true →
  let d3 := env 3%nat (recorded id "manual" d2) in
  select_order id d3 = Ok o3 → o_status o3 ≠ pending →
  paymentOperation rq env (λ _, no_faults) id OpClose d = (closed_answer id, d3).
Proof.
  intros Ho Hp Hs d2 Hr d3 Hsel3 Hs3. unfold paymentOperation.
  assert (transact (query (select_order id)) no_faults (env 0%nat d) = (Ok o, env 0%nat d)) as ->.
  { apply (run_wp Err _ _ (λ x, x = _)). repeat tx_step. rewrite Ho. by repeat tx_step. }
  cbv beta iota.
  assert (∃ c, transact (query epay_config) no_faults (env 1%nat (env 0%nat d)) = (c, env 1%nat (env 0%nat d))) as [c ->].
  { set (e0 := env 1%nat (env 0%nat d)).
    assert ((transact (query epay_config) no_faults e0).2 = e0) as E.
    { apply (run_wp Err _ e0 (λ x, x.2 = _)). repeat tx_step. destruct (epay_config e0) as [c|[]]; by repeat tx_step. }
    destruct (transact _ _ e0) as [c d']. cbn in E. subst d'. by exists c. }
  cbv beta iota zeta. rewrite Hp. unfold paymentProvider_of. rewrite bool_decide_eq_true_2 by done.
  unfold ClosePayment. cbn [p_Status]. rewrite Hs, bool_decide_eq_false_2, bool_decide_eq_true_2 by done. cbn [negb].
  cbn [pr_Status pr_Message]. fold d2. rewrite record_run by done. cbn [is_ok negb].
  rewrite bool_decide_eq_true_2 by done. fold d3. by rewrite (close_settled_run id "manual" "manual order closed" d3 o3).
Qed.
End close.

(** ** Concrete runs *)
Definition no_url : NetURL :=
  {| parse_url := λ _, None; url_query := λ _, ∅; render_url := λ _ _, "" |}.
Definition no_texts : ErrorTexts := {| error_text := λ _, ""; decrypt_error := "" |}.
Section runs.
#[local] Existing Instances no_url no_texts map_order AsciiLower Sample.plain_secrets Sample.any_uuid.

Definition manual_request : order_request :=
  {| q_AmountCents := 500; q_Provider := ""; q_PaymentType := ""; q_IdempotencyKey := "k-9" |}.
Definition customer_rq : request :=
  {| principal := "u-1"; actor := None; request_id := "r-2"; now := 8; origin := "https://c.example" |}.
Definition sample_create (id : string) (d : db) : response * db :=
  run internalError (createPaymentOrder customer_rq d d id (Some manual_request)) no_faults d.
Lemma createPaymentOrder_idempotent_witness :
  ∃ rest, run internalError (createPaymentOrder customer_rq Sample.db1 Sample.db1 "o-5" (Some manual_request))
    no_faults (sample_create "o-4" Sample.db1).2 =
    (RJson 200 ([("orderId", JStr "o-4")] ++ rest), (sample_create "o-4" Sample.db1).2).
Proof.
  apply (createPaymentOrder_idempotent customer_rq Sample.db1 Sample.db1 "o-4" "o-5" (Some manual_request)
    Sample.db1 (sample_create "o-4" Sample.db1).1).
  - by vm_compute.
  - by vm_compute.
Defined.

Lemma payments_history_witness :
  ∃ d, rtc payment_step Sample.db1 d ∧ payments_ok d ∧ next_entry (ledger d) = 4.
Proof.
  set (d1 := (run internalError (markPaymentPaid Sample.rq "o-2") no_faults Sample.db1).2).
  set (d2 := (run internalError (refundPayment Sample.rq "rf-1" "o-3" (Some "")) no_faults d1).2).
  assert (rtc payment_step Sample.db1 d2) as Hr.
  { eapply rtc_l; [apply step_mark|]. eapply rtc_l; [apply step_refund|]. constructor. }
  exists d2. split_and!; [done| |by vm_compute].
  apply (payments_history Sample.db1 d2 Sample.db1_ok Hr).
Defined.

(** Another administrator settles the order between the operations of a
    close. *)
Definition settled_meanwhile (k : nat) (d : db) : db :=
  if (k =? 3)%nat then (run internalError (markPaymentPaid Sample.rq "o-2") no_faults d).2 else d.

(** The order after the settlement. *)
Definition settled_order : payment_order := with_status paid (Some 7) None None (Sample.order "o-2" "manual" 300 "k-2").
Lemma paymentOperation_close_race_witness :
  let d3 := settled_meanwhile 3 (recorded Sample.rq "o-2" "manual" Sample.db1) in
  paymentOperation Sample.rq settled_meanwhile (λ _, no_faults) "o-2" OpClose Sample.db1 = (closed_answer "o-2", d3) ∧
  o_status <$> List.find (order_is "o-2") (orders (payments d3)) = Some paid.
Proof.
  cbv zeta. split; [|by vm_compute].
  apply (paymentOperation_close_race Sample.rq settled_meanwhile "o-2" Sample.db1
    (Sample.order "o-2" "manual" 300 "k-2") settled_order); [by vm_compute..|done].
Defined.
End runs.
