(* ===== verification/Accounts.v ===== *)
(** * Wallet adjustments, check-ins, invitations and credits

    The handlers that move money or credit of a single account:
    [adjustWallet] (internal/httpapi/server.go), daily check-ins
    (checkin_features.go), invitations (invite_features.go), credit grants
    (credit_features.go) and the reserve an account needs to start an
    application (startup_balance.go).  Tables of migrations 44, 69, 87 and
    113. *)
From S2P Require Import Prelude GoStrings GoTime Crypto Tx Table Ledger Schema Http.
From stdpp Require Import list.
Open Scope string_scope.
Open Scope Z_scope.
Open Scope list_scope.

Definition program := tx db response.

(** SELECT ... FROM wallets WHERE user_id=$1 for a user taken from the path. *)
Definition select_wallet_of `{UuidSyntax} (user : string) (d : db) : result sqlerr wallet :=
  if valid_uuid user then select_wallet user (ledger d)
  else Err (Constraint "invalid input syntax for type uuid").

(** ** Adjustment of a wallet by an administrator *)
Record adjustment := { adj_AmountCents : Z; adj_BusinessRef : string; adj_Note : string }.
Definition adjustWallet `{UuidSyntax} (rq : request) (userID : string) (q : option adjustment) :
    program response :=
  match q with
  | None => exit (RError 400 "invalid_request")
  | Some q =>
    let amount := adj_AmountCents q in
    let ref := trim_space (adj_BusinessRef q) in
    let note := trim_space (adj_Note q) in
    guard_exit ((amount =? 0) || bool_decide (ref = "") || (128 <? slen ref))
      (RError 400 "validation_failed");;
    begin_tx;;
    w ← on_no_rows (query (select_wallet_of userID)) (exit (RError 404 "user_not_found"));
    let newBalance := wrap64 (w_balance w + amount) in
    guard_exit (newBalance <? 0) (RError 409 "insufficient_balance");;
    existing ← optional (query (λ d, select_entry (w_id w) "adjustment" ref (ledger d)));
    match existing with
    | Some e =>
        guard_exit (negb (e_amount e =? amount)) (RError 409 "idempotency_conflict");;
        commit;;
        mret (RJson 200 [("entryId", JInt (e_id e)); ("balanceCents", JInt (w_balance w));
                         ("version", JInt (w_version w)); ("idempotent", JBool true)])
    | None =>
        entryID ← stmt (on_ledger (insert_entry (w_id w) "adjustment" ref amount newBalance
                          [("note", JStr note); ("actor_user_id", JStr (principal rq))]));
        exec (on_ledger_ (update_wallets (λ w', is_wallet (w_id w) w' && (w_balance w' =? w_balance w))
                            (λ _, newBalance)));;
        exec (audit {| au_actor := Some (principal rq); au_subject := Some userID;
                       au_action := "wallet.adjustment"; au_rtype := "wallet"; au_rid := userID;
                       au_request := request_id rq;
                       au_meta := [("amount_cents", JInt amount); ("business_ref", JStr ref);
                                   ("entry_id", JInt entryID)] |});;
        commit;;
        mret (RJson 200 [("entryId", JInt entryID); ("balanceCents", JInt newBalance);
                         ("version", JInt (wrap64 (w_version w + 1)))])
    end
  end.

(** ** Daily check-in

    China has had no daylight saving time since 1991: the location
    Asia/Shanghai is UTC+8. *)
Definition checkinDate (now : timestamp) : string := format_date (now + 8 * hour).

(** [draw span] is the result of [rand.Int(rand.Reader, span)], a number below
    [span], or an error. *)
Definition secureReward (draw : Z → option Z) (minimum maximum : Z) : option Z :=
  if (minimum <? 0) || (maximum <? minimum) then None
  else
    let span := wrap64 (wrap64 (maximum - minimum) + 1) in
    value ← draw span;
    Some (wrap64 (minimum + value)).

Definition insert_checkin (row : checkin) (d : db) : result sqlerr db :=
  if exists_row (λ c, bool_decide (ck_user c = ck_user row) && bool_decide (ck_date c = ck_date row))
       (checkins d)
  then Err (Constraint "daily_checkins_user_id_checkin_date_key")
  else if negb ((0 <=? ck_reward row) && (ck_reward row <=? 10000))
  then Err (Constraint "daily_checkins_reward_cents_check")
  else if exists_row (λ c, ck_entry c =? ck_entry row) (checkins d)
  then Err (Constraint "daily_checkins_wallet_ledger_entry_id_key")
  else Ok (upd_checkins (λ t, t ++ [row]) d).

Definition performCheckin (rq : request) (draw : Z → option Z) : program response :=
  let today := checkinDate (now rq) in
  begin_tx;;
  settings ← query (λ d, Ok (checkin_settings d));
  let '(enabled, minimum, maximum) := settings in
  guard_exit (negb enabled) (RError 409 "checkin_disabled");;
  w ← query (λ d, select_wallet (principal rq) (ledger d));
  existing ← optional (query (λ d, select (λ c, bool_decide (ck_user c = principal rq)
                                               && bool_decide (ck_date c = today)) (checkins d)));
  match existing with
  | Some c =>
      commit;;
      mret (RJson 200 [("rewardCents", JInt (ck_reward c)); ("balanceCents", JInt (w_balance w));
                       ("checkedDate", JStr today); ("idempotent", JBool true)])
  | None =>
      match secureReward draw minimum maximum with
      | None => exit internal_error
      | Some reward =>
          let newBalance := wrap64 (w_balance w + reward) in
          entryID ← stmt (on_ledger (insert_entry (w_id w) "checkin_reward" ("checkin/" ^+ today)%string
                            reward newBalance
                            [("checkin_date", JStr today); ("timezone", JStr "Asia/Shanghai");
                             ("minimum_cents", JInt minimum); ("maximum_cents", JInt maximum)]));
          exec (on_ledger_ (update_wallets (λ w', is_wallet (w_id w) w' && (w_version w' =? w_version w))
                              (λ _, newBalance)));;
          exec (insert_checkin {| ck_user := principal rq; ck_date := today; ck_reward := reward;
                                  ck_entry := entryID |});;
          commit;;
          mret (RJson 201 [("rewardCents", JInt reward); ("balanceCents", JInt newBalance);
                           ("checkedDate", JStr today); ("idempotent", JBool false)])
      end
  end.

Definition updateCheckinSettings (rq : request) (q : option (bool * Z * Z)) : program response :=
  match q with
  | None => exit (RError 400 "invalid_request")
  | Some (enabled, minimum, maximum) =>
    guard_exit ((minimum <? 1) || (maximum <? minimum) || (10000 <? maximum))
      (RError 400 "validation_failed");;
    begin_tx;;
    exec (λ d, Ok (upd_checkin_settings (λ _, (enabled, minimum, maximum)) d));;
    exec (audit {| au_actor := Some (principal rq); au_subject := Some (principal rq);
                   au_action := "checkin.settings.update"; au_rtype := "daily_checkin_settings";
                   au_rid := "singleton"; au_request := request_id rq;
                   au_meta := [("enabled", JBool enabled); ("min_reward_cents", JInt minimum);
                               ("max_reward_cents", JInt maximum)] |});;
    commit;;
    mret (RJson 200 [("enabled", JBool enabled); ("minRewardCents", JInt minimum);
                     ("maxRewardCents", JInt maximum)])
  end.

(** ** Invitations *)
Definition insert_invite (row : invite) (d : db) : result sqlerr db :=
  if exists_row (λ i, bool_decide (iv_id i = iv_id row) || bool_decide (iv_code i = iv_code row)) (invites d)
  then Err (Constraint "user_invites_code_key")
  else Ok (upd_invites (λ t, t ++ [row]) d).
(** [raw]: the bytes read from [rand.Reader]; [id] the generated identifier.
    The reads and the insert are statements of their own. *)
Definition createInvite (rq : request) (id : string) (raw : option (list Z)) : program response :=
  match raw with
  | None => exit internal_error
  | Some raw =>
    let code := hex_encode raw in
    reward ← query (λ d, Ok (invite_reward_cents d));
    exec (insert_invite {| iv_id := id; iv_inviter := principal rq; iv_code := code; iv_invited := None;
                           iv_reward := reward; iv_rewarded := None |});;
    commit;;
    mret (RJson 201 [("code", JStr code); ("rewardCents", JInt reward)])
  end.

(** UPDATE user_invites SET invited_user_id=$1,rewarded_at=now() WHERE id=$2
    AND invited_user_id IS NULL; [invited_user_id] is UNIQUE. *)
Definition redeem_row (invited : string) (at_ : timestamp) (id : string) (d : db) : result sqlerr db :=
  let hit i := bool_decide (iv_id i = id) && bool_decide (iv_invited i = None) in
  if exists_row hit (invites d) && exists_row (λ i, bool_decide (iv_invited i = Some invited)) (invites d)
  then Err (Constraint "user_invites_invited_user_id_key")
  else Ok (upd_invites (update hit (λ i, {| iv_id := iv_id i; iv_inviter := iv_inviter i;
         iv_code := iv_code i; iv_invited := Some invited; iv_reward := iv_reward i;
         iv_rewarded := Some at_ |})) d).
Definition redeemInvite `{UnicodeLower} (rq : request) (code : option string) : program response :=
  match code with
  | None => exit (RError 400 "invalid_request")
  | Some code =>
    let code := to_lower (trim_space code) in
    guard_exit (negb (slen code =? 24)) (RError 400 "validation_failed");;
    begin_tx;;
    i ← on_no_rows (query (λ d, select (λ i, bool_decide (iv_code i = code)
                                            && bool_decide (iv_invited i = None)) (invites d)))
          (exit (RError 404 "invite_not_found"));
    guard_exit (bool_decide (iv_inviter i = principal rq)) (RError 400 "invite_self");;
    already ← query (λ d, Ok (exists_row (λ i, bool_decide (iv_invited i = Some (principal rq))) (invites d)));
    guard_exit already (RError 409 "invite_already_redeemed");;
    w ← query (λ d, select_wallet (iv_inviter i) (ledger d));
    let reward := iv_reward i in
    (if 0 <? reward then
       stmt (on_ledger (insert_entry (w_id w) "grant" ("invite/" ^+ iv_id i)%string reward
               (wrap64 (w_balance w + reward))
               [("source", JStr "invite"); ("invited_user_id", JStr (principal rq))]));;
       exec (on_ledger_ (add_balance reward (w_id w)))
     else mret tt);;
    exec (redeem_row (principal rq) (now rq) (iv_id i));;
    exec (audit {| au_actor := Some (principal rq); au_subject := Some (iv_inviter i);
                   au_action := "invite.reward"; au_rtype := "user_invite"; au_rid := iv_id i;
                   au_request := request_id rq;
                   au_meta := [("reward_cents", JInt reward); ("invited_user_id", JStr (principal rq))] |});;
    commit;;
    mret (RJson 200 [("rewardCents", JInt reward); ("rewardedUserId", JStr (iv_inviter i))])
  end.

(** ** Credit grants *)
Record credit_request := {
  cr_AmountCents : Z; cr_BusinessRef : string; cr_Note : string;
  cr_ExpiresAt : option Z (* nanoseconds *)
}.
Definition sameOptionalTime (a b : option timestamp) : bool :=
  match a, b with
  | Some a, Some b => a =? b
  | None, None => true
  | _, _ => false
  end.
Definition insert_grant (row : credit_grant) (d : db) : result sqlerr db :=
  if exists_row (λ g, bool_decide (cg_id g = cg_id row)
                      || bool_decide (cg_user g = cg_user row) && bool_decide (cg_ref g = cg_ref row))
       (grants (credits d))
  then Err (Constraint "credit_grants_user_id_business_ref_key")
  else if negb (0 <? cg_amount row) then Err (Constraint "credit_grants_amount_cents_check")
  else if negb ((0 <=? cg_remaining row) && (cg_remaining row <=? cg_amount row))
  then Err (Constraint "credit_grants_remaining_cents_check")
  else Ok (upd_credits (λ t, set_grants (grants t ++ [row]) t) d).
Definition select_user_of `{UuidSyntax} (user : string) (d : db) : result sqlerr user_row :=
  if valid_uuid user then select_active_user user d
  else Err (Constraint "invalid input syntax for type uuid").

Definition grantCredit `{UuidSyntax} (rq : request) (id userID : string) (q : option credit_request) :
    program response :=
  match q with
  | None => exit (RError 400 "invalid_request")
  | Some q =>
    let amount := cr_AmountCents q in
    let ref := trim_space (cr_BusinessRef q) in
    let note := trim_space (cr_Note q) in
    guard_exit ((amount <=? 0) || (1000000000000 <? amount) || bool_decide (ref = "")
                || has_prefix ref "subscription-credit/" || (128 <? slen ref) || (500 <? slen note))
      (RError 400 "validation_failed");;
    guard_exit (match cr_ExpiresAt q with Some t => negb (1000 * now rq <? t) | None => false end)
      (RError 400 "validation_failed");;
    let expires := (λ t, t / 1000) <$> cr_ExpiresAt q in
    begin_tx;;
    _ ← on_no_rows (query (select_user_of userID)) (exit (RError 404 "user_not_found"));
    existing ← optional (query (λ d, select (λ g, bool_decide (cg_user g = userID)
                                                 && bool_decide (cg_ref g = ref)) (grants (credits d))));
    match existing with
    | Some g =>
        guard_exit (negb (cg_amount g =? amount) || negb (bool_decide (cg_note g = note))
                    || negb (sameOptionalTime (cg_expires g) expires)) (RError 409 "idempotency_conflict");;
        commit;;
        mret (RJson 200 [("id", JStr (cg_id g)); ("amountCents", JInt (cg_amount g));
                         ("idempotent", JBool true)])
    | None =>
        exec (insert_grant {| cg_id := id; cg_user := userID; cg_amount := amount; cg_remaining := amount;
                              cg_ref := ref; cg_note := note; cg_expires := expires;
                              cg_by_ := Some (principal rq); cg_created := now rq |});;
        exec (audit {| au_actor := Some (principal rq); au_subject := Some userID;
                       au_action := "credit.grant"; au_rtype := "credit_grant"; au_rid := id;
                       au_request := request_id rq;
                       au_meta := [("amount_cents", JInt amount); ("business_ref", JStr ref);
                                   ("expires_at", match expires with Some t => JInt t | None => JNull end)] |});;
        commit;;
        mret (RJson 201 [("id", JStr id); ("amountCents", JInt amount); ("remainingCents", JInt amount)])
    end
  end.

(** ** The startup reserve *)
Record startupBalanceError := { AvailableCents : Z; RequiredCents : Z }.
(** The grants that can be spent at [at_]. *)
Definition spendable (user : string) (at_ : timestamp) (g : credit_grant) : bool :=
  bool_decide (cg_user g = user) && (0 <? cg_remaining g)
  && match cg_expires g with Some e => at_ <? e | None => true end.
Definition credit_available (user : string) (at_ : timestamp) (d : db) : Z :=
  sumZ (cg_remaining <$> List.filter (spendable user at_) (grants (credits d))).
(** The balance, the credit and the reserve of one query. *)
Definition startup_row (user : string) (at_ : timestamp) (d : db) : result sqlerr (Z * Z * Z) :=
  let wallet := match select_wallet user (ledger d) with Ok w => w_balance w | Err _ => 0 end in
  let credit := credit_available user at_ d in
  if in64 credit then Ok (wallet, credit, startup_balance_reserve_cents d) else Err OutOfRange.
Definition startup_shortage (row : Z * Z * Z) : option startupBalanceError :=
  let '(walletCents, creditCents, reserveCents) := row in
  let available := wrap64 (walletCents + creditCents) in
  if available <? reserveCents
  then Some {| AvailableCents := available; RequiredCents := reserveCents |} else None.
Definition enforceMinimumStartupBalance (user : string) (at_ : timestamp) :
    tx db response (option startupBalanceError) :=
  row ← query (startup_row user at_); mret (startup_shortage row).
