(* ===== verification/AccountFacts.v ===== *)
(** * Correctness of the account handlers

    Functional behaviour of adjustments, check-ins, invitations and credit
    grants, and that each of them keeps the books of [PaymentFacts]. *)
From S2P Require Import Prelude GoStrings GoTime Domain Money Tx Table Ledger Schema Http.
From S2P Require Import Payments PaymentFacts Posting Accounts.
From stdpp Require Import list.
Open Scope string_scope.
Open Scope Z_scope.
Open Scope list_scope.

(** A sum that does not wrap below zero did not overflow. *)
Lemma wrap64_add_nonneg a b :
  0 <= a <= int64_max → is_int64 b → 0 <= wrap64 (a + b) → in64 (a + b) = true ∧ 0 <= a + b.
Proof.
  intros Ha Hb Hw. unfold is_int64, int64_min, int64_max in *.
  destruct (decide (a + b < 0)) as [Hn|Hn].
  - rewrite wrap64_id in Hw by (unfold is_int64, int64_min, int64_max; lia). lia.
  - destruct (decide (a + b <= 2 ^ 63 - 1)) as [Hm|Hm].
    + split; [|lia]. apply in64_spec. unfold is_int64, int64_min, int64_max. lia.
    + exfalso. unfold wrap64 in Hw. rewrite <- (Z.mod_add _ (-1)), Z.mod_small in Hw; lia.
Qed.

(** ** Adjustments *)
Section adjust.
Context `{UuidSyntax} (rq : request) (userID : string).

Definition adjust_log (amount : Z) (ref : string) (entryID : Z) : audit_row :=
  {| au_actor := Some (principal rq); au_subject := Some userID;
     au_action := "wallet.adjustment"; au_rtype := "wallet"; au_rid := userID;
     au_request := request_id rq;
     au_meta := [("amount_cents", JInt amount); ("business_ref", JStr ref); ("entry_id", JInt entryID)] |}.
Definition adjusted (amount : Z) (ref note : string) (w : wallet) (d : db) : db :=
  upd_audit_logs (λ t, t ++ [adjust_log amount ref (next_entry (ledger d))])
    (upd_ledger (λ l, post l w "adjustment" ref amount
       [("note", JStr note); ("actor_user_id", JStr (principal rq))]) d).
Definition adjust_spec (amount : Z) (ref note : string) (d : db) : response * db :=
  match select_wallet_of userID d with
  | Err NoRows => (RError 404 "user_not_found", d)
  | Err _ => (internal_error, d)
  | Ok w =>
      if wrap64 (w_balance w + amount) <? 0 then (RError 409 "insufficient_balance", d)
      else match select_entry (w_id w) "adjustment" ref (ledger d) with
      | Ok e =>
          (if e_amount e =? amount
           then RJson 200 [("entryId", JInt (e_id e)); ("balanceCents", JInt (w_balance w));
                           ("version", JInt (w_version w)); ("idempotent", JBool true)]
           else RError 409 "idempotency_conflict", d)
      | Err _ =>
          (RJson 200 [("entryId", JInt (next_entry (ledger d))); ("balanceCents", JInt (w_balance w + amount));
                      ("version", JInt (wrap64 (w_version w + 1)))], adjusted amount ref note w d)
      end
  end.
Definition adjust_request (q : adjustment) : Prop :=
  is_int64 (adj_AmountCents q) ∧ adj_AmountCents q ≠ 0 ∧ trim_space (adj_BusinessRef q) ≠ "" ∧
  slen (trim_space (adj_BusinessRef q)) <= 128.

Lemma select_wallet_of_inv d w :
  select_wallet_of userID d = Ok w → w ∈ wallets (ledger d) ∧ w_user w = userID.
Proof. unfold select_wallet_of. destruct (valid_uuid userID); [apply select_wallet_inv|done]. Qed.
Lemma fresh_entry wid ty ref l e0 :
  select_entry wid ty ref l = Err e0 → ∀ e, e ∈ entries l → entry_key e ≠ (wid, ty, ref).
Proof.
  intros [_ Hno]%select_err e He Hk. apply same_key_spec in Hk. by rewrite Hno in Hk.
Qed.
Lemma insert_entry_fresh l w ty ref amount after meta e0 :
  w ∈ wallets l → ty ∈ business_types → amount ≠ 0 → select_entry (w_id w) ty ref l = Err e0 →
  ∃ l1, insert_entry (w_id w) ty ref amount after meta l = Ok (next_entry l, l1).
Proof.
  intros Hw Hty Ha Hs. eexists. apply insert_entry_ok; try done. by eapply fresh_entry.
Qed.

Lemma adjust_run q d :
  payments_ok d → adjust_request q →
  run internalError (adjustWallet rq userID (Some q)) no_faults d =
    adjust_spec (adj_AmountCents q) (trim_space (adj_BusinessRef q)) (trim_space (adj_Note q)) d.
Proof.
  intros Hok (H64 & Ha & Href & Hlen). apply (run_wp internalError _ d (λ x, x = _)).
  unfold adjustWallet, adjust_spec. cbv zeta. 
  tx_pass. { rewrite (proj2 (Z.eqb_neq _ _) Ha), bool_decide_eq_false_2 by done. cbn. by apply Z.ltb_ge. }
  repeat tx_step. destruct (select_wallet_of userID d) as [w|[]] eqn:Ew; try done.
  apply select_wallet_of_inv in Ew as [Hw Hu].
  destruct (wrap64 (w_balance w + adj_AmountCents q) <? 0) eqn:Eb; [by repeat tx_step|].
  tx_pass; [done|]. bool_hyps.
  destruct (wrap64_add_nonneg _ _ (payments_wallet d w Hok Hw) H64 Eb) as [Hin Hpos].
  repeat tx_step. destruct (select_entry _ _ _ _) as [e|e0] eqn:Ee.
  { destruct (e_amount e =? adj_AmountCents q) eqn:Eq; repeat tx_step; first [by bool_hyps|done]. }
  pose proof (fresh_entry _ _ _ _ _ Ee) as Hfresh. apply select_err in Ee as [-> _]. do 2 tx_step.
  destruct (insert_then_update (ledger d) w "adjustment" (trim_space (adj_BusinessRef q)) (adj_AmountCents q)
    [("note", JStr (trim_space (adj_Note q))); ("actor_user_id", JStr (principal rq))] (po_ledger _ Hok) Hw
    (wrap64 (w_balance w + adj_AmountCents q)) (λ _, wrap64 (w_balance w + adj_AmountCents q)) Ha)
    as (l1 & Hi & Hup); [right; right; right; right; right; left|done|by rewrite wrap64_in64|
                        apply wrap64_in64|].
  repeat tx_step. unfold on_ledger. rewrite Hi. repeat tx_step. unfold on_ledger_.
  cbn [ledger upd_ledger].
  destruct (insert_entry_inv _ _ _ _ _ _ _ _ _ Hi) as (_ & _ & _ & _ & Hl1).
  rewrite (update_wallets_ext _ (is_wallet (w_id w))), Hup, Hin.
  2: { rewrite Hl1. cbn [wallets]. intros w' Hw'. destruct (is_wallet (w_id w) w') eqn:Eid; [|done].
       apply is_wallet_spec in Eid. rewrite (wallet_by_id _ _ (po_ledger _ Hok) Hw w' Hw' Eid). apply Z.eqb_refl. }
  repeat tx_step. unfold audit. repeat tx_step. unfold finish. cbn. by rewrite wrap64_in64.
Qed.

(** What a request for an adjustment computes, whatever it holds. *)
Definition adjust_request_spec (q : option adjustment) (d : db) : response * db :=
  match q with
  | None => (RError 400 "invalid_request", d)
  | Some q =>
      let ref := trim_space (adj_BusinessRef q) in
      if bool_decide (adj_AmountCents q = 0 ∨ ref = "" ∨ 128 < slen ref) then (RError 400 "validation_failed", d)
      else adjust_spec (adj_AmountCents q) ref (trim_space (adj_Note q)) d
  end.

(** C19: an adjustment by an administrator, without faults, whatever the request
    holds (the amount is a 64-bit integer): a body that cannot be read, an amount
    of zero and a business reference that is empty or longer than 128 bytes are
    refused, as are unknown accounts and amounts that would overdraw (or
    overflow) the wallet; a business reference that was used is answered with
    the first entry when the amount is the same and refused otherwise; else the
    amount is booked once, with one entry and an audit record. *)
Theorem adjustWallet_run q d :
  payments_ok d → (∀ a, q = Some a → is_int64 (adj_AmountCents a)) →
  run internalError (adjustWallet rq userID q) no_faults d = adjust_request_spec q d.
Proof.
  intros Hok H64. unfold adjust_request_spec. destruct q as [q|]; [|done]. specialize (H64 q eq_refl). cbv zeta.
  case_bool_decide as Hv; [|apply adjust_run; [done|]; unfold adjust_request; split_and!; [done|naive_solver lia..]].
  apply (run_wp internalError _ d (λ x, x = _)). unfold adjustWallet. cbv zeta. tx_step. apply wp_guard; [done|].
  intros Hg. exfalso. bool_hyps. naive_solver lia.
Qed.

(** C23: the overdraft test comes before the idempotency test, so the retry of a
    debit that took more than what is left is refused as an overdraft, although
    the debit is booked under that very reference and amount. *)
Theorem adjustWallet_debit_retry q d w e :
  payments_ok d → adjust_request q → select_wallet_of userID d = Ok w →
  select_entry (w_id w) "adjustment" (trim_space (adj_BusinessRef q)) (ledger d) = Ok e →
  e_amount e = adj_AmountCents q → w_balance w + adj_AmountCents q < 0 →
  run internalError (adjustWallet rq userID (Some q)) no_faults d = (RError 409 "insufficient_balance", d).
Proof.
  intros Hok Hq Hw He Ha Hneg. rewrite adjust_run by done. unfold adjust_spec. rewrite Hw.
  apply select_wallet_of_inv in Hw as [Hw _]. pose proof (payments_wallet d w Hok Hw) as Hb.
  destruct Hq as [H64 _]. unfold is_int64, int64_min, int64_max in *.
  rewrite wrap64_id by (unfold is_int64, int64_min, int64_max; lia).
  by rewrite (proj2 (Z.ltb_lt _ _) Hneg).
Qed.
End adjust.

(** ** Check-ins

    One entry per customer and day, of the amount the check-in row says. *)
Definition checkin_entry (d : db) (c : checkin) (e : entry) : Prop :=
  e_id e = ck_entry c ∧ e_type e = "checkin_reward" ∧ e_ref e = ("checkin/" ^+ ck_date c)%string ∧
  e_amount e = ck_reward c ∧ ∃ w, w ∈ wallets (ledger d) ∧ w_id w = e_wallet e ∧ w_user w = ck_user c.
Record checkins_ok (d : db) : Prop := {
  ci_settings : let '(_, lo, hi) := checkin_settings d in 1 <= lo <= hi ∧ hi <= 10000;
  ci_keys : NoDup ((λ c, (ck_user c, ck_date c)) <$> checkins d);
  ci_rows : ∀ c, c ∈ checkins d → ∃ e, e ∈ entries (ledger d) ∧ checkin_entry d c e;
  ci_entries : ∀ e, e ∈ entries (ledger d) → e_type e = "checkin_reward" →
    ∃ c, c ∈ checkins d ∧ checkin_entry d c e
}.
Lemma checkin_entry_post d d' w ty ref amount meta c e :
  ledger d' = post (ledger d) w ty ref amount meta → checkin_entry d c e → checkin_entry d' c e.
Proof.
  intros Hl (? & ? & ? & ? & w0 & Hw0 & Hid & Hus). repeat split; try done. rewrite Hl.
  destruct (wallets_post (ledger d) w ty ref amount meta w0 Hw0) as (w' & Hw' & Hid' & Hus').
  exists w'. split_and!; congruence.
Qed.
(** Postings of other kinds. *)
Lemma checkins_ok_post d d' w ty ref amount meta :
  ledger d' = post (ledger d) w ty ref amount meta → checkins d' = checkins d →
  checkin_settings d' = checkin_settings d → ty ≠ "checkin_reward" → checkins_ok d → checkins_ok d'.
Proof.
  intros Hl Hc Hs Hty [H1 H2 H3 H4]. constructor; rewrite ?Hc, ?Hs; try done.
  - intros c Hin. destruct (H3 c Hin) as (e & He & Hce). exists e. split.
    + rewrite Hl. cbn [post entries]. apply elem_of_app. by left.
    + by eapply checkin_entry_post.
  - rewrite Hl. cbn [post entries]. intros e [He|He%list_elem_of_singleton]%elem_of_app Het.
    + destruct (H4 e He Het) as (c & Hin & Hce). exists c. split; [done|]. by eapply checkin_entry_post.
    + by subst e.
Qed.
Lemma checkins_ok_frame d d' :
  ledger d' = ledger d → checkins d' = checkins d → checkin_settings d' = checkin_settings d →
  checkins_ok d → checkins_ok d'.
Proof.
  intros Hl Hc Hs [H1 H2 H3 H4].
  assert (∀ c e, checkin_entry d c e → checkin_entry d' c e) as Hce.
  { unfold checkin_entry. by rewrite Hl. }
  constructor; rewrite ?Hl, ?Hc, ?Hs; try done.
  - intros c Hin. destruct (H3 c Hin) as (e & He & Hx). eauto.
  - intros e He Het. destruct (H4 e He Het) as (c & Hin & Hx). eauto.
Qed.

Section checkin.
Context (rq : request) (draw : Z → option Z).
(** [rand.Int(r, span)] is a number in [0, span). *)
Definition draws : Prop := ∀ span v, 0 < span → draw span = Some v → 0 <= v < span.
Lemma secureReward_range lo hi r :
  draws → 1 <= lo → hi <= 10000 → secureReward draw lo hi = Some r → lo <= r <= hi.
Proof.
  intros Hd Hlo Hhi. unfold secureReward. destruct (_ || _) eqn:E; [done|]. bool_hyps.
  rewrite (wrap64_id (hi - lo)), wrap64_id by (unfold is_int64, int64_min, int64_max; lia).
  destruct (draw (hi - lo + 1)) as [v|] eqn:Ev; cbn; [|done]. intros [= <-].
  apply Hd in Ev; [|lia]. rewrite wrap64_id by (unfold is_int64, int64_min, int64_max; lia). lia.
Qed.

Definition today_of : string := checkinDate (now rq).
Definition checkin_meta (lo hi : Z) : jsonb :=
  [("checkin_date", JStr today_of); ("timezone", JStr "Asia/Shanghai");
   ("minimum_cents", JInt lo); ("maximum_cents", JInt hi)].
Definition checked_in (w : wallet) (lo hi reward : Z) (d : db) : db :=
  upd_checkins (λ t, t ++ [{| ck_user := principal rq; ck_date := today_of; ck_reward := reward;
                             ck_entry := next_entry (ledger d) |}])
    (upd_ledger (λ l, post l w "checkin_reward" ("checkin/" ^+ today_of)%string reward (checkin_meta lo hi)) d).
Definition checkin_spec (w : wallet) (d : db) : response * db :=
  let '(enabled, lo, hi) := checkin_settings d in
  if negb enabled then (RError 409 "checkin_disabled", d)
  else match select (λ c, bool_decide (ck_user c = principal rq) && bool_decide (ck_date c = today_of))
               (checkins d) with
  | Ok c => (RJson 200 [("rewardCents", JInt (ck_reward c)); ("balanceCents", JInt (w_balance w));
                        ("checkedDate", JStr today_of); ("idempotent", JBool true)], d)
  | Err _ =>
      match secureReward draw lo hi with
      | None => (internal_error, d)
      | Some reward =>
          if in64 (w_balance w + reward) then
            (RJson 201 [("rewardCents", JInt reward); ("balanceCents", JInt (w_balance w + reward));
                        ("checkedDate", JStr today_of); ("idempotent", JBool false)],
             checked_in w lo hi reward d)
          else (internal_error, d)
      end
  end.

Lemma checkin_new d w :
  ledger_ok (ledger d) → checkins_ok d → w ∈ wallets (ledger d) → w_user w = principal rq →
  (∀ c, c ∈ checkins d → bool_decide (ck_user c = principal rq) && bool_decide (ck_date c = today_of) = false) →
  ∀ e, e ∈ entries (ledger d) → entry_key e ≠ (w_id w, "checkin_reward", ("checkin/" ^+ today_of)%string).
Proof.
  intros Hl Hci Hw Hu Hno e He [= Hwe Hty Href].
  destruct (ci_entries _ Hci e He Hty) as (c & Hc & _ & _ & Hr & _ & w0 & Hw0 & Hid & Hus).
  specialize (Hno c Hc). assert (w0 = w) as ->.
  { eapply key_inj; [apply (lo_ids _ Hl)|done|done|]. congruence. }
  rewrite Hr in Href. apply (inj (String.append "checkin/")) in Href.
  rewrite !bool_decide_eq_true_2 in Hno by congruence. done.
Qed.
Lemma insert_checkin_new d row d' :
  ledger_ok (ledger d) → checkins_ok d → checkins d' = checkins d →
  (∀ c, c ∈ checkins d → bool_decide (ck_user c = ck_user row) && bool_decide (ck_date c = ck_date row) = false) →
  0 <= ck_reward row <= 10000 → ck_entry row = next_entry (ledger d) →
  insert_checkin row d' = Ok (upd_checkins (λ t, t ++ [row]) d').
Proof.
  intros Hl Hci Hd Hno Hr He. unfold insert_checkin. rewrite Hd.
  rewrite (proj2 (exists_row_false _ _) Hno), (proj2 (Z.leb_le 0 _)), (proj2 (Z.leb_le _ 10000)) by lia.
  cbn [negb andb]. assert (exists_row (λ c, ck_entry c =? ck_entry row) (checkins d) = false) as ->; [|done].
  apply exists_row_false. intros c Hc. apply Z.eqb_neq. rewrite He.
  destruct (ci_rows _ Hci c Hc) as (e & Hin & <- & _).
  pose proof (lo_fresh _ Hl) as Hf. rewrite Forall_forall in Hf. specialize (Hf e Hin). lia.
Qed.
Lemma checkin_run d w :
  payments_ok d → checkins_ok d → draws → select_wallet (principal rq) (ledger d) = Ok w →
  w_balance w <= int64_max - 10000 →
  run internalError (performCheckin rq draw) no_faults d = checkin_spec w d.
Proof.
  intros Hok Hci Hd Hsel Hroom. apply (run_wp internalError _ d (λ x, x = _)).
  unfold performCheckin, checkin_spec. fold today_of. cbv zeta. repeat tx_step.
  destruct (checkin_settings d) as [[enabled lo] hi] eqn:Es.
  pose proof (ci_settings _ Hci) as Hset. rewrite Es in Hset. cbv iota beta.
  destruct enabled; cbn [negb]; [|by repeat tx_step]. tx_pass; [done|]. repeat tx_step. rewrite Hsel.
  repeat tx_step. apply select_wallet_inv in Hsel as [Hw Hu].
  destruct (select _ (checkins d)) as [c|e] eqn:Ec; [by repeat tx_step|].
  apply select_err in Ec as [-> Hno]. tx_step.
  destruct (secureReward draw lo hi) as [reward|] eqn:Er; [|by repeat tx_step].
  apply secureReward_range in Er; [|done|lia..].
  pose proof (checkin_new d w (po_ledger _ Hok) Hci Hw Hu Hno) as Hfresh.
  pose proof (payments_wallet d w Hok Hw) as Hbal.
  assert (in64 (w_balance w + reward) = true) as Hin.
  { apply in64_spec. unfold is_int64, int64_min, int64_max in *. lia. }
  cbv zeta. rewrite (wrap64_in64 _ Hin).
  apply (wp_post_fresh d w "checkin_reward" _ reward (w_balance w + reward)); try done.
  - apply Hok.
  - intros w' Hw'. apply (same_wallet d w (λ w', w_version w' =? w_version w)); try done; [apply Hok|].
    apply Z.eqb_refl.
  - lia.
  - kind.
  - repeat tx_step. rewrite (insert_checkin_new d); try done; [|apply Hok|cbn; lia].
    repeat tx_step. cbn [forallb]. repeat tx_step. unfold checked_in, finish. cbn. by rewrite Hin.
Qed.

(** The reward is booked and recorded together. *)
Lemma checked_in_ok d w lo hi reward :
  payments_ok d → checkins_ok d → w ∈ wallets (ledger d) → w_user w = principal rq →
  1 <= reward → in64 (w_balance w + reward) = true →
  (∀ c, c ∈ checkins d → bool_decide (ck_user c = principal rq) && bool_decide (ck_date c = today_of) = false) →
  payments_ok (checked_in w lo hi reward d) ∧ checkins_ok (checked_in w lo hi reward d).
Proof.
  intros Hok Hci Hw Hu Hr H64 Hno.
  pose proof (checkin_new d w (po_ledger _ Hok) Hci Hw Hu Hno) as Hfresh.
  pose proof (payments_wallet d w Hok Hw) as Hbal. split.
  { eapply payments_ok_frame; [| |apply (post_payments_ok d w "checkin_reward" ("checkin/" ^+ today_of)%string
      reward (checkin_meta lo hi))]; try done; lia. }
  destruct Hci as [H1 H2 H3 H4].
  assert (∀ c e, checkin_entry d c e → checkin_entry (checked_in w lo hi reward d) c e) as Hce.
  { intros c e. by eapply checkin_entry_post. }
  set (row := {| ck_user := principal rq; ck_date := today_of; ck_reward := reward;
                 ck_entry := next_entry (ledger d) |}).
  set (new := new_entry (ledger d) w "checkin_reward" ("checkin/" ^+ today_of)%string reward (checkin_meta lo hi)).
  assert (checkin_entry (checked_in w lo hi reward d) row new) as Hnew.
  { repeat split. destruct (wallets_post (ledger d) w "checkin_reward" ("checkin/" ^+ today_of)%string reward
      (checkin_meta lo hi) w Hw) as (w' & ? & ? & ?). exists w'. split_and!; [done|done|cbn; congruence]. }
  constructor; [done|..].
  - cbn [checked_in upd_checkins checkins upd_ledger]. rewrite fmap_app. apply NoDup_app.
    split_and!; [done| |apply NoDup_singleton].
    intros k (c & -> & Hc)%list_elem_of_fmap Hk%list_elem_of_singleton. injection Hk as E1 E2.
    specialize (Hno c Hc). by rewrite !bool_decide_eq_true_2 in Hno.
  - intros c [Hc| ->%list_elem_of_singleton]%elem_of_app.
    + destruct (H3 c Hc) as (e & He & Hx). exists e. split; [apply elem_of_app; by left|by apply Hce].
    + exists new. split; [apply elem_of_app; right; left|done].
  - intros e [He| ->%list_elem_of_singleton]%elem_of_app Het.
    + destruct (H4 e He Het) as (c & Hc & Hx). exists c. split; [apply elem_of_app; by left|by apply Hce].
    + exists row. split; [apply elem_of_app; right; left|done].
Qed.

(** C20: a check-in, without faults, for a customer whose wallet has room for a
    reward: disabled check-ins are refused; the second check-in of a day (in
    UTC+8) is answered with the first reward; otherwise a reward between the
    configured bounds is booked with one entry and recorded for the day, and
    the books stay in order. *)
Theorem performCheckin_run d w :
  payments_ok d → checkins_ok d → draws → select_wallet (principal rq) (ledger d) = Ok w →
  w_balance w <= int64_max - 10000 →
  run internalError (performCheckin rq draw) no_faults d = checkin_spec w d ∧
  payments_ok (checkin_spec w d).2 ∧ checkins_ok (checkin_spec w d).2.
Proof.
  intros Hok Hci Hd Hsel Hroom. split; [by apply checkin_run|].
  apply select_wallet_inv in Hsel as [Hw Hu]. unfold checkin_spec.
  destruct (checkin_settings d) as [[[] lo] hi] eqn:Es; [|done]. cbn [negb].
  destruct (select _ (checkins d)) as [c|e] eqn:Ec; [done|]. apply select_err in Ec as [_ Hno].
  destruct (secureReward draw lo hi) as [reward|] eqn:Er; [|done].
  destruct (in64 _) eqn:E64; [|done]. pose proof (ci_settings _ Hci) as Hset. rewrite Es in Hset.
  apply secureReward_range in Er; [|done|lia..]. apply checked_in_ok; try done. lia.
Qed.
End checkin.

(** ** Invitations

    A redeemed invitation with a reward has its entry in the wallet of the
    inviter; an open one has none. *)
Definition invite_key (i : invite) : string := ("invite/" ^+ iv_id i)%string.
Definition invite_paid (i : invite) : list Z :=
  if negb (bool_decide (iv_invited i = None)) && (0 <? iv_reward i) then [iv_reward i] else [].
Record invites_ok (d : db) : Prop := {
  in_ids : NoDup (iv_id <$> invites d);
  in_codes : NoDup (iv_code <$> invites d);
  in_invited : ∀ i j u, i ∈ invites d → j ∈ invites d → iv_invited i = Some u → iv_invited j = Some u →
    iv_id i = iv_id j;
  in_rows : ∀ i w, i ∈ invites d → w ∈ wallets (ledger d) → w_user w = iv_inviter i →
    key_amounts (w_id w) "grant" (invite_key i) (ledger d) = invite_paid i
}.
Lemma invites_ok_frame d d' :
  ledger d' = ledger d → invites d' = invites d → invites_ok d → invites_ok d'.
Proof. intros Hl Hi [H1 H2 H3 H4]. constructor; rewrite ?Hl, ?Hi; done. Qed.
(** Postings under other keys. *)
Lemma invites_ok_post d d' w ty ref amount meta :
  ledger d' = post (ledger d) w ty ref amount meta → invites d' = invites d →
  (ty = "grant" → ∀ i, i ∈ invites d → ref ≠ invite_key i) → invites_ok d → invites_ok d'.
Proof.
  intros Hl Hi Hty [H1 H2 H3 H4]. constructor; rewrite ?Hi; try done.
  intros i w' Hin Hw' Hu. rewrite Hl in Hw' |- *.
  apply post_wallets in Hw' as (w0 & Hw0 & Hid & Hus). rewrite key_amounts_post, <- Hid.
  rewrite bool_decide_eq_false_2, app_nil_r.
  - apply H4; [done..|congruence].
  - intros [= _ -> ->]. by apply (Hty eq_refl i Hin).
Qed.

Section redeem.
Context `{UnicodeLower} (rq : request).
Definition invite_hit (id : string) (i : invite) : bool :=
  bool_decide (iv_id i = id) && bool_decide (iv_invited i = None).
Definition invite_mark (i : invite) : invite :=
  {| iv_id := iv_id i; iv_inviter := iv_inviter i; iv_code := iv_code i; iv_invited := Some (principal rq);
     iv_reward := iv_reward i; iv_rewarded := Some (now rq) |}.
Definition invite_log (i : invite) : audit_row :=
  {| au_actor := Some (principal rq); au_subject := Some (iv_inviter i); au_action := "invite.reward";
     au_rtype := "user_invite"; au_rid := iv_id i; au_request := request_id rq;
     au_meta := [("reward_cents", JInt (iv_reward i)); ("invited_user_id", JStr (principal rq))] |}.
Definition invite_meta : jsonb := [("source", JStr "invite"); ("invited_user_id", JStr (principal rq))].
Definition redeemed (i : invite) (w : wallet) (d : db) : db :=
  upd_audit_logs (λ t, t ++ [invite_log i])
    (upd_invites (update (invite_hit (iv_id i)) invite_mark)
       (if 0 <? iv_reward i
        then upd_ledger (λ l, post l w "grant" (invite_key i) (iv_reward i) invite_meta) d else d)).
Definition open_code (code : string) (i : invite) : bool :=
  bool_decide (iv_code i = code) && bool_decide (iv_invited i = None).
Definition was_invited (i : invite) : bool := bool_decide (iv_invited i = Some (principal rq)).
Definition redeem_spec (code : string) (d : db) : response * db :=
  match select (open_code code) (invites d) with
  | Err _ => (RError 404 "invite_not_found", d)
  | Ok i =>
      if bool_decide (iv_inviter i = principal rq) then (RError 400 "invite_self", d)
      else if exists_row was_invited (invites d) then (RError 409 "invite_already_redeemed", d)
      else match select_wallet (iv_inviter i) (ledger d) with
      | Err _ => (internal_error, d)
      | Ok w =>
          if (0 <? iv_reward i) && negb (in64 (w_balance w + iv_reward i)) then (internal_error, d)
          else (RJson 200 [("rewardCents", JInt (iv_reward i)); ("rewardedUserId", JStr (iv_inviter i))],
                redeemed i w d)
      end
  end.

Lemma redeem_row_ok d d' i :
  invites d' = invites d → exists_row was_invited (invites d) = false →
  redeem_row (principal rq) (now rq) (iv_id i) d' =
    Ok (upd_invites (update (invite_hit (iv_id i)) invite_mark) d').
Proof.
  intros Hd Hno. unfold redeem_row. rewrite Hd. unfold was_invited in Hno. rewrite Hno, andb_false_r. done.
Qed.
Lemma redeem_run code d :
  payments_ok d → invites_ok d → slen (to_lower (trim_space code)) = 24 →
  run internalError (redeemInvite rq (Some code)) no_faults d = redeem_spec (to_lower (trim_space code)) d.
Proof.
  intros Hok Hin Hlen. apply (run_wp internalError _ d (λ x, x = _)).
  unfold redeemInvite, redeem_spec. cbv zeta. tx_pass; [by rewrite Hlen|]. repeat tx_step.
  fold (open_code (to_lower (trim_space code))).
  destruct (select _ (invites d)) as [i|e] eqn:Ei; [|by apply select_err in Ei as [-> _]].
  apply select_ok in Ei as [Hi Hopen]. unfold open_code in Hopen. bool_hyps.
  destruct (bool_decide (iv_inviter i = _)) eqn:Eself; [by repeat tx_step|]. tx_pass; [done|]. do 2 tx_step.
  fold was_invited. destruct (exists_row was_invited _) eqn:Eall; [by repeat tx_step|]. tx_pass; [done|].
  do 2 tx_step. destruct (select_wallet _ _) as [w|e] eqn:Ew; [|by apply select_err in Ew as [-> _]].
  apply select_wallet_inv in Ew as [Hw Hu]. tx_step.
  match goal with |- wp _ ?Ψ _ => set (Ψ0 := Ψ) end.
  assert (∀ dn n, invites dn = invites d →
    Ψ0 (Val tt) (live dn [] n) = wp (exec (redeem_row (principal rq) (now rq) (iv_id i));; exec (audit (invite_log i));;
        commit;; mret (RJson 200 [("rewardCents", JInt (iv_reward i)); ("rewardedUserId", JStr (iv_inviter i))]))
      (λ o s, finish internalError d o s = (if (0 <? iv_reward i) && negb (in64 (w_balance w + iv_reward i))
        then (internal_error, d) else (RJson 200 [("rewardCents", JInt (iv_reward i));
          ("rewardedUserId", JStr (iv_inviter i))], redeemed i w d))) (live dn [] n)) as HΨ by done.
  assert (∀ dn n, dn = (if 0 <? iv_reward i
        then upd_ledger (λ l, post l w "grant" (invite_key i) (iv_reward i) invite_meta) d else d) →
      (0 <? iv_reward i) && negb (in64 (w_balance w + iv_reward i)) = false → Ψ0 (Val tt) (live dn [] n)) as Hend.
  { intros dn n -> Hfin. rewrite HΨ by (by destruct (0 <? iv_reward i)). repeat tx_step.
    rewrite (redeem_row_ok d) by (done || by destruct (0 <? iv_reward i)). repeat tx_step.
    unfold audit. repeat tx_step. cbn [forallb]. repeat tx_step. rewrite Hfin. done. }
  clear HΨ. destruct (0 <? iv_reward i) eqn:Er; [|by apply wp_ret, Hend].
  bool_hyps. pose proof (in_rows _ Hin i w Hi Hw Hu) as Hkey. unfold invite_paid in Hkey.
  rewrite bool_decide_eq_true_2 in Hkey by done. cbn [negb andb] in Hkey.
  apply wp_unit, wp_assoc. destruct (in64 (w_balance w + iv_reward i)) eqn:E64.
  - apply (wp_post_fresh d w "grant" (invite_key i) (iv_reward i) (wrap64 (w_balance w + iv_reward i))
      invite_meta (is_wallet (w_id w)) (λ w, w_balance w + iv_reward i) (λ _, mret tt)); try done.
    + apply Hok.
    + intros _. by apply wrap64_in64.
    + lia.
    + kind.
    + by apply key_amounts_nil.
    + by apply wp_ret, Hend.
  - apply (wp_post d w "grant" (invite_key i) (iv_reward i) (wrap64 (w_balance w + iv_reward i))
      invite_meta (is_wallet (w_id w)) (λ w, w_balance w + iv_reward i) (λ _, mret tt)); try done.
    + apply Hok.
    + by rewrite E64.
    + intros e s Hs. unfold Ψ0, finish. by rewrite Hs.
    + by rewrite E64.
Qed.

Lemma redeemed_ok d i w :
  payments_ok d → invites_ok d → i ∈ invites d → iv_invited i = None →
  exists_row was_invited (invites d) = false → w ∈ wallets (ledger d) → w_user w = iv_inviter i →
  (0 < iv_reward i → in64 (w_balance w + iv_reward i) = true) →
  payments_ok (redeemed i w d) ∧ invites_ok (redeemed i w d).
Proof.
  intros Hok Hin Hi Hopen Hno Hw Hu H64. pose proof (payments_wallet d w Hok Hw) as Hbal.
  pose proof (in_rows _ Hin i w Hi Hw Hu) as Hkey. unfold invite_paid in Hkey.
  rewrite bool_decide_eq_true_2 in Hkey by done. cbn [negb andb] in Hkey. split.
  { unfold redeemed. destruct (0 <? iv_reward i) eqn:Er; [|by apply (payments_ok_frame d)]. bool_hyps.
    eapply payments_ok_frame; [| |apply (post_payments_ok d w "grant" (invite_key i) (iv_reward i) invite_meta)];
      try done; try lia; [by apply H64|by apply key_amounts_nil]. }
  assert (∀ j, j ∈ invites d → iv_id j = iv_id i → j = i) as Hinj.
  { intros j Hj Hid. eapply key_inj; [apply Hin|done..]. }
  assert (∀ j, iv_id (if invite_hit (iv_id i) j then invite_mark j else j) = iv_id j) as Hid
    by (intros j; by destruct (invite_hit _ j)).
  assert (∀ j u, j ∈ invites d → iv_invited (if invite_hit (iv_id i) j then invite_mark j else j) = Some u →
    iv_invited j = Some u ∨ j = i ∧ u = principal rq) as Hinv.
  { intros j u Hj. unfold invite_hit. destruct (_ && _) eqn:E; [|by left]. bool_hyps. intros [= <-].
    right. split; [by apply Hinj|done]. }
  pose proof Hin as [H1 H2 H3 H4]. rewrite exists_row_false in Hno.
  assert (∀ j, j ∈ invites d → iv_invited j ≠ Some (principal rq)) as Hno'.
  { intros j Hj E. specialize (Hno j Hj). unfold was_invited in Hno. by rewrite bool_decide_eq_true_2 in Hno. }
  assert (invites (redeemed i w d) = update (invite_hit (iv_id i)) invite_mark (invites d)) as Hrows
    by (unfold redeemed; by destruct (0 <? iv_reward i)).
  constructor; rewrite ?Hrows, ?update_column by (done || by intros j; destruct (invite_hit _ j)); try done.
  - intros j k u (j0 & Hj & ->)%elem_of_update (k0 & Hk & ->)%elem_of_update Ej Ek. rewrite !Hid.
    destruct (Hinv _ _ Hj Ej) as [Fj|[-> ->]]; destruct (Hinv _ _ Hk Ek) as [Fk|[-> Eu]]; try done.
    + by apply (H3 j0 k0 u).
    + subst u. by destruct (Hno' j0 Hj).
    + by destruct (Hno' k0 Hk).
  - intros j w' (j0 & Hj & ->)%elem_of_update Hw' Hu'.
    assert (key_amounts (w_id w') "grant" (invite_key j0) (ledger (redeemed i w d)) =
      key_amounts (w_id w') "grant" (invite_key j0) (ledger d) ++
        if (0 <? iv_reward i) && bool_decide ((w_id w, iv_id i) = (w_id w', iv_id j0))
        then [iv_reward i] else []) as Hamounts.
    { unfold redeemed. destruct (0 <? iv_reward i); [|by rewrite app_nil_r]. cbn [andb].
      cbn [upd_audit_logs upd_invites upd_ledger ledger]. rewrite key_amounts_post. f_equal.
      unfold invite_key. apply (f_equal (λ b : bool, if b then _ else _)), bool_decide_ext. split.
      - intros [= -> E]. change (iv_id i = iv_id j0) in E. by rewrite E.
      - by intros [= -> ->]. }
    assert (∃ w0, w0 ∈ wallets (ledger d) ∧ w_id w0 = w_id w' ∧ w_user w0 = w_user w') as (w0 & Hw0 & Hid0 & Hu0).
    { unfold redeemed in Hw'. destruct (0 <? iv_reward i); [|by exists w'].
      by apply (post_wallets (ledger d) w "grant" (invite_key i) (iv_reward i) invite_meta). }
    replace (invite_key (if invite_hit (iv_id i) j0 then _ else j0)) with (invite_key j0)
      by (unfold invite_key; by rewrite Hid).
    rewrite Hamounts, <- Hid0. replace (iv_inviter (if invite_hit (iv_id i) j0 then _ else j0)) with (iv_inviter j0)
      in Hu' by (by destruct (invite_hit _ _)).
    rewrite (H4 j0 w0) by congruence. destruct (decide (iv_id j0 = iv_id i)) as [E|E].
    + rewrite (Hinj j0 Hj E) in *. assert (w0 = w) as ->.
      { apply (key_inj w_user (wallets (ledger d))); [apply (po_ledger _ Hok)|done|done|congruence]. }
      assert (invite_hit (iv_id i) i = true) as -> by (unfold invite_hit; by rewrite !bool_decide_eq_true_2).
      unfold invite_paid. rewrite Hopen, !bool_decide_eq_true_2 by congruence. cbn [andb app negb invite_mark].
      by rewrite andb_true_r.
    + rewrite (bool_decide_eq_false_2 (_ = (_, iv_id j0))), andb_false_r, app_nil_r by congruence.
      unfold invite_hit. by rewrite bool_decide_eq_false_2.
Qed.

Lemma redeem_spec_ok code d :
  payments_ok d → invites_ok d → payments_ok (redeem_spec code d).2 ∧ invites_ok (redeem_spec code d).2.
Proof.
  intros Hok Hin. unfold redeem_spec.
  destruct (select _ (invites d)) as [i|e] eqn:Ei; [|done].
  apply select_ok in Ei as [Hi Hopen]. unfold open_code in Hopen. bool_hyps.
  destruct (bool_decide (iv_inviter i = _)); [done|]. destruct (exists_row was_invited _) eqn:Eall; [done|].
  destruct (select_wallet _ _) as [w|e] eqn:Ew; [|done]. apply select_wallet_inv in Ew as [Hw Hu].
  destruct (_ && _) eqn:E; [done|]. apply redeemed_ok; try done. intros Hr.
  rewrite (proj2 (Z.ltb_lt _ _) Hr) in E. by destruct (in64 _).
Qed.
(** What a request to redeem an invitation computes, whatever it holds. *)
Definition redeem_request_spec (body : option string) (d : db) : response * db :=
  match body with
  | None => (RError 400 "invalid_request", d)
  | Some code =>
      let code := to_lower (trim_space code) in
      if bool_decide (slen code = 24) then redeem_spec code d else (RError 400 "validation_failed", d)
  end.

(** C21: the redemption of an invitation, without faults, whatever the request
    holds: a body that cannot be read, a code that is not of 24 bytes, unknown or
    used codes, the customer's own code and a second invitation of the same
    customer are refused; otherwise the inviter is paid the reward of the
    invitation once, the code is closed, and the books stay in order. *)
Theorem redeemInvite_run body d :
  payments_ok d → invites_ok d →
  run internalError (redeemInvite rq body) no_faults d = redeem_request_spec body d ∧
  payments_ok (redeem_request_spec body d).2 ∧ invites_ok (redeem_request_spec body d).2.
Proof.
  intros Hok Hin. unfold redeem_request_spec. destruct body as [code|]; [|done]. cbv zeta.
  case_bool_decide as Hlen; [split; [by apply redeem_run|by apply redeem_spec_ok]|]. split; [|done].
  apply (run_wp internalError _ d (λ x, x = _)). unfold redeemInvite. cbv zeta. tx_step. apply wp_guard; [done|].
  intros Hg. exfalso. by bool_hyps.
Qed.
End redeem.

(** ** Credit grants *)
Definition grant_row_ok (g : credit_grant) : Prop := 0 < cg_amount g ∧ 0 <= cg_remaining g <= cg_amount g.
Record grants_ok (d : db) : Prop := {
  gr_ids : NoDup (cg_id <$> grants (credits d));
  gr_refs : NoDup ((λ g, (cg_user g, cg_ref g)) <$> grants (credits d));
  gr_rows : Forall grant_row_ok (grants (credits d))
}.
Lemma insert_grant_inv row d d' :
  insert_grant row d = Ok d' → d' = upd_credits (λ t, set_grants (grants t ++ [row]) t) d ∧ grant_row_ok row ∧
  ∀ g, g ∈ grants (credits d) → cg_id g ≠ cg_id row ∧ ((cg_user g, cg_ref g) ≠ (cg_user row, cg_ref row)).
Proof.
  unfold insert_grant. destruct (exists_row _ _) eqn:E1; [done|].
  destruct (negb _) eqn:E2; [done|]. destruct (negb (_ && _)) eqn:E3; [done|]. intros [= <-].
  rewrite exists_row_false in E1. unfold grant_row_ok. bool_hyps. split_and!; [done|lia..|].
  intros g Hg. specialize (E1 g Hg). bool_hyps. split; [done|]. intros [= F1 F2].
  by rewrite !bool_decide_eq_true_2 in * by done.
Qed.
Lemma insert_grant_ok row d d' : insert_grant row d = Ok d' → grants_ok d → grants_ok d'.
Proof.
  intros (-> & Hrow & Hno)%insert_grant_inv [H1 H2 H3].
  constructor; cbn [upd_credits credits set_grants grants].
  - rewrite fmap_app. apply NoDup_app. split_and!; [done| |apply NoDup_singleton].
    intros k (g & -> & Hg)%list_elem_of_fmap Hk%list_elem_of_singleton. by destruct (Hno g Hg).
  - rewrite fmap_app. apply NoDup_app. split_and!; [done| |apply NoDup_singleton].
    intros k (g & -> & Hg)%list_elem_of_fmap Hk%list_elem_of_singleton. by destruct (Hno g Hg).
  - apply Forall_app. split; [done|]. by apply Forall_singleton.
Qed.

Section grant.
Context `{UuidSyntax} (rq : request) (userID : string).
Definition grant_row (id : string) (q : credit_request) : credit_grant :=
  {| cg_id := id; cg_user := userID; cg_amount := cr_AmountCents q; cg_remaining := cr_AmountCents q;
     cg_ref := trim_space (cr_BusinessRef q); cg_note := trim_space (cr_Note q);
     cg_expires := (λ t, t / 1000) <$> cr_ExpiresAt q; cg_by_ := Some (principal rq); cg_created := now rq |}.
Definition grant_valid (q : credit_request) : bool :=
  (0 <? cr_AmountCents q) && (cr_AmountCents q <=? 1000000000000)
  && negb (bool_decide (trim_space (cr_BusinessRef q) = ""))
  && negb (has_prefix (trim_space (cr_BusinessRef q)) "subscription-credit/")
  && (slen (trim_space (cr_BusinessRef q)) <=? 128) && (slen (trim_space (cr_Note q)) <=? 500)
  && match cr_ExpiresAt q with Some t => 1000 * now rq <? t | None => true end.
Definition grant_key (q : credit_request) (g : credit_grant) : bool :=
  bool_decide (cg_user g = userID) && bool_decide (cg_ref g = trim_space (cr_BusinessRef q)).

(** The columns a repeated request is compared on. *)
Definition same_grant (row g : credit_grant) : bool :=
  (cg_amount g =? cg_amount row) && bool_decide (cg_note g = cg_note row)
  && sameOptionalTime (cg_expires g) (cg_expires row).
Definition grant_log (id : string) (q : credit_request) : audit_row :=
  {| au_actor := Some (principal rq); au_subject := Some userID; au_action := "credit.grant";
     au_rtype := "credit_grant"; au_rid := id; au_request := request_id rq;
     au_meta := [("amount_cents", JInt (cr_AmountCents q)); ("business_ref", JStr (trim_space (cr_BusinessRef q)));
                 ("expires_at", match cg_expires (grant_row id q) with Some t => JInt t | None => JNull end)] |}.
Definition grant_spec (id : string) (q : credit_request) (d : db) : response * db :=
  if negb (grant_valid q) then (RError 400 "validation_failed", d)
  else match select_user_of userID d with
  | Err NoRows => (RError 404 "user_not_found", d)
  | Err _ => (internal_error, d)
  | Ok _ =>
      match select (grant_key q) (grants (credits d)) with
      | Ok g =>
          (if same_grant (grant_row id q) g
           then RJson 200 [("id", JStr (cg_id g)); ("amountCents", JInt (cg_amount g)); ("idempotent", JBool true)]
           else RError 409 "idempotency_conflict", d)
      | Err _ =>
          match insert_grant (grant_row id q) d with
          | Ok d' => (RJson 201 [("id", JStr id); ("amountCents", JInt (cr_AmountCents q));
                                 ("remainingCents", JInt (cr_AmountCents q))],
                      upd_audit_logs (λ t, t ++ [grant_log id q]) d')
          | Err _ => (internal_error, d)
          end
      end
  end.
Lemma grant_run id q d :
  run internalError (grantCredit rq id userID (Some q)) no_faults d = grant_spec id q d.
Proof.
  apply (run_wp internalError _ d (λ x, x = _)). unfold grantCredit, grant_spec. cbv zeta.
  assert (grant_valid q = negb ((cr_AmountCents q <=? 0) || (1000000000000 <? cr_AmountCents q)
      || bool_decide (trim_space (cr_BusinessRef q) = "") || has_prefix (trim_space (cr_BusinessRef q)) "subscription-credit/"
      || (128 <? slen (trim_space (cr_BusinessRef q))) || (500 <? slen (trim_space (cr_Note q))))
    && negb (match cr_ExpiresAt q with Some t => negb (1000 * now rq <? t) | None => false end)) as ->.
  { unfold grant_valid. rewrite !negb_orb, !Z.leb_antisym, !negb_involutive.
    destruct (cr_ExpiresAt q); by rewrite ?negb_involutive. }
  tx_step. apply wp_guard; intros ->; [done|]. tx_step. apply wp_guard; intros ->; [done|]. cbn [negb andb].
  repeat tx_step. destruct (select_user_of userID d) as [u|[]]; try done. repeat tx_step.
  fold (grant_key q). destruct (select _ (grants _)) as [g|e] eqn:Eg.
  { assert (same_grant (grant_row id q) g = negb (negb (cg_amount g =? cr_AmountCents q)
       || negb (bool_decide (cg_note g = trim_space (cr_Note q)))
       || negb (sameOptionalTime (cg_expires g) ((λ t, t / 1000) <$> cr_ExpiresAt q)))) as ->
      by (by rewrite !negb_orb, !negb_involutive).
do 2 tx_step. apply wp_guard; intros ->; [done|]. by repeat tx_step. }
  apply select_err in Eg as [-> _]. do 3 tx_step. fold (grant_row id q).
  destruct (insert_grant _ d) as [d'|e] eqn:Ei.
  - unfold audit. by repeat tx_step.
  - assert (e ≠ NoRows) by (intros ->; unfold insert_grant in Ei; by repeat case_match). by destruct e.
Qed.
Lemma grant_spec_ok id q d : grants_ok d → grants_ok (grant_spec id q d).2.
Proof.
  intros Hd. unfold grant_spec. destruct (negb _); [done|].
  destruct (select_user_of _ _) as [|[]]; try done. destruct (select _ (grants _)); [done|].
  destruct (insert_grant _ d) as [d'|] eqn:E; [|done]. apply insert_grant_ok in E; [|done].
  destruct E as [H1 H2 H3]. by constructor.
Qed.

(** C22: a credit grant, without faults, on every branch; the grants keep
    distinct identifiers and references and what remains of one is between
    zero and its amount. *)
Theorem grantCredit_run id q d :
  grants_ok d →
  run internalError (grantCredit rq id userID (Some q)) no_faults d = grant_spec id q d ∧
  grants_ok (grant_spec id q d).2.
Proof. intros Hd. split; [apply grant_run|by apply grant_spec_ok]. Qed.
End grant.

(** ** Concrete runs *)
Section witnesses.
#[local] Existing Instances AsciiLower Sample.any_uuid.
Definition debit (amount : Z) : adjustment :=
  {| adj_AmountCents := amount; adj_BusinessRef := " fee-1"; adj_Note := "" |}.
Lemma debit_request : adjust_request (debit (-100)).
Proof. repeat split; by vm_compute. Qed.
Lemma adjustWallet_run_witness :
  (run internalError (adjustWallet Sample.rq "u-1" (Some (debit (-100)))) no_faults Sample.db1).1 =
    RJson 200 [("entryId", JInt 2); ("balanceCents", JInt 0); ("version", JInt 2)] ∧
  run internalError (adjustWallet Sample.rq "u-1" (Some (debit 0))) no_faults Sample.db1 =
    (RError 400 "validation_failed", Sample.db1).
Proof.
  assert (∀ n, is_int64 n → ∀ a, Some (debit n) = Some a → is_int64 (adj_AmountCents a)) as H64 by (by intros n Hn a [= <-]).
  rewrite (adjustWallet_run Sample.rq "u-1" (Some (debit (-100))) Sample.db1 Sample.db1_ok (H64 (-100) (proj1 debit_request))).
  rewrite (adjustWallet_run Sample.rq "u-1" (Some (debit 0)) Sample.db1 Sample.db1_ok (H64 0 ltac:(by vm_compute))).
  split; by vm_compute.
Defined.
(** The account after that debit; the administrator sends it again. *)
Definition debited : db :=
  adjusted Sample.rq "u-1" (-100) "fee-1" "" Sample.customer1 Sample.db1.
Lemma debited_ok : payments_ok debited.
Proof.
  eapply payments_ok_frame; [| |apply (post_payments_ok Sample.db1 Sample.customer1 "adjustment" "fee-1" (-100)
    [("note", JStr ""); ("actor_user_id", JStr "admin")])]; try done; [apply Sample.db1_ok|left|].
  intros e He%list_elem_of_singleton. by subst e.
Qed.
Definition debit_entry : entry :=
  new_entry (ledger Sample.db1) Sample.customer1 "adjustment" "fee-1" (-100)
    [("note", JStr ""); ("actor_user_id", JStr "admin")].
Lemma adjustWallet_debit_retry_witness :
  run internalError (adjustWallet Sample.rq "u-1" (Some (debit (-100)))) no_faults debited =
    (RError 409 "insufficient_balance", debited).
Proof.
  apply (adjustWallet_debit_retry Sample.rq "u-1" (debit (-100)) debited (with_balance 0 Sample.customer1)
    debit_entry debited_ok debit_request); by vm_compute.
Defined.

Lemma db1_checkins : checkins_ok Sample.db1.
Proof.
  constructor; try done; try by_eval.
  - by intros c Hc%elem_of_nil.
  - intros e He%list_elem_of_singleton. by subst e.
Qed.
Definition customer_at (t : timestamp) : request :=
  {| principal := "u-1"; actor := None; request_id := "r-3"; now := t; origin := "https://c.example" |}.
Definition draw3 : Z → option Z := λ span, Some (3 mod span).
(** 2024-02-29T17:00:00Z is the first of March in Shanghai. *)
Definition leap_evening : timestamp := 1709226000000000.
Lemma performCheckin_run_witness :
  (run internalError (performCheckin (customer_at leap_evening) draw3) no_faults Sample.db1).1 =
    RJson 201 [("rewardCents", JInt 4); ("balanceCents", JInt 104); ("checkedDate", JStr "2024-03-01");
               ("idempotent", JBool false)].
Proof.
  destruct (performCheckin_run (customer_at leap_evening) draw3 Sample.db1 Sample.customer1 Sample.db1_ok
    db1_checkins) as [-> _].
  - intros span v Hs [= <-]. apply Z.mod_pos_bound. lia.
  - done.
  - by vm_compute.
  - by vm_compute.
Defined.

Definition invited_db : db :=
  upd_invites (λ _, [{| iv_id := "i-1"; iv_inviter := "u-1"; iv_code := "00112233445566778899aabb";
                       iv_invited := None; iv_reward := 50; iv_rewarded := None |}]) Sample.db1.
Lemma invited_ok : payments_ok invited_db ∧ invites_ok invited_db.
Proof.
  split; [by apply (payments_ok_frame Sample.db1), Sample.db1_ok|]. constructor; try by_eval.
  - by intros i j u ->%list_elem_of_singleton ->%list_elem_of_singleton.
  - by intros i w ->%list_elem_of_singleton ->%list_elem_of_singleton _.
Qed.
Definition friend : request :=
  {| principal := "u-2"; actor := None; request_id := "r-4"; now := 9; origin := "https://c.example" |}.
Lemma redeemInvite_run_witness :
  (run internalError (redeemInvite friend (Some " 00112233445566778899AABB")) no_faults invited_db).1 =
    RJson 200 [("rewardCents", JInt 50); ("rewardedUserId", JStr "u-1")] ∧
  run internalError (redeemInvite friend (Some "0011")) no_faults invited_db =
    (RError 400 "validation_failed", invited_db).
Proof.
  destruct (redeemInvite_run friend (Some " 00112233445566778899AABB") invited_db (proj1 invited_ok) (proj2 invited_ok))
    as [-> _].
  destruct (redeemInvite_run friend (Some "0011") invited_db (proj1 invited_ok) (proj2 invited_ok)) as [-> _].
  split; by vm_compute.
Defined.

Definition bonus : credit_request :=
  {| cr_AmountCents := 900; cr_BusinessRef := "bonus-1"; cr_Note := "welcome"; cr_ExpiresAt := Some 9000 |}.
Lemma db1_grants : grants_ok Sample.db1.
Proof. constructor; by_eval. Qed.
Lemma grantCredit_run_witness :
  (run internalError (grantCredit Sample.rq "g-1" "u-1" (Some bonus)) no_faults Sample.db1).1 =
    RJson 201 [("id", JStr "g-1"); ("amountCents", JInt 900); ("remainingCents", JInt 900)].
Proof.
  destruct (grantCredit_run Sample.rq "u-1" "g-1" bonus Sample.db1 db1_grants) as [-> _]. by vm_compute.
Defined.
End witnesses.
