(* ===== verification/Bills.v ===== *)
(** * Bills

    The statement of a month: the upsert of a bill and of its total, which
    purchases (internal/httpapi/subscription_features.go) and the billing loop
    (apps/worker/main.go) share (migration 43), and the invariant of bills. *)
From S2P Require Import Prelude GoStrings Tx Table Ledger Schema.
From stdpp Require Import list.
Open Scope string_scope.
Open Scope Z_scope.
Open Scope list_scope.

(** INSERT INTO bills ... ON CONFLICT DO UPDATE ... RETURNING id. *)
Definition upsert_bill (id user : string) (start stop : timestamp) (d : db) : result sqlerr (string * db) :=
  match select (λ b, bool_decide (b_user b = user) && (b_start b =? start) && (b_stop b =? stop)) (bills (usage d)) with
  | Ok b => Ok (b_id b, d)
  | Err _ =>
      if exists_row (λ b, bool_decide (b_id b = id)) (bills (usage d)) then Err (Constraint "bills_pkey")
      else if stop <=? start then Err (Constraint "bills_check")
      else Ok (id, upd_usage (λ t, set_bills (bills t ++
             [{| b_id := id; b_user := user; b_start := start; b_stop := stop; b_total := 0 |}]) t) d)
  end.
Definition bill_is (id : string) (b : bill) : bool := bool_decide (b_id b = id).
Definition with_total (total : Z) (b : bill) : bill :=
  {| b_id := b_id b; b_user := b_user b; b_start := b_start b; b_stop := b_stop b; b_total := total |}.
(** UPDATE bills SET total_cents=total_cents+$2 WHERE id=$1. *)
Definition add_to_bill (id : string) (amount : Z) (d : db) : result sqlerr db :=
  let hit := List.filter (bill_is id) (bills (usage d)) in
  if negb (forallb (λ b, in64 (b_total b + amount)) hit) then Err OutOfRange
  else if negb (forallb (λ b, 0 <=? b_total b + amount) hit) then Err (Constraint "bills_total_cents_check")
  else Ok (upd_usage (λ t, set_bills (update (bill_is id) (λ b, with_total (b_total b + amount) b) (bills t)) t) d).

(** ** The invariant *)
(** The total of a bill is the sum of its items, of subscriptions and of
    usage. *)
Definition bill_items_sum (id : string) (d : db) : Z :=
  sumZ (si_amount <$> List.filter (λ i, bool_decide (si_bill i = id)) (subscription_bill_items (subs d))) +
  sumZ (bi_amount <$> List.filter (λ i, bool_decide (bi_bill i = id)) (bill_items (usage d))).
Record bills_ok (d : db) : Prop := {
  bo_ids : NoDup (b_id <$> bills (usage d));
  bo_periods : NoDup ((λ b, (b_user b, b_start b, b_stop b)) <$> bills (usage d));
  bo_totals : Forall (λ b, b_total b = bill_items_sum (b_id b) d) (bills (usage d));
  bo_owner : ∀ i, i ∈ subscription_bill_items (subs d) → si_bill i ∈ b_id <$> bills (usage d);
  bo_usage_owner : ∀ i, i ∈ bill_items (usage d) → bi_bill i ∈ b_id <$> bills (usage d)
}.

Lemma upsert_bill_ok id user start stop d bid d1 :
  upsert_bill id user start stop d = Ok (bid, d1) → bills_ok d →
  bills_ok d1 ∧ bid ∈ b_id <$> bills (usage d1) ∧ ∃ g, d1 = upd_usage (λ t, set_bills (g (bills t)) t) d.
Proof.
  unfold upsert_bill. destruct (select _ _) as [b|e] eqn:Es.
  - intros [= <- <-] Hok. apply select_ok in Es as [Hb _]. split_and!; [done| |].
    + apply list_elem_of_fmap. eauto.
    + exists (λ x, x). apply db_eq; try reflexivity. by apply usage_eq.
  - apply select_err in Es as [_ Hno]. destruct (exists_row _ _) eqn:Eid; [done|]. destruct (stop <=? start); [done|].
    intros [= <- <-] [H1 H2 H3 H4 H5]. rewrite exists_row_false in Eid.
    set (b := {| b_id := id; b_user := user; b_start := start; b_stop := stop; b_total := 0 |}).
    assert (∀ x, x ∈ bills (usage d) → b_id x ≠ id) as Hid.
    { intros x Hx E. specialize (Eid x Hx). by rewrite bool_decide_eq_true_2 in Eid. }
    split_and!; [|cbn; rewrite fmap_app; apply elem_of_app; right; left|by exists (λ t, t ++ [b])].
    constructor; cbn [upd_usage usage set_bills bills subs bill_items].
    + by apply NoDup_snoc.
    + apply NoDup_snoc; [done|]. intros x Hx [= E1 E2 E3]. specialize (Hno x Hx).
      by rewrite bool_decide_eq_true_2, E2, E3, !Z.eqb_refl in Hno.
    + apply Forall_app. split; [done|]. apply Forall_singleton. cbn [b b_id b_total].
      unfold bill_items_sum. cbn [upd_usage usage subs set_bills bill_items].
      rewrite !filter_none; [done|..].
      * intros i Hi. apply bool_decide_eq_false_2. intros E.
        apply H5, list_elem_of_fmap in Hi as (x & Ex & Hx). apply (Hid x Hx). congruence.
      * intros i Hi. apply bool_decide_eq_false_2. intros E.
        apply H4, list_elem_of_fmap in Hi as (x & Ex & Hx). apply (Hid x Hx). congruence.
    + intros i Hi. rewrite fmap_app. apply elem_of_app. left. by apply H4.
    + intros i Hi. rewrite fmap_app. apply elem_of_app. left. by apply H5.
Qed.
Lemma bills_ok_frame d d' :
  bills (usage d') = bills (usage d) → bill_items (usage d') = bill_items (usage d) →
  subscription_bill_items (subs d') = subscription_bill_items (subs d) → bills_ok d → bills_ok d'.
Proof.
  intros E1 E2 E3 [H1 H2 H3 H4 H5]. constructor; rewrite ?E1, ?E2, ?E3; try done.
  eapply Forall_impl; [exact H3|]. intros b. unfold bill_items_sum. by rewrite E2, E3.
Qed.
(** An item of a bill and the total it is added to. *)
Lemma bills_ok_item d d' bid amount :
  bills_ok d → bid ∈ b_id <$> bills (usage d) →
  bills (usage d') = update (bill_is bid) (λ b, with_total (b_total b + amount) b) (bills (usage d)) →
  (∀ id, bill_items_sum id d' = bill_items_sum id d + if bool_decide (bid = id) then amount else 0) →
  (∀ i, i ∈ subscription_bill_items (subs d') → i ∈ subscription_bill_items (subs d) ∨ si_bill i = bid) →
  (∀ i, i ∈ bill_items (usage d') → i ∈ bill_items (usage d) ∨ bi_bill i = bid) →
  bills_ok d'.
Proof.
  intros [H1 H2 H3 H4 H5] Hin Hb Hs Hsi Hbi. constructor; rewrite Hb, ?update_column by done; try done.
  - apply Forall_forall. intros b (b0 & Hb0 & ->)%elem_of_update. rewrite Forall_forall in H3. specialize (H3 b0 Hb0).
    rewrite Hs. unfold bill_is. rewrite (bool_decide_ext (bid = _) (b_id b0 = bid)).
    2: { case_bool_decide; cbn; naive_solver. }
    case_bool_decide; cbn; rewrite H3; lia.
  - intros i [Hi| ->]%Hsi; auto.
  - intros i [Hi| ->]%Hbi; auto.
Qed.
