(* ===== verification/Recovery.v ===== *)
(** * Recovery jobs

    The deployment jobs that bring a suspended application back, which both a
    purchase (internal/httpapi/subscription_features.go) and the billing loop
    (apps/worker/main.go) insert; the constraints of deployment_jobs
    (migrations 1, 57 and 66). *)
From S2P Require Import Prelude GoStrings Domain Tx Table Ledger Schema.
From stdpp Require Import list.
Open Scope string_scope.
Open Scope Z_scope.
Open Scope list_scope.

(** The rows of app_releases, which these statements only read: the trigger
    deployment_jobs_integrity_guard (migration 66) asks whether the release of
    a recovery job is the active release of the application. *)
Class Releases := { release_active : string → string → bool }.
Definition unfinished (j : job_row) : bool :=
  negb (bool_decide (j_state j = DeploymentSucceeded) || bool_decide (j_state j = DeploymentFailed)).
Definition busy (d : db) (a : app_row) : bool :=
  exists_row (λ j, bool_decide (j_app j = a_id a) && unfinished j) (deployment_jobs (apps d)).

(** INSERT INTO deployment_jobs of one row; the number of inserted rows.
    [skip]: ON CONFLICT(idempotency_key) DO NOTHING. *)
Definition insert_recovery_job `{Releases} (skip : bool) (operation id key : string) (a : app_row)
    (release : string) (d : db) : result sqlerr (Z * db) :=
  let jobs := deployment_jobs (apps d) in
  if negb (release_active (a_id a) release) then Err (Constraint "recovery jobs must reuse the active successful release")
  else if 128 <? slen key then Err (Constraint "deployment_jobs_idempotency_key_length_check")
  else if exists_row (λ j, bool_decide (j_key j = key)) jobs
  then if skip then Ok (0, d) else Err (Constraint "deployment_jobs_idempotency_key_key")
  else if exists_row (λ j, bool_decide (j_id j = id)) jobs then Err (Constraint "deployment_jobs_pkey")
  else if busy d a then Err (Constraint "deployment_jobs_active_app_uidx")
  else Ok (1, upd_apps (λ t, set_deployment_jobs (deployment_jobs t ++
         [{| j_id := id; j_app := a_id a; j_release := release; j_key := key;
             j_state := DeploymentQueued; j_operation := operation; j_source := Some release |}]) t) d).
(** One job for every selected application that has a successful release. *)
Definition recover_apps (sel : app_row → bool)
    (ins : app_row → string → db → result sqlerr (Z * db)) (d0 : db) : result sqlerr (Z * db) :=
  fold_left (λ acc a,
    '(n, d) ← acc;
    match a_last_release a with
    | Some release => if sel a then '(k, d) ← ins a release d; Ok (n + k, d) else Ok (n, d)
    | None => Ok (n, d)
    end) (user_apps (apps d0)) (Ok (0, d0)).
Definition resume_app (a : app_row) : app_row :=
  {| a_id := a_id a; a_user := a_user a; a_slug := a_slug a; a_status := AppUpdating; a_suspension := None;
     a_suspended_at := a_suspended_at a; a_last_release := a_last_release a; a_deleted_at := a_deleted_at a |}.

(** ** What these statements leave alone *)
Record only_apps (d d' : db) : Prop := {
  oa_users : users d' = users d; oa_ledger : ledger d' = ledger d; oa_payments : payments d' = payments d;
  oa_credits : credits d' = credits d; oa_checkins : checkins d' = checkins d; oa_invites : invites d' = invites d;
  oa_usage : usage d' = usage d; oa_subs : subs d' = subs d;
  oa_settings : checkin_settings d' = checkin_settings d;
  oa_reserve : startup_balance_reserve_cents d' = startup_balance_reserve_cents d
}.
#[export] Instance only_apps_preorder : PreOrder only_apps.
Proof. split; [by constructor|]. intros a b c [] []. constructor; congruence. Qed.
Lemma recover_apps_ind (P : db → Prop) sel ins d n d1 :
  (∀ a r d n d', ins a r d = Ok (n, d') → P d → P d') → P d →
  recover_apps sel ins d = Ok (n, d1) → P d1.
Proof.
  intros Hins Hd. unfold recover_apps. set (step := fun acc a => _).
  assert (∀ l acc, (∀ n d1, acc = Ok (n, d1) → P d1) → ∀ n d1, fold_left step l acc = Ok (n, d1) → P d1) as Hfold.
  { induction l as [|a l IH]; [done|]. intros acc Hacc. apply IH. intros k d2.
    unfold step. destruct acc as [[m dm]|]; [|done]. cbn. specialize (Hacc m dm eq_refl).
    destruct (a_last_release a) as [r|]; [|by intros [= <- <-]]. destruct (sel a); [|by intros [= <- <-]].
    destruct (ins a r dm) as [[j dj]|] eqn:Ej; [|done]. cbn. intros [= <- <-]. by eapply Hins. }
  apply Hfold. by intros ? ? [= <- <-].
Qed.
Lemma recover_apps_frame sel ins d n d1 :
  (∀ a r d n d', ins a r d = Ok (n, d') → only_apps d d') →
  recover_apps sel ins d = Ok (n, d1) → only_apps d d1.
Proof.
  intros Hins. apply recover_apps_ind; [|done]. intros a r d0 k d2 Hi Hd. transitivity d0; [done|]. by eapply Hins.
Qed.
Lemma insert_recovery_job_frame `{Releases} skip op id key a r d n d' :
  insert_recovery_job skip op id key a r d = Ok (n, d') → only_apps d d'.
Proof. unfold insert_recovery_job. repeat (case_match; try done); by intros [= <- <-]. Qed.
Lemma insert_recovery_job_notes `{Releases} skip op id key a r d n d' :
  insert_recovery_job skip op id key a r d = Ok (n, d') → notifications d' = notifications d.
Proof. unfold insert_recovery_job. repeat (case_match; try done); by intros [= <- <-]. Qed.
