(* ===== verification/Subscriptions.v ===== *)
(** * Subscriptions

    internal/httpapi/subscription_features.go: the price list, the quote for a
    change of plan, the purchase of a cycle and the recovery of the
    applications that an expired subscription suspended; the SQL function
    [grant_subscription_credit] the purchase calls (migration 49).  Tables of
    migrations 13, 30, 43, 47, 50 and 66; the CHECKs that repeat those of
    plan_versions on copied columns are left out, as are the foreign keys to
    rows the same transaction has locked. *)
From S2P Require Import Prelude GoStrings GoTime Domain Tx Table Ledger Schema Http Accounts Bills Recovery.
From stdpp Require Import list.
Open Scope string_scope.
Open Scope Z_scope.
Open Scope list_scope.

Record currentSubscription := {
  cs_PlanID : string; cs_PlanVersionID : string; cs_Code : string; cs_Name : string;
  cs_Status : sub_status; cs_CyclePriceCents : Z; cs_Entitlements : jsonb;
  cs_StartsAt : timestamp; cs_EndsAt : option timestamp; cs_GraceEndsAt : option timestamp
}.
Record subscriptionQuote := {
  sq_Action : sub_action; sq_AmountCents : Z; sq_Start : timestamp; sq_End : timestamp;
  sq_EndsAt : option timestamp
}.

(** ** Quotes *)
Definition addCalendarMonth (value : timestamp) : timestamp :=
  let '(year, month, day) := date_of value in
  let nextMonth := go_date year (month + 1) 1 (time_of_day value) in
  let lastDay := (date_of (add_date nextMonth 0 1 (-1))).2 in
  let day := if lastDay <? day then lastDay else day in
  let '(year', month', _) := date_of nextMonth in
  go_date year' month' day (time_of_day value).

Definition active_until (now : timestamp) (current : option currentSubscription) : option timestamp :=
  match current with
  | Some c => match cs_Status c, cs_EndsAt c with
              | SubActive, Some e => if now <? e then Some e else None
              | _, _ => None
              end
  | None => None
  end.
Definition price_action (target current : Z) (same : sub_action) : sub_action :=
  if current <? target then ActUpgrade else if target <? current then ActDowngrade else same.
Definition quoteSubscription (now : timestamp) (current : option currentSubscription)
    (targetPlanID targetVersionID : string) (targetPrice paidBaseline : Z) : subscriptionQuote :=
  match current, active_until now current with
  | Some c, Some ends =>
      if bool_decide (cs_PlanVersionID c = targetVersionID) then
        let end_ := addCalendarMonth ends in
        {| sq_Action := ActRenewal; sq_AmountCents := targetPrice; sq_Start := ends; sq_End := end_;
           sq_EndsAt := Some end_ |}
      else
        let amount := wrap64 (targetPrice - paidBaseline) in
        {| sq_Action := price_action targetPrice (cs_CyclePriceCents c) ActChange;
           sq_AmountCents := if amount <? 0 then 0 else amount; sq_Start := now; sq_End := ends;
           sq_EndsAt := if 0 <? targetPrice then Some ends else None |}
  | _, _ =>
      let end_ := addCalendarMonth now in
      {| sq_Action := match current with
                      | None => ActPurchase
                      | Some c => if bool_decide (cs_PlanID c = targetPlanID) then ActRenewal
                                  else price_action targetPrice (cs_CyclePriceCents c) ActChange
                      end;
         sq_AmountCents := targetPrice; sq_Start := now; sq_End := end_;
         sq_EndsAt := if 0 <? targetPrice then Some end_ else None |}
  end.
Definition canPurchasePlan (enabled : bool) (current : option currentSubscription) (targetPlanID : string) : bool :=
  enabled || match current with Some c => bool_decide (cs_PlanID c = targetPlanID) | None => false end.

(** ** Reads *)
Definition version_is (id : string) (v : plan_version) : bool := bool_decide (pn_id v = id).
Definition plan_is (id : string) (p : plan) : bool := bool_decide (pl_id p = id).
Definition version_and_plan (id : string) (d : db) : result sqlerr (plan_version * plan) :=
  v ← select (version_is id) (plan_versions (subs d));
  p ← select (plan_is (pn_plan v)) (plans (subs d));
  Ok (v, p).
Definition loadCurrentSubscription (user : string) (d : db) : result sqlerr currentSubscription :=
  us ← select (λ us, bool_decide (us_user us = user)) (user_subscriptions (subs d));
  '(v, p) ← version_and_plan (us_version us) d;
  Ok {| cs_PlanID := pl_id p; cs_PlanVersionID := pn_id v; cs_Code := pl_code p; cs_Name := pl_name p;
        cs_Status := us_status us; cs_CyclePriceCents := us_price us; cs_Entitlements := us_entitlements us;
        cs_StartsAt := us_starts us; cs_EndsAt := us_ends us; cs_GraceEndsAt := us_grace us |}.
Definition succeeded (p : subscription_purchase) : bool := bool_decide (sp_status p = PurchaseSucceeded).
Definition max_list (zs : list Z) : Z := fold_right Z.max 0 zs.
(** The highest price the customer has paid for the present period. *)
Definition paid_baseline (user : string) (at_ : timestamp) (d : db) : Z :=
  max_list ((λ p, match select (version_is (sp_version p)) (plan_versions (subs d)) with
                  | Ok v => pn_price v | Err _ => 0 end) <$>
    List.filter (λ p, bool_decide (sp_user p = user) && succeeded p && (sp_start p <=? at_) && (at_ <? sp_stop p))
      (subscription_purchases (subs d))).
Definition with_current (t : timestamp) (current : option currentSubscription) (baseline : Z) : Z :=
  match current, active_until t current with
  | Some c, Some _ => if baseline <? cs_CyclePriceCents c then cs_CyclePriceCents c else baseline
  | _, _ => baseline
  end.
(** ORDER BY effective_at DESC, version DESC LIMIT 1. *)
Definition newer (a b : plan_version) : bool :=
  (pn_effective b <? pn_effective a) || ((pn_effective a =? pn_effective b) && (pn_version b <? pn_version a)).
Definition newest (vs : list plan_version) : option plan_version :=
  fold_left (λ acc v, match acc with
                      | None => Some v
                      | Some b => if newer v b then Some v else Some b
                      end) vs None.
Definition latest_version (plan_id : string) (at_ : timestamp) (d : db) : option plan_version :=
  newest (List.filter (λ v, bool_decide (pn_plan v = plan_id) && (pn_effective v <=? at_)) (plan_versions (subs d))).
Definition select_target (id : string) (at_ : timestamp) (d : db) : result sqlerr (plan_version * plan) :=
  '(v, p) ← version_and_plan id d;
  if (pn_effective v <=? at_) && bool_decide (pn_id <$> latest_version (pl_id p) at_ d = Some id)
  then Ok (v, p) else Err NoRows.
Definition future_cycles (user : string) (at_ : timestamp) (d : db) : bool :=
  exists_row (λ p, bool_decide (sp_user p = user) && succeeded p && (at_ <? sp_start p) && (at_ <? sp_stop p))
    (subscription_purchases (subs d)).
Definition select_purchase (user key : string) (d : db) :
    result sqlerr (subscription_purchase * plan) :=
  sp ← select (λ p, bool_decide (sp_user p = user) && bool_decide (sp_key p = key)) (subscription_purchases (subs d));
  '(_, p) ← version_and_plan (sp_version sp) d;
  Ok (sp, p).

(** ** Statements *)
Definition insert_purchase (row : subscription_purchase) (d : db) : result sqlerr db :=
  if exists_row (λ p, bool_decide (sp_id p = sp_id row)
                      || bool_decide (sp_user p = sp_user row) && bool_decide (sp_key p = sp_key row))
       (subscription_purchases (subs d))
  then Err (Constraint "subscription_purchases_user_id_idempotency_key_key")
  else if negb ((0 <=? sp_amount row) && (sp_amount row <=? 1000000000000))
  then Err (Constraint "subscription_purchases_amount_cents_check")
  else if sp_balance row <? 0 then Err (Constraint "subscription_purchases_balance_after_cents_check")
  else if sp_stop row <=? sp_start row then Err (Constraint "subscription_purchases_check")
  else if negb (match sp_entry row with
                | None => (sp_amount row =? 0) || negb (succeeded row)
                | Some _ => (0 <? sp_amount row) && succeeded row
                end)
  then Err (Constraint "subscription_purchases_check1")
  else if match sp_entry row with
          | Some e => exists_row (λ p, bool_decide (sp_entry p = Some e)) (subscription_purchases (subs d))
          | None => false end
  then Err (Constraint "subscription_purchases_wallet_ledger_entry_id_key")
  else Ok (upd_subs (λ t, set_subscription_purchases (subscription_purchases t ++ [row]) t) d).

(** INSERT ... ON CONFLICT(user_id) DO UPDATE. *)
Definition upsert_subscription (row : user_subscription) (d : db) : result sqlerr db :=
  let hit us := bool_decide (us_user us = us_user row) in
  Ok (upd_subs (λ t, set_user_subscriptions
        (if exists_row hit (user_subscriptions t) then update hit (λ _, row) (user_subscriptions t)
         else user_subscriptions t ++ [row]) t) d).

Definition insert_subscription_item (row : subscription_bill_item) (d : db) : result sqlerr db :=
  if exists_row (λ i, bool_decide (si_purchase i = si_purchase row)) (subscription_bill_items (subs d))
  then Err (Constraint "subscription_bill_items_subscription_purchase_id_key")
  else if si_amount row <? 0 then Err (Constraint "subscription_bill_items_amount_cents_check")
  else if si_stop row <=? si_start row then Err (Constraint "subscription_bill_items_check")
  else Ok (upd_subs (λ t, set_subscription_bill_items (subscription_bill_items t ++ [row]) t) d).
(** INSERT INTO user_notifications without ON CONFLICT. *)
Definition insert_notification (row : notification) (d : db) : result sqlerr db :=
  if exists_row (λ n, bool_decide (n_user n = n_user row) && bool_decide (n_event_key n = n_event_key row))
       (notifications d)
  then Err (Constraint "user_notifications_user_id_event_key_key")
  else Ok (upd_notifications (λ t, t ++ [row]) d).

(** [grant_subscription_credit(user, created_by)]: the monthly credit of the
    plan, topped up to what the plan of the moment promises.  No row when
    nothing is granted. *)
Definition creditGrantCents (e : jsonb) : Z :=
  match List.find (λ kv, bool_decide (kv.1 = "creditGrantCents")) e with
  | Some (_, JInt n) => n
  | _ => 0
  end.
Definition entitled (at_ : timestamp) (us : user_subscription) : bool :=
  match us_status us with
  | SubActive => match us_ends us with None => true | Some e => at_ <? e end
  | SubGracePeriod => match us_grace us with None => false | Some e => at_ <? e end
  | _ => false
  end.
Definition credit_period (at_ : timestamp) : string := String.substring 0 7 (format_date at_).
Definition next_month (at_ : timestamp) : timestamp :=
  let '(y, m, _) := date_of at_ in go_date y (m + 1) 1 0.
Definition credit_prefix (user : string) (at_ : timestamp) : string :=
  ("subscription-credit/" ^+ user ^+ "/" ^+ credit_period at_)%string.
Definition of_period (prefix : string) (g : credit_grant) : bool :=
  bool_decide (cg_ref g = prefix) || has_prefix (cg_ref g) (prefix ^+ "/")%string.
Definition granted_in (user prefix : string) (d : db) : Z :=
  sumZ (cg_amount <$> List.filter (λ g, bool_decide (cg_user g = user) && of_period prefix g) (grants (credits d))).
Definition grant_subscription_credit (id user : string) (created_by : option string) (at_ : timestamp) (d : db) :
    result sqlerr ((string * Z * string) * db) :=
  match select_active_user user d,
        select (λ us, bool_decide (us_user us = user) && entitled at_ us) (user_subscriptions (subs d)) with
  | Ok _, Ok us =>
      let target := creditGrantCents (us_entitlements us) in
      if target <=? 0 then Err NoRows
      else if 1000000000000 <? target then Err (Constraint "subscription credit target exceeds platform limit")
      else
        let prefix := credit_prefix user at_ in
        let granted := granted_in user prefix d in
        if negb (in64 granted) then Err OutOfRange
        else if target <=? granted then Err NoRows
        else
          let ref := (prefix ^+ "/to-" ^+ format_int target)%string in
          let delta := target - granted in
          if exists_row (λ g, bool_decide (cg_user g = user) && bool_decide (cg_ref g = ref)) (grants (credits d))
          then Err NoRows
          else
            d ← insert_grant {| cg_id := id; cg_user := user; cg_amount := delta; cg_remaining := delta;
                  cg_ref := ref; cg_note := "套餐月度赠送额度"; cg_expires := Some (next_month at_); cg_by_ := created_by;
                  cg_created := at_ |} d;
            Ok ((id, delta, ref), d)
  | _, _ => Err NoRows
  end.

(** ** Recovery of suspended applications *)
Definition waits_for_subscription (user : string) (a : app_row) : bool :=
  bool_decide (a_user a = user) && bool_decide (a_status a = AppSuspended)
  && bool_decide (a_suspension a = Some "subscription_expired").
Definition recovery_key (reference app : string) : string := (reference ^+ "/" ^+ app)%string.
(** INSERT INTO deployment_jobs ... SELECT ... ON CONFLICT(idempotency_key) DO
    NOTHING; the SELECT sees the jobs of the snapshot [d0].  [new_id]:
    gen_random_uuid(). *)
Definition insert_recovery_jobs `{Releases} (new_id : string → string) (user reference : string) (d0 : db) :
    result sqlerr (Z * db) :=
  recover_apps (λ a, waits_for_subscription user a && negb (busy d0 a))
    (λ a, insert_recovery_job true "subscription_recovery" (new_id (a_id a)) (recovery_key reference (a_id a)) a) d0.
Definition resume_apps (user reference : string) (d : db) : result sqlerr db :=
  let recovering a := exists_row (λ j, bool_decide (j_app j = a_id a) && bool_decide (j_state j = DeploymentQueued)
                                       && has_prefix (j_key j) (reference ^+ "/")%string) (deployment_jobs (apps d)) in
  Ok (upd_apps (λ t, set_user_apps
        (update (λ a, waits_for_subscription user a && recovering a) resume_app (user_apps t)) t) d).
Definition resumeSubscriptionApps `{Releases} (new_id : string → string) (userID reference : string) :
    tx db response Z :=
  n ← stmt (insert_recovery_jobs new_id userID reference);
  exec (resume_apps userID reference);;
  mret n.

(** ** The purchase *)
Record purchase_request := { pq_PlanVersionID : string; pq_IdempotencyKey : string }.
(** The values drawn and the clock readings of one run: identifiers of the
    purchase, the bill, the credit and the jobs; [time.Now()] before and
    after the baseline is read. *)
Record purchase_env := {
  pe_id : string; pe_bill : string; pe_grant : string; pe_job : string → string;
  pe_before : timestamp; pe_now : timestamp
}.
Definition action_text (a : sub_action) : string :=
  match a with
  | ActPurchase => "purchase" | ActRenewal => "renewal" | ActUpgrade => "upgrade"
  | ActDowngrade => "downgrade" | ActChange => "change"
  end.
Definition optional_time (t : option timestamp) : jsonv := match t with Some t => JInt t | None => JNull end.
Definition purchase_status_text (s : purchase_status) : string :=
  match s with PurchaseSucceeded => "succeeded" | PurchaseInsufficientFunds => "insufficient_funds" end.
(** The object of the answers, its fields inlined. *)
Definition purchase_json (sp : subscription_purchase) (code name : string) : jsonb :=
  [("id", JStr (sp_id sp)); ("planVersionId", JStr (sp_version sp)); ("planCode", JStr code);
   ("planName", JStr name); ("action", JStr (action_text (sp_action sp)));
   ("status", JStr (purchase_status_text (sp_status sp))); ("amountCents", JInt (sp_amount sp));
   ("balanceAfterCents", JInt (sp_balance sp)); ("servicePeriodStart", JInt (sp_start sp));
   ("servicePeriodEnd", JInt (sp_stop sp)); ("subscriptionEndsAt", optional_time (sp_ends sp));
   ("createdAt", JInt (sp_created sp))].

Section purchase.
Context `{Releases} `{UuidSyntax} `{UnicodeLower} (rq : request) (env : purchase_env).

Definition purchase_row (version : string) (previous : option string) (key : string) (q : subscriptionQuote)
    (status : purchase_status) (balance : Z) (entry : option Z) : subscription_purchase :=
  {| sp_id := pe_id env; sp_user := principal rq; sp_version := version; sp_previous := previous;
     sp_key := key; sp_action := sq_Action q; sp_status := status; sp_amount := sq_AmountCents q;
     sp_balance := balance; sp_start := sq_Start q; sp_stop := sq_End q; sp_ends := sq_EndsAt q;
     sp_entry := entry; sp_created := now rq |}.
Definition purchase_audit (action rtype rid : string) (meta : jsonb) : audit_row :=
  {| au_actor := Some (audit_actor rq); au_subject := Some (principal rq); au_action := action;
     au_rtype := rtype; au_rid := rid; au_request := request_id rq; au_meta := meta |}.
Definition purchase_note (key kind severity title : string) (meta : jsonb) : notification :=
  {| n_user := principal rq; n_event_key := key; n_kind := kind; n_severity := severity; n_title := title;
     n_meta := meta; n_email := "not_requested" |}.

(** The balance is lower than the charge. *)
Definition refuse_purchase (version : string) (previous : option string) (key : string) (q : subscriptionQuote)
    (balance : Z) : program response :=
  exec (insert_purchase (purchase_row version previous key q PurchaseInsufficientFunds balance None));;
  exec (insert_notification (purchase_note ("subscription-purchase-failed/" ^+ pe_id env)%string
          "subscription_purchase_failed" "warning" "套餐购买失败"
          [("purchase_id", JStr (pe_id env)); ("plan_version_id", JStr version);
           ("required_cents", JInt (sq_AmountCents q)); ("balance_cents", JInt balance)]));;
  exec (audit (purchase_audit "subscription.purchase.insufficient" "subscription_purchase" (pe_id env)
          [("plan_version_id", JStr version); ("amount_cents", JInt (sq_AmountCents q));
           ("balance_cents", JInt balance)]));;
  commit;;
  mret (RError 409 "insufficient_balance").

Definition charge_purchase (version : string) (q : subscriptionQuote) (w : wallet) : tx db response (option Z) :=
  if 0 <? sq_AmountCents q then
    id ← stmt (on_ledger (insert_entry (w_id w) "subscription" ("subscription/" ^+ pe_id env)%string
           (- sq_AmountCents q) (w_balance w - sq_AmountCents q)
           [("purchase_id", JStr (pe_id env)); ("plan_version_id", JStr version);
            ("action", JStr (action_text (sq_Action q))); ("service_period_start", JInt (sq_Start q));
            ("service_period_end", JInt (sq_End q))]));
    exec (on_ledger_ (set_balance (w_balance w - sq_AmountCents q) (w_id w)));;
    mret (Some id)
  else mret None.

Definition grant_purchase_credit : tx db response Z :=
  g ← optional (stmt (grant_subscription_credit (pe_grant env) (principal rq) (Some (audit_actor rq)) (now rq)));
  match g with
  | None => mret 0
  | Some (id, amount, ref) =>
      exec (audit (purchase_audit "subscription.credit_grant" "credit_grant" id
              [("amount_cents", JInt amount); ("business_ref", JStr ref);
               ("source", JStr "subscription_purchase")]));;
      mret amount
  end.

(** The statement of the month. *)
Definition bill_purchase (v : plan_version) (p : plan) (q : subscriptionQuote) : tx db response unit :=
  let '(y, m, _) := date_of (pe_now env) in
  let periodStart := go_date y m 1 0 in
  billID ← stmt (upsert_bill (pe_bill env) (principal rq) periodStart (add_date periodStart 0 1 0));
  exec (insert_subscription_item {| si_bill := billID; si_purchase := pe_id env; si_version := pn_id v;
          si_code := pl_code p; si_name := pl_name p; si_action := sq_Action q; si_amount := sq_AmountCents q;
          si_start := sq_Start q; si_stop := sq_End q |});;
  exec (add_to_bill billID (sq_AmountCents q)).

Definition active_row (v : plan_version) (current : option currentSubscription) (q : subscriptionQuote) :
    user_subscription :=
  let startsAt := match current, active_until (pe_now env) current with
                  | Some c, Some _ => cs_StartsAt c
                  | _, _ => pe_now env
                  end in
  {| us_user := principal rq; us_version := pn_id v; us_entitlements := pn_entitlements v;
     us_price := pn_price v; us_status := SubActive; us_starts := startsAt; us_ends := sq_EndsAt q;
     us_grace := None |}.
Definition complete_purchase (v : plan_version) (p : plan) (current : option currentSubscription) (key : string)
    (q : subscriptionQuote) (w : wallet) : program response :=
  let previous := cs_PlanVersionID <$> current in
  let newBalance := w_balance w - sq_AmountCents q in
  ledgerID ← charge_purchase (pn_id v) q w;
  exec (upsert_subscription (active_row v current q));;
  let row := purchase_row (pn_id v) previous key q PurchaseSucceeded newBalance ledgerID in
  exec (insert_purchase row);;
  bill_purchase v p q;;
  creditGranted ← grant_purchase_credit;
  resumeJobs ← resumeSubscriptionApps (pe_job env) (principal rq) ("subscription-purchase/" ^+ pe_id env)%string;
  exec (insert_notification (purchase_note ("subscription-purchased/" ^+ pe_id env)%string
          "subscription_purchased" "info" "套餐已生效"
          [("purchase_id", JStr (pe_id env)); ("plan_version_id", JStr (pn_id v));
           ("amount_cents", JInt (sq_AmountCents q)); ("subscription_ends_at", optional_time (sq_EndsAt q))]));;
  exec (audit (purchase_audit "subscription.purchase" "subscription_purchase" (pe_id env)
          [("plan_version_id", JStr (pn_id v)); ("action", JStr (action_text (sq_Action q)));
           ("amount_cents", JInt (sq_AmountCents q)); ("balance_after_cents", JInt newBalance);
           ("resume_jobs", JInt resumeJobs)]));;
  commit;;
  mret (RJson 201 (purchase_json {| sp_id := sp_id row; sp_user := sp_user row; sp_version := sp_version row;
      sp_previous := sp_previous row; sp_key := sp_key row; sp_action := sp_action row; sp_status := sp_status row;
      sp_amount := sp_amount row; sp_balance := sp_balance row; sp_start := sp_start row; sp_stop := sp_stop row;
      sp_ends := sp_ends row; sp_entry := sp_entry row; sp_created := pe_now env |} (pl_code p) (pl_name p) ++
    [("creditGrantedCents", JInt creditGranted); ("resumeJobs", JInt resumeJobs)])).

Definition permanent (c : currentSubscription) : bool :=
  bool_decide (cs_Status c = SubActive) && bool_decide (cs_EndsAt c = None).
(** A purchase under a new key, of the version [v] of plan [p]. *)
Definition purchase_target (version key : string) (v : plan_version) (p : plan) : program response :=
  current ← optional (query (loadCurrentSubscription (principal rq)));
  guard_exit (negb (canPurchasePlan (pl_purchase_enabled p) current (pl_id p)))
    (RError 404 "plan_version_unavailable");;
  guard_exit (match current with
              | Some c => permanent c && bool_decide (cs_PlanVersionID c = version)
              | None => false end) (RError 409 "subscription_no_change");;
  (match current with
   | Some c =>
       if negb (bool_decide (cs_PlanVersionID c = version)) then
         future ← query (λ d, Ok (future_cycles (principal rq) (now rq) d));
         guard_exit future (RError 409 "prepaid_cycles_locked")
       else mret tt
   | None => mret tt
   end);;
  w ← query (λ d, select_wallet (principal rq) (ledger d));
  baseline ← query (λ d, Ok (paid_baseline (principal rq) (now rq) d));
  let baseline := with_current (pe_before env) current baseline in
  let quote := quoteSubscription (pe_now env) current (pl_id p) version (pn_price v) baseline in
  query (λ _, Ok tt);; (* SELECT gen_random_uuid() *)
  if w_balance w <? sq_AmountCents quote
  then refuse_purchase version (cs_PlanVersionID <$> current) key quote (w_balance w)
  else complete_purchase v p current key quote w.
Definition purchaseSubscription (q : option purchase_request) : program response :=
  match q with
  | None => exit (RError 400 "invalid_request")
  | Some q =>
    let version := to_lower (trim_space (pq_PlanVersionID q)) in
    let key := trim_space (pq_IdempotencyKey q) in
    guard_exit (negb (valid_uuid version) || bool_decide (key = "") || (128 <? slen key))
      (RError 400 "validation_failed");;
    begin_tx;;
    on_error (query (select_active_user (principal rq))) (RError 403 "account_unavailable");;
    existing ← optional (query (select_purchase (principal rq) key));
    match existing with
    | Some (sp, p) =>
        guard_exit (negb (bool_decide (sp_version sp = version))) (RError 409 "idempotency_conflict");;
        ignore commit;;
        guard_exit (bool_decide (sp_status sp = PurchaseInsufficientFunds)) (RError 409 "insufficient_balance");;
        mret (RJson 200 (purchase_json sp (pl_code p) (pl_name p) ++ [("idempotent", JBool true)]))
    | None =>
        target ← on_no_rows (query (select_target version (now rq))) (exit (RError 404 "plan_version_unavailable"));
        purchase_target version key target.1 target.2
    end
  end.
End purchase.
