(* ===== verification/SubscriptionFacts.v ===== *)
(** * Correctness of subscriptions

    The calendar of the cycles, the quotes, and what a purchase changes: the
    ledger, the purchases, the bills and the credits stay in step. *)
From S2P Require Import Prelude GoStrings GoTime Domain Money Tx Table Ledger Schema Http.
From S2P Require Import Payments PaymentFacts Posting Accounts AccountFacts Bills Recovery Subscriptions.
From stdpp Require Import list.
Open Scope string_scope.
Open Scope Z_scope.
Open Scope list_scope.

(** ** The calendar *)
(** The month of a date, counted from January of year 0. *)
Definition month_index (t : timestamp) : Z := let '(y, m, _) := date_of t in 12 * y + m - 1.
Definition day_of (t : timestamp) : Z := (date_of t).2.
Lemma civil_of t : t = (month_start (month_index t) + (day_of t - 1)) * day_length + time_of_day t.
Proof.
  pose proof (go_date_date_of t) as H. unfold month_index, day_of. destruct (date_of t) as [[y m] d].
  cbn [snd]. rewrite <- H at 1. apply go_date_month.
Qed.
Lemma day_of_bounds t : 1 <= day_of t <= length_of (month_index t).
Proof.
  pose proof (date_of_spec t) as H. unfold month_index, day_of. destruct (date_of t) as [[y m] d]. apply H.
Qed.
Lemma time_of_day_bounds t : 0 <= time_of_day t < day_length.
Proof. apply Z.mod_pos_bound. by vm_compute. Qed.
(** [time.Date] only looks at the month's index. *)
Lemma go_date_index y m d tod :
  1 <= d <= length_of (12 * y + m - 1) → 0 <= tod < day_length →
  month_index (go_date y m d tod) = 12 * y + m - 1 ∧ day_of (go_date y m d tod) = d ∧
  time_of_day (go_date y m d tod) = tod.
Proof.
  intros Hd Ht. set (n := 12 * y + m - 1) in *.
  assert (go_date y m d tod = go_date (n / 12) (n mod 12 + 1) d tod) as ->.
  { rewrite !go_date_month. do 4 f_equal. pose proof (Z_div_mod_eq_full n 12). lia. }
  assert (12 * (n / 12) + (n mod 12 + 1) - 1 = n) as En by (pose proof (Z_div_mod_eq_full n 12); lia).
  destruct (date_of_go_date (n / 12) (n mod 12 + 1) d tod) as [E1 E2]; try done.
  - pose proof (Z.mod_pos_bound n 12). lia.
  - by rewrite En.
  - unfold month_index, day_of. by rewrite E1.
Qed.
Lemma last_day y m tod :
  1 <= m <= 12 → 0 <= tod < day_length →
  day_of (add_date (go_date y m 1 tod) 0 1 (-1)) = length_of (12 * y + m - 1).
Proof.
  intros Hm Ht. pose proof (length_of_bounds (12 * y + m - 1)) as Hl. unfold add_date.
  destruct (date_of_go_date y m 1 tod) as [-> ->]; [done|lia|done|].
  assert (go_date (y + 0) (m + 1) (1 + -1) tod = go_date y m (length_of (12 * y + m - 1)) tod) as ->.
  { rewrite !go_date_month. unfold length_of.
    replace (12 * (y + 0) + (m + 1) - 1) with (12 * y + m - 1 + 1) by lia. f_equal. f_equal. lia. }
  apply (go_date_index y m); lia.
Qed.
(** The first instant of a month. *)
Definition first_of_month (n : Z) (t : timestamp) : Prop := month_index t = n ∧ day_of t = 1 ∧ time_of_day t = 0.
Lemma first_of_month_eq n t t' : first_of_month n t → first_of_month n t' → t = t'.
Proof. intros (H1 & H2 & H3) (H1' & H2' & H3'). rewrite (civil_of t), (civil_of t'). congruence. Qed.
Lemma go_date_first y m : first_of_month (12 * y + m - 1) (go_date y m 1 0).
Proof.
  pose proof (length_of_bounds (12 * y + m - 1)). apply go_date_index; [lia|]. by vm_compute.
Qed.
Lemma add_month_first y m : 1 <= m <= 12 → first_of_month (12 * y + m - 1 + 1) (add_date (go_date y m 1 0) 0 1 0).
Proof.
  intros Hm. pose proof (length_of_bounds (12 * y + m - 1)). unfold add_date.
  destruct (date_of_go_date y m 1 0) as [-> ->]; [done|lia|by vm_compute|].
  replace (12 * y + m - 1 + 1) with (12 * (y + 0) + (m + 1) - 1) by lia. apply go_date_first.
Qed.
#[local] Opaque date_of go_date add_date time_of_day day_length month_start.
Lemma add_month_index t :
  month_index (addCalendarMonth t) = month_index t + 1 ∧
  day_of (addCalendarMonth t) = Z.min (day_of t) (length_of (month_index t + 1)) ∧
  time_of_day (addCalendarMonth t) = time_of_day t.
Proof.
  pose proof (day_of_bounds t) as Hd. pose proof (time_of_day_bounds t) as Ht.
  set (n := month_index t) in *. set (tod := time_of_day t) in *. set (d0 := day_of t) in *.
  assert (∃ y m, date_of t = (y, m, d0) ∧ 12 * y + m - 1 = n) as (y & m & Et & En).
  { unfold d0, n, day_of, month_index. destruct (date_of t) as [[y m] d]. by exists y, m. }
  unfold addCalendarMonth. rewrite Et. fold tod.
  pose proof (length_of_bounds (n + 1)) as Hl.
  destruct (go_date_index y (m + 1) 1 tod) as (I1 & I2 & I3); [replace (12 * y + (m + 1) - 1) with (n + 1); lia|done|].
  replace (12 * y + (m + 1) - 1) with (n + 1) in I1 by lia. set (N := go_date y (m + 1) 1 tod) in *.
  pose proof (date_of_spec N) as HN. pose proof (go_date_date_of N) as HN'.
  unfold month_index in I1. unfold day_of in I2.
  destruct (date_of N) as [[y1 m1] d1] eqn:E1. cbn [snd] in I2. subst d1. rewrite I3 in HN'.
  destruct HN as (_ & Hm1 & _). pose proof (last_day y1 m1 tod Hm1 Ht) as HL. rewrite HN', I1 in HL.
  unfold day_of in HL. rewrite HL. replace (if length_of (n + 1) <? d0 then length_of (n + 1) else d0)
    with (Z.min d0 (length_of (n + 1))) by (destruct (Z.ltb_spec (length_of (n + 1)) d0); lia).
  cbn [snd] in Hd. destruct (go_date_index y1 m1 (Z.min d0 (length_of (n + 1))) tod) as (J1 & J2 & J3);
    [rewrite I1; lia|done|]. by rewrite J1, I1.
Qed.

(** C13: [addCalendarMonth] gives the same day of the next month at the same
    time of day, or the last day of that month when it is too short; between
    28 and 31 days later. *)
Theorem addCalendarMonth_spec t :
  month_index (addCalendarMonth t) = month_index t + 1 ∧
  day_of (addCalendarMonth t) = Z.min (day_of t) (length_of (month_index t + 1)) ∧
  time_of_day (addCalendarMonth t) = time_of_day t ∧
  t + 28 * day_length <= addCalendarMonth t <= t + 31 * day_length.
Proof.
  destruct (add_month_index t) as (H1 & H2 & H3). split_and!; [done..| |].
  all: pose proof (civil_of (addCalendarMonth t)) as Ha; pose proof (civil_of t) as Ht;
    rewrite H1, H2, H3 in Ha; pose proof (day_of_bounds t) as Hd;
    pose proof (length_of_bounds (month_index t)) as Hl; pose proof (length_of_bounds (month_index t + 1)) as Hl';
    assert (month_start (month_index t + 1) = month_start (month_index t) + length_of (month_index t)) as Hs
      by (unfold length_of; lia);
    assert (0 < day_length) as Hday by by vm_compute.
  all: rewrite Hs in Ha; clear Hs H1 H2 H3.
  all: assert (28 <= length_of (month_index t) + (Z.min (day_of t) (length_of (month_index t + 1)) - day_of t) <= 31)
    as Hb by lia.
  all: revert Ha Hb; generalize (Z.min (day_of t) (length_of (month_index t + 1))); intros k Ha Hb.
  all: clear Hd Hl Hl'; revert Ht Ha Hb; generalize (addCalendarMonth t) as u; generalize (length_of (month_index t));
    generalize (month_start (month_index t)); generalize (day_of t); generalize (time_of_day t);
    revert Hday; generalize day_length; intros; nia.
Qed.

(** The 31st: a subscription that is renewed through February stays at its last
    day. *)
Definition midnight (y m d : Z) : timestamp := go_date y m d 0.
Example addCalendarMonth_drift :
  addCalendarMonth (midnight 2024 1 31) = midnight 2024 2 29 ∧
  addCalendarMonth (addCalendarMonth (midnight 2024 1 31)) = midnight 2024 3 29.
Proof. by vm_compute. Qed.

(** ** Quotes *)
Lemma addCalendarMonth_later t : t < addCalendarMonth t.
Proof.
  destruct (add_month_index t) as (H1 & H2 & H3).
  pose proof (civil_of (addCalendarMonth t)) as Ha. pose proof (civil_of t) as Ht.
  rewrite H1, H2, H3 in Ha. pose proof (day_of_bounds t) as Hd. pose proof (length_of_bounds (month_index t + 1)) as Hl'.
  assert (month_start (month_index t + 1) = month_start (month_index t) + length_of (month_index t)) as Hs
    by (unfold length_of; lia).
  assert (0 < day_length) as Hday by by vm_compute. rewrite Hs in Ha. clear Hs H1 H2 H3.
  assert (0 < length_of (month_index t) + (Z.min (day_of t) (length_of (month_index t + 1)) - day_of t)) as Hb by lia.
  revert Ha Hb; generalize (Z.min (day_of t) (length_of (month_index t + 1))); intros k Ha Hb.
  clear Hd Hl'. revert Ht Ha Hb; generalize (addCalendarMonth t) as u; generalize (length_of (month_index t));
    generalize (month_start (month_index t)); generalize (day_of t); generalize (time_of_day t);
    revert Hday; generalize day_length; intros; nia.
Qed.
Lemma active_until_spec now c e :
  active_until now (Some c) = Some e ↔ cs_Status c = SubActive ∧ cs_EndsAt c = Some e ∧ now < e.
Proof.
  unfold active_until. destruct (cs_Status c); try naive_solver.
  destruct (cs_EndsAt c) as [x|]; [|naive_solver]. destruct (Z.ltb_spec now x); naive_solver lia.
Qed.
Definition price_limit : Z := 1000000000000.

(** The cycle of a subscription runs until [e]. *)
Definition running (now : timestamp) (c : currentSubscription) (e : timestamp) : Prop :=
  cs_Status c = SubActive ∧ cs_EndsAt c = Some e ∧ now < e.
(** What a change from one price to another is called. *)
Definition named_by_price (old new : Z) (action : sub_action) : Prop :=
  (old < new → action = ActUpgrade) ∧ (new < old → action = ActDowngrade) ∧ (new = old → action = ActChange).
(** A subscription to a plan that costs nothing has no end. *)
Definition end_unless_free (price : Z) (end_ : timestamp) (ends : option timestamp) : Prop :=
  (price = 0 → ends = None) ∧ (price ≠ 0 → ends = Some end_).
Lemma price_action_named old new : named_by_price old new (price_action new old ActChange).
Proof. unfold named_by_price, price_action. destruct (Z.ltb_spec old new), (Z.ltb_spec new old); split_and!; lia || done. Qed.
Lemma end_unless_free_if price end_ :
  0 <= price → end_unless_free price end_ (if 0 <? price then Some end_ else None).
Proof. intros Hp. unfold end_unless_free. destruct (Z.ltb_spec 0 price); split; lia || done. Qed.
Lemma active_until_none now c :
  (∀ e, ¬ running now c e) → active_until now (Some c) = None.
Proof. intros Hn. destruct (active_until now (Some c)) as [e|] eqn:E; [|done]. by apply active_until_spec, Hn in E. Qed.

(** C12: the quote in every case; it never charges more than the price nor less
    than nothing, and its period is not empty.  The renewal of a running cycle
    charges the full price for the month that begins when the cycle ends, and
    moves the end there.  A change of version within a running cycle charges what
    the new price exceeds the paid one, so that the paid price and the charge
    together are the higher of both, starts now and keeps the end of the cycle.
    Without a running cycle a month is bought from now at the full price; this is
    a renewal of the plan the customer has, or a change to another one.  A change
    is an upgrade or a downgrade by the prices of the two versions; a
    subscription has no end exactly when its plan is free (a renewal of a
    running cycle always has one). *)
Theorem quoteSubscription_spec now current plan version target baseline :
  0 <= target <= price_limit → 0 <= baseline <= price_limit →
  let q := quoteSubscription now current plan version target baseline in
  let month_from_now := sq_AmountCents q = target ∧ sq_Start q = now ∧ sq_End q = addCalendarMonth now ∧
    end_unless_free target (addCalendarMonth now) (sq_EndsAt q) in
  0 <= sq_AmountCents q <= target ∧ sq_Start q < sq_End q ∧
  match current with
  | None => sq_Action q = ActPurchase ∧ month_from_now
  | Some c =>
      (∀ e, running now c e → cs_PlanVersionID c = version →
         sq_Action q = ActRenewal ∧ sq_AmountCents q = target ∧ sq_Start q = e ∧ sq_End q = addCalendarMonth e ∧
         sq_EndsAt q = Some (addCalendarMonth e)) ∧
      (∀ e, running now c e → cs_PlanVersionID c ≠ version →
         named_by_price (cs_CyclePriceCents c) target (sq_Action q) ∧
         baseline + sq_AmountCents q = Z.max baseline target ∧ sq_Start q = now ∧ sq_End q = e ∧
         end_unless_free target e (sq_EndsAt q)) ∧
      ((∀ e, ¬ running now c e) →
         (cs_PlanID c = plan → sq_Action q = ActRenewal) ∧
         (cs_PlanID c ≠ plan → named_by_price (cs_CyclePriceCents c) target (sq_Action q)) ∧ month_from_now)
  end.
Proof.
  intros Ht Hb q. unfold price_limit in Ht, Hb.
  assert (wrap64 (target - baseline) = target - baseline) as Hw
    by (apply wrap64_id; unfold is_int64, int64_min, int64_max; lia).
  pose proof (addCalendarMonth_later now) as Hnow. pose proof (end_unless_free_if target) as Hend.
  assert (q = quoteSubscription now current plan version target baseline) as Eq by done. clearbody q.
  unfold quoteSubscription in Eq. destruct current as [c|]; cbv zeta.
  - assert (∀ e, running now c e → active_until now (Some c) = Some e) as Hrun by (by intros e ?; apply active_until_spec).
    destruct (active_until now (Some c)) as [e|] eqn:Ea.
    + pose proof (addCalendarMonth_later e) as He. apply active_until_spec in Ea as Hr. case_bool_decide as Hv;
        rewrite ?Hw in Eq; subst q; cbn [sq_AmountCents sq_Start sq_End sq_EndsAt sq_Action].
      * split_and!; try lia; [|done|by intros Hn; apply Hn in Hr]. by intros e' [= <-]%Hrun _.
      * destruct Hr as (_ & _ & Hlt). destruct (Z.ltb_spec (target - baseline) 0); (split_and!; try lia; try done;
          [|by intros Hn; apply active_until_spec, Hn in Ea]);
        intros e' [= <-]%Hrun _; split_and!; try lia; first [apply price_action_named|apply Hend; lia].
    + subst q. cbn [sq_AmountCents sq_Start sq_End sq_EndsAt sq_Action].
      split_and!; try lia; [by intros e ?%Hrun..|]. intros _. split_and!; try done; [| |apply Hend; lia].
      * intros ->. by rewrite bool_decide_eq_true_2.
      * intros Hp. rewrite bool_decide_eq_false_2 by done. apply price_action_named.
  - subst q. cbn [sq_AmountCents sq_Start sq_End sq_EndsAt sq_Action]. split_and!; try lia; try done. apply Hend. lia.
Qed.

(** ** The books of subscriptions

    A succeeded purchase with a charge has exactly one entry, of the negated
    charge, in the wallet of the customer, and every succeeded purchase is one
    item of a bill; other purchases have neither. *)
Definition purchase_ref (id : string) : string := ("subscription/" ^+ id)%string.
Definition purchase_charge (p : subscription_purchase) : list Z :=
  if succeeded p && (0 <? sp_amount p) then [- sp_amount p] else [].
Definition items_of (id : string) (d : db) : list Z :=
  si_amount <$> List.filter (λ i, bool_decide (si_purchase i = id)) (subscription_bill_items (subs d)).
Record subs_ok (d : db) : Prop := {
  so_ids : NoDup (sp_id <$> subscription_purchases (subs d));
  so_keys : NoDup ((λ p, (sp_user p, sp_key p)) <$> subscription_purchases (subs d));
  so_amounts : Forall (λ p, 0 <= sp_amount p) (subscription_purchases (subs d));
  so_users : NoDup (us_user <$> user_subscriptions (subs d));
  so_booked : ∀ p w, p ∈ subscription_purchases (subs d) → w ∈ wallets (ledger d) → w_user w = sp_user p →
    key_amounts (w_id w) "subscription" (purchase_ref (sp_id p)) (ledger d) = purchase_charge p;
  so_entries : ∀ e, e ∈ entries (ledger d) → e_type e = "subscription" →
    ∃ p w, p ∈ subscription_purchases (subs d) ∧ e_ref e = purchase_ref (sp_id p) ∧
      w ∈ wallets (ledger d) ∧ w_id w = e_wallet e ∧ w_user w = sp_user p;
  so_items : ∀ p, p ∈ subscription_purchases (subs d) →
    items_of (sp_id p) d = if succeeded p then [sp_amount p] else [];
  so_item_owner : ∀ i, i ∈ subscription_bill_items (subs d) →
    ∃ p, p ∈ subscription_purchases (subs d) ∧ sp_id p = si_purchase i
}.

(** An item and the total it is added to. *)
Lemma bill_item_ok d row d1 d2 :
  bills_ok d → si_bill row ∈ b_id <$> bills (usage d) →
  insert_subscription_item row d = Ok d1 → add_to_bill (si_bill row) (si_amount row) d1 = Ok d2 →
  bills_ok d2 ∧ d2 = upd_usage (λ t, set_bills (update (bill_is (si_bill row))
                        (λ b, with_total (b_total b + si_amount row) b) (bills t)) t)
                       (upd_subs (λ t, set_subscription_bill_items (subscription_bill_items t ++ [row]) t) d).
Proof.
  intros Hok Hin. unfold insert_subscription_item.
  destruct (exists_row _ _); [done|]. destruct (_ <? 0); [done|]. destruct (_ <=? _); [done|]. intros [= <-].
  unfold add_to_bill. destruct (negb _); [done|]. destruct (negb _); [done|]. intros [= <-].
  split; [|done]. apply (bills_ok_item d _ (si_bill row) (si_amount row)); [done..| | |by left].
  - intros id. unfold bill_items_sum. cbn [upd_usage usage subs set_bills bill_items upd_subs
      set_subscription_bill_items subscription_bill_items]. rewrite List.filter_app, fmap_app, sumZ_app. cbn [List.filter].
    case_bool_decide; cbn; lia.
  - intros i [Hi| ->%list_elem_of_singleton]%elem_of_app; [by left|by right].
Qed.

(** *** Credits of the plan *)
(** The months of the years 0 to 9999, in which a period has seven characters. *)
Definition in_calendar (t : timestamp) : Prop := 0 <= month_index t < 120000.
Lemma next_month_first t : first_of_month (month_index t + 1) (next_month t).
Proof.
  unfold next_month, month_index at 1. destruct (date_of t) as [[y m] d].
  replace (12 * y + m - 1 + 1) with (12 * y + (m + 1) - 1) by lia. apply go_date_first.
Qed.
Lemma credit_period_month t t' : month_index t = month_index t' → credit_period t = credit_period t'.
Proof.
  unfold month_index, credit_period. intros E.
  pose proof (date_of_spec t) as D1. pose proof (date_of_spec t') as D2.
  pose proof (date_month_text t) as M1. pose proof (date_month_text t') as M2.
  destruct (date_of t) as [[y m] d], (date_of t') as [[y' m'] d'].
  destruct D1 as (_ & D1 & _), D2 as (_ & D2 & _).
  assert (y = y' ∧ m = m') as [-> ->] by lia. apply (inj chars).
  destruct M1 as (r1 & E1 & L & _), M2 as (r2 & E2 & _). by rewrite !chars_substring, E1, E2, !take_app_le by done.
Qed.
Lemma credit_period_length t : List.length (chars (credit_period t)) = 7%nat.
Proof.
  unfold credit_period. pose proof (date_month_text t) as M. destruct (date_of t) as [[y m] d].
  destruct M as (r & E & L & _). rewrite chars_substring, E, take_app_le, length_take by done. lia.
Qed.
Lemma credit_period_apart t t' :
  in_calendar t → in_calendar t' → credit_period t = credit_period t' → month_index t = month_index t'.
Proof.
  unfold in_calendar, month_index, credit_period. intros Ht Ht' E.
  pose proof (date_of_spec t) as D1. pose proof (date_of_spec t') as D2.
  pose proof (date_month_text t) as M1. pose proof (date_month_text t') as M2.
  destruct (date_of t) as [[y m] d], (date_of t') as [[y' m'] d'].
  destruct D1 as (_ & D1 & _), D2 as (_ & D2 & _). destruct M1 as (r1 & E1 & _ & L1), M2 as (r2 & E2 & _ & L2).
  apply (f_equal chars) in E. rewrite !chars_substring, E1, E2, !take_app_length' in E by (rewrite ?L1, ?L2; lia).
  apply month_text_inj in E; lia.
Qed.

(** The grants that count for a month are those of its period. *)
Definition credit_ref (user : string) (at_ : timestamp) (target : Z) : string :=
  (credit_prefix user at_ ^+ "/to-" ^+ format_int target)%string.
Lemma of_period_same user at_ target g : cg_ref g = credit_ref user at_ target → of_period (credit_prefix user at_) g = true.
Proof.
  intros Hg. unfold of_period. rewrite Hg. apply orb_true_iff. right. apply has_prefix_spec.
  exists ("to-" ^+ format_int target)%string. apply (inj chars). unfold credit_ref. rewrite !chars_app. by rewrite <- !app_assoc.
Qed.
Lemma of_period_other user at_ at' target g :
  credit_period at' ≠ credit_period at_ → cg_ref g = credit_ref user at_ target → of_period (credit_prefix user at') g = false.
Proof.
  intros Hne Hg. apply not_true_iff_false. unfold of_period. rewrite Hg, orb_true_iff, bool_decide_eq_true. intros Hp.
  apply Hne. clear Hne Hg.
  assert (∃ x y, chars (credit_period at_) ++ x = chars (credit_period at') ++ y) as (x & y & E).
  { unfold credit_ref, credit_prefix in Hp. destruct Hp as [Hp|(t & Hp)%has_prefix_spec]; apply (f_equal chars) in Hp;
      rewrite !chars_app, <- !app_assoc in Hp; do 3 apply app_inv_head in Hp.
    - eexists _, []. rewrite (app_nil_r (chars (credit_period at'))). exact Hp.
    - eexists _, _. exact Hp. }
  apply (inj chars). apply app_inj_1 in E as [<- _]; [done|]. by rewrite !credit_period_length.
Qed.

(** What a top-up appends: one grant of what is missing to the promise of the
    month, all of it to be used before the month ends. *)
Record topped_up (user : string) (at_ : timestamp) (promised : Z) (g : credit_grant) (d : db) : Prop := {
  tu_user : cg_user g = user;
  tu_whole : 0 < cg_amount g ∧ cg_remaining g = cg_amount g;
  tu_amount : granted_in user (credit_prefix user at_) d + cg_amount g = promised;
  tu_ref : cg_ref g = credit_ref user at_ promised;
  tu_expires : ∃ e, cg_expires g = Some e ∧ first_of_month (month_index at_ + 1) e
}.
Lemma grant_credit_inv id user by_ at_ d res d1 :
  grant_subscription_credit id user by_ at_ d = Ok (res, d1) →
  ∃ us g, insert_grant g d = Ok d1 ∧ cg_id g = id ∧
    select (λ us, bool_decide (us_user us = user) && entitled at_ us) (user_subscriptions (subs d)) = Ok us ∧
    topped_up user at_ (creditGrantCents (us_entitlements us)) g d ∧
    creditGrantCents (us_entitlements us) <= 1000000000000 ∧ res = (id, cg_amount g, cg_ref g).
Proof.
  unfold grant_subscription_credit. destruct (select_active_user _ _); [|done].
  destruct (select _ (user_subscriptions _)) as [us|] eqn:Es; [|done]. cbv zeta.
  destruct (_ <=? 0); [done|]. destruct (_ <? _) eqn:El; [done|]. destruct (negb _); [done|].
  destruct (_ <=? granted_in _ _ _) eqn:Eg; [done|]. destruct (exists_row _ _); [done|].
  match goal with |- context [insert_grant ?r d] => set (row := r) end.
  destruct (insert_grant row d) as [d2|] eqn:Ei; [|done]. intros [= <- <-].
  bool_hyps. exists us, row. split_and!; try done.
  constructor; cbn [row cg_user cg_amount cg_remaining cg_ref cg_expires]; [done|lia|lia|done|].
  eexists. split; [done|]. apply next_month_first.
Qed.
Lemma insert_grant_granted row d d1 user prefix :
  insert_grant row d = Ok d1 → cg_user row = user →
  granted_in user prefix d1 = granted_in user prefix d + if of_period prefix row then cg_amount row else 0.
Proof.
  intros (-> & _ & _)%insert_grant_inv Hu. unfold granted_in.
  cbn [upd_credits credits set_grants grants]. rewrite List.filter_app, fmap_app, sumZ_app. cbn [List.filter].
  rewrite bool_decide_eq_true_2 by done. cbn [andb]. destruct (of_period prefix row); cbn; lia.
Qed.
(** Nothing is granted when the promise is met. *)
Lemma grant_credit_met id user by_ at_ us d :
  NoDup (us_user <$> user_subscriptions (subs d)) → us ∈ user_subscriptions (subs d) → us_user us = user →
  granted_in user (credit_prefix user at_) d = creditGrantCents (us_entitlements us) →
  creditGrantCents (us_entitlements us) <= 1000000000000 →
  grant_subscription_credit id user by_ at_ d = Err NoRows.
Proof.
  intros Hnd Hus Hu Hmet Hlim. unfold grant_subscription_credit. destruct (select_active_user _ _); [|done].
  destruct (select _ (user_subscriptions _)) as [us'|] eqn:Es; [|done].
  apply select_ok in Es as [Hus' Hp]. bool_hyps.
  assert (us' = us) as -> by (apply (key_inj us_user (user_subscriptions (subs d))); [done..|congruence]).
  cbv zeta. destruct (Z.leb_spec (creditGrantCents (us_entitlements us)) 0); [done|].
  rewrite (proj2 (Z.ltb_ge _ _)) by lia. rewrite Hmet.
  assert (in64 (creditGrantCents (us_entitlements us)) = true) as ->
    by (apply in64_spec; unfold is_int64, int64_min, int64_max; lia).
  by rewrite Z.leb_refl.
Qed.

(** C14: the monthly credit of a plan is topped up, never doubled.  When
    [grant_subscription_credit] grants anything, it appends one grant, of what is
    missing to what the plan of the moment promises for the month (whatever plans
    the customer had before in it), which expires when the next month begins.
    What was granted for the month is then exactly the promise, and asking again
    at any time of the same month grants nothing; the grant does not count for
    any other month of the calendar. *)
Theorem grant_subscription_credit_topup id user by_ at_ d res d1 :
  NoDup (us_user <$> user_subscriptions (subs d)) →
  grant_subscription_credit id user by_ at_ d = Ok (res, d1) →
  ∃ us g, us ∈ user_subscriptions (subs d) ∧ us_user us = user ∧ entitled at_ us = true ∧
    let promised := creditGrantCents (us_entitlements us) in
    grants (credits d1) = grants (credits d) ++ [g] ∧ topped_up user at_ promised g d ∧
    (∀ id' by_' at', month_index at' = month_index at_ →
       granted_in user (credit_prefix user at') d1 = promised ∧
       grant_subscription_credit id' user by_' at' d1 = Err NoRows) ∧
    (∀ at', in_calendar at_ → in_calendar at' → month_index at' ≠ month_index at_ →
       granted_in user (credit_prefix user at') d1 = granted_in user (credit_prefix user at') d).
Proof.
  intros Hnd Hg. destruct (grant_credit_inv _ _ _ _ _ _ _ Hg) as (us & g & Hi & _ & Hsel & Ht & Hlim & _).
  apply select_ok in Hsel as [Hus Hent]. apply andb_true_iff in Hent as [Hu%bool_decide_eq_true Hent].
  exists us, g. cbv zeta.
  pose proof (λ prefix, insert_grant_granted g d d1 user prefix Hi (tu_user _ _ _ _ _ Ht)) as Hsum.
  apply insert_grant_inv in Hi as (-> & _ & _). split_and!; try done.
  - intros id' by_' at' Hm.
    assert (credit_prefix user at' = credit_prefix user at_) as Ep by (unfold credit_prefix; by rewrite (credit_period_month at' at_)).
    assert (granted_in user (credit_prefix user at') (upd_credits (λ t, set_grants (grants t ++ [g]) t) d) =
      creditGrantCents (us_entitlements us)) as Hmet.
    { rewrite Ep, Hsum, (of_period_same _ _ _ _ (tu_ref _ _ _ _ _ Ht)). apply Ht. }
    split; [done|]. by apply (grant_credit_met _ _ _ _ us).
  - intros at' Hc Hc' Hne. rewrite Hsum, (of_period_other user at_ at' _ g (λ E, Hne (credit_period_apart _ _ Hc' Hc E))
      (tu_ref _ _ _ _ _ Ht)). lia.
Qed.

(** ** The statements of a purchase, one after the other *)
Section purchase.
Context `{Releases} `{UuidSyntax} `{UnicodeLower} (rq : request) (env : purchase_env).

Definition charge_meta (version : string) (q : subscriptionQuote) : jsonb :=
  [("purchase_id", JStr (pe_id env)); ("plan_version_id", JStr version);
   ("action", JStr (action_text (sq_Action q))); ("service_period_start", JInt (sq_Start q));
   ("service_period_end", JInt (sq_End q))].
Definition charged (version : string) (q : subscriptionQuote) (w : wallet) (d : db) : db :=
  if 0 <? sq_AmountCents q
  then upd_ledger (λ l, post l w "subscription" (purchase_ref (pe_id env)) (- sq_AmountCents q) (charge_meta version q)) d
  else d.
Definition charge_entry (q : subscriptionQuote) (d : db) : option Z :=
  if 0 <? sq_AmountCents q then Some (next_entry (ledger d)) else None.
Definition chargeable (q : subscriptionQuote) (w : wallet) (d : db) : Prop :=
  0 < sq_AmountCents q → in64 (w_balance w + - sq_AmountCents q) = true ∧
    ∀ e, e ∈ entries (ledger d) → entry_key e ≠ (w_id w, "subscription", purchase_ref (pe_id env)).

Lemma wp_charge version q w d dl n (Φ : out response (option Z) → txst db → Prop) :
  ledger_ok (ledger d) → w ∈ wallets (ledger d) → tolerates Φ →
  (∀ n, chargeable q w d → Φ (Val (charge_entry q d)) (live (charged version q w d) dl n)) →
  wp (charge_purchase env version q w) Φ (live d dl n).
Proof.
  intros Hok Hw HΦ Hk. unfold charge_purchase, charge_entry, charged, chargeable in *.
  destruct (0 <? sq_AmountCents q) eqn:Ea; bool_hyps; [|by apply wp_ret, Hk; lia].
  apply (wp_post d w "subscription" (purchase_ref (pe_id env)) (- sq_AmountCents q)
    (w_balance w - sq_AmountCents q) (charge_meta version q)); try done.
  intros Hz H64 Hfresh. apply wp_ret, Hk. by intros _.
Qed.

(** The columns a statement leaves alone. *)
Record others_same (d d' : db) : Prop := {
  os_users : users d' = users d; os_payments : payments d' = payments d; os_checkins : checkins d' = checkins d;
  os_settings : checkin_settings d' = checkin_settings d; os_invites : invites d' = invites d
}.
#[local] Instance others_same_preorder : PreOrder others_same.
Proof. split; [by constructor|]. intros a b c [] []. constructor; congruence. Qed.

Definition purchase_item (v : plan_version) (p : plan) (q : subscriptionQuote) (bid : string) : subscription_bill_item :=
  {| si_bill := bid; si_purchase := pe_id env; si_version := pn_id v; si_code := pl_code p; si_name := pl_name p;
     si_action := sq_Action q; si_amount := sq_AmountCents q; si_start := sq_Start q; si_stop := sq_End q |}.
(** The customer's bill of the calendar month of the purchase. *)
Definition bill_of_month (b : bill) : Prop :=
  b_user b = principal rq ∧ first_of_month (month_index (pe_now env)) (b_start b) ∧
  first_of_month (month_index (pe_now env) + 1) (b_stop b).
(** That bill, new or not, grows by the charge; the others stay as they are. *)
Record month_billed (q : subscriptionQuote) (bid : string) (bs bs' : list bill) : Prop := {
  mb_bill : ∃ b, b ∈ bs' ∧ b_id b = bid ∧ bill_of_month b ∧
    ((∃ b0, b0 ∈ bs ∧ b_id b0 = bid ∧ bill_of_month b0 ∧ b_total b = b_total b0 + sq_AmountCents q) ∨
     (∀ x, x ∈ bs → b_id x ≠ bid ∧ ¬ bill_of_month x) ∧ b_total b = sq_AmountCents q);
  mb_others : ∀ x, b_id x ≠ bid → x ∈ bs' ↔ x ∈ bs
}.
Lemma update_others {A} (k : A → bool) (f : A → A) l x :
  k x = false → (∀ y, k (f y) = k y) → x ∈ update k f l ↔ x ∈ l.
Proof.
  intros Hx Hf. rewrite elem_of_update. split.
  - intros (y & Hy & ->). destruct (k y) eqn:E; [|done]. by rewrite Hf, E in Hx.
  - intros Hl. exists x. by rewrite Hx.
Qed.
Lemma upsert_bill_month q bid d d1 start stop :
  first_of_month (month_index (pe_now env)) start → first_of_month (month_index (pe_now env) + 1) stop →
  upsert_bill (pe_bill env) (principal rq) start stop d = Ok (bid, d1) →
  month_billed q bid (bills (usage d))
    (update (bill_is bid) (λ b, with_total (b_total b + sq_AmountCents q) b) (bills (usage d1))).
Proof.
  intros Hs Ht. unfold upsert_bill.
  set (grow := λ b, with_total (b_total b + sq_AmountCents q) b).
  assert (∀ b, bill_is bid (grow b) = bill_is bid b) as Hk by done.
  assert (∀ b, b_id b = bid → bill_is bid b = true) as Hid by (intros b; apply bool_decide_eq_true_2).
  assert (∀ x, b_id x ≠ bid → bill_is bid x = false) as Hno by (intros b; apply bool_decide_eq_false_2).
  destruct (select _ _) as [b|e] eqn:Es.
  - intros [= <- <-]. apply select_ok in Es as [Hb Hp]. bool_hyps.
    assert (bill_of_month b) as Hm by (unfold bill_of_month; by subst).
    constructor; [|intros x Hx; apply update_others; auto].
    exists (grow b). split; [apply elem_of_update; exists b; by rewrite Hid|]. split_and!; [done|by apply Hm..|].
    left. by exists b.
  - apply select_err in Es as [_ Hnone]. destruct (exists_row _ _) eqn:Eid; [done|]. destruct (stop <=? start); [done|].
    intros [= <- <-]. rewrite exists_row_false in Eid. cbn [upd_usage usage set_bills bills].
    match goal with |- context [_ ++ [?r]] => set (b := r) end.
    constructor.
    + exists (grow b). split; [apply elem_of_update; exists b; rewrite Hid by done; split; [set_solver|done]|].
      split; [done|]. split; [by split|]. right. split; [|done]. intros x Hx. split.
      * intros E. specialize (Eid x Hx). by rewrite bool_decide_eq_true_2 in Eid.
      * intros (E1 & E2 & E3). specialize (Hnone x Hx).
        rewrite (first_of_month_eq _ _ _ E2 Hs), (first_of_month_eq _ _ _ E3 Ht) in Hnone.
        by rewrite bool_decide_eq_true_2, !Z.eqb_refl in Hnone.
    + intros x Hx. rewrite update_others by auto. rewrite elem_of_app, list_elem_of_singleton. split; [|by left].
      intros [?| ->]; [done|]. by destruct Hx.
Qed.
(** One item is added, and the bill of the month grows by its amount. *)
Record billed (v : plan_version) (p : plan) (q : subscriptionQuote) (d d' : db) : Prop := {
  bl_others : others_same d d'; bl_ledger : ledger d' = ledger d; bl_credits : credits d' = credits d;
  bl_new : ∀ i, i ∈ subscription_bill_items (subs d) → si_purchase i ≠ pe_id env;
  bl_notes : notifications d' = notifications d;
  bl_subs : ∃ bid, subs d' = set_subscription_bill_items (subscription_bill_items (subs d) ++ [purchase_item v p q bid]) (subs d)
    ∧ month_billed q bid (bills (usage d)) (bills (usage d'));
  bl_usage : ∃ bs, usage d' = set_bills bs (usage d);
  bl_bills : bills_ok d → bills_ok d'
}.
Lemma wp_bill v p q d dl n (Φ : out response unit → txst db → Prop) :
  tolerates Φ → bills_ok d → (∀ d' n, billed v p q d d' → Φ (Val tt) (live d' dl n)) →
  wp (bill_purchase rq env v p q) Φ (live d dl n).
Proof.
  intros HΦ Hok Hk. unfold bill_purchase.
  pose proof (date_of_spec (pe_now env)) as Hdate. pose proof (eq_refl (month_index (pe_now env))) as Hm.
  unfold month_index in Hm at 2.
  destruct (date_of (pe_now env)) as [[y m] dd]. destruct Hdate as (_ & Hmonth & _).
  pose proof (go_date_first y m) as Hfirst. pose proof (add_month_first y m Hmonth) as Hnext. rewrite <- Hm in Hfirst, Hnext.
  tx_step. apply wp_stmt_ok; [done|]. intros bid d1 Hu.
  pose proof (upsert_bill_month q bid d d1 _ _ Hfirst Hnext Hu) as Hbill.
  destruct (upsert_bill_ok _ _ _ _ _ _ _ Hu Hok) as (Hok1 & Hin & g & ->).
  tx_step. apply wp_exec_ok; [done|]. intros d2 Hi. apply wp_exec_ok; [done|]. intros d3 Ht.
  destruct (bill_item_ok _ (purchase_item v p q bid) _ _ Hok1 Hin Hi Ht) as [Hok3 ->].
  apply Hk. constructor; try done.
  - intros i Hii. unfold insert_subscription_item in Hi. destruct (exists_row _ _) eqn:E; [done|].
    rewrite exists_row_false in E. specialize (E i Hii). by bool_hyps.
  - by exists bid.
  - by eexists.
Qed.

(** Why no credit is due. *)
Definition credit_not_due (promised : Z) (d : db) : Prop :=
  let prefix := credit_prefix (principal rq) (now rq) in
  promised <= 0 ∨ promised <= granted_in (principal rq) prefix d ∨
  ∃ g, g ∈ grants (credits d) ∧ cg_user g = principal rq ∧ cg_ref g = credit_ref (principal rq) (now rq) promised.
(** [z] cents are granted: what is missing to the promise, when anything is. *)
Definition credit_given (ended : Prop) (promised z : Z) (d d' : db) : Prop :=
  (∃ g, grants (credits d') = grants (credits d) ++ [g] ∧ topped_up (principal rq) (now rq) promised g d ∧ z = cg_amount g) ∨
  grants (credits d') = grants (credits d) ∧ z = 0 ∧ (ended ∨ credit_not_due promised d).
Lemma credit_given_frame (ended ended' : Prop) promised z d d' e e' :
  credits e = credits d → credits e' = credits d' → (ended → ended') →
  credit_given ended promised z d d' → credit_given ended' promised z e e'.
Proof.
  intros E E' Hend. unfold credit_given, credit_not_due, granted_in. rewrite E, E'.
  intros [(g & Hg & [T1 T2 T3 T4 T5] & ->)|(Hg & -> & Hn)]; [left|right; naive_solver].
  exists g. split_and!; [done| |done]. constructor; [done..| |done|done]. unfold granted_in in *. by rewrite E.
Qed.
Lemma grant_none id user by_ us d :
  is_ok (select_active_user user d) = true → user = principal rq →
  select (λ us, bool_decide (us_user us = user) && entitled (now rq) us) (user_subscriptions (subs d)) =
    (if entitled (now rq) us then Ok us else Err NoRows) →
  grant_subscription_credit id user by_ (now rq) d = Err NoRows →
  entitled (now rq) us = false ∨ credit_not_due (creditGrantCents (us_entitlements us)) d.
Proof.
  intros Ha -> Hs. unfold grant_subscription_credit, credit_not_due. rewrite Hs.
  destruct (select_active_user _ _); [|done]. destruct (entitled _ us); [|by left]. cbv zeta. intros Hn. right.
  destruct (Z.leb_spec (creditGrantCents (us_entitlements us)) 0); [by left|].
  destruct (_ <? _); [done|]. destruct (negb _); [done|].
  destruct (Z.leb_spec (creditGrantCents (us_entitlements us))
    (granted_in (principal rq) (credit_prefix (principal rq) (now rq)) d)); [by right; left|].
  destruct (exists_row _ _) eqn:E.
  - apply exists_row_true in E as (g & Hg & Hp). bool_hyps. right. right. by exists g.
  - match type of Hn with context [insert_grant ?g d] => destruct (insert_grant g d) as [|[]] eqn:Ei; try done end.
    unfold insert_grant in Ei. by repeat case_match.
Qed.
Record credited (us : user_subscription) (z : Z) (d d' : db) : Prop := {
  cd_others : others_same d d'; cd_ledger : ledger d' = ledger d; cd_subs : subs d' = subs d;
  cd_usage : usage d' = usage d; cd_consumptions : consumptions (credits d') = consumptions (credits d);
  cd_notes : notifications d' = notifications d;
  cd_grants : credit_given (entitled (now rq) us = false) (creditGrantCents (us_entitlements us)) z d d';
  cd_ok : grants_ok d → grants_ok d'
}.
Lemma wp_credit us d dl n (Φ : out response Z → txst db → Prop) :
  is_ok (select_active_user (principal rq) d) = true →
  select (λ us, bool_decide (us_user us = principal rq) && entitled (now rq) us) (user_subscriptions (subs d)) =
    (if entitled (now rq) us then Ok us else Err NoRows) →
  tolerates Φ → (∀ z d' n, credited us z d d' → Φ (Val z) (live d' dl n)) →
  wp (grant_purchase_credit rq env) Φ (live d dl n).
Proof.
  intros Ha Hs HΦ Hk. unfold grant_purchase_credit. do 4 tx_step.
  destruct (grant_subscription_credit _ _ _ _ d) as [[[[id amount] ref] d1]|[]] eqn:Eg; try by apply HΦ.
  - do 2 tx_step. apply wp_exec_ok; [done|]. intros d2 [= <-]. apply wp_ret, Hk.
    destruct (grant_credit_inv _ _ _ _ _ _ _ Eg) as (us' & row & Hi & _ & Hsel & Ht & _ & [= -> -> ->]).
    rewrite Hs in Hsel. destruct (entitled (now rq) us); [injection Hsel as <-|done].
    pose proof (insert_grant_ok row d d1 Hi) as Hok. apply insert_grant_inv in Hi as (-> & _).
    constructor; try done.
    + left. by exists row.
    + intros Hg. destruct (Hok Hg). by constructor.
  - do 2 tx_step. apply wp_ret, Hk. constructor; try done. right. split_and!; [done..|].
    by eapply grant_none.
Qed.

Record resumed (d d' : db) : Prop := {
  rs_others : others_same d d'; rs_ledger : ledger d' = ledger d; rs_subs : subs d' = subs d;
  rs_usage : usage d' = usage d; rs_credits : credits d' = credits d; rs_notes : notifications d' = notifications d
}.
Lemma only_apps_resumed d d' : only_apps d d' → notifications d' = notifications d → resumed d d'.
Proof. intros [] ?. by repeat constructor. Qed.
Lemma wp_resume reference d dl n (Φ : out response Z → txst db → Prop) :
  tolerates Φ → (∀ z d' n, resumed d d' → Φ (Val z) (live d' dl n)) →
  wp (resumeSubscriptionApps (pe_job env) (principal rq) reference) Φ (live d dl n).
Proof.
  intros HΦ Hk. unfold resumeSubscriptionApps. tx_step. apply wp_stmt_ok; [done|]. intros z d1 Hj.
  tx_step. apply wp_exec_ok; [done|]. intros d2 [= <-]. apply wp_ret, Hk.
  apply only_apps_resumed.
  - transitivity d1; [|by constructor].
    eapply recover_apps_frame; [|exact Hj]. intros a r d0 k d2. apply insert_recovery_job_frame.
  - transitivity (notifications d1); [done|]. revert Hj. unfold insert_recovery_jobs.
    apply (recover_apps_ind (λ x, notifications x = notifications d)); [|done].
    intros a r d0 k d2 Hi <-. by eapply insert_recovery_job_notes.
Qed.

(** *** The effect of a purchase *)
Definition done_row (v : plan_version) (current : option currentSubscription) (key : string)
    (q : subscriptionQuote) (w : wallet) (d : db) : subscription_purchase :=
  purchase_row rq env (pn_id v) (cs_PlanVersionID <$> current) key q PurchaseSucceeded
    (w_balance w - sq_AmountCents q) (charge_entry q d).
Definition new_purchase (row : subscription_purchase) (d : db) : Prop :=
  0 <= sp_amount row ∧ ∀ p, p ∈ subscription_purchases (subs d) →
    sp_id p ≠ sp_id row ∧ (sp_user p, sp_key p) ≠ (sp_user row, sp_key row).
Lemma insert_purchase_inv row d d' :
  insert_purchase row d = Ok d' →
  d' = upd_subs (λ t, set_subscription_purchases (subscription_purchases t ++ [row]) t) d ∧ new_purchase row d.
Proof.
  unfold insert_purchase. destruct (exists_row _ _) eqn:E; [done|].
  destruct (negb (_ && _)) eqn:Ea; [done|]. repeat (case_match; try done). 
  all: intros [= <-]; split; [done|]; rewrite exists_row_false in E; split; [by bool_hyps|].
  all: intros p Hp; specialize (E p Hp); bool_hyps; split; [done|]; intros [= F1 F2];
    by rewrite !bool_decide_eq_true_2 in * by done.
Qed.
(** The row of the subscription, and no other row of the customer. *)
Record subscribed (v : plan_version) (q : subscriptionQuote) (t t' : list user_subscription) : Prop := {
  sb_row : ∃ us, us ∈ t' ∧ us_user us = principal rq ∧ us_version us = pn_id v ∧ us_price us = pn_price v ∧
    us_entitlements us = pn_entitlements v ∧ us_status us = SubActive ∧ us_ends us = sq_EndsAt q ∧ us_grace us = None ∧
    ∀ us', us' ∈ t' → us_user us' = principal rq → us' = us;
  sb_others : ∀ us, us_user us ≠ principal rq → us ∈ t' ↔ us ∈ t
}.
Definition purchased_note (version : string) (q : subscriptionQuote) : notification :=
  purchase_note rq ("subscription-purchased/" ^+ pe_id env)%string "subscription_purchased" "info" "套餐已生效"
    [("purchase_id", JStr (pe_id env)); ("plan_version_id", JStr version);
     ("amount_cents", JInt (sq_AmountCents q)); ("subscription_ends_at", optional_time (sq_EndsAt q))].
Record purchased (v : plan_version) (p : plan) (current : option currentSubscription) (key : string)
    (q : subscriptionQuote) (w : wallet) (credit : Z) (d d' : db) : Prop := {
  pd_others : others_same d d';
  pd_chargeable : chargeable q w d;
  pd_ledger : ledger d' = ledger (charged (pn_id v) q w d);
  pd_usage : ∃ bs, usage d' = set_bills bs (usage d);
  pd_consumptions : consumptions (credits d') = consumptions (credits d);
  pd_bills : bills_ok d → bills_ok d';
  pd_grants : grants_ok d → grants_ok d';
  pd_plans : plans (subs d') = plans (subs d) ∧ plan_versions (subs d') = plan_versions (subs d);
  pd_new : new_purchase (done_row v current key q w d) d;
  pd_purchases : subscription_purchases (subs d') = subscription_purchases (subs d) ++ [done_row v current key q w d];
  pd_items_new : ∀ i, i ∈ subscription_bill_items (subs d) → si_purchase i ≠ pe_id env;
  pd_items : ∃ bid, subscription_bill_items (subs d') = subscription_bill_items (subs d) ++ [purchase_item v p q bid] ∧
    month_billed q bid (bills (usage d)) (bills (usage d'));
  pd_users : NoDup (us_user <$> user_subscriptions (subs d)) → NoDup (us_user <$> user_subscriptions (subs d'));
  pd_subscription : subscribed v q (user_subscriptions (subs d)) (user_subscriptions (subs d'));
  pd_credit : credit_given (∃ e, sq_EndsAt q = Some e ∧ e <= now rq) (creditGrantCents (pn_entitlements v)) credit d d';
  pd_note : notifications d' = notifications d ++ [purchased_note (pn_id v) q]
}.
(** The answer shows the recorded row, at the clock of the handler. *)
Definition purchase_answer (row : subscription_purchase) (p : plan) (credit jobs : Z) : response :=
  RJson 201 (purchase_json {| sp_id := sp_id row; sp_user := sp_user row; sp_version := sp_version row;
      sp_previous := sp_previous row; sp_key := sp_key row; sp_action := sp_action row; sp_status := sp_status row;
      sp_amount := sp_amount row; sp_balance := sp_balance row; sp_start := sp_start row; sp_stop := sp_stop row;
      sp_ends := sp_ends row; sp_entry := sp_entry row; sp_created := pe_now env |} (pl_code p) (pl_name p) ++
    [("creditGrantedCents", JInt credit); ("resumeJobs", JInt jobs)]).
Lemma insert_notification_inv row d d' :
  insert_notification row d = Ok d' → d' = upd_notifications (λ t, t ++ [row]) d.
Proof. unfold insert_notification. destruct (exists_row _ _); [done|]. by intros [= <-]. Qed.
Lemma upsert_users row (t : list user_subscription) :
  let hit us := bool_decide (us_user us = us_user row) in
  let t' := if exists_row hit t then update hit (λ _, row) t else t ++ [row] in
  row ∈ t' ∧ (NoDup (us_user <$> t) → NoDup (us_user <$> t')) ∧
  (∀ us, us ∈ t' → us_user us = us_user row → us = row) ∧ (∀ us, us_user us ≠ us_user row → us ∈ t' ↔ us ∈ t).
Proof.
  cbv zeta. destruct (exists_row _ t) eqn:E.
  - apply exists_row_true in E as (r & Hr & Hu). split_and!.
    + apply elem_of_update. exists r. split; [done|]. by rewrite Hu.
    + intros Hnd. assert (us_user <$> update (λ us, bool_decide (us_user us = us_user row)) (λ _, row) t = us_user <$> t)
        as ->; [|done].
      unfold update. rewrite <- list_fmap_compose. apply list_fmap_ext. intros i x _. clear. cbn. case_bool_decide; congruence.
    + intros us (x & _ & ->)%elem_of_update. clear Hu. by case_bool_decide.
    + intros us Hne. rewrite elem_of_update. split.
      * intros (x & Hx & ->). case_bool_decide; done.
      * intros Hus. exists us. by rewrite bool_decide_eq_false_2.
  - rewrite exists_row_false in E. split_and!.
    + apply elem_of_app. right. left.
    + intros Hnd. apply NoDup_snoc; [done|].
      intros x Hx Hu. specialize (E x Hx). by rewrite bool_decide_eq_true_2 in E.
    + intros us [Hus| ->%list_elem_of_singleton]%elem_of_app Hu; [|done]. specialize (E us Hus).
      by rewrite bool_decide_eq_true_2 in E.
    + intros us Hne. rewrite elem_of_app, list_elem_of_singleton. naive_solver.
Qed.
Lemma select_upserted at_ row t :
  row ∈ t → (∀ us, us ∈ t → us_user us = us_user row → us = row) →
  select (λ us, bool_decide (us_user us = us_user row) && entitled at_ us) t =
    (if entitled at_ row then Ok row else Err NoRows).
Proof.
  intros Hin Hone. destruct (select _ t) as [us|e] eqn:Es.
  - apply select_ok in Es as [Hus Hp]. bool_hyps. rewrite <- (Hone us) by done. by destruct (entitled at_ us).
  - apply select_err in Es as [-> Hno]. specialize (Hno row Hin). rewrite bool_decide_eq_true_2 in Hno by done.
    cbn [andb] in Hno. by rewrite Hno.
Qed.
Lemma wp_complete v p current key q w d n (Φ : out response response → txst db → Prop) :
  ledger_ok (ledger d) → w ∈ wallets (ledger d) → bills_ok d → is_ok (select_active_user (principal rq) d) = true →
  tolerates Φ →
  (∀ d' s credit jobs, purchased v p current key q w credit d d' → committed s = Some d' →
     Φ (Val (purchase_answer (done_row v current key q w d) p credit jobs)) s) →
  wp (complete_purchase rq env v p current key q w) Φ (live d [] n).
Proof.
  intros Hok Hw Hb Hact HΦ Hk. unfold complete_purchase. cbv zeta. tx_step.
  apply wp_charge; [done..|]. intros n1 Hch.
  set (d1 := charged (pn_id v) q w d).
  assert (others_same d d1) as O1 by (unfold d1, charged; destruct (0 <? _); by constructor).
  assert (subs d1 = subs d ∧ usage d1 = usage d ∧ credits d1 = credits d ∧ notifications d1 = notifications d)
    as (S1 & U1 & C1 & N1) by (unfold d1, charged; by destruct (0 <? _)).
  tx_step. apply wp_exec_ok; [done|]. intros d2 [= <-].
  tx_step. apply wp_exec_ok; [done|]. intros d3 Hins. apply insert_purchase_inv in Hins as [-> Hnew].
  match type of Hnew with new_purchase _ ?x => set (d2 := x) in * end.
  set (d3 := upd_subs _ d2).
  assert (bills_ok d3) as Hb3.
  { apply (bills_ok_frame d); [by cbn; rewrite U1|by cbn; rewrite U1|by cbn; rewrite S1|done]. }
  pose proof (upsert_users (active_row rq env v current q) (user_subscriptions (subs d1))) as (Hin & Hnd & Hone & Hothers).
  pose proof (select_upserted (now rq) _ _ Hin Hone) as Hsel.
  tx_step. apply wp_bill; [done|done|]. intros d4 n4 HB. destruct HB as [BO BL BC BN BNo [bid [BS BM]] [bs BU] BB].
  tx_step. apply (wp_credit (active_row rq env v current q)); [| |done|].
  { assert (users d4 = users d) as Eu.
    { transitivity (users d3); [apply BO|]. transitivity (users d1); [done|apply O1]. }
    unfold select_active_user in *. by rewrite Eu. }
  { rewrite BS. exact Hsel. }
  intros z d5 n5 HC.
  tx_step. apply wp_resume; [done|]. intros z' d6 n6 HR.
  tx_step. apply wp_exec_ok; [done|]. intros d7 Hn. tx_step. apply wp_exec_ok; [done|]. intros d8 [= <-].
  apply insert_notification_inv in Hn as ->.
  tx_step. apply wp_commit. cbn [forallb]. apply wp_ret. eapply Hk; [|reflexivity].
  destruct HC as [CO CL CS CU CC CNo CG CK]. destruct HR as [RO RL RS RU RC RNo].
  assert (subs d6 = set_subscription_bill_items (subscription_bill_items (subs d3) ++ [purchase_item v p q bid])
            (subs d3)) as HS by congruence.
  assert (usage d6 = set_bills bs (usage d)) as HU.
  { rewrite RU, CU, BU. by rewrite <- U1. }
  assert (credits d3 = credits d) as C3 by exact C1. assert (ledger d3 = ledger d1) as L3 by done.
  assert (notifications d6 = notifications d) as HN.
  { rewrite RNo, CNo, BNo. exact N1. }
  constructor; cbn [upd_audit_logs upd_notifications ledger usage credits subs notifications]; rewrite ?HS, ?HU, ?RC; try done.
  - transitivity d1; [done|]. transitivity d4; [transitivity d3; [by constructor|exact BO]|].
    transitivity d5; [exact CO|]. transitivity d6; [exact RO|by constructor].
  - by rewrite RL, CL, BL, L3.
  - by exists bs.
  - by rewrite CC, BC, C3.
  - intros _. apply (bills_ok_frame d4); [by rewrite <- CU, <- RU|by rewrite <- CU, <- RU|by rewrite <- CS, <- RS|].
    by apply BB.
  - intros Hg. assert (grants_ok d4) as Hg4.
    { destruct Hg. by constructor; rewrite BC, C3. }
    destruct (CK Hg4) as [G1 G2 G3]. by constructor; cbn [upd_audit_logs upd_notifications credits]; rewrite RC.
  - by rewrite <- S1.
  - destruct Hnew as [N2 N3]. split; [done|]. by rewrite <- S1.
  - by rewrite <- S1.
  - by rewrite <- S1.
  - exists bid. split; [by rewrite <- S1|]. rewrite BU in BM. cbn [usage set_bills bills] in BM |- *.
    by rewrite <- U1.
  - rewrite <- S1. exact Hnd.
  - rewrite <- S1. constructor; [|exact Hothers]. eexists. split; [exact Hin|]. by split_and!.
  - eapply credit_given_frame; [| |  |exact CG]; [by rewrite BC, C3|by cbn; rewrite RC|].
    unfold entitled. cbn [active_row us_status us_ends]. destruct (sq_EndsAt q) as [e|]; [|done].
    intros He. exists e. split; [done|]. by bool_hyps.
  - by rewrite HN.
Qed.

(** *** The refusal of a purchase *)
Record refused (version : string) (previous : option string) (key : string) (q : subscriptionQuote) (w : wallet)
    (d d' : db) : Prop := {
  rd_others : others_same d d';
  rd_ledger : ledger d' = ledger d; rd_usage : usage d' = usage d; rd_credits : credits d' = credits d;
  rd_short : w_balance w < sq_AmountCents q;
  rd_new : new_purchase (purchase_row rq env version previous key q PurchaseInsufficientFunds (w_balance w) None) d;
  rd_subs : subs d' = set_subscription_purchases (subscription_purchases (subs d) ++
    [purchase_row rq env version previous key q PurchaseInsufficientFunds (w_balance w) None]) (subs d);
  rd_note : notifications d' = notifications d ++
    [purchase_note rq ("subscription-purchase-failed/" ^+ pe_id env)%string
       "subscription_purchase_failed" "warning" "套餐购买失败"
       [("purchase_id", JStr (pe_id env)); ("plan_version_id", JStr version);
        ("required_cents", JInt (sq_AmountCents q)); ("balance_cents", JInt (w_balance w))]]
}.
Lemma wp_refuse version previous key q w d n (Φ : out response response → txst db → Prop) :
  w_balance w < sq_AmountCents q → tolerates Φ →
  (∀ d' s, refused version previous key q w d d' → committed s = Some d' → Φ (Val (RError 409 "insufficient_balance")) s) →
  wp (refuse_purchase rq env version previous key q (w_balance w)) Φ (live d [] n).
Proof.
  intros Hs HΦ Hk. unfold refuse_purchase. tx_step. apply wp_exec_ok; [done|].
  intros d1 [-> Hnew]%insert_purchase_inv. tx_step. apply wp_exec_ok; [done|]. intros d2 Hn.
  tx_step. apply wp_exec_ok; [done|]. intros d3 [= <-]. tx_step. apply wp_commit. cbn [forallb]. apply wp_ret.
  eapply Hk; [|reflexivity]. apply insert_notification_inv in Hn as ->.
  constructor; try done.
Qed.

(** What a purchase that reaches the charge has read. *)
Record priced (version : string) (d : db) (v : plan_version) (p : plan) (current : option currentSubscription)
    (w : wallet) (q : subscriptionQuote) : Prop := {
  pr_target : select_target version (now rq) d = Ok (v, p);
  pr_current : match current with
               | Some c => loadCurrentSubscription (principal rq) d = Ok c
               | None => loadCurrentSubscription (principal rq) d = Err NoRows end;
  pr_allowed : canPurchasePlan (pl_purchase_enabled p) current (pl_id p) = true;
  pr_change : ∀ c, current = Some c → cs_PlanVersionID c ≠ version → future_cycles (principal rq) (now rq) d = false;
  pr_wallet : select_wallet (principal rq) (ledger d) = Ok w;
  pr_quote : q = quoteSubscription (pe_now env) current (pl_id p) version (pn_price v)
    (with_current (pe_before env) current (paid_baseline (principal rq) (now rq) d))
}.
Definition purchase_version (r : purchase_request) : string := to_lower (trim_space (pq_PlanVersionID r)).
Definition purchase_key (r : purchase_request) : string := trim_space (pq_IdempotencyKey r).
Inductive purchase_outcome (r : purchase_request) (d : db) : response → db → Prop :=
  | purchase_unchanged a : status_of a ≠ 201 → purchase_outcome r d a d
  | purchase_refused v p current w q d' :
      priced (purchase_version r) d v p current w q →
      select_purchase (principal rq) (purchase_key r) d = Err NoRows →
      refused (purchase_version r) (cs_PlanVersionID <$> current) (purchase_key r) q w d d' →
      purchase_outcome r d (RError 409 "insufficient_balance") d'
  | purchase_done v p current w q d' credit jobs :
      priced (purchase_version r) d v p current w q →
      select_purchase (principal rq) (purchase_key r) d = Err NoRows →
      sq_AmountCents q <= w_balance w →
      purchased v p current (purchase_key r) q w credit d d' →
      purchase_outcome r d (purchase_answer (done_row v current (purchase_key r) q w d) p credit jobs) d'.

(** The part of the handler after the lookup of the key. *)
Lemma wp_target r v p d n (Φ : out response response → txst db → Prop) :
  ledger_ok (ledger d) → bills_ok d → select_target (purchase_version r) (now rq) d = Ok (v, p) →
  select_purchase (principal rq) (purchase_key r) d = Err NoRows →
  is_ok (select_active_user (principal rq) d) = true → tolerates Φ →
  (∀ a s, committed s = None → status_of a ≠ 201 → Φ (Exit a) s) →
  (∀ a s d', committed s = Some d' → purchase_outcome r d a d' → Φ (Val a) s) →
  wp (purchase_target rq env (purchase_version r) (purchase_key r) v p) Φ (live d [] n).
Proof.
  intros Hok Hb Htg Hnone Hact HΦ Hx Hv. unfold purchase_target. tx_step.
  match goal with |- wp _ ?Ψ _ => assert (∀ current n, match current with
               | Some c => loadCurrentSubscription (principal rq) d = Ok c
               | None => loadCurrentSubscription (principal rq) d = Err NoRows end → Ψ (Val current) (live d [] n)) as Hcur end.
  2: { apply wp_optional_ok; [done|by intros c Hc; apply Hcur|by intros Hc; apply Hcur]. }
  clear n. intros current n Hcur. tx_step. apply wp_guard; intros Hcan; [by apply Hx|].
  tx_step. apply wp_guard; intros _; [by apply Hx|]. tx_step.
  match goal with |- wp _ ?Ψ _ => assert (∀ n, 
      (∀ c, current = Some c → cs_PlanVersionID c ≠ purchase_version r → future_cycles (principal rq) (now rq) d = false) →
      Ψ (Val tt) (live d [] n)) as Hlock end.
  2: { destruct current as [c|]; [|by apply wp_ret, Hlock]. case_bool_decide as Ev; cbn [negb].
       - apply wp_ret, Hlock. by intros ? [= <-].
       - do 2 tx_step. apply wp_guard; intros Hf; [by apply Hx|]. apply Hlock. done. }
  clear n. intros n Hfuture. tx_step. apply wp_query_ok; [done|]. intros w Hw. do 3 tx_step. cbv zeta.
  tx_step.
  match goal with |- context [quoteSubscription ?a ?b ?c ?e ?f ?g] => set (q := quoteSubscription a b c e f g) end.
  assert (priced (purchase_version r) d v p current w q) as Hp
    by (constructor; try done; by apply negb_false_iff).
  apply select_wallet_inv in Hw as [Hin _].
  destruct (w_balance w <? sq_AmountCents q) eqn:Es; bool_hyps.
  - apply wp_refuse; [done|done|]. intros d' s Hr Hs. eapply Hv; [done|]. by eapply purchase_refused.
  - apply wp_complete; [done..|]. intros d' s credit jobs Hr Hs. eapply Hv; [done|]. by eapply purchase_done.
Qed.
Lemma purchase_cases r d :
  ledger_ok (ledger d) → bills_ok d →
  let '(a, d') := run internalError (purchaseSubscription rq env (Some r)) no_faults d in
  purchase_outcome r d a d'.
Proof.
  intros Hok Hb. apply (run_wp internalError _ d (λ x, let '(a, d') := x in purchase_outcome r d a d')).
  set (Ψ := λ (o : out response response) (s : txst db),
     let '(a, d') := finish internalError d o s in purchase_outcome r d a d').
  assert (tolerates Ψ) as Ht.
  { intros e s Hs. unfold Ψ, finish. rewrite Hs. by apply purchase_unchanged. }
  assert (∀ a s, default d (committed s) = d → status_of a ≠ 201 → Ψ (Exit a) s ∧ Ψ (Val a) s) as Hx.
  { intros a s Hs Ha. unfold Ψ, finish. rewrite Hs. by split; apply purchase_unchanged. }
  assert (∀ a s d', committed s = Some d' → purchase_outcome r d a d' → Ψ (Val a) s) as Hv.
  { intros a s d' Hs Ha. unfold Ψ, finish. by rewrite Hs. }
  change (wp (purchaseSubscription rq env (Some r)) Ψ (live d [] 0)). clearbody Ψ.
  unfold purchaseSubscription. fold (purchase_version r) (purchase_key r). cbv zeta.
  tx_step. apply wp_guard; intros _; [by apply Hx|]. do 5 tx_step.
  destruct (select_active_user _ d) as [u|e] eqn:Eu; [|destruct e; by apply Hx].
  tx_step. apply wp_optional_ok; [done|..].
  - intros [sp p] Hsp. tx_step. apply wp_guard; intros _; [by apply Hx|].
    do 3 tx_step. cbn [forallb]. tx_step. apply wp_guard; intros _; [by apply Hx|]. apply wp_ret. by apply Hx.
  - intros Hnone. do 3 tx_step. destruct (select_target _ _ d) as [[v p]|[]] eqn:Etg; try by apply Ht.
    2: { apply wp_exit. by apply Hx. }
    apply wp_target; try done; [by rewrite Eu|]. intros a s Hs Ha. apply Hx; [by rewrite Hs|done].
Qed.

(** *** The books after a purchase *)
Lemma items_of_app id i d d' :
  subscription_bill_items (subs d') = subscription_bill_items (subs d) ++ [i] →
  items_of id d' = items_of id d ++ if bool_decide (si_purchase i = id) then [si_amount i] else [].
Proof.
  intros E. unfold items_of. rewrite E, List.filter_app, fmap_app. f_equal. cbn [List.filter].
  by case_bool_decide.
Qed.
Lemma purchased_subs_ok v p current key q w credit d d' :
  ledger_ok (ledger d) → subs_ok d → w ∈ wallets (ledger d) → w_user w = principal rq →
  purchased v p current key q w credit d d' → subs_ok d'.
Proof.
  intros Hl [S1 S2 S3 S4 S5 S6 S7 S8] Hw Hu [PO PC PL PU PCo PB PG PP [Hpos Hnew] Prows PIn [bid [PI _]] PN _ _ _].
  set (row := done_row v current key q w d) in *.
  assert (sp_id row = pe_id env ∧ sp_user row = principal rq ∧ sp_amount row = sq_AmountCents q ∧ succeeded row = true)
    as (Rid & Ru & Ra & Rs) by done.
  assert (∀ wid id, key_amounts wid "subscription" (purchase_ref id) (ledger d') =
    key_amounts wid "subscription" (purchase_ref id) (ledger d) ++
      if (0 <? sq_AmountCents q) && bool_decide ((w_id w, pe_id env) = (wid, id)) then [- sq_AmountCents q] else []) as Hkeys.
  { intros wid id. rewrite PL. unfold charged. destruct (0 <? _); [|by rewrite app_nil_r].
    cbn [upd_ledger ledger andb]. rewrite key_amounts_post. f_equal.
    apply (f_equal (λ b : bool, if b then _ else _)), bool_decide_ext. unfold purchase_ref. split.
    - intros [= -> E]. change (pe_id env = id) in E. by rewrite E.
    - by intros [= -> ->]. }
  assert (∀ w', w' ∈ wallets (ledger d') → ∃ w0, w0 ∈ wallets (ledger d) ∧ w_id w0 = w_id w' ∧ w_user w0 = w_user w') as Hback.
  { intros w'. rewrite PL. unfold charged. destruct (0 <? _); [|by exists w'].
    by apply (post_wallets (ledger d) w "subscription"). }
  assert (∀ w0, w0 ∈ wallets (ledger d) → ∃ w', w' ∈ wallets (ledger d') ∧ w_id w' = w_id w0 ∧ w_user w' = w_user w0) as Hfwd.
  { intros w0 Hw0. rewrite PL. unfold charged. destruct (0 <? _); [|by exists w0].
    by apply (wallets_post (ledger d) w "subscription"). }
  constructor; rewrite ?Prows.
  - apply NoDup_snoc; [done|]. intros x Hx. by apply Hnew.
  - apply NoDup_snoc; [done|]. intros x Hx. by apply Hnew.
  - apply Forall_app. split; [done|]. by apply Forall_singleton.
  - by apply PN.
  - intros x w' [Hx| ->%list_elem_of_singleton]%elem_of_app Hw' Hxu;
      destruct (Hback w' Hw') as (w0 & Hw0 & Hid & Hus); rewrite Hkeys, <- Hid.
    + rewrite (S5 x w0) by congruence. destruct (Hnew x Hx) as [Hne _].
      rewrite (bool_decide_eq_false_2 (_ = _)), andb_false_r, app_nil_r; [done|]. intros [= _ E]. congruence.
    + assert (w0 = w) as ->.
      { apply (key_inj w_user (wallets (ledger d))); [apply Hl|done|done|congruence]. }
      rewrite Rid, bool_decide_eq_true_2, andb_true_r by done.
      unfold purchase_charge. rewrite Rs, Ra. cbn [andb].
      assert (key_amounts (w_id w) "subscription" (purchase_ref (pe_id env)) (ledger d) = []) as ->; [|done].
      apply key_fresh. intros e He [= Hwe Hty Hre].
      destruct (S6 e He Hty) as (x & _ & Hx & Hrx & _). destruct (Hnew x Hx) as [Hne _]. apply Hne.
      rewrite Hre in Hrx. apply (inj (String.append "subscription/")) in Hrx. by rewrite Rid.
  - intros e He Hty. rewrite PL in He. unfold charged in He.
    assert (e ∈ entries (ledger d) ∨ e_ref e = purchase_ref (pe_id env) ∧ e_wallet e = w_id w) as [Hold|[Hre Hwe]].
    { destruct (0 <? _); [|by left]. cbn [upd_ledger ledger post entries] in He.
      apply elem_of_app in He as [He| ->%list_elem_of_singleton]; [by left|by right]. }
    + destruct (S6 e Hold Hty) as (x & wx & Hx & Hrx & Hwx & Hidx & Hux).
      destruct (Hfwd wx Hwx) as (w' & Hw' & Hid' & Hus'). exists x, w'.
      split_and!; [apply elem_of_app; by left|done|done|congruence..].
    + destruct (Hfwd w Hw) as (w' & Hw' & Hid' & Hus'). exists row, w'.
      split_and!; [apply elem_of_app; right; left|done|done|congruence..].
  - intros x [Hx| ->%list_elem_of_singleton]%elem_of_app; rewrite (items_of_app _ _ d d' PI); cbn [purchase_item si_purchase si_amount].
    + destruct (Hnew x Hx) as [Hne _]. rewrite bool_decide_eq_false_2, app_nil_r by (intros E; apply Hne; by rewrite Rid).
      by apply S7.
    + rewrite Rs, Ra, Rid, bool_decide_eq_true_2 by done.
      assert (items_of (pe_id env) d = []) as ->; [|done]. unfold items_of. rewrite filter_none; [done|].
      intros i Hi. apply bool_decide_eq_false_2. by apply PIn.
  - rewrite PI. intros i [Hi| ->%list_elem_of_singleton]%elem_of_app.
    + destruct (S8 i Hi) as (x & Hx & E). exists x. split; [apply elem_of_app; by left|done].
    + exists row. split; [apply elem_of_app; right; left|done].
Qed.
Lemma refused_subs_ok version previous key q w d d' :
  ledger_ok (ledger d) → subs_ok d → refused version previous key q w d d' → subs_ok d'.
Proof.
  intros Hl [S1 S2 S3 S4 S5 S6 S7 S8] [RO RL RU RC Rshort [Hpos Hnew] RS _].
  set (row := purchase_row _ _ _ _ _ _ _ _ _) in *.
  assert (∀ id, items_of id d' = items_of id d) as HI by (intros id; unfold items_of; by rewrite RS).
  constructor; rewrite ?RL; rewrite RS; cbn [set_subscription_purchases subscription_purchases user_subscriptions
    subscription_bill_items]; try done.
  - apply NoDup_snoc; [done|]. intros x Hx. by apply Hnew.
  - apply NoDup_snoc; [done|]. intros x Hx. by apply Hnew.
  - apply Forall_app. split; [done|]. by apply Forall_singleton.
  - intros x w' [Hx| ->%list_elem_of_singleton]%elem_of_app Hw' Hxu; [by apply S5|].
    assert (purchase_charge row = []) as -> by done. apply key_fresh. intros e He [= Hwe Hty Hre].
    destruct (S6 e He Hty) as (x & _ & Hx & Hrx & _). destruct (Hnew x Hx) as [Hne _]. apply Hne.
    rewrite Hre in Hrx. by apply (inj (String.append "subscription/")) in Hrx.
  - intros e He Hty. destruct (S6 e He Hty) as (x & wx & Hx & Hrest). exists x, wx.
    split; [apply elem_of_app; by left|done].
  - intros x [Hx| ->%list_elem_of_singleton]%elem_of_app; rewrite HI; [by apply S7|].
    assert (succeeded row = false) as -> by done. unfold items_of. rewrite filter_none; [done|].
    intros i Hi. apply bool_decide_eq_false_2. destruct (S8 i Hi) as (x & Hx & E).
    destruct (Hnew x Hx) as [Hne _]. congruence.
  - intros i Hi. destruct (S8 i Hi) as (x & Hx & E). exists x. split; [apply elem_of_app; by left|done].
Qed.
Lemma charged_payments_ok version q w d :
  payments_ok d → w ∈ wallets (ledger d) → sq_AmountCents q <= w_balance w → chargeable q w d →
  payments_ok (charged version q w d).
Proof.
  intros Hok Hw Hle Hch. unfold charged, chargeable in *. destruct (0 <? _) eqn:E; [|done]. bool_hyps.
  destruct (Hch E) as [H64 Hfresh]. apply post_payments_ok; try done; lia.
Qed.
(** The four groups of tables a purchase writes. *)
Definition accounts_ok (d : db) : Prop := payments_ok d ∧ subs_ok d ∧ bills_ok d ∧ grants_ok d.
Lemma purchase_outcome_ok r d a d' : accounts_ok d → purchase_outcome r d a d' → accounts_ok d'.
Proof.
  intros (Hp & Hs & Hb & Hg) [a' _|v p current w q d1 Hpr _ Hr|v p current w q d1 credit jobs Hpr _ Hle Hr]; [done|..];
    pose proof (po_ledger _ Hp) as Hl; apply pr_wallet, select_wallet_inv in Hpr as [Hw Hu].
  - pose proof (refused_subs_ok _ _ _ _ _ _ _ Hl Hs Hr) as Hs'. destruct Hr as [[]]. unfold accounts_ok. split_and!.
    + by apply (payments_ok_frame d).
    + done.
    + apply (bills_ok_frame d); [congruence..| |done]. by rewrite rd_subs0.
    + destruct Hg. constructor; by rewrite rd_credits0.
  - pose proof (purchased_subs_ok _ _ _ _ _ _ _ _ _ Hl Hs Hw Hu Hr) as Hs'. destruct Hr as [[]]. unfold accounts_ok.
    split_and!; [|done|by apply pd_bills0|by apply pd_grants0].
    apply (payments_ok_frame (charged (pn_id v) q w d)); [done| |by apply charged_payments_ok].
    rewrite os_payments0. unfold charged. by destruct (0 <? _).
Qed.

(** C10: a purchase, without faults, either changes nothing (and does not answer
    201), or records a refusal for want of balance (a purchase row and a
    notification, nothing else that a customer sees), or does all of it at once:
    one debit of exactly the quoted charge; one purchase row; one item on the
    customer's own bill of the calendar month, which grows by the charge while no
    other bill changes; the subscription of the bought version, with its
    entitlements and the quoted end, in place of the one before; the credit of
    the month, topped up to exactly what the version promises unless that is
    already granted (or the bought cycle is over by the time); one notification;
    and the answer shows that row and that credit.  A purchase is only ever made
    of the latest effective version of a plan the customer may buy, under a key
    that was not used.  The books of payments, subscriptions, bills and grants
    stay in order. *)
Theorem purchaseSubscription_run r d :
  accounts_ok d →
  let '(a, d') := run internalError (purchaseSubscription rq env (Some r)) no_faults d in
  purchase_outcome r d a d' ∧ accounts_ok d'.
Proof.
  intros Hok. pose proof Hok as (Hp & _ & Hb & _). pose proof (purchase_cases r d (po_ledger _ Hp) Hb) as Hc.
  destruct (run _ _ _ _) as [a d']. split; [done|by eapply purchase_outcome_ok].
Qed.
End purchase.

(** ** Retries *)
Section retry.
Context `{Releases} `{UuidSyntax} `{UnicodeLower}.

Lemma version_and_plan_inv id d v p : version_and_plan id d = Ok (v, p) → pn_id v = id.
Proof.
  unfold version_and_plan. destruct (select _ (plan_versions _)) as [x|] eqn:E; [|done]. cbn.
  destruct (select _ (plans _)); [|done]. intros [= <- <-]. apply select_ok in E as [_ E]. unfold version_is in E.
  by bool_hyps.
Qed.
Lemma select_target_inv id at_ d v p : select_target id at_ d = Ok (v, p) → version_and_plan id d = Ok (v, p) ∧ pn_id v = id.
Proof.
  unfold select_target. destruct (version_and_plan id d) as [[x y]|] eqn:E; [|done]. cbn.
  destruct (_ && _); [|done]. intros [= <- <-]. split; [done|by eapply version_and_plan_inv].
Qed.
(** A recorded purchase is found again under its key. *)
Lemma select_recorded user key id d d' row v p :
  (∀ x, x ∈ subscription_purchases (subs d) → (sp_user x, sp_key x) ≠ (user, key)) →
  subscription_purchases (subs d') = subscription_purchases (subs d) ++ [row] →
  plans (subs d') = plans (subs d) → plan_versions (subs d') = plan_versions (subs d) →
  sp_user row = user → sp_key row = key → sp_version row = id → version_and_plan id d = Ok (v, p) →
  select_purchase user key d' = Ok (row, p).
Proof.
  intros Hno Hrows Hp1 Hp2 Hu Hk Hv Hvp. unfold select_purchase.
  assert (select (λ p, bool_decide (sp_user p = user) && bool_decide (sp_key p = key)) (subscription_purchases (subs d')) = Ok row) as ->.
  { apply select_find. rewrite Hrows, find_app, find_key_none.
    - cbn. by rewrite !bool_decide_eq_true_2.
    - intros x Hx. apply not_true_iff_false. intros E. bool_hyps. apply (Hno x Hx). congruence. }
  cbn. unfold version_and_plan in *. by rewrite Hp1, Hp2, Hv, Hvp.
Qed.
Definition replay (row : subscription_purchase) (p : plan) : response :=
  if bool_decide (sp_status row = PurchaseInsufficientFunds) then RError 409 "insufficient_balance"
  else RJson 200 (purchase_json row (pl_code p) (pl_name p) ++ [("idempotent", JBool true)]).
Lemma purchase_replay rq env r d row p :
  valid_uuid (purchase_version r) = true → purchase_key r ≠ "" → slen (purchase_key r) <= 128 →
  is_ok (select_active_user (principal rq) d) = true →
  select_purchase (principal rq) (purchase_key r) d = Ok (row, p) → sp_version row = purchase_version r →
  run internalError (purchaseSubscription rq env (Some r)) no_faults d = (replay row p, d).
Proof.
  intros Hv Hk Hlen Hu Hs Hver. apply (run_wp internalError _ d (λ x, x = _)).
  unfold purchaseSubscription. fold (purchase_version r) (purchase_key r). cbv zeta.
  tx_pass; [rewrite Hv, bool_decide_eq_false_2 by done; by apply Z.ltb_ge|]. do 5 tx_step.
  destruct (select_active_user _ d) as [u|e]; [|done]. do 4 tx_step. rewrite Hs. do 2 tx_step. tx_pass; [by rewrite bool_decide_eq_true_2|].
  do 3 tx_step. cbn [forallb]. tx_step. unfold replay. apply wp_guard; intros ->; [done|]. by apply wp_ret.
Qed.
Definition admissible (rq : request) (r : purchase_request) (d : db) : Prop :=
  valid_uuid (purchase_version r) = true ∧ purchase_key r ≠ "" ∧ slen (purchase_key r) <= 128 ∧
  is_ok (select_active_user (principal rq) d) = true.
Lemma purchase_admissible rq env r d :
  (run internalError (purchaseSubscription rq env (Some r)) no_faults d).2 ≠ d → admissible rq r d.
Proof.
  apply (run_wp internalError _ d (λ x, x.2 ≠ d → _)).
  unfold purchaseSubscription. fold (purchase_version r) (purchase_key r). cbv zeta.
  tx_step. apply wp_guard; intros Hg; [done|]. do 5 tx_step. unfold admissible.
  destruct (select_active_user _ d) as [u|e]; [|by destruct e].
  unfold wp. match goal with |- context [?m no_faults ?s] => destruct (m no_faults s) as [o s1] end. intros _. bool_hyps. by split_and!.
Qed.

(** C11: a retry is safe: when a run has changed anything (a purchase or a
    refusal was recorded), the same request again, whenever it comes and
    whatever identifiers it would draw, is answered with the recorded purchase
    (or the recorded refusal) and changes nothing. *)
Theorem purchaseSubscription_retry rq rq' env env' r d :
  accounts_ok d → principal rq' = principal rq →
  let d' := (run internalError (purchaseSubscription rq env (Some r)) no_faults d).2 in
  d' ≠ d → ∃ row p, row ∈ subscription_purchases (subs d') ∧ sp_id row = pe_id env ∧
    run internalError (purchaseSubscription rq' env' (Some r)) no_faults d' = (replay row p, d').
Proof.
  intros (Hp & _ & Hb & _) Hpr d' Hne. destruct (purchase_admissible rq env r d Hne) as (V1 & V2 & V3 & V4).
  pose proof (purchase_cases rq env r d (po_ledger _ Hp) Hb) as Hc.
  destruct (run internalError (purchaseSubscription rq env (Some r)) no_faults d) as [a d1]. cbn in d'. subst d'.
  assert (∀ row v p, subscription_purchases (subs d1) = subscription_purchases (subs d) ++ [row] →
    plans (subs d1) = plans (subs d) → plan_versions (subs d1) = plan_versions (subs d) → users d1 = users d →
    new_purchase row d → sp_user row = principal rq → sp_key row = purchase_key r → sp_id row = pe_id env →
    sp_version row = purchase_version r → version_and_plan (purchase_version r) d = Ok (v, p) →
    ∃ row p, row ∈ subscription_purchases (subs d1) ∧ sp_id row = pe_id env ∧
      run internalError (purchaseSubscription rq' env' (Some r)) no_faults d1 = (replay row p, d1)) as Hend.
  { intros row v p Hrows E1 E2 Eu [_ Hnew] Ru Rk Rid Rv Hvp. exists row, p. split_and!; [|done|].
    - rewrite Hrows. apply elem_of_app. right. left.
    - apply purchase_replay; try done; rewrite Hpr.
      + unfold select_active_user in *. by rewrite Eu.
      + eapply (select_recorded _ _ _ d d1); try done. intros x Hx. rewrite <- Ru, <- Rk. by apply Hnew. }
  destruct Hc as [a' _|v p current w q d1 Hq _ Hr|v p current w q d1 credit jobs Hq _ _ Hr]; [done|..];
    pose proof (select_target_inv _ _ _ _ _ (pr_target _ _ _ _ _ _ _ _ _ Hq)) as [Hvp Hid].
  - destruct Hr as [[]]. eapply Hend; [by rewrite rd_subs0|by rewrite rd_subs0|by rewrite rd_subs0|done|done..].
  - destruct Hr as [[]]. destruct pd_plans0. by eapply Hend.
Qed.
End retry.

(** ** Concrete runs *)
Section runs.
#[local] Existing Instances AsciiLower Sample.any_uuid.
#[local] Instance all_active : Releases := { release_active := λ _ _, true }.

(** An upgrade within a cycle, and the step down to a free plan after it. *)
Lemma quoteSubscription_spec_witness :
  let c := {| cs_PlanID := "p-0"; cs_PlanVersionID := "v-0"; cs_Code := "basic"; cs_Name := "Basic";
              cs_Status := SubActive; cs_CyclePriceCents := 40; cs_Entitlements := [];
              cs_StartsAt := 0; cs_EndsAt := Some 500; cs_GraceEndsAt := None |} in
  quoteSubscription 100 (Some c) "p-1" "v-1" 60 40 =
    {| sq_Action := ActUpgrade; sq_AmountCents := 20; sq_Start := 100; sq_End := 500; sq_EndsAt := Some 500 |} ∧
  sq_Action (quoteSubscription 100 (Some c) "p-1" "v-1" 60 40) = ActUpgrade ∧
  sq_EndsAt (quoteSubscription 600 (Some c) "p-2" "v-2" 0 0) = None.
Proof.
  intros c. split; [by vm_compute|]. split.
  - destruct (quoteSubscription_spec 100 (Some c) "p-1" "v-1" 60 40) as (_ & _ & _ & H & _);
      [unfold price_limit; lia..|]. destruct (H 500) as [Ha _]; [by repeat split|done|]. by apply Ha.
  - destruct (quoteSubscription_spec 600 (Some c) "p-2" "v-2" 0 0) as (_ & _ & _ & _ & H);
      [unfold price_limit; lia..|]. destruct H as (_ & _ & _ & _ & _ & Hf).
    + by intros e (_ & [= <-] & He).
    + by apply Hf.
Defined.

Definition pro : plan := {| pl_id := "p-1"; pl_code := "pro"; pl_name := "Pro"; pl_purchase_enabled := true |}.
Definition pro_v1 : plan_version :=
  {| pn_id := "v-1"; pn_plan := "p-1"; pn_version := 1; pn_price := 60;
     pn_entitlements := [("creditGrantCents", JInt 500)]; pn_effective := 0 |}.
Definition shop : db :=
  upd_apps (λ t, set_user_apps [{| a_id := "a-1"; a_user := "u-1"; a_slug := "blog"; a_status := AppSuspended;
      a_suspension := Some "subscription_expired"; a_suspended_at := Some 3; a_last_release := Some "r-1";
      a_deleted_at := None |}] t)
    (upd_subs (λ t, set_plan_versions [pro_v1] (set_plans [pro] t)) Sample.db1).
Lemma shop_ok : accounts_ok shop.
Proof.
  split_and!.
  - by apply (payments_ok_frame Sample.db1), Sample.db1_ok.
  - constructor; try by_eval.
    + by intros p w Hp%elem_of_nil.
    + intros e He%list_elem_of_singleton. by subst e.
    + by intros p Hp%elem_of_nil.
    + by intros i Hi%elem_of_nil.
  - constructor; try by_eval; by intros i Hi%elem_of_nil.
  - constructor; by_eval.
Qed.
Definition buyer (t : timestamp) : request :=
  {| principal := "u-1"; actor := None; request_id := "r-7"; now := t; origin := "https://c.example" |}.
Definition draws_of (id : string) (t : timestamp) : purchase_env :=
  {| pe_id := id; pe_bill := "b-1"; pe_grant := "g-1"; pe_job := String.append "j-"; pe_before := t; pe_now := t |}.
Definition order_pro : purchase_request := {| pq_PlanVersionID := " V-1 "; pq_IdempotencyKey := "key-1" |}.
Definition bought : response * db :=
  run internalError (purchaseSubscription (buyer 50) (draws_of "s-1" 50) (Some order_pro)) no_faults shop.
(** The charge, the credit of the plan and the recovery of the application. *)
Example bought_books :
  status_of bought.1 = 201 ∧ w_balance <$> wallets (ledger bought.2) = [40] ∧
  cg_remaining <$> grants (credits bought.2) = [500] ∧ b_total <$> bills (usage bought.2) = [60] ∧
  a_status <$> user_apps (apps bought.2) = [AppUpdating].
Proof. by vm_compute. Qed.
Lemma purchaseSubscription_run_witness : status_of bought.1 = 201 ∧ accounts_ok bought.2.
Proof.
  split; [by vm_compute|].
  pose proof (purchaseSubscription_run (buyer 50) (draws_of "s-1" 50) order_pro shop shop_ok) as H.
  unfold bought. destruct (run _ _ _ _) as [a d']. apply H.
Defined.
Lemma purchaseSubscription_retry_witness :
  ∃ row p, row ∈ subscription_purchases (subs bought.2) ∧ sp_id row = "s-1" ∧
    run internalError (purchaseSubscription (buyer 90) (draws_of "s-2" 90) (Some order_pro)) no_faults bought.2 =
      (replay row p, bought.2).
Proof.
  apply (purchaseSubscription_retry (buyer 50) (buyer 90) (draws_of "s-1" 50) (draws_of "s-2" 90) order_pro shop shop_ok eq_refl).
  intros E. apply (f_equal (λ d, List.length (subscription_purchases (subs d)))) in E. by vm_compute in E.
Defined.
(** The next month begins before the cycle ends. *)
Definition february : timestamp := midnight 1970 2 1 + 10.
Lemma january_before_february : in_calendar february ∧ in_calendar 50 ∧ month_index 50 ≠ month_index february.
Proof. by vm_compute. Qed.
(** A grant in February: none on a later day of the month, and January keeps
    its 500 cents. *)
Lemma grant_subscription_credit_topup_witness :
  ∃ res d1, grant_subscription_credit "g-2" "u-1" None february bought.2 = Ok (res, d1) ∧
    cg_amount <$> grants (credits d1) = [500; 500] ∧
    grant_subscription_credit "g-3" "u-1" None (midnight 1970 2 20) d1 = Err NoRows ∧
    granted_in "u-1" (credit_prefix "u-1" 50) d1 = granted_in "u-1" (credit_prefix "u-1" 50) bought.2.
Proof.
  assert (match grant_subscription_credit "g-2" "u-1" None february bought.2 with
          | Ok (_, d1) => cg_amount <$> grants (credits d1) | Err _ => [] end = [500; 500]) as Hamounts by by vm_compute.
  destruct (grant_subscription_credit "g-2" "u-1" None february bought.2) as [[res d1]|e] eqn:E; [|done].
  exists res, d1. split; [done|].
  destruct (grant_subscription_credit_topup "g-2" "u-1" None february bought.2 res d1)
    as (us & g & _ & _ & _ & Hgs & _ & Hsame & Hother); [by_eval|done|].
  split; [done|]. split.
  - destruct (Hsame "g-3" None (midnight 1970 2 20)) as [_ Hnone]; [by vm_compute|exact Hnone].
  - destruct january_before_february as (H1 & H2 & H3). exact (Hother 50 H1 H2 H3).
Defined.
End runs.
