(* ===== verification/Billing.v ===== *)
(** * The billing loop

    apps/worker/main.go: [aggregateUsage], [sealUnpricedUsage] and [billUsage],
    with the tables of migrations 8, 9, 24, 28, 43, 44 and 58.  A quantity is
    numeric(30,12), an integer number of 10^-12.  A run of [billUsage] is a
    transaction that ends in a [billing]: what the loop logs is left out, and
    the containers it stops after the commit are part of the result. *)
From S2P Require Import Prelude GoStrings GoTime Domain Tx Table Ledger Schema Accounts Bills Recovery.
From stdpp Require Import list.
Open Scope string_scope.
Open Scope Z_scope.
Open Scope list_scope.

(** ** Prices

    PostgreSQL rounds the quotient of two numerics to a scale it chooses from
    their weights: 16 significant digits at least, and no fewer digits after
    the point than the operands have (12). *)
Class NumericDivision := {
  quotient_scale : Z → Z;
  quotient_scale_min : ∀ p, 12 <= quotient_scale p
}.
(** Rounding half away from zero, of a quotient that is not negative. *)
Definition round_div (a b : Z) : Z := (2 * a + b) / (2 * b).
(** greatest(quantity - free, 0, minimum) * micros, in units of 10^-12. *)
Definition billable_value (v : pricing_version) (quantity : Z) : Z :=
  Z.max (Z.max (quantity - pv_free v) 0) (pv_minimum v) * pv_unit_price_micros v.
Definition price_amount `{NumericDivision} (v : pricing_version) (quantity : Z) : result sqlerr Z :=
  let p := billable_value v quantity in
  let one := 10 ^ quotient_scale p in
  let quotient := round_div (p * one) (10 ^ 18) in
  let amount := match pv_rounding v with
                | RoundUp => (quotient + one - 1) / one
                | RoundDown => quotient / one
                | RoundHalfUp => round_div quotient one
                end in
  if in64 amount then Ok amount else Err OutOfRange.

(** ** Aggregation *)
Definition same_window (e : usage_event) (a : usage_aggregate) : bool :=
  bool_decide (ue_user e = ua_user a) && bool_decide (ue_app e = ua_app a) && bool_decide (ue_code e = ua_code a)
  && (ue_start e =? ua_start a) && (ue_stop e =? ua_stop a) && bool_decide (ue_price e = ua_price a).
Definition with_quantity (q : Z) (a : usage_aggregate) : usage_aggregate :=
  {| ua_id := ua_id a; ua_user := ua_user a; ua_app := ua_app a; ua_code := ua_code a; ua_unit := ua_unit a;
     ua_start := ua_start a; ua_stop := ua_stop a; ua_price := ua_price a; ua_quantity := q;
     ua_sealed := ua_sealed a; ua_disposition := ua_disposition a |}.
Definition aggregate_of (id : Z) (at_ : timestamp) (e : usage_event) : usage_aggregate :=
  {| ua_id := id; ua_user := ue_user e; ua_app := ue_app e; ua_code := ue_code e; ua_unit := ue_unit e;
     ua_start := ue_start e; ua_stop := ue_stop e; ua_price := ue_price e; ua_quantity := ue_quantity e;
     ua_sealed := if bool_decide (ue_price e = None) then Some at_ else None;
     ua_disposition := if bool_decide (ue_price e = None) then Unpriced else Pending |}.
Definition open_aggregate (a : usage_aggregate) : bool := bool_decide (ua_sealed a = None).
Definition numeric_30_12 (q : Z) : bool := q <? 10 ^ 30.
(** GROUP BY user, application, code, unit, window and price, with the sum of the
    quantities. *)
Definition same_group (e g : usage_event) : bool :=
  bool_decide (ue_user e = ue_user g) && bool_decide (ue_app e = ue_app g) && bool_decide (ue_code e = ue_code g)
  && bool_decide (ue_unit e = ue_unit g) && (ue_start e =? ue_start g) && (ue_stop e =? ue_stop g)
  && bool_decide (ue_price e = ue_price g).
Definition with_event_quantity (q : Z) (e : usage_event) : usage_event :=
  {| ue_id := ue_id e; ue_user := ue_user e; ue_app := ue_app e; ue_code := ue_code e; ue_quantity := q;
     ue_unit := ue_unit e; ue_start := ue_start e; ue_stop := ue_stop e; ue_price := ue_price e;
     ue_aggregated := ue_aggregated e |}.
Fixpoint add_to_group (e : usage_event) (gs : list usage_event) : list usage_event :=
  match gs with
  | [] => [e]
  | g :: gs => if same_group e g then with_event_quantity (ue_quantity g + ue_quantity e) g :: gs else g :: add_to_group e gs
  end.
Definition group_events (es : list usage_event) : list usage_event := fold_left (λ gs e, add_to_group e gs) es [].
(** INSERT ... ON CONFLICT DO UPDATE ... WHERE sealed_at IS NULL, of one group. *)
Definition aggregate_event (at_ : timestamp) (e : usage_event) (t : usage_t) : result sqlerr usage_t :=
  if negb (numeric_30_12 (ue_quantity e)) then Err OutOfRange
  else if exists_row (same_window e) (usage_aggregates t) then
    let hit a := same_window e a && open_aggregate a in
    if forallb (λ a, numeric_30_12 (ua_quantity a + ue_quantity e)) (List.filter hit (usage_aggregates t))
    then Ok (set_usage_aggregates (update hit (λ a, with_quantity (ua_quantity a + ue_quantity e) a)
               (usage_aggregates t)) t)
    else Err OutOfRange
  else Ok (set_next_aggregate (next_aggregate t + 1)
             (set_usage_aggregates (usage_aggregates t ++ [aggregate_of (next_aggregate t) at_ e]) t)).
Fixpoint aggregate_events (at_ : timestamp) (es : list usage_event) (t : usage_t) : result sqlerr usage_t :=
  match es with
  | [] => Ok t
  | e :: es => t ← aggregate_event at_ e t; aggregate_events at_ es t
  end.
Definition mark_aggregated (at_ : timestamp) (e : usage_event) : usage_event :=
  {| ue_id := ue_id e; ue_user := ue_user e; ue_app := ue_app e; ue_code := ue_code e; ue_quantity := ue_quantity e;
     ue_unit := ue_unit e; ue_start := ue_start e; ue_stop := ue_stop e; ue_price := ue_price e;
     ue_aggregated := Some at_ |}.
Definition event_id_le (e f : usage_event) : bool := ue_id e <=? ue_id f.
(** ORDER BY id FOR UPDATE SKIP LOCKED LIMIT 1000; [unlocked]: the rows that no
    other transaction holds. *)
Definition claimed_events (unlocked : Z → bool) (t : usage_t) : list usage_event :=
  take 1000 (List.filter (λ e, bool_decide (ue_aggregated e = None) && unlocked (ue_id e))
               (sort_by event_id_le (usage_events t))).
(** Two units in one window make the upsert hit a row twice. *)
Definition mixed_units (es : list usage_event) (t : usage_t) : bool :=
  existsb (λ e, existsb (λ f, same_window e (aggregate_of 0 0 f) && negb (bool_decide (ue_unit e = ue_unit f))
                              && negb (exists_row (λ a, same_window e a && negb (open_aggregate a)) (usage_aggregates t)))
                  es) es.
Definition aggregate_batch (unlocked : Z → bool) (at_ : timestamp) (t : usage_t) : result sqlerr usage_t :=
  let claimed := claimed_events unlocked t in
  let grouped := group_events claimed in
  if mixed_units grouped t then Err (Constraint "ON CONFLICT DO UPDATE command cannot affect row a second time")
  else
    t ← aggregate_events at_ grouped t;
    Ok (set_usage_events (update (λ e, existsb (λ c, ue_id c =? ue_id e) claimed) (mark_aggregated at_)
          (usage_events t)) t).
Definition on_usage (f : usage_t → result sqlerr usage_t) (d : db) : result sqlerr db :=
  match f (usage d) with Ok t => Ok (upd_usage (λ _, t) d) | Err e => Err e end.
Definition aggregateUsage (unlocked : Z → bool) (at_ : timestamp) : tx db unit unit :=
  begin_tx;;
  exec (on_usage (aggregate_batch unlocked at_));;
  commit.

(** ** Windows without a price *)
Definition seal (at_ : timestamp) (disp : disposition) (price : option string) (a : usage_aggregate) : usage_aggregate :=
  {| ua_id := ua_id a; ua_user := ua_user a; ua_app := ua_app a; ua_code := ua_code a; ua_unit := ua_unit a;
     ua_start := ua_start a; ua_stop := ua_stop a; ua_price := price; ua_quantity := ua_quantity a;
     ua_sealed := Some at_; ua_disposition := disp |}.
Definition unpriced (a : usage_aggregate) : bool :=
  open_aggregate a && bool_decide (ua_disposition a = Pending) && bool_decide (ua_price a = None).
Definition window_le (a b : usage_aggregate) : bool :=
  (ua_start a <? ua_start b) || ((ua_start a =? ua_start b) && (ua_id a <=? ua_id b)).
Definition seal_batch (unlocked : Z → bool) (at_ : timestamp) (t : usage_t) : result sqlerr usage_t :=
  let candidates := take 1000 (List.filter (λ a, unpriced a && unlocked (ua_id a)) (sort_by window_le (usage_aggregates t))) in
  Ok (set_usage_aggregates (update (λ a, existsb (λ c, ua_id c =? ua_id a) candidates) (λ a, seal at_ Unpriced (ua_price a) a)
        (usage_aggregates t)) t).
(** A single statement on the pool commits by itself. *)
Definition sealUnpricedUsage (unlocked : Z → bool) (at_ : timestamp) : tx db unit unit :=
  exec (on_usage (seal_batch unlocked at_));;
  commit.

(** ** Claiming a window *)
Definition charged_window (d : db) (a : usage_aggregate) : bool :=
  exists_row (λ c, bool_decide (uc_user c = ua_user a) && bool_decide (uc_app c = ua_app a)
                   && bool_decide (uc_code c = ua_code a) && (uc_start c =? ua_start a) && (uc_stop c =? ua_stop a)
                   && (bool_decide (ua_app a = None) || bool_decide (Some (uc_pricing c) = ua_price a)))
    (usage_charges (usage d)).
Definition attempt_of (a : usage_aggregate) (b : billing_attempt) : bool :=
  bool_decide (ba_user b = ua_user a) && bool_decide (ba_app b = ua_app a) && bool_decide (ba_code b = ua_code a)
  && (ba_start b =? ua_start a) && (ba_stop b =? ua_stop a).
(** The same charge failed before, with the balance and credit of now. *)
Definition failed_before (at_ : timestamp) (d : db) (w : wallet) (a : usage_aggregate) : bool :=
  exists_row (λ b, attempt_of a b && negb (ba_charged b) && (ba_balance b =? w_balance w)
                   && (ba_credit b =? credit_available (ua_user a) at_ d)) (billing_attempts (usage d)).
Definition pending_aggregate (a : usage_aggregate) : bool :=
  open_aggregate a && bool_decide (ua_disposition a = Pending).
Definition billable (at_ : timestamp) (d : db) (a : usage_aggregate) : bool :=
  pending_aggregate a && negb (bool_decide (ua_price a = None)) && negb (charged_window d a)
  && match select_wallet (ua_user a) (ledger d) with
     | Ok w => negb (failed_before at_ d w a)
     | Err _ => false
     end.
(** ORDER BY window_start; windows that start together come in any order, which
    [unlocked] can choose as well. *)
Definition claim_aggregate (unlocked : Z → bool) (at_ : timestamp) (d : db) : result sqlerr usage_aggregate :=
  select (λ _, true) (List.filter (λ a, billable at_ d a && unlocked (ua_id a))
                        (sort_by window_le (usage_aggregates (usage d)))).
Definition version_is_ (id : string) (v : pricing_version) : bool := bool_decide (pv_id v = id).
Definition select_price `{NumericDivision} (id : string) (quantity : Z) (d : db) : result sqlerr (pricing_version * Z) :=
  v ← select (version_is_ id) (pricing_versions (usage d));
  amount ← price_amount v quantity;
  Ok (v, amount).

(** ** Credit: first what expires first *)
Definition expiry_le (a b : option timestamp) : bool :=
  match a, b with _, None => true | None, Some _ => false | Some a, Some b => a <=? b end.
Definition expiry_lt (a b : option timestamp) : bool := negb (expiry_le b a).
Definition grant_le (g h : credit_grant) : bool :=
  expiry_lt (cg_expires g) (cg_expires h)
  || (bool_decide (cg_expires g = cg_expires h)
      && ((cg_created g <? cg_created h) || ((cg_created g =? cg_created h) && (cg_id g <=? cg_id h)%string))).
Definition available_grants (user : string) (at_ : timestamp) (d : db) : list credit_grant :=
  sort_by grant_le (List.filter (spendable user at_) (grants (credits d))).
Definition credit_sum (gs : list credit_grant) : Z := fold_left (λ acc g, wrap64 (acc + cg_remaining g)) gs 0.
Definition grant_is (id : string) (g : credit_grant) : bool := bool_decide (cg_id g = id).
Definition with_remaining (r : Z) (g : credit_grant) : credit_grant :=
  {| cg_id := cg_id g; cg_user := cg_user g; cg_amount := cg_amount g; cg_remaining := r; cg_ref := cg_ref g;
     cg_note := cg_note g; cg_expires := cg_expires g; cg_by_ := cg_by_ g; cg_created := cg_created g |}.
(** UPDATE credit_grants SET remaining_cents=remaining_cents-$2 WHERE id=$1. *)
Definition use_grant (id : string) (used : Z) (d : db) : result sqlerr db :=
  let hit := List.filter (grant_is id) (grants (credits d)) in
  if negb (forallb (λ g, (0 <=? cg_remaining g - used) && (cg_remaining g - used <=? cg_amount g)) hit)
  then Err (Constraint "credit_grants_remaining_cents_check")
  else if negb (forallb (λ g, cg_remaining g - used <=? cg_remaining g) hit)
  then Err (Constraint "credit grant identity is immutable and remaining credit cannot increase")
  else Ok (upd_credits (λ t, set_grants (update (grant_is id) (λ g, with_remaining (cg_remaining g - used) g) (grants t)) t) d).
Definition insert_consumption (row : credit_consumption) (d : db) : result sqlerr db :=
  if exists_row (λ c, bool_decide (cc_grant c = cc_grant row) && (cc_charge c =? cc_charge row)) (consumptions (credits d))
  then Err (Constraint "credit_consumptions_credit_grant_id_usage_charge_id_key")
  else if cc_amount row <=? 0 then Err (Constraint "credit_consumptions_amount_cents_check")
  else Ok (upd_credits (λ t, set_consumptions (consumptions t ++ [row]) t) d).

Inductive billing := Idle | Failed | Suspended (containers : list string) | Billed (containers : list string).
Definition bill_tx := tx db billing.
Fixpoint consume_credit (charge remaining : Z) (gs : list credit_grant) : bill_tx unit :=
  match gs with
  | [] => mret tt
  | g :: gs =>
      if remaining =? 0 then mret tt
      else
        let used := if remaining <? cg_remaining g then remaining else cg_remaining g in
        exec (use_grant (cg_id g) used);;
        exec (insert_consumption {| cc_grant := cg_id g; cc_charge := charge; cc_amount := used |});;
        consume_credit charge (wrap64 (remaining - used)) gs
  end.

(** ** Statements of the loop *)
(** INSERT INTO usage_billing_attempts ... ON CONFLICT DO NOTHING. *)
Definition same_attempt (x y : billing_attempt) : bool :=
  bool_decide (ba_user x = ba_user y) && bool_decide (ba_app x = ba_app y) && bool_decide (ba_code x = ba_code y)
  && (ba_start x =? ba_start y) && (ba_stop x =? ba_stop y) && bool_decide (ba_pricing x = ba_pricing y)
  && Bool.eqb (ba_charged x) (ba_charged y) && (ba_balance x =? ba_balance y) && (ba_credit x =? ba_credit y).
Definition insert_attempt (row : billing_attempt) (d : db) : result sqlerr db :=
  if ba_amount row <? 0 then Err (Constraint "usage_billing_attempts_amount_cents_check")
  else if ba_credit row <? 0 then Err (Constraint "usage_billing_attempts_credit_balance_cents_check")
  else if exists_row (same_attempt row) (billing_attempts (usage d)) then Ok d
  else Ok (upd_usage (λ t, set_billing_attempts (billing_attempts t ++ [row]) t) d).
Definition runs (user : string) (a : app_row) : bool :=
  bool_decide (a_user a = user) && bool_decide (a_status a = AppRunning).
Definition running_containers (user : string) (d : db) : list string :=
  List.filter (λ c, negb (bool_decide (c = "")))
    (rt_upstream_container <$> List.filter (λ r, exists_row (λ a, bool_decide (a_id a = rt_app r) && runs user a)
                                                   (user_apps (apps d))) (app_routes (apps d))).
Definition suspend_app (at_ : timestamp) (a : app_row) : app_row :=
  {| a_id := a_id a; a_user := a_user a; a_slug := a_slug a; a_status := AppSuspended;
     a_suspension := Some "billing_insufficient";
     a_suspended_at := match a_suspended_at a with None => Some at_ | t => t end;
     a_last_release := a_last_release a; a_deleted_at := a_deleted_at a |}.
Definition waits_for_payment (user : string) (a : app_row) : bool :=
  bool_decide (a_user a = user) && bool_decide (a_status a = AppSuspended)
  && bool_decide (a_suspension a = Some "billing_insufficient").
Definition suspend_apps (user : string) (at_ : timestamp) (d : db) : result sqlerr db :=
  Ok (upd_apps (λ t, set_user_apps (update (runs user) (suspend_app at_) (user_apps t)) t) d).
Definition delete_routes (user : string) (d : db) : result sqlerr db :=
  Ok (upd_apps (λ t, set_app_routes (List.filter (λ r, negb (exists_row (λ a, bool_decide (a_id a = rt_app r)
        && waits_for_payment user a) (user_apps t))) (app_routes t)) t) d).
(** INSERT INTO usage_charges ... RETURNING id. *)
Definition same_charge (x y : usage_charge) : bool :=
  bool_decide (uc_user x = uc_user y) && bool_decide (uc_app x = uc_app y) && bool_decide (uc_code x = uc_code y)
  && (uc_start x =? uc_start y) && (uc_stop x =? uc_stop y) && bool_decide (uc_pricing x = uc_pricing y).
Definition insert_charge (row : Z → usage_charge) (d : db) : result sqlerr (Z * db) :=
  let id := next_charge (usage d) in
  let c := row id in
  if exists_row (same_charge c) (usage_charges (usage d)) then Err (Constraint "usage_charges_snapshot_uidx")
  else if (uc_amount c <? 0) || (uc_quantity c <? 0) then Err (Constraint "usage_charges_check")
  else if match uc_entry c with
          | Some e => exists_row (λ x, bool_decide (uc_entry x = Some e)) (usage_charges (usage d))
          | None => false end
  then Err (Constraint "usage_charges_wallet_ledger_entry_id_key")
  else Ok (id, upd_usage (λ t, set_next_charge (id + 1) (set_usage_charges (usage_charges t ++ [c]) t)) d).
(** INSERT INTO bill_items ... SELECT ... FROM pricing_versions LEFT JOIN
    user_apps. *)
Definition insert_bill_item (bill : string) (charge : Z) (a : usage_aggregate) (price : string) (amount : Z) (d : db) :
    result sqlerr db :=
  match select (version_is_ price) (pricing_versions (usage d)) with
  | Err _ => Ok d
  | Ok v =>
      if exists_row (λ i, bi_charge i =? charge) (bill_items (usage d)) then Err (Constraint "bill_items_usage_charge_id_key")
      else
        let slug := match ua_app a with
                    | Some app => match select (λ x, bool_decide (a_id x = app)) (user_apps (apps d)) with
                                  | Ok x => Some (a_slug x) | Err _ => None end
                    | None => None end in
        Ok (upd_usage (λ t, set_bill_items (bill_items t ++
          [{| bi_bill := bill; bi_charge := charge; bi_app := ua_app a; bi_slug := slug; bi_code := ua_code a;
              bi_unit := ua_unit a; bi_quantity := ua_quantity a; bi_pricing := price;
              bi_price := pv_unit_price_micros v; bi_amount := amount; bi_start := ua_start a;
              bi_stop := ua_stop a |}]) t) d)
  end.
Definition aggregate_is (id : Z) (a : usage_aggregate) : bool := ua_id a =? id.
Definition seal_charged (id : Z) (price : string) (at_ : timestamp) (d : db) : result sqlerr db :=
  Ok (upd_usage (λ t, set_usage_aggregates (update (aggregate_is id)
        (λ a, seal at_ Charged (match ua_price a with None => Some price | p => p end) a) (usage_aggregates t)) t) d).

(** The notice of a low balance, at most once per cooldown. *)
Definition alert_due (balance : Z) (at_ : timestamp) (s : alert) : bool :=
  al_enabled s && (0 <? balance) && (balance <=? al_threshold s)
  && (negb (al_below s) || match al_last_notified s with
                           | None => true
                           | Some t => t <=? at_ - al_cooldown_hours s * hour end).
Definition alert_of (user : string) (s : alert) : bool := bool_decide (al_user s = user).
Definition low_balance_notice (user : string) (balance aggregate : Z) (s : alert) : notification :=
  {| n_user := user; n_event_key := ("low-balance/" ^+ format_int aggregate)%string; n_kind := "low_balance";
     n_severity := "warning"; n_title := "账户余额较低";
     n_meta := [("balance_cents", JInt balance); ("threshold_cents", JInt (al_threshold s))];
     n_email := "queued" |}.
Definition notified (at_ : timestamp) (s : alert) : alert :=
  {| al_user := al_user s; al_enabled := al_enabled s; al_threshold := al_threshold s;
     al_cooldown_hours := al_cooldown_hours s; al_last_notified := Some at_; al_below := true |}.
Definition recovered (s : alert) : alert :=
  {| al_user := al_user s; al_enabled := al_enabled s; al_threshold := al_threshold s;
     al_cooldown_hours := al_cooldown_hours s; al_last_notified := al_last_notified s; al_below := false |}.
Definition set_alerts (f : list alert → list alert) (l : ledger_t) : ledger_t :=
  {| wallets := wallets l; entries := entries l; next_entry := next_entry l; alerts := f (alerts l) |}.
Definition alert_low_balance (user : string) (balance aggregate : Z) (at_ : timestamp) (d : db) : result sqlerr db :=
  match select (alert_of user) (alerts (ledger d)) with
  | Ok s =>
      let row := low_balance_notice user balance aggregate s in
      if alert_due balance at_ s
         && negb (exists_row (λ n, bool_decide (n_user n = user) && bool_decide (n_event_key n = n_event_key row)) (notifications d))
      then Ok (upd_ledger (set_alerts (update (alert_of user) (notified at_))) (upd_notifications (λ t, t ++ [row]) d))
      else Ok d
  | Err _ => Ok d
  end.
Definition alert_recovered (user : string) (balance : Z) (d : db) : result sqlerr db :=
  Ok (upd_ledger (set_alerts (update (λ s, alert_of user s && al_below s && (al_threshold s <? balance)) recovered)) d).

Definition belowStartupReserve (availableCents reserveCents : Z) : bool := availableCents <? reserveCents.
Definition billing_notice (user key title : string) (meta : jsonb) : notification :=
  {| n_user := user; n_event_key := key; n_kind := "billing_suspended"; n_severity := "critical"; n_title := title;
     n_meta := meta; n_email := "not_requested" |}.

(** Applications that wait for a payment get a recovery job, when nothing is
    left to bill. *)
Definition insert_billing_jobs `{Releases} (new_id new_key : string → string) (user : string) (available : Z) (d0 : db) :
    result sqlerr (Z * db) :=
  recover_apps (λ a, waits_for_payment user a && (startup_balance_reserve_cents d0 <=? available)
      && negb (exists_row (λ ua, bool_decide (ua_user ua = user) && pending_aggregate ua) (usage_aggregates (usage d0)))
      && negb (busy d0 a))
    (λ a, insert_recovery_job false "billing_recovery" (new_id (a_id a))
            ("billing-resume/" ^+ a_id a ^+ "/" ^+ new_key (a_id a))%string a) d0.
Definition resume_paid (user : string) (d : db) : result sqlerr db :=
  let recovering a := exists_row (λ j, bool_decide (j_app j = a_id a) && bool_decide (j_state j = DeploymentQueued)
                                       && has_prefix (j_key j) "billing-resume/") (deployment_jobs (apps d)) in
  Ok (upd_apps (λ t, set_user_apps (update (λ a, waits_for_payment user a && recovering a) resume_app (user_apps t)) t) d).

(** ** billUsage *)
Section bill.
Context `{Releases} `{NumericDivision}.
(** [at_]: now() of the transaction; the identifiers drawn for the bill and the
    jobs; the rows other transactions hold. *)
Record bill_env := {
  be_now : timestamp; be_unlocked : Z → bool; be_bill : string; be_job : string → string; be_key : string → string
}.
Context (env : bill_env).

Definition attempt_row (a : usage_aggregate) (price : string) (amount : Z) (ok : bool) (balance credit : Z) : billing_attempt :=
  {| ba_user := ua_user a; ba_app := ua_app a; ba_code := ua_code a; ba_start := ua_start a; ba_stop := ua_stop a;
     ba_pricing := price; ba_amount := amount; ba_charged := ok; ba_balance := balance; ba_credit := credit |}.

(** The wallet does not cover what the credit leaves. *)
Definition suspend_unpaid (a : usage_aggregate) (price : string) (amount balance creditBalance walletCharge : Z) :
    bill_tx billing :=
  let user := ua_user a in
  containers ← query (λ d, Ok (running_containers user d));
  exec (insert_attempt (attempt_row a price amount false balance creditBalance));;
  exec (notify (billing_notice user ("billing-suspended/" ^+ format_int (ua_id a))%string "余额不足，应用已暂停"
          [("usage_code", JStr (ua_code a)); ("gross_amount_cents", JInt amount);
           ("credit_available_cents", JInt creditBalance); ("required_wallet_cents", JInt walletCharge);
           ("balance_cents", JInt balance)]));;
  exec (suspend_apps user (be_now env));;
  exec (delete_routes user);;
  commit;;
  mret (Suspended containers).

Definition usage_ref (a : usage_aggregate) (price : string) : string :=
  (ua_code a ^+ "/" ^+ default "account" (ua_app a) ^+ "/" ^+ price ^+ "/" ^+ format_rfc3339 (ua_start a)
   ^+ "/" ^+ format_rfc3339 (ua_stop a))%string.
Definition charge_wallet (a : usage_aggregate) (price : string) (w : wallet) (amount creditUsed walletCharge : Z) :
    bill_tx (option Z) :=
  if 0 <? walletCharge then
    id ← stmt (on_ledger (insert_entry (w_id w) "usage" (usage_ref a price) (- walletCharge) (w_balance w - walletCharge)
           [("usage_code", JStr (ua_code a)); ("window_start", JInt (ua_start a)); ("window_end", JInt (ua_stop a));
            ("pricing_version_id", JStr price); ("gross_amount_cents", JInt amount);
            ("credit_amount_cents", JInt creditUsed)]));
    exec (on_ledger_ (set_balance (w_balance w - walletCharge) (w_id w)));;
    mret (Some id)
  else mret None.
Definition charge_row (a : usage_aggregate) (price : string) (amount : Z) (entry : option Z) (id : Z) : usage_charge :=
  {| uc_id := id; uc_user := ua_user a; uc_app := ua_app a; uc_code := ua_code a; uc_start := ua_start a;
     uc_stop := ua_stop a; uc_pricing := price; uc_quantity := ua_quantity a; uc_amount := amount; uc_entry := entry |}.
(** The item on the statement of the month of the window. *)
Definition bill_window (a : usage_aggregate) (price : string) (amount charge : Z) : bill_tx unit :=
  let '(y, m, _) := date_of (ua_start a) in
  let periodStart := go_date y m 1 0 in
  billID ← stmt (upsert_bill (be_bill env) (ua_user a) periodStart (add_date periodStart 0 1 0));
  exec (insert_bill_item billID charge a price amount);;
  exec (add_to_bill billID amount).
(** What is left falls below the reserve an application needs. *)
Definition suspend_below_reserve (a : usage_aggregate) (available reserve : Z) : bill_tx (list string) :=
  let user := ua_user a in
  if belowStartupReserve available reserve then
    containers ← query (λ d, Ok (running_containers user d));
    exec (suspend_apps user (be_now env));;
    exec (delete_routes user);;
    exec (notify (billing_notice user ("billing-reserve-suspended/" ^+ format_int (ua_id a))%string
            "可用余额低于开机保留额，应用已暂停"
            [("available_cents", JInt available); ("reserve_cents", JInt reserve)]));;
    mret containers
  else mret [].

Definition charge_window (a : usage_aggregate) (price : string) (amount : Z) (w : wallet) (gs : list credit_grant)
    (creditBalance creditUsed walletCharge : Z) : bill_tx billing :=
  let user := ua_user a in
  let newBalance := w_balance w - walletCharge in
  ledgerID ← charge_wallet a price w amount creditUsed walletCharge;
  charge ← stmt (insert_charge (charge_row a price amount ledgerID));
  consume_credit charge creditUsed gs;;
  bill_window a price amount charge;;
  exec (seal_charged (ua_id a) price (be_now env));;
  (if 0 <? walletCharge then
     exec (alert_low_balance user newBalance (ua_id a) (be_now env));;
     exec (alert_recovered user newBalance)
   else mret tt);;
  exec (insert_attempt (attempt_row a price amount true newBalance (wrap64 (creditBalance - creditUsed))));;
  reserve ← query (λ d, Ok (startup_balance_reserve_cents d));
  let available := wrap64 (wrap64 (newBalance + creditBalance) - creditUsed) in
  containers ← suspend_below_reserve a available reserve;
  stmt (insert_billing_jobs (be_job env) (be_key env) user available);;
  exec (resume_paid user);;
  commit;;
  mret (Billed containers).

Definition billUsage : bill_tx billing :=
  begin_tx;;
  a ← on_no_rows (query (claim_aggregate (be_unlocked env) (be_now env))) (exit Idle);
  match ua_price a with
  | None => exit Failed (* the NULL does not scan into a string *)
  | Some price =>
      pv ← on_no_rows (query (select_price price (ua_quantity a))) (exit Idle);
      let amount := pv.2 in
      w ← query (λ d, select_wallet (ua_user a) (ledger d));
      gs ← query (λ d, Ok (available_grants (ua_user a) (be_now env) d));
      let creditBalance := credit_sum gs in
      let creditUsed := if creditBalance <? amount then creditBalance else amount in
      let walletCharge := wrap64 (amount - creditUsed) in
      if w_balance w <? walletCharge
      then suspend_unpaid a price amount (w_balance w) creditBalance walletCharge
      else charge_window a price amount w gs creditBalance creditUsed walletCharge
  end.
Definition bill_failed (_ : sqlerr) : billing := Failed.
Definition run_billing (orc : oracle) (d : db) : billing * db := run bill_failed billUsage orc d.
End bill.
