(* ===== verification/BillingFacts.v ===== *)
(** * Correctness of the billing loop

    Prices, the order in which credit is used, what a run of [billUsage]
    changes, and the books it keeps: every charge is paid exactly once, by
    credit and by the wallet together. *)
From S2P Require Import Prelude GoStrings GoTime Domain Money Tx Table Ledger Schema Http.
From S2P Require Import Payments PaymentFacts Posting Accounts AccountFacts Bills Recovery Billing.
From Stdlib Require Import Sorted.
From stdpp Require Import list.
Open Scope string_scope.
Open Scope Z_scope.
Open Scope list_scope.

(** ** Prices *)
Lemma round_div_spec a b : 0 < b → - b <= 2 * (round_div a b * b - a) <= b.
Proof. intros Hb. unfold round_div. Z.to_euclidean_division_equations. nia. Qed.
(** The exact price, in units of 10^-18 of a cent. *)
Definition cent : Z := 10 ^ 18.
Section price.
Context `{NumericDivision}.
Lemma scale_spec p : 0 < 10 ^ quotient_scale p ∧ cent <= 10 ^ 6 * 10 ^ quotient_scale p.
Proof.
  pose proof (quotient_scale_min p) as Hs. split; [apply Z.pow_pos_nonneg; lia|].
  unfold cent. rewrite <- Z.pow_add_r by lia. apply Z.pow_le_mono_r; lia.
Qed.
Lemma price_amount_nonneg v quantity amount :
  0 <= pv_unit_price_micros v → price_amount v quantity = Ok amount → 0 <= amount ∧ is_int64 amount.
Proof.
  intros Hm. unfold price_amount. set (p := billable_value v quantity).
  assert (0 <= p) as Hpos by (unfold p, billable_value; nia).
  destruct (scale_spec p) as [Ho _]. set (one := 10 ^ quotient_scale p) in *. cbv zeta.
  change (10 ^ 18) with cent. assert (0 < cent) as Hc by by vm_compute.
  assert (0 <= round_div (p * one) cent) as Hq0 by (unfold round_div; apply Z.div_pos; nia).
  destruct (in64 _) eqn:E64; [|done]. intros [= <-]. apply in64_spec in E64. split; [|done].
  clearbody one. revert Hq0. generalize (round_div (p * one) cent) as q. intros q Hq0.
  destruct (pv_rounding v); unfold round_div; apply Z.div_pos; lia.
Qed.
(** C16: the amount of a window is its exact price rounded to cents in the mode
    of the price version: up never charges less and down never more than the
    price, half-up at most half a cent off, all up to 10^-12 of a cent (the
    rounding of the quotient); it is never negative. *)
Theorem price_amount_spec v quantity amount :
  0 <= pv_unit_price_micros v → price_amount v quantity = Ok amount →
  let p := billable_value v quantity in
  0 <= amount ∧ is_int64 amount ∧
  match pv_rounding v with
  | RoundUp => p - 10 ^ 6 <= amount * cent < p + cent + 10 ^ 6
  | RoundDown => p - cent - 10 ^ 6 < amount * cent <= p + 10 ^ 6
  | RoundHalfUp => p - cent / 2 - 10 ^ 6 <= amount * cent <= p + cent / 2 + 10 ^ 6
  end.
Proof.
  intros Hm Hp p. destruct (price_amount_nonneg v quantity amount Hm Hp) as [H0 Hi].
  split; [done|split; [done|]]. revert Hp. unfold price_amount. fold p.
  assert (0 <= p) as Hpos by (unfold p, billable_value; nia).
  destruct (scale_spec p) as [Ho Hd]. set (one := 10 ^ quotient_scale p) in *. cbv zeta.
  change (10 ^ 18) with cent. assert (0 < cent) as Hc by by vm_compute.
  pose proof (round_div_spec (p * one) cent Hc) as Hq. set (q := round_div (p * one) cent) in *.
  destruct (in64 _); [|done]. intros [= Hp]. revert Hp.
  destruct (pv_rounding v); intros Hp.
  - assert (q <= amount * one < q + one) as Ha by (rewrite <- Hp; Z.to_euclidean_division_equations; nia).
    split; nia.
  - assert (amount * one <= q < amount * one + one) as Ha by (rewrite <- Hp; Z.to_euclidean_division_equations; nia).
    split; nia.
  - pose proof (round_div_spec q one Ho) as Hr. rewrite Hp in Hr.
    assert (2 * (cent / 2) = cent) as Hh by by vm_compute. clear Hp. generalize dependent (cent / 2); intros h Hh.
    split; nia.
Qed.
End price.

(** ** Credit *)
(** The reference: take from the grants in order until the amount is met. *)
Fixpoint fifo (charge remaining : Z) (gs : list credit_grant) : list credit_consumption :=
  match gs with
  | [] => []
  | g :: gs =>
      if remaining =? 0 then []
      else let used := Z.min remaining (cg_remaining g) in
           {| cc_grant := cg_id g; cc_charge := charge; cc_amount := used |} :: fifo charge (remaining - used) gs
  end.
Definition used_by (id : string) (cs : list credit_consumption) : Z :=
  sumZ (cc_amount <$> List.filter (λ c, bool_decide (cc_grant c = id)) cs).
Definition used_in (charge : Z) (cs : list credit_consumption) : Z :=
  sumZ (cc_amount <$> List.filter (λ c, cc_charge c =? charge) cs).
Definition total_credit (gs : list credit_grant) : Z := sumZ (cg_remaining <$> gs).
Definition draw (cs : list credit_consumption) (g : credit_grant) : credit_grant :=
  with_remaining (cg_remaining g - used_by (cg_id g) cs) g.

Lemma used_by_app id cs cs' : used_by id (cs ++ cs') = used_by id cs + used_by id cs'.
Proof. unfold used_by. by rewrite List.filter_app, fmap_app, sumZ_app. Qed.
Lemma used_in_app c cs cs' : used_in c (cs ++ cs') = used_in c cs + used_in c cs'.
Proof. unfold used_in. by rewrite List.filter_app, fmap_app, sumZ_app. Qed.
Lemma used_by_cons id c cs :
  used_by id (c :: cs) = (if bool_decide (cc_grant c = id) then cc_amount c else 0) + used_by id cs.
Proof. unfold used_by. cbn [List.filter]. by case_bool_decide. Qed.
Lemma fifo_grants charge r gs c : c ∈ fifo charge r gs → cc_grant c ∈ cg_id <$> gs ∧ cc_charge c = charge.
Proof.
  revert r. induction gs as [|g gs IH]; intros r; cbn; [by intros ?%elem_of_nil|].
  destruct (r =? 0); [by intros ?%elem_of_nil|]. intros [->|Hc]%elem_of_cons; [by split; [left|]|].
  destruct (IH _ Hc). split; [by right|done].
Qed.
Lemma fifo_not_used charge r gs id : id ∉ cg_id <$> gs → used_by id (fifo charge r gs) = 0.
Proof.
  intros Hid. unfold used_by. rewrite filter_none; [done|]. intros c Hc. apply bool_decide_eq_false_2.
  intros <-. by apply fifo_grants in Hc as [Hc _].
Qed.
Lemma total_nonneg gs : Forall (λ g, 0 < cg_remaining g) gs → 0 <= total_credit gs.
Proof. intros Hg. apply sumZ_nonneg. rewrite Forall_fmap. eapply Forall_impl; [exact Hg|]. cbn. lia. Qed.
(** Exactly the amount is taken, when there is enough. *)
Lemma fifo_sum charge r gs :
  Forall (λ g, 0 < cg_remaining g) gs → 0 <= r <= total_credit gs → used_in charge (fifo charge r gs) = r.
Proof.
  intros Hg. revert r. induction Hg as [|g gs Hg Hgs IH]; intros r Hr; [change (total_credit []) with 0 in Hr; cbn; lia|].
  pose proof (total_nonneg gs Hgs). change (total_credit (g :: gs)) with (cg_remaining g + total_credit gs) in Hr. cbn [fifo].
  destruct (Z.eqb_spec r 0) as [->|Hr0]; [done|]. unfold used_in. cbn [List.filter cc_charge]. rewrite Z.eqb_refl. cbn.
  fold (used_in charge (fifo charge (r - Z.min r (cg_remaining g)) gs)). rewrite IH by lia. lia.
Qed.
(** First in, first out: a grant is only touched when those before it are used
    up. *)
Lemma fifo_order charge r gs1 g gs2 :
  NoDup (cg_id <$> gs1 ++ g :: gs2) → Forall (λ g, 0 < cg_remaining g) (gs1 ++ g :: gs2) →
  0 <= r → used_by (cg_id g) (fifo charge r (gs1 ++ g :: gs2)) = Z.max 0 (Z.min (r - total_credit gs1) (cg_remaining g)).
Proof.
  revert r. induction gs1 as [|h gs1 IH]; intros r; cbn [app fmap list_fmap]; intros [Hn Hnd]%NoDup_cons [Hh Hf]%Forall_cons Hr.
  - cbn [fifo]. unfold total_credit. cbn [fmap list_fmap sumZ]. destruct (Z.eqb_spec r 0) as [->|Hr0]; [cbn; lia|].
    rewrite used_by_cons. cbn [cc_grant]. rewrite bool_decide_eq_true_2, fifo_not_used by done. cbn. lia.
  - cbn [fifo]. change (total_credit (h :: gs1)) with (cg_remaining h + total_credit gs1).
    assert (0 <= total_credit gs1) as Ht.
    { apply Forall_app in Hf as [Hf _]. by apply total_nonneg. }
    destruct (Z.eqb_spec r 0) as [->|Hr0]; [cbn; lia|].
    rewrite used_by_cons. cbn [cc_grant]. rewrite bool_decide_eq_false_2.
    2: { intros E. apply Hn. rewrite E, fmap_app. apply elem_of_app. right. left. }
    cbv beta in Hh. rewrite IH by (done || lia). lia.
Qed.

Lemma credit_sum_total gs :
  Forall (λ g, 0 < cg_remaining g) gs → total_credit gs <= int64_max → credit_sum gs = total_credit gs.
Proof.
  intros Hpos. unfold credit_sum.
  enough (∀ acc, 0 <= acc → acc + total_credit gs <= int64_max →
    fold_left (λ acc g, wrap64 (acc + cg_remaining g)) gs acc = acc + total_credit gs) as H by (intros; by rewrite H).
  induction Hpos as [|g gs Hg Hgs IH]; intros acc Ha Hle.
  - change (total_credit []) with 0. cbn. lia.
  - change (total_credit (g :: gs)) with (cg_remaining g + total_credit gs) in *. cbn [fold_left].
    pose proof (total_nonneg gs Hgs). cbv beta in Hg.
    rewrite wrap64_id by (unfold is_int64, int64_min, int64_max in *; lia). rewrite IH; lia.
Qed.

(** *** What the loop of the code writes *)
Definition consume (cs : list credit_consumption) (d : db) : db :=
  upd_credits (λ t, set_consumptions (consumptions t ++ cs) (set_grants (draw cs <$> grants t) t)) d.
Lemma draw_id cs g : used_by (cg_id g) cs = 0 → draw cs g = g.
Proof. intros E. unfold draw. rewrite E, Z.sub_0_r. by destruct g. Qed.
Lemma draw_app cs cs' g : draw cs' (draw cs g) = draw (cs ++ cs') g.
Proof. unfold draw, with_remaining. cbn. rewrite used_by_app. f_equal. lia. Qed.
Lemma consume_nil d : consume [] d = d.
Proof.
  apply db_eq; try reflexivity. unfold consume. cbn [upd_credits credits]. destruct (credits d) as [gs cs]. unfold set_consumptions, set_grants.
  cbn. f_equal; [|by rewrite app_nil_r]. rewrite <- (list_fmap_id gs) at 2. apply list_fmap_ext. intros i g _. by apply draw_id.
Qed.
Lemma consume_app cs cs' d : consume cs' (consume cs d) = consume (cs ++ cs') d.
Proof.
  apply db_eq; try reflexivity. unfold consume. cbn [upd_credits credits]. destruct (credits d) as [gs cc]. unfold set_consumptions, set_grants.
  cbn. rewrite app_assoc. f_equal. rewrite <- list_fmap_compose. apply list_fmap_ext. intros i g _. apply draw_app.
Qed.
Lemma use_grant_ok id charge used d d1 :
  use_grant id used d = Ok d1 →
  d1 = upd_credits (λ t, set_grants (draw [{| cc_grant := id; cc_charge := charge; cc_amount := used |}] <$> grants t) t) d.
Proof.
  unfold use_grant. destruct (negb _); [done|]. destruct (negb _); [done|]. intros [= <-].
  apply db_eq; try reflexivity. cbn [upd_credits credits]. unfold set_grants. f_equal. unfold update. apply list_fmap_ext.
  intros i g _. unfold grant_is, draw, used_by. cbn [List.filter cc_grant].
  destruct (decide (cg_id g = id)) as [->|Hne].
  - rewrite !bool_decide_eq_true_2 by done. unfold fmap, list_fmap. cbn [sumZ cc_amount]. by rewrite Z.add_0_r.
  - rewrite !bool_decide_eq_false_2 by congruence. cbn. rewrite Z.sub_0_r. by destruct g.
Qed.
Lemma insert_consumption_ok row d d1 :
  insert_consumption row d = Ok d1 → 0 < cc_amount row ∧ d1 = upd_credits (λ t, set_consumptions (consumptions t ++ [row]) t) d.
Proof. unfold insert_consumption. repeat (case_match; try done). intros [= <-]. split; [by bool_hyps|done]. Qed.

Section consume.
Context (charge : Z) (dl : list (db → bool)).
(** The loop over the grants takes exactly the credit of the reference. *)
Lemma wp_consume r gs d n (Φ : out billing unit → txst db → Prop) :
  tolerates Φ → NoDup (cg_id <$> gs) → Forall (λ g, 0 < cg_remaining g) gs → 0 <= r <= total_credit gs → r <= int64_max →
  (∀ n, Forall (λ c, 0 < cc_amount c) (fifo charge r gs) → Φ (Val tt) (live (consume (fifo charge r gs) d) dl n)) →
  wp (consume_credit charge r gs) Φ (live d dl n).
Proof.
  intros HΦ. revert r d n. induction gs as [|g gs IH]; intros r d n Hnd Hpos Hr H64 Hk; cbn [consume_credit fifo] in *.
  { apply wp_ret. rewrite <- (consume_nil d). by apply Hk. }
  destruct (r =? 0) eqn:Er. { apply wp_ret. rewrite <- (consume_nil d). by apply Hk. }
  apply Z.eqb_neq in Er. cbv zeta.
  assert ((if r <? cg_remaining g then r else cg_remaining g) = Z.min r (cg_remaining g)) as -> by (destruct (Z.ltb_spec r (cg_remaining g)); lia).
  apply NoDup_cons in Hnd as [Hg Hnd]. apply Forall_cons in Hpos as [Hg0 Hpos]. pose proof (total_nonneg gs Hpos).
  change (total_credit (g :: gs)) with (cg_remaining g + total_credit gs) in Hr.
  set (c := {| cc_grant := cg_id g; cc_charge := charge; cc_amount := Z.min r (cg_remaining g) |}) in *.
  tx_step. apply wp_exec_ok; [done|]. intros d1 Hd1. apply (use_grant_ok _ charge) in Hd1. fold c in Hd1.
  tx_step. apply wp_exec_ok; [done|]. intros d2 Hd2. apply insert_consumption_ok in Hd2 as [Hc ->].
  assert (upd_credits (λ t, set_consumptions (consumptions t ++ [c]) t) d1 = consume [c] d) as -> by (by rewrite Hd1).
  rewrite wrap64_id by (unfold is_int64, int64_min, int64_max in *; cbv beta in Hg0; lia).
  apply IH; [done|done|cbv beta in Hg0; lia|cbv beta in Hg0; lia|].
  intros m Hf. rewrite consume_app. apply Hk. by constructor.
Qed.
End consume.
