(* ===== verification/BillingBooks.v ===== *)
(** * The books of the billing loop

    The invariant of charges: a charge is paid by credit and by one debit of
    the wallet, together exactly its amount, and appears once on a bill; a
    grant is its remainder and what was consumed of it.  The theorems say what
    a run of [billUsage] does, that it keeps the books, and that runs end. *)
From S2P Require Import Prelude GoStrings GoTime Domain Money Tx Table Ledger Schema Http.
From S2P Require Import Payments PaymentFacts Posting Accounts AccountFacts Bills Recovery Billing BillingFacts.
From stdpp Require Import list sorting.
Open Scope string_scope.
Open Scope Z_scope.
Open Scope list_scope.

Definition entry_amount (i : Z) (l : ledger_t) : Z := sumZ (amounts (λ e, e_id e =? i) (entries l)).
(** What the wallet paid of a charge. *)
Definition wallet_part (c : usage_charge) (l : ledger_t) : Z :=
  match uc_entry c with Some i => - entry_amount i l | None => 0 end.
Definition items_of_charge (id : Z) (d : db) : list Z :=
  bi_amount <$> List.filter (λ i, bi_charge i =? id) (bill_items (usage d)).
Record billing_ok (d : db) : Prop := {
  bk_ids : NoDup (uc_id <$> usage_charges (usage d));
  bk_fresh : Forall (λ c, uc_id c < next_charge (usage d)) (usage_charges (usage d));
  bk_paid : ∀ c, c ∈ usage_charges (usage d) →
    uc_amount c = wallet_part c (ledger d) + used_in (uc_id c) (consumptions (credits d));
  bk_entry : ∀ c i, c ∈ usage_charges (usage d) → uc_entry c = Some i →
    ∃ e w, e ∈ entries (ledger d) ∧ e_id e = i ∧ e_type e = "usage" ∧ e_amount e < 0 ∧
      w ∈ wallets (ledger d) ∧ w_id w = e_wallet e ∧ w_user w = uc_user c;
  bk_entries : ∀ e, e ∈ entries (ledger d) → e_type e = "usage" →
    ∃ c, c ∈ usage_charges (usage d) ∧ uc_entry c = Some (e_id e);
  bk_items : ∀ c, c ∈ usage_charges (usage d) → items_of_charge (uc_id c) d = [uc_amount c];
  bk_item_owner : ∀ i, i ∈ bill_items (usage d) → bi_charge i ∈ uc_id <$> usage_charges (usage d);
  bk_grants : ∀ g, g ∈ grants (credits d) →
    cg_amount g = cg_remaining g + used_by (cg_id g) (consumptions (credits d));
  bk_consumptions : ∀ c, c ∈ consumptions (credits d) →
    0 < cc_amount c ∧ cc_charge c ∈ uc_id <$> usage_charges (usage d) ∧ cc_grant c ∈ cg_id <$> grants (credits d)
}.

(** ** Frames *)
(** The notices of the balance only touch the alerts and the notifications. *)
Record only_alerts (d d' : db) : Prop := {
  ol_wallets : wallets (ledger d') = wallets (ledger d); ol_entries : entries (ledger d') = entries (ledger d);
  ol_next : next_entry (ledger d') = next_entry (ledger d);
  ol_users : users d' = users d; ol_payments : payments d' = payments d; ol_credits : credits d' = credits d;
  ol_checkins : checkins d' = checkins d; ol_settings : checkin_settings d' = checkin_settings d;
  ol_invites : invites d' = invites d; ol_usage : usage d' = usage d; ol_subs : subs d' = subs d;
  ol_apps : apps d' = apps d; ol_reserve : startup_balance_reserve_cents d' = startup_balance_reserve_cents d
}.
#[export] Instance only_alerts_preorder : PreOrder only_alerts.
Proof. split; [by constructor|]. intros a b c [] []. constructor; congruence. Qed.
Lemma alert_low_balance_frame user balance agg at_ d d' : alert_low_balance user balance agg at_ d = Ok d' → only_alerts d d'.
Proof. unfold alert_low_balance. repeat (case_match; try done); by intros [= <-]. Qed.
Lemma alert_recovered_frame user balance d d' : alert_recovered user balance d = Ok d' → only_alerts d d'.
Proof. by intros [= <-]. Qed.
Lemma notify_frame row d d' : notify row d = Ok d' → only_alerts d d'.
Proof. unfold notify. by repeat (case_match; try done); intros [= <-]. Qed.

(** Statements on the tables of usage and bills. *)
Record only_usage (d d' : db) : Prop := {
  ou_users : users d' = users d; ou_ledger : ledger d' = ledger d; ou_payments : payments d' = payments d;
  ou_credits : credits d' = credits d; ou_checkins : checkins d' = checkins d;
  ou_settings : checkin_settings d' = checkin_settings d; ou_invites : invites d' = invites d; ou_subs : subs d' = subs d;
  ou_apps : apps d' = apps d; ou_reserve : startup_balance_reserve_cents d' = startup_balance_reserve_cents d
}.

(** The suspension of the running applications of a customer. *)
Section suspend.
Context (user : string) (at_ : timestamp).
Lemma suspend_apps_frame d d' : suspend_apps user at_ d = Ok d' → only_apps d d'.
Proof. by intros [= <-]. Qed.
Lemma delete_routes_frame d d' : delete_routes user d = Ok d' → only_apps d d'.
Proof. by intros [= <-]. Qed.
Lemma only_alerts_apps d d' : only_alerts d d' → ledger d' = ledger d → only_apps d d'.
Proof. by intros [] ?. Qed.
(** No application of the customer runs, and no request reaches one that waits
    for a payment. *)
Definition stopped (d : db) : Prop :=
  ∀ a, a ∈ user_apps (apps d) → a_user a = user → a_status a ≠ AppRunning ∧
    (waits_for_payment user a = true → ∀ r, r ∈ app_routes (apps d) → rt_app r ≠ a_id a).
Lemma suspended_stopped d d1 d2 :
  suspend_apps user at_ d = Ok d1 → delete_routes user d1 = Ok d2 → stopped d2.
Proof.
  intros [= <-] [= <-] a Ha Hu. cbn [upd_apps apps set_app_routes user_apps app_routes] in *. split.
  - cbn in Ha. apply elem_of_update in Ha as (a0 & _ & ->). destruct (runs user a0) eqn:E; [done|].
    intros Hr. unfold runs in E. by rewrite bool_decide_eq_true_2, bool_decide_eq_true_2 in E.
  - intros Hw r Hr Hid. apply list_elem_of_In, List.filter_In in Hr as [_ Hr]. bool_hyps.
    rewrite exists_row_false in Hr. specialize (Hr a Ha). by rewrite bool_decide_eq_true_2, Hw in Hr by done.
Qed.
End suspend.

(** ** The steps of a charge *)
Section charge.
Context `{Releases} `{NumericDivision} (env : bill_env).
Context (a : usage_aggregate) (v : pricing_version) (amount : Z) (w : wallet) (creditUsed : Z).
Definition owed : Z := amount - creditUsed.
Definition usage_meta : jsonb :=
  [("usage_code", JStr (ua_code a)); ("window_start", JInt (ua_start a)); ("window_end", JInt (ua_stop a));
   ("pricing_version_id", JStr (pv_id v)); ("gross_amount_cents", JInt amount);
   ("credit_amount_cents", JInt creditUsed)].
Definition debited (d : db) : db :=
  if 0 <? owed
  then upd_ledger (λ l, post l w "usage" (usage_ref a (pv_id v)) (- owed) usage_meta) d
  else d.
Definition debit_entry (d : db) : option Z := if 0 <? owed then Some (next_entry (ledger d)) else None.
Definition debit_fresh (d : db) : Prop :=
  0 < owed → ∀ e, e ∈ entries (ledger d) → entry_key e ≠ (w_id w, "usage", usage_ref a (pv_id v)).
Lemma wp_charge_wallet d dl n (Φ : out billing (option Z) → txst db → Prop) :
  ledger_ok (ledger d) → w ∈ wallets (ledger d) → owed <= w_balance w → tolerates Φ →
  (∀ n, debit_fresh d → Φ (Val (debit_entry d)) (live (debited d) dl n)) →
  wp (charge_wallet a (pv_id v) w amount creditUsed owed) Φ (live d dl n).
Proof.
  intros Hok Hw Hb HΦ Hk. unfold charge_wallet, debit_entry, debited, debit_fresh in *.
  destruct (0 <? owed) eqn:Ea; bool_hyps; [|by apply wp_ret, Hk; lia].
  pose proof (lo_range _ Hok) as Hr. rewrite Forall_forall in Hr. specialize (Hr w Hw).
  apply (wp_post d w "usage" (usage_ref a (pv_id v)) (- owed) (w_balance w - owed) usage_meta); try done.
  intros Hz H64 Hfresh. apply wp_ret, Hk. by intros _.
Qed.
Lemma insert_charge_inv row d id d' :
  insert_charge row d = Ok (id, d') → id = next_charge (usage d) ∧ 0 <= uc_amount (row id) ∧
  d' = upd_usage (λ t, set_next_charge (id + 1) (set_usage_charges (usage_charges t ++ [row id]) t)) d.
Proof. unfold insert_charge. repeat (case_match; try done). all: intros [= <- <-]; by bool_hyps. Qed.

(** The item of the charge is on a bill, and the bill grew by its amount. *)
Record itemised (charge : Z) (d d' : db) : Prop := {
  im_others : only_usage d d';
  im_usage : ∃ bs i, usage d' = set_bill_items (bill_items (usage d) ++ [i]) (set_bills bs (usage d)) ∧
    bi_charge i = charge ∧ bi_amount i = amount ∧ bi_pricing i = pv_id v ∧ bi_price i = pv_unit_price_micros v ∧
    bi_quantity i = ua_quantity a;
  im_new : ∀ i, i ∈ bill_items (usage d) → bi_charge i ≠ charge;
  im_bills : bills_ok d → bills_ok d'
}.
Lemma wp_bill_window charge d dl n (Φ : out billing unit → txst db → Prop) :
  tolerates Φ → bills_ok d → select (version_is_ (pv_id v)) (pricing_versions (usage d)) = Ok v →
  (∀ d' n, itemised charge d d' → Φ (Val tt) (live d' dl n)) →
  wp (bill_window env a (pv_id v) amount charge) Φ (live d dl n).
Proof.
  intros HΦ Hok Hv Hk. unfold bill_window. destruct (date_of (ua_start a)) as [[y m] dd].
  tx_step. apply wp_stmt_ok; [done|]. intros bid d1 Hu.
  destruct (upsert_bill_ok _ _ _ _ _ _ _ Hu Hok) as (Hok1 & Hin & g & ->).
  tx_step. apply wp_exec_ok; [done|]. intros d2 Hi. apply wp_exec_ok; [done|]. intros d3 Ht.
  unfold insert_bill_item in Hi. cbn [upd_usage usage set_bills pricing_versions bill_items apps] in Hi.
  rewrite Hv in Hi. destruct (exists_row _ (bill_items _)) eqn:Ex; [done|]. cbv zeta in Hi.
  match type of Hi with context [_ ++ [?x]] => set (i := x) in * end. injection Hi as <-.
  unfold add_to_bill in Ht. destruct (negb _); [done|]. destruct (negb _); [done|]. injection Ht as <-.
  apply Hk. constructor.
  - done.
  - eexists _, i. split_and!; [reflexivity|done..].
  - intros x Hx. rewrite exists_row_false in Ex. specialize (Ex x Hx). by bool_hyps.
  - intros _. eapply (bills_ok_item _ _ bid amount Hok1 Hin); [done| |by left|].
    + intros id. unfold bill_items_sum. cbn [upd_usage usage subs set_bills bill_items set_bill_items].
      rewrite List.filter_app, fmap_app, sumZ_app. cbn [List.filter bi_bill i]. case_bool_decide; cbn; lia.
    + intros x [Hx| ->%list_elem_of_singleton]%elem_of_app; [by left|by right].
Qed.

(** The notices of the balance. *)
Lemma wp_alerts (b : bool) user balance agg at_ d dl n (Φ : out billing unit → txst db → Prop) :
  tolerates Φ → (∀ d' n, only_alerts d d' → Φ (Val tt) (live d' dl n)) →
  wp (if b then exec (alert_low_balance user balance agg at_);; exec (alert_recovered user balance) else mret tt)
    Φ (live d dl n).
Proof.
  intros HΦ Hk. destruct b; [|by apply wp_ret, Hk]. tx_step. apply wp_exec_ok; [done|]. intros d1 H1.
  apply wp_exec_ok; [done|]. intros d2 H2. apply Hk. transitivity d1.
  - by eapply alert_low_balance_frame.
  - by eapply alert_recovered_frame.
Qed.
(** The suspension of what falls below the reserve. *)
Lemma wp_below_reserve available reserve d dl n (Φ : out billing (list string) → txst db → Prop) :
  tolerates Φ →
  (∀ cs d' n, only_apps d d' → (available < reserve → stopped (ua_user a) d') → Φ (Val cs) (live d' dl n)) →
  wp (suspend_below_reserve env a available reserve) Φ (live d dl n).
Proof.
  intros HΦ Hk. unfold suspend_below_reserve, belowStartupReserve. cbv zeta. destruct (available <? reserve) eqn:E; bool_hyps.
  2: { apply wp_ret, Hk; [done|lia]. }
  tx_step. apply wp_query_ok; [done|]. intros cs _. tx_step. apply wp_exec_ok; [done|]. intros d1 H1.
  tx_step. apply wp_exec_ok; [done|]. intros d2 H2. tx_step. apply wp_exec_ok; [done|]. intros d3 H3.
  pose proof (suspended_stopped _ _ _ _ _ H1 H2) as Hs.
  assert (only_apps d2 d3 ∧ apps d3 = apps d2) as [H3' Ha].
  { unfold notify in H3. by repeat (case_match; try done); injection H3 as <-. }
  apply wp_ret, Hk.
  - transitivity d1; [by eapply suspend_apps_frame|]. transitivity d2; [by eapply delete_routes_frame|done].
  - intros _. unfold stopped. by rewrite Ha.
Qed.
(** Recovery jobs do not start anything by themselves. *)
Lemma resume_paid_frame user d d' : resume_paid user d = Ok d' → only_apps d d' ∧ (stopped user d → stopped user d').
Proof.
  intros [= <-]. split; [done|]. intros Hs b Hb Hu. cbn [upd_apps apps set_user_apps user_apps app_routes] in *.
  apply elem_of_update in Hb as (b0 & Hb0 & ->). match goal with |- context [if ?c then _ else _] => destruct c eqn:E end.
  - split; [done|]. unfold waits_for_payment. cbn. rewrite (bool_decide_eq_false_2 (AppUpdating = _)) by done.
    by rewrite andb_false_r.
  - by apply Hs.
Qed.
Lemma insert_billing_jobs_frame ids keys user available d n d' :
  insert_billing_jobs ids keys user available d = Ok (n, d') → only_apps d d' ∧ (stopped user d → stopped user d').
Proof.
  apply (recover_apps_ind (λ d', only_apps d d' ∧ (stopped user d → stopped user d'))); [|done]. intros b r d0 k d2 Hi [Hf Hs].
  assert (only_apps d0 d2 ∧ (stopped user d0 → stopped user d2)) as [Hf' Hs'].
  { revert Hi. unfold insert_recovery_job. repeat (case_match; try done); by intros [= <- <-]. }
  split; [by transitivity d0|auto].
Qed.

(** *** All of a charge *)
Definition charge_credit (gs : list credit_grant) (d : db) : list credit_consumption :=
  fifo (next_charge (usage d)) creditUsed gs.
Definition left_over (gs : list credit_grant) : Z := wrap64 (wrap64 (w_balance w - owed + credit_sum gs) - creditUsed).
Record window_charged (gs : list credit_grant) (d d' : db) : Prop := {
  wc_amount : 0 <= amount;
  wc_fresh : debit_fresh d;
  wc_wallets : wallets (ledger d') = wallets (ledger (debited d));
  wc_entries : entries (ledger d') = entries (ledger (debited d));
  wc_next_entry : next_entry (ledger d') = next_entry (ledger (debited d));
  wc_users : users d' = users d; wc_payments : payments d' = payments d; wc_checkins : checkins d' = checkins d;
  wc_settings : checkin_settings d' = checkin_settings d; wc_invites : invites d' = invites d;
  wc_subs : subs d' = subs d; wc_reserve : startup_balance_reserve_cents d' = startup_balance_reserve_cents d;
  wc_positive : Forall (λ c, 0 < cc_amount c) (charge_credit gs d);
  wc_credits : credits d' = credits (consume (charge_credit gs d) d);
  wc_charges : usage_charges (usage d') = usage_charges (usage d) ++
                 [charge_row a (pv_id v) amount (debit_entry d) (next_charge (usage d))];
  wc_next_charge : next_charge (usage d') = next_charge (usage d) + 1;
  wc_items : ∃ i, bill_items (usage d') = bill_items (usage d) ++ [i] ∧ bi_charge i = next_charge (usage d) ∧
    bi_amount i = amount ∧ bi_pricing i = pv_id v ∧ bi_price i = pv_unit_price_micros v ∧ bi_quantity i = ua_quantity a;
  wc_items_new : ∀ i, i ∈ bill_items (usage d) → bi_charge i ≠ next_charge (usage d);
  wc_bills : bills_ok d → bills_ok d';
  wc_aggregates : usage_aggregates (usage d') = update (aggregate_is (ua_id a))
    (λ a, Billing.seal (be_now env) Charged (match ua_price a with None => Some (pv_id v) | p => p end) a) (usage_aggregates (usage d));
  wc_events : usage_events (usage d') = usage_events (usage d);
  wc_versions : pricing_versions (usage d') = pricing_versions (usage d);
  wc_stopped : left_over gs < startup_balance_reserve_cents d → stopped (ua_user a) d'
}.
Lemma insert_attempt_inv row d d' :
  insert_attempt row d = Ok d' → only_usage d d' ∧ ∃ bs, usage d' = set_billing_attempts bs (usage d) ∧
    (∀ b, b ∈ billing_attempts (usage d) → b ∈ bs) ∧ exists_row (same_attempt row) bs = true.
Proof.
  unfold insert_attempt. destruct (_ <? 0); [done|]. destruct (_ <? 0); [done|]. destruct (exists_row _ _) eqn:E; intros [= <-].
  - split; [done|]. exists (billing_attempts (usage d)). split_and!; [by apply usage_eq|done|done].
  - split; [done|]. eexists. split_and!; [reflexivity| |].
    + intros b Hb. apply elem_of_app. by left.
    + apply exists_row_true. exists row. split; [apply elem_of_app; right; left|]. unfold same_attempt.
      by rewrite !bool_decide_eq_true_2, !Z.eqb_refl, eqb_reflx.
Qed.
Lemma wp_charge_window gs d n (Φ : out billing billing → txst db → Prop) :
  ledger_ok (ledger d) → bills_ok d → w ∈ wallets (ledger d) → owed <= w_balance w → tolerates Φ →
  select (version_is_ (pv_id v)) (pricing_versions (usage d)) = Ok v →
  NoDup (cg_id <$> gs) → Forall (λ g, 0 < cg_remaining g) gs → 0 <= creditUsed <= total_credit gs → creditUsed <= int64_max →
  (∀ cs d' s, window_charged gs d d' → committed s = Some d' → Φ (Val (Billed cs)) s) →
  wp (charge_window env a (pv_id v) amount w gs (credit_sum gs) creditUsed owed) Φ (live d [] n).
Proof.
  intros Hok Hb Hw Hle HΦ Hv Hnd Hpos Hu H64 Hk. unfold charge_window. cbv zeta.
  tx_step. apply wp_charge_wallet; [done..|]. intros n1 Hfresh. set (d1 := debited d).
  assert (ledger d1 = ledger (debited d) ∧ usage d1 = usage d ∧ credits d1 = credits d ∧ payments d1 = payments d ∧
    users d1 = users d ∧ checkins d1 = checkins d ∧ checkin_settings d1 = checkin_settings d ∧ invites d1 = invites d ∧
    subs d1 = subs d ∧ startup_balance_reserve_cents d1 = startup_balance_reserve_cents d)
    as (L1 & U1 & C1 & P1 & US1 & CH1 & CS1 & I1 & S1 & R1) by (unfold d1, debited; by destruct (0 <? owed)).
  tx_step. apply wp_stmt_ok; [done|]. intros id d2 H2. apply insert_charge_inv in H2 as (-> & Ha & ->). rewrite U1 in *.
  match goal with |- context [live ?x _ _] => set (d2 := x) end.
  tx_step. eapply wp_consume; [done..|]. intros n3 Hcs. fold (charge_credit gs d). set (d3 := consume _ d2).
  assert (bills_ok d3) as Hb3.
  { by apply (bills_ok_frame d); cbn; rewrite ?U1, ?S1. }
  tx_step. apply wp_bill_window; [done|done|by cbn; rewrite U1|]. intros d4 n4 [[OU OL OP OC OCh OSe OI OS OA OR] (bs & i & HU4 & Hi) Hnew HB4].
  tx_step. apply wp_exec_ok; [done|]. intros d5 [= <-]. set (d5 := upd_usage _ d4).
  tx_step. apply wp_alerts; [done|]. intros d6 n6 [W6 E6 N6 U6 P6 C6 Ch6 Se6 I6 Us6 S6 A6 R6].
  tx_step. apply wp_exec_ok; [done|]. intros d7 H7. apply insert_attempt_inv in H7 as [[] (at7 & HU7 & _ & _)].
  tx_step. apply wp_query_ok; [done|]. intros reserve [= <-].
  tx_step. apply wp_below_reserve; [done|]. intros cs d8 n8 [] Hst8.
  tx_step. apply wp_stmt_ok; [done|]. intros k d9 H9. apply insert_billing_jobs_frame in H9 as [[] Hst9].
  tx_step. apply wp_exec_ok; [done|]. intros d10 H10. apply resume_paid_frame in H10 as [[] Hst10].
  tx_step. apply wp_commit. cbn [forallb]. apply wp_ret. eapply Hk; [|reflexivity].
  assert (only_usage d4 d5) as [] by done. assert (only_usage d1 d2) as [] by done.
  assert (ledger d3 = ledger d2 ∧ payments d3 = payments d2 ∧ users d3 = users d2 ∧ checkins d3 = checkins d2 ∧
    checkin_settings d3 = checkin_settings d2 ∧ invites d3 = invites d2 ∧ subs d3 = subs d2 ∧ usage d3 = usage d2 ∧
    startup_balance_reserve_cents d3 = startup_balance_reserve_cents d2) as (? & ? & ? & ? & ? & ? & ? & HU3 & ?) by done.
  assert (credits d3 = credits (consume (charge_credit gs d) d)) as C3 by (unfold d3, consume; cbn; by rewrite C1).
  assert (usage d10 = set_billing_attempts at7 (usage d5)) as HU by congruence.
  assert (usage d5 = set_usage_aggregates (update (aggregate_is (ua_id a)) (λ a, Billing.seal (be_now env) Charged
    (match ua_price a with None => Some (pv_id v) | p => p end) a) (usage_aggregates (usage d4))) (usage d4)) as HU5 by done.
  assert (usage d2 = set_next_charge (next_charge (usage d) + 1) (set_usage_charges (usage_charges (usage d) ++
    [charge_row a (pv_id v) amount (debit_entry d) (next_charge (usage d))]) (usage d))) as HU2 by (unfold d2; cbn; by rewrite U1).
  rewrite HU3, HU2 in HU4. rewrite HU4 in HU5. rewrite HU5 in HU.
  constructor; rewrite ?HU; try done; try congruence.
  - exists i. by split.
  - intros x Hx. apply Hnew. by rewrite HU3, HU2.
  - intros _. apply (bills_ok_frame d4); [by rewrite HU, HU4|by rewrite HU, HU4|congruence|by apply HB4].
  - intros Hlow. apply Hst10, Hst9, Hst8. fold (left_over gs). congruence.
Qed.
End charge.

(** ** The books after a charge *)
(** The alerts are no part of the books. *)
Lemma payments_ok_same d d' :
  wallets (ledger d') = wallets (ledger d) → entries (ledger d') = entries (ledger d) →
  next_entry (ledger d') = next_entry (ledger d) → payments d' = payments d → payments_ok d → payments_ok d'.
Proof.
  intros Hw He Hn Hp Hok.
  set (d0 := upd_ledger (λ l, set_alerts (λ _, alerts (ledger d')) l) d).
  apply (payments_ok_frame d0).
  - subst d0. cbn. unfold set_alerts. rewrite <- Hw, <- He, <- Hn. by destruct (ledger d').
  - done.
  - destruct Hok as [[] H2 H3 H4 H5 H6 H7]. constructor; try done.
    intros o Ho. by destruct (H4 o Ho).
Qed.

Lemma used_by_fifo charge r gs g :
  NoDup (cg_id <$> gs) → Forall (λ g, 0 < cg_remaining g) gs → 0 <= r → g ∈ gs →
  0 <= used_by (cg_id g) (fifo charge r gs) <= cg_remaining g.
Proof.
  intros Hnd Hpos Hr Hg. pose proof Hpos as Hf. rewrite Forall_forall in Hf. specialize (Hf g Hg). cbv beta in Hf.
  apply list_elem_of_split in Hg as (gs1 & gs2 & ->).
  rewrite fifo_order by done. lia.
Qed.
Lemma used_in_other c charge r gs : c ≠ charge → used_in c (fifo charge r gs) = 0.
Proof.
  intros Hne. unfold used_in. rewrite filter_none; [done|]. intros x Hx. apply fifo_grants in Hx as [_ ->].
  by apply Z.eqb_neq.
Qed.
Lemma used_in_fresh c cs : (∀ x, x ∈ cs → cc_charge x ≠ c) → used_in c cs = 0.
Proof. intros Hne. unfold used_in. rewrite filter_none; [done|]. intros x Hx. apply Z.eqb_neq. by apply Hne. Qed.
Lemma entry_amount_snoc i l es e :
  entries l = es ++ [e] → entry_amount i l = sumZ (amounts (λ x, e_id x =? i) es) + if e_id e =? i then e_amount e else 0.
Proof.
  intros E. unfold entry_amount. rewrite E, amounts_app, sumZ_app. f_equal. unfold amounts. cbn [List.filter].
  destruct (_ =? _); cbn; lia.
Qed.
Lemma amounts_fresh i es : (∀ e, e ∈ es → e_id e ≠ i) → sumZ (amounts (λ x, e_id x =? i) es) = 0.
Proof.
  intros H. unfold amounts. rewrite filter_none; [done|]. intros e He. apply Z.eqb_neq. by apply H.
Qed.

Section books.
Context (env : bill_env) (a : usage_aggregate) (v : pricing_version) (amount : Z) (w : wallet) (creditUsed : Z).
Context (gs : list credit_grant) (d d' : db).
Hypothesis Hl : ledger_ok (ledger d).
Hypothesis Hw : w ∈ wallets (ledger d).
Hypothesis Hu : w_user w = ua_user a.
Hypothesis Hgs : ∀ g, g ∈ gs → g ∈ grants (credits d).
Hypothesis Hnd : NoDup (cg_id <$> gs).
Hypothesis Hpos : Forall (λ g, 0 < cg_remaining g) gs.
Hypothesis Hused : 0 <= creditUsed <= total_credit gs.
Hypothesis Hle : creditUsed <= amount.
Hypothesis Hbal : owed amount creditUsed <= w_balance w.
Hypothesis Hc : window_charged env a v amount w creditUsed gs d d'.
#[local] Abbreviation cs := (charge_credit creditUsed gs d).
#[local] Abbreviation debited := (debited a v amount w creditUsed d).

Lemma charged_grants_ok : grants_ok d → grants_ok d'.
Proof using Hgs Hnd Hpos Hused Hc.
  intros [H1 H2 H3]. pose proof (wc_credits _ _ _ _ _ _ _ _ _ Hc) as E.
  assert (grants (credits d') = draw cs <$> grants (credits d)) as Eg by (by rewrite E).
  constructor; rewrite Eg, <- ?list_fmap_compose; try done.
  apply Forall_fmap. rewrite Forall_forall in H3 |- *. intros g Hg. cbn. destruct (H3 g Hg) as [Hp Hr].
  unfold grant_row_ok, draw. cbn. split; [done|].
  destruct (decide (cg_id g ∈ cg_id <$> gs)) as [(g' & Eid & Hg')%list_elem_of_fmap|Hno].
  - assert (g' = g) as -> by (by apply (key_inj cg_id _ _ _ H1); [apply Hgs| |]).
    pose proof (used_by_fifo (next_charge (usage d)) creditUsed gs g Hnd Hpos (proj1 Hused) Hg'). fold cs in H. lia.
  - unfold charge_credit. rewrite fifo_not_used by done. lia.
Qed.
Lemma charged_payments_ok' : payments_ok d → payments_ok d'.
Proof using Hw Hbal Hc Hl.
  intros Hok. apply (payments_ok_same debited); [apply Hc..| |].
  - rewrite (wc_payments _ _ _ _ _ _ _ _ _ Hc). unfold BillingBooks.debited. by destruct (0 <? _).
  - pose proof (wc_fresh _ _ _ _ _ _ _ _ _ Hc) as Hf. unfold BillingBooks.debited. destruct (0 <? _) eqn:E; [|done]. bool_hyps.
    pose proof (payments_wallet _ _ Hok Hw).
    apply post_payments_ok; try done; [lia|apply in64_spec; unfold is_int64, int64_min, int64_max in *; lia|lia|by apply Hf].
Qed.

(** The charge itself. *)
#[local] Abbreviation row := (charge_row a (pv_id v) amount (debit_entry amount creditUsed d) (next_charge (usage d))).
Lemma charged_entries e :
  e ∈ entries (ledger d') → e ∈ entries (ledger d) ∨
  0 < owed amount creditUsed ∧ e = new_entry (ledger d) w "usage" (usage_ref a (pv_id v)) (- owed amount creditUsed)
    (usage_meta a v amount creditUsed).
Proof using Hc.
  rewrite (wc_entries _ _ _ _ _ _ _ _ _ Hc). unfold BillingBooks.debited. destruct (0 <? _) eqn:E; [|by left]. bool_hyps.
  cbn [upd_ledger ledger post entries]. intros [He| ->%list_elem_of_singleton]%elem_of_app; [by left|by right].
Qed.
Lemma charged_old_entries e : e ∈ entries (ledger d) → e ∈ entries (ledger d').
Proof using Hc.
  intros He. rewrite (wc_entries _ _ _ _ _ _ _ _ _ Hc). unfold BillingBooks.debited. destruct (0 <? _); [|done].
  cbn [upd_ledger ledger post entries]. apply elem_of_app. by left.
Qed.
Lemma charged_wallets w0 : w0 ∈ wallets (ledger d) →
  ∃ w', w' ∈ wallets (ledger d') ∧ w_id w' = w_id w0 ∧ w_user w' = w_user w0.
Proof using Hc.
  intros H0. rewrite (wc_wallets _ _ _ _ _ _ _ _ _ Hc). unfold BillingBooks.debited. destruct (0 <? _); [|by exists w0].
  by apply wallets_post.
Qed.
Lemma charged_entry_amount i : i ≠ next_entry (ledger d) → entry_amount i (ledger d') = entry_amount i (ledger d).
Proof using Hc.
  intros Hi. pose proof (wc_entries _ _ _ _ _ _ _ _ _ Hc) as E. revert E. unfold BillingBooks.debited.
  destruct (0 <? _); intros E; [|unfold entry_amount; by rewrite E].
  rewrite (entry_amount_snoc i _ _ _ E). cbn [e_id new_entry]. rewrite (proj2 (Z.eqb_neq _ _)) by done. apply Z.add_0_r.
Qed.
Lemma charged_wallet_part : wallet_part row (ledger d') = owed amount creditUsed.
Proof using Hc Hl Hle.
  unfold wallet_part, debit_entry. cbn [charge_row uc_entry]. destruct (0 <? _) eqn:E; bool_hyps; [|unfold owed in *; lia].
  pose proof (wc_entries _ _ _ _ _ _ _ _ _ Hc) as Ee. revert Ee. unfold BillingBooks.debited.
  rewrite (proj2 (Z.ltb_lt _ _)) by done. intros Ee. rewrite (entry_amount_snoc _ _ _ _ Ee), amounts_fresh.
  - cbn [e_id new_entry]. rewrite Z.eqb_refl. cbn. lia.
  - intros e He. pose proof (lo_fresh _ Hl) as Hf. rewrite Forall_forall in Hf. specialize (Hf e He). lia.
Qed.
Lemma charged_billing_ok : billing_ok d → billing_ok d'.
Proof using Hc Hl Hle Hw Hu Hgs Hnd Hpos Hused.
  intros [B1 B2 B3 B4 B5 B6 B7 B8 B9].
  pose proof (wc_charges _ _ _ _ _ _ _ _ _ Hc) as Ech. pose proof (wc_credits _ _ _ _ _ _ _ _ _ Hc) as Ecr.
  destruct (wc_items _ _ _ _ _ _ _ _ _ Hc) as (it & Eit & Hit1 & Hit2 & _).
  assert (consumptions (credits d') = consumptions (credits d) ++ cs) as Eco by (by rewrite Ecr).
  assert (grants (credits d') = draw cs <$> grants (credits d)) as Egr by (by rewrite Ecr).
  assert (∀ c, c ∈ usage_charges (usage d) → uc_id c ≠ next_charge (usage d)) as Hfresh.
  { rewrite Forall_forall in B2. intros c Hin. specialize (B2 c Hin). lia. }
  assert (∀ c id, c ∈ usage_charges (usage d) → uc_id c = id → id ∈ uc_id <$> usage_charges (usage d')) as Hold.
  { intros c id Hin <-. rewrite Ech, fmap_app. apply elem_of_app. left. apply list_elem_of_fmap. eauto. }
  assert (next_charge (usage d) ∈ uc_id <$> usage_charges (usage d')) as Hnew.
  { rewrite Ech, fmap_app. apply elem_of_app. right. by left. }
  constructor; rewrite ?(wc_next_charge _ _ _ _ _ _ _ _ _ Hc).
  - rewrite Ech. by apply NoDup_snoc.
  - rewrite Ech. apply Forall_app. split; [|apply Forall_singleton; cbn; lia]. eapply Forall_impl; [exact B2|]. cbn. lia.
  - intros c. rewrite Ech, Eco, used_in_app. intros [Hin| ->%list_elem_of_singleton]%elem_of_app.
    + unfold charge_credit. rewrite used_in_other by (by apply Hfresh). rewrite (B3 c Hin), Z.add_0_r. f_equal.
      unfold wallet_part. destruct (uc_entry c) as [i|] eqn:Ei; [|done]. rewrite charged_entry_amount; [done|].
      destruct (B4 c i Hin Ei) as (e & _ & He & <- & _). pose proof (lo_fresh _ Hl) as Hf. rewrite Forall_forall in Hf.
      specialize (Hf e He). lia.
    + rewrite charged_wallet_part, used_in_fresh.
      * unfold charge_credit. cbn [charge_row uc_id uc_amount]. rewrite fifo_sum by done. unfold owed. lia.
      * cbn [charge_row uc_id]. intros x Hx. destruct (B9 x Hx) as (_ & (c & -> & Hin)%list_elem_of_fmap & _). by apply Hfresh.
  - intros c i. rewrite Ech. intros [Hin| ->%list_elem_of_singleton]%elem_of_app Hi.
    + destruct (B4 c i Hin Hi) as (e & w0 & He & Hid & Hty & Ha & Hw0 & Hwid & Hwu).
      destruct (charged_wallets w0 Hw0) as (w' & Hw' & F1 & F2).
      exists e, w'. split; [by apply charged_old_entries|]. split_and!; try done; congruence.
    + revert Hi. unfold debit_entry. cbn [charge_row uc_entry]. destruct (0 <? _) eqn:E; [|done]. bool_hyps. intros [= <-].
      destruct (charged_wallets w Hw) as (w' & Hw' & F1 & F2). eexists _, w'. split.
      * rewrite (wc_entries _ _ _ _ _ _ _ _ _ Hc). unfold BillingBooks.debited. rewrite (proj2 (Z.ltb_lt _ _)) by done.
        apply elem_of_app. right. left.
      * split_and!; cbn; try done; [lia|congruence].
  - intros e [He|[Hpo ->]]%charged_entries Hty.
    + destruct (B5 e He Hty) as (c & Hin & Hi). exists c. rewrite Ech. split; [apply elem_of_app; by left|done].
    + exists row. rewrite Ech. split; [apply elem_of_app; right; left|]. unfold debit_entry. cbn.
      by rewrite (proj2 (Z.ltb_lt _ _)).
  - intros c. rewrite Ech. unfold items_of_charge. rewrite Eit, List.filter_app, fmap_app. cbn [List.filter].
    rewrite Hit1. intros [Hin| ->%list_elem_of_singleton]%elem_of_app.
    + rewrite (proj2 (Z.eqb_neq _ _)) by (apply not_eq_sym; by apply Hfresh). cbn. rewrite app_nil_r. by apply B6.
    + cbn [charge_row uc_id uc_amount]. rewrite Z.eqb_refl. cbn. rewrite Hit2, filter_none; [done|].
      intros i Hi. apply Z.eqb_neq. by apply (wc_items_new _ _ _ _ _ _ _ _ _ Hc).
  - intros i. rewrite Eit. intros [Hi| ->%list_elem_of_singleton]%elem_of_app; [|by rewrite Hit1].
    apply B7, list_elem_of_fmap in Hi as (c & Eid & Hin). by apply (Hold c).
  - intros g. rewrite Egr, Eco. intros (g0 & -> & Hg0)%list_elem_of_fmap. rewrite used_by_app. cbn. rewrite (B8 g0 Hg0). lia.
  - intros c. rewrite Egr, Eco, <- list_fmap_compose. intros [Hin|Hin]%elem_of_app.
    + destruct (B9 c Hin) as (P1 & (x & Eid & Hx)%list_elem_of_fmap & P3). split_and!; [done|by apply (Hold x)|done].
    + pose proof (wc_positive _ _ _ _ _ _ _ _ _ Hc) as Hp. rewrite Forall_forall in Hp. specialize (Hp c Hin).
      apply fifo_grants in Hin as [(g & -> & Hg)%list_elem_of_fmap ->]. split_and!; [done..|].
      apply list_elem_of_fmap. exists g. split; [done|]. by apply Hgs.
Qed.
End books.

(** ** Which credit goes first *)
Lemma string_leb_trans x y z : (x <=? y)%string = true → (y <=? z)%string = true → (x <=? z)%string = true.
Proof.
  unfold String.leb. revert y z. induction x as [|a x IH]; intros [|b y] [|c z]; try done. cbn. unfold Ascii.compare.
  specialize (IH y z).
  destruct (N.compare_spec (N_of_ascii a) (N_of_ascii b)) as [E1|E1|E1], (N.compare_spec (N_of_ascii b) (N_of_ascii c)) as [E2|E2|E2],
    (N.compare_spec (N_of_ascii a) (N_of_ascii c)) as [E3|E3|E3]; try done; lia.
Qed.
Lemma expiry_le_spec x y : expiry_le x y = true ↔
  match x, y with _, None => True | None, Some _ => False | Some s, Some t => s <= t end.
Proof. destruct x, y; cbn; [apply Z.leb_le|done..]. Qed.
(** Earlier expiry first, then the older grant, then the identifier. *)
Definition grant_key_le (g h : credit_grant) : Prop :=
  expiry_le (cg_expires h) (cg_expires g) = false ∨ cg_expires g = cg_expires h ∧
    (cg_created g < cg_created h ∨ cg_created g = cg_created h ∧ (cg_id g <=? cg_id h)%string = true).
Lemma grant_le_spec g h : grant_le g h = true ↔ grant_key_le g h.
Proof.
  unfold grant_le, expiry_lt, grant_key_le.
  by rewrite !orb_true_iff, !andb_true_iff, orb_true_iff, andb_true_iff, bool_decide_eq_true, negb_true_iff, Z.ltb_lt, Z.eqb_eq.
Qed.
Lemma expiry_le_false x y : expiry_le x y = false ↔
  match x, y with _, None => False | None, Some _ => True | Some s, Some t => t < s end.
Proof. destruct x, y; cbn; [apply Z.leb_gt|done..]. Qed.
Lemma grant_le_total g h : grant_le g h = false → grant_le h g = true.
Proof.
  rewrite <- not_true_iff_false, !grant_le_spec. unfold grant_key_le. rewrite !expiry_le_false.
  pose proof (leb_total (cg_id g) (cg_id h)).
  intros Hn.
  assert (cg_expires g = cg_expires h → cg_created h < cg_created g ∨
    cg_created h = cg_created g ∧ (cg_id h <=? cg_id g)%string = true) as Hkey.
  { intros E. destruct (Z.lt_trichotomy (cg_created g) (cg_created h)) as [?|[?|?]]; [tauto| |by left].
    right. split; [done|]. tauto. }
  destruct (cg_expires g) as [x|], (cg_expires h) as [y|]; [|tauto..|by right; auto].
  destruct (Z.lt_trichotomy x y) as [?|[->|?]]; [tauto|by right; auto|by left].
Qed.
Lemma grant_le_trans f g h : grant_le f g = true → grant_le g h = true → grant_le f h = true.
Proof.
  rewrite !grant_le_spec. unfold grant_key_le. rewrite !expiry_le_false.
  pose proof (string_leb_trans (cg_id f) (cg_id g) (cg_id h)).
  destruct (cg_expires f) as [x|], (cg_expires g) as [y|], (cg_expires h) as [z|]; try naive_solver lia.
  all: intros [?|[[= ->] ?]] [?|[[= ->] ?]]; try (left; lia); right; (split; [done|]); naive_solver lia.
Qed.

(** "Goes first", said without the code's comparison: what expires earlier
    before what expires later, what expires at all before what never does; of
    two that expire together the older one, and of two of the same age the one
    with the smaller identifier. *)
Definition goes_first (g h : credit_grant) : Prop :=
  let same_expiry := cg_created g < cg_created h ∨ cg_created g = cg_created h ∧ (cg_id g <=? cg_id h)%string = true in
  match cg_expires g, cg_expires h with
  | Some x, Some y => x < y ∨ x = y ∧ same_expiry
  | Some _, None => True
  | None, Some _ => False
  | None, None => same_expiry
  end.
Lemma grant_le_goes_first g h : grant_le g h = true ↔ goes_first g h.
Proof.
  rewrite grant_le_spec. unfold grant_key_le, goes_first. rewrite expiry_le_false.
  destruct (cg_expires g) as [x|], (cg_expires h) as [y|]; naive_solver.
Qed.
(** The credit of a customer that can pay now, in the order in which it goes:
    what is left of grants that have not expired. *)
Record credit_queue (user : string) (at_ : timestamp) (d : db) (gs : list credit_grant) : Prop := {
  cq_grants : ∀ g, g ∈ gs ↔ g ∈ grants (credits d) ∧ cg_user g = user ∧ 0 < cg_remaining g ∧
    match cg_expires g with Some e => at_ < e | None => True end;
  cq_once : NoDup (cg_id <$> gs);
  cq_order : StronglySorted goes_first gs
}.
Lemma StronglySorted_weaken {A} (R S : A → A → Prop) l :
  (∀ x y, R x y → S x y) → StronglySorted R l → StronglySorted S l.
Proof. intros Hrs. induction 1 as [|x l _ IH Hx]; constructor; [done|]. eapply Forall_impl; [exact Hx|]. apply Hrs. Qed.

(** ** A run of billUsage *)
Definition books_ok (d : db) : Prop := payments_ok d ∧ bills_ok d ∧ grants_ok d ∧ billing_ok d.
(** CHECK (unit_price_micros >= 0). *)
Definition prices_ok (d : db) : Prop := Forall (λ v, 0 <= pv_unit_price_micros v) (pricing_versions (usage d)).
(** All credit ever granted is a 64-bit amount. *)
Definition credit_limited (d : db) : Prop := sumZ (cg_amount <$> grants (credits d)) <= int64_max.
Lemma credit_available_bounded user at_ d : grants_ok d → credit_limited d → credit_available user at_ d <= int64_max.
Proof.
  intros [_ _ Hr] Hlim. unfold credit_limited, credit_available in *. etransitivity; [|exact Hlim]. clear Hlim.
  induction Hr as [|g gs [Hg1 Hg2] _ IH]; [done|]. cbn [List.filter]. destruct (spendable user at_ g); cbn; lia.
Qed.

Lemma available_grants_ok user at_ d :
  grants_ok d → let gs := available_grants user at_ d in
  (∀ g, g ∈ gs → g ∈ grants (credits d)) ∧ NoDup (cg_id <$> gs) ∧ Forall (λ g, 0 < cg_remaining g) gs ∧
  total_credit gs = credit_available user at_ d.
Proof.
  intros [H1 _ _]. unfold available_grants. set (f := List.filter (spendable user at_) (grants (credits d))).
  assert (∀ g, g ∈ f → g ∈ grants (credits d) ∧ spendable user at_ g = true) as Hf.
  { intros g Hg%list_elem_of_In. apply List.filter_In in Hg as [Hg Hs]. by rewrite list_elem_of_In. }
  cbv zeta. split_and!.
  - intros g Hg%elem_of_sort_by. by apply Hf.
  - rewrite (sort_by_perm grant_le f). clear Hf. unfold f. clear f. induction (grants (credits d)) as [|g gs IH]; [constructor|].
    cbn in H1. apply NoDup_cons in H1 as [Hg Hn]. cbn [List.filter]. destruct (spendable user at_ g); [|by apply IH].
    cbn. apply NoDup_cons. split; [|by apply IH]. intros (x & Ex & Hx)%list_elem_of_fmap. apply Hg. rewrite Ex.
    apply list_elem_of_fmap. exists x. split; [done|]. by apply list_elem_of_In, List.filter_In in Hx as [?%list_elem_of_In _].
  - rewrite (sort_by_perm grant_le f). apply Forall_forall. intros g [_ Hs]%Hf. unfold spendable in Hs. by bool_hyps.
  - unfold total_credit, credit_available. by rewrite (sort_by_perm grant_le f).
Qed.
Lemma available_grants_queue user at_ d : grants_ok d → credit_queue user at_ d (available_grants user at_ d).
Proof.
  intros Hg. destruct (available_grants_ok user at_ d Hg) as (_ & Hnd & _). constructor; [|done|].
  - intros g. unfold available_grants. rewrite elem_of_sort_by, list_elem_of_In, List.filter_In, <- list_elem_of_In.
    unfold spendable. rewrite !andb_true_iff, bool_decide_eq_true, Z.ltb_lt.
    destruct (cg_expires g) as [e|]; rewrite ?Z.ltb_lt; naive_solver.
  - eapply StronglySorted_weaken; [|by apply (sort_by_sorted grant_le grant_le_total grant_le_trans)].
    intros x y. apply grant_le_goes_first.
Qed.

Section run.
Context `{Releases} `{NumericDivision} (env : bill_env).
#[local] Abbreviation at_ := (be_now env).

(** The window that is due, with its price, amount and wallet. *)
Record due (d : db) (a : usage_aggregate) (v : pricing_version) (amount : Z) (w : wallet) : Prop := {
  du_claim : claim_aggregate (be_unlocked env) at_ d = Ok a;
  du_price : ua_price a = Some (pv_id v);
  du_version : select (version_is_ (pv_id v)) (pricing_versions (usage d)) = Ok v;
  du_amount : price_amount v (ua_quantity a) = Ok amount;
  du_wallet : select_wallet (ua_user a) (ledger d) = Ok w
}.
Definition credit_of (d : db) (a : usage_aggregate) : Z := credit_available (ua_user a) at_ d.
Definition credit_part (d : db) (a : usage_aggregate) (amount : Z) : Z := Z.min (credit_of d a) amount.
(** Nothing is charged: the attempt is recorded and the customer stopped. *)
Record window_unpaid (a : usage_aggregate) (v : pricing_version) (amount : Z) (w : wallet) (d d' : db) : Prop := {
  wu_users : users d' = users d; wu_ledger : ledger d' = ledger d; wu_payments : payments d' = payments d;
  wu_credits : credits d' = credits d; wu_checkins : checkins d' = checkins d;
  wu_settings : checkin_settings d' = checkin_settings d; wu_invites : invites d' = invites d;
  wu_subs : subs d' = subs d; wu_reserve : startup_balance_reserve_cents d' = startup_balance_reserve_cents d;
  wu_usage : ∃ bs, usage d' = set_billing_attempts bs (usage d) ∧ (∀ b, b ∈ billing_attempts (usage d) → b ∈ bs) ∧
    exists_row (same_attempt (attempt_row a (pv_id v) amount false (w_balance w) (credit_of d a))) bs = true;
  wu_stopped : stopped (ua_user a) d'
}.
Inductive bill_outcome (d : db) : billing → db → Prop :=
| bill_idle : (∀ a v amount w, ¬ due d a v amount w) → bill_outcome d Idle d
| bill_error : bill_outcome d Failed d
| bill_unpaid a v amount w cs d' :
    due d a v amount w → w_balance w < amount - credit_part d a amount → window_unpaid a v amount w d d' →
    bill_outcome d (Suspended cs) d'
| bill_paid a v amount w cs d' :
    due d a v amount w → amount - credit_part d a amount <= w_balance w →
    window_charged env a v amount w (credit_part d a amount) (available_grants (ua_user a) at_ d) d d' →
    bill_outcome d (Billed cs) d'.

Lemma wp_suspend_unpaid a v amount w d n (Φ : out billing billing → txst db → Prop) :
  tolerates Φ → (∀ cs d' s, window_unpaid a v amount w d d' → committed s = Some d' → Φ (Val (Suspended cs)) s) →
  wp (suspend_unpaid env a (pv_id v) amount (w_balance w) (credit_of d a) (amount - credit_part d a amount)) Φ (live d [] n).
Proof.
  intros HΦ Hk. unfold suspend_unpaid. cbv zeta. tx_step. apply wp_query_ok; [done|]. intros cs _.
  tx_step. apply wp_exec_ok; [done|]. intros d1 H1. apply insert_attempt_inv in H1 as [[] Hat].
  tx_step. apply wp_exec_ok; [done|]. intros d2 H2.
  assert (∃ g, d2 = upd_notifications g d1) as [g ->].
  { unfold notify in H2. repeat (case_match; try done); injection H2 as <-; [|by eexists]. exists (λ t, t). by apply db_eq. }
  tx_step. apply wp_exec_ok; [done|]. intros d3 H3. tx_step. apply wp_exec_ok; [done|]. intros d4 H4.
  pose proof (suspended_stopped _ _ _ _ _ H3 H4) as Hst.
  apply suspend_apps_frame in H3 as []. apply delete_routes_frame in H4 as [].
  tx_step. apply wp_commit. cbn [forallb]. apply wp_ret. eapply Hk; [|reflexivity].
  cbn [upd_notifications users ledger payments credits checkins checkin_settings invites subs startup_balance_reserve_cents usage] in *.
  constructor; try congruence; try done.
  destruct Hat as (bs & Hus & Hat). exists bs. split; [congruence|done].
Qed.

Lemma select_price_inv id q d v amount :
  select_price id q d = Ok (v, amount) → pv_id v = id ∧ select (version_is_ id) (pricing_versions (usage d)) = Ok v ∧
  price_amount v q = Ok amount.
Proof.
  unfold select_price. destruct (select _ _) as [x|] eqn:Ex; [|done]. cbn. destruct (price_amount _ _) eqn:Ep; [|done].
  cbn. intros [= -> ->]. pose proof Ex as [_ Hid]%select_ok. unfold version_is_ in Hid. by bool_hyps.
Qed.
Lemma select_price_none id q d v amount :
  select_price id q d = Err NoRows → select (version_is_ id) (pricing_versions (usage d)) = Ok v → price_amount v q ≠ Ok amount.
Proof. unfold select_price. intros Hn E. rewrite E in Hn. cbn in Hn. intros F. by rewrite F in Hn. Qed.

Lemma bill_cases d :
  ledger_ok (ledger d) → bills_ok d → grants_ok d → prices_ok d → credit_limited d →
  let '(r, d') := run_billing env no_faults d in bill_outcome d r d'.
Proof.
  intros Hl Hb Hg Hpr Hcb.
  apply (run_wp bill_failed _ d (λ x, let '(r, d') := x in bill_outcome d r d')).
  set (Ψ := λ (o : out billing billing) (s : txst db), let '(r, d') := finish bill_failed d o s in bill_outcome d r d').
  assert (tolerates Ψ) as Ht.
  { intros e s Hs. unfold Ψ, finish. rewrite Hs. apply bill_error. }
  assert (∀ s, default d (committed s) = d → Ψ (Exit Failed) s) as Hf.
  { intros s Hs. unfold Ψ, finish. rewrite Hs. apply bill_error. }
  assert (∀ s, default d (committed s) = d → (∀ a v amount w, ¬ due d a v amount w) → Ψ (Exit Idle) s) as Hi.
  { intros s Hs Hno. unfold Ψ, finish. rewrite Hs. by apply bill_idle. }
  assert (∀ r s d', committed s = Some d' → bill_outcome d r d' → Ψ (Val r) s) as Hv.
  { intros r s d' Hs Hr. unfold Ψ, finish. by rewrite Hs. }
  change (wp (billUsage env) Ψ (live d [] 0)). clearbody Ψ.
  unfold billUsage. do 3 tx_step. apply wp_query_or_exit; [done| |].
  2: { intros Hn. apply Hi; [done|]. intros a v amount w []. congruence. }
  intros a Ha. destruct (ua_price a) as [price|] eqn:Eprice; [|by apply wp_exit, Hf].
  tx_step. apply wp_query_or_exit; [done| |].
  2: { intros Hn. apply Hi; [done|]. intros a' v amount w [D1 D2 D3 D4 _]. assert (a' = a) as -> by congruence.
       assert (price = pv_id v) as -> by congruence. by eapply select_price_none. }
  intros [v amount] (<- & Hver & Ham)%select_price_inv. cbn [snd]. cbv zeta.
  tx_step. apply wp_query_ok; [done|]. intros w Hw. tx_step. apply wp_query_ok; [done|]. intros gs [= <-].
  destruct (available_grants_ok (ua_user a) at_ d Hg) as (Hsub & Hnd & Hpos & Htot). fold (credit_of d a) in Htot.
  rewrite (credit_sum_total _ Hpos) by (rewrite Htot; by apply credit_available_bounded).
  assert (0 <= pv_unit_price_micros v) as Hm.
  { unfold prices_ok in Hpr. rewrite Forall_forall in Hpr. by apply Hpr, (select_ok _ _ _ Hver). }
  destruct (price_amount_nonneg v _ amount Hm Ham) as [Ha0 Ha64].
  pose proof (total_nonneg _ Hpos) as Hc0. rewrite Htot in Hc0 |- *.
  assert ((if credit_of d a <? amount then credit_of d a else amount) = credit_part d a amount) as ->
    by (unfold credit_part; destruct (Z.ltb_spec (credit_of d a) amount); lia).
  assert (0 <= credit_part d a amount <= amount) as Hcp by (unfold credit_part; lia).
  rewrite wrap64_id by (unfold is_int64, int64_min, int64_max in *; lia).
  assert (due d a v amount w) as Hdue by by constructor.
  destruct (w_balance w <? amount - credit_part d a amount) eqn:Es; bool_hyps.
  - apply wp_suspend_unpaid; [done|]. intros cs d' s Hu Hs. eapply Hv; [done|]. by eapply bill_unpaid.
  - rewrite <- Htot, <- (credit_sum_total _ Hpos) by (rewrite Htot; by apply credit_available_bounded).
    apply select_wallet_inv in Hw as [Hw _].
    apply wp_charge_window; try done; [|unfold is_int64 in Ha64; lia|].
    + rewrite Htot. unfold credit_part. lia.
    + intros cs d' s Hc Hs. eapply Hv; [done|]. by eapply bill_paid.
Qed.
Lemma bill_outcome_ok d r d' : books_ok d → prices_ok d → bill_outcome d r d' → books_ok d'.
Proof.
  intros (Hp & Hb & Hg & Hk) Hpr [Hn| |a v amount w cs d1 Hd Hlt Hu|a v amount w cs d1 Hd Hle Hc]; [done|done|..].
  - destruct Hu as [U1 U2 U3 U4 U5 U6 U7 U8 U9 (bs & U10 & _) _]. unfold books_ok. split_and!.
    + by apply (payments_ok_frame d).
    + apply (bills_ok_frame d); by rewrite ?U10, ?U8.
    + destruct Hg. constructor; by rewrite U4.
    + destruct Hk. unfold wallet_part, entry_amount, items_of_charge in *.
      constructor; unfold wallet_part, entry_amount, items_of_charge; rewrite ?U10, ?U2, ?U4; done.
  - destruct Hd as [D1 D2 D3 D4 [Hw Hu]%select_wallet_inv].
    destruct (available_grants_ok (ua_user a) at_ d Hg) as (Hsub & Hnd & Hpos & Htot). fold (credit_of d a) in Htot.
    assert (0 <= pv_unit_price_micros v) as Hm.
    { unfold prices_ok in Hpr. rewrite Forall_forall in Hpr. by apply Hpr, (select_ok _ _ _ D3). }
    destruct (price_amount_nonneg v _ amount Hm D4) as [Ha0 _]. pose proof (total_nonneg _ Hpos) as Hc0.
    assert (0 <= credit_part d a amount <= total_credit (available_grants (ua_user a) at_ d)) as Hcp
      by (rewrite Htot in *; unfold credit_part; lia).
    assert (credit_part d a amount <= amount) as Hca by (unfold credit_part; lia).
    pose proof (po_ledger _ Hp) as Hl. unfold books_ok. split_and!.
    + by eapply charged_payments_ok'.
    + by apply (wc_bills _ _ _ _ _ _ _ _ _ Hc).
    + by eapply charged_grants_ok.
    + by eapply charged_billing_ok.
Qed.

(** C8: a run of [billUsage] without faults does one of four things: nothing,
    when no window is due; nothing, after an error of a statement; when credit
    and balance together do not cover the window, it records the attempt,
    charges nothing and stops the customer's applications; or it charges the
    window, taking from the credit all it can, first the grants that expire
    first, and from the wallet exactly the rest, with one charge, one debit,
    one bill item, and the window sealed.  In every case the books stay in
    order: each charge is paid by its credit and its debit together, exactly,
    and billed once; no wallet is overdrawn and no grant overused. *)
Theorem billUsage_run d :
  books_ok d → prices_ok d → credit_limited d →
  let '(r, d') := run_billing env no_faults d in bill_outcome d r d' ∧ books_ok d'.
Proof.
  intros Hok Hpr Hcb. pose proof Hok as (Hp & Hb & Hg & _).
  pose proof (bill_cases d (po_ledger _ Hp) Hb Hg Hpr Hcb) as Hc.
  destruct (run_billing _ _ _) as [r d']. split; [done|by eapply bill_outcome_ok].
Qed.

(** C15: a charge uses up credit first in, first out by expiry.  The credit that
    can pay is a queue: exactly the customer's grants that have something left
    and have not expired, those that expire earlier first, those without an end
    last, then by age and identifier.  Each grant of the queue gives exactly what
    the grants before it leave of the price of the window, up to its remainder;
    no other grant changes. *)
Theorem billUsage_credit_order d cs d' :
  books_ok d → prices_ok d → credit_limited d → run_billing env no_faults d = (Billed cs, d') →
  ∃ a v amount w gs, due d a v amount w ∧ credit_queue (ua_user a) at_ d gs ∧
    (∀ gs1 g gs2, gs = gs1 ++ g :: gs2 → ∃ g', g' ∈ grants (credits d') ∧ cg_id g' = cg_id g ∧
       cg_remaining g' = cg_remaining g - Z.max 0 (Z.min (amount - sumZ (cg_remaining <$> gs1)) (cg_remaining g))) ∧
    (∀ g, g ∈ grants (credits d) → g ∉ gs → g ∈ grants (credits d')).
Proof.
  intros (Hp & Hb & Hg & _) Hpr Hcl Hrun. pose proof (bill_cases d (po_ledger _ Hp) Hb Hg Hpr Hcl) as Hc0. rewrite Hrun in Hc0.
  inversion Hc0 as [| | |a v amount w cs' d1 Hd Hle Hc]; subst.
  destruct (available_grants_ok (ua_user a) at_ d Hg) as (Hsub & Hnd & Hpos & Htot). fold (credit_of d a) in Htot.
  pose proof (available_grants_queue (ua_user a) at_ d Hg) as Hq.
  set (gs := available_grants (ua_user a) at_ d) in *.
  pose proof (total_nonneg _ Hpos) as Hc1. pose proof (wc_amount _ _ _ _ _ _ _ _ _ Hc) as Ha.
  set (drawn := charge_credit (credit_part d a amount) gs d).
  assert (∀ g, g ∈ grants (credits d) → draw drawn g ∈ grants (credits d')) as Hdraw.
  { intros g Hin. rewrite (wc_credits _ _ _ _ _ _ _ _ _ Hc).
    cbn [consume upd_credits credits set_consumptions set_grants grants]. apply list_elem_of_fmap. by exists g. }
  exists a, v, amount, w, gs. split_and!; [done|done|..].
  - intros gs1 g gs2 Egs. exists (draw drawn g). split_and!; [apply Hdraw, Hsub; rewrite Egs; set_solver|done|].
    cbn. unfold drawn, charge_credit. rewrite Egs in *. rewrite fifo_order; [|done|done|unfold credit_part; lia].
    apply Forall_app in Hpos as [_ [Hg0 Hg2]%Forall_cons]. pose proof (total_nonneg _ Hg2) as Ht2.
    unfold credit_part, total_credit in *. rewrite fmap_app, fmap_cons, sumZ_app in Htot. cbn [sumZ] in Htot. lia.
  - intros g Hin Hout. rewrite <- (draw_id drawn g); [by apply Hdraw|]. apply fifo_not_used.
    intros (h & Eid & Hh)%list_elem_of_fmap. apply Hout. destruct Hg as [Hids _ _].
    by rewrite (key_inj cg_id (grants (credits d)) g h Hids Hin (Hsub h Hh) Eid).
Qed.

(** ** Progress *)
Definition pending (d : db) : nat := List.length (List.filter pending_aggregate (usage_aggregates (usage d))).
Definition open_windows (d : db) : nat := List.length (List.filter (billable at_ d) (usage_aggregates (usage d))).
Lemma due_in d a v amount w :
  due d a v amount w → a ∈ usage_aggregates (usage d) ∧ billable at_ d a = true.
Proof.
  intros [Hc _ _ _ _]. apply select_ok in Hc as [Hin _]. apply list_elem_of_In, List.filter_In in Hin as [Hin Hb].
  apply list_elem_of_In in Hin. rewrite elem_of_sort_by in Hin. split; [done|]. by bool_hyps.
Qed.
Lemma billable_pending d a : billable at_ d a = true → pending_aggregate a = true.
Proof. unfold billable. intros H'. by bool_hyps. Qed.
Lemma paid_progress d a v amount w cr gs d' :
  due d a v amount w → window_charged env a v amount w cr gs d d' → (pending d' < pending d)%nat.
Proof.
  intros Hd Hc. unfold pending. rewrite (wc_aggregates _ _ _ _ _ _ _ _ _ Hc). destruct (due_in _ _ _ _ _ Hd) as [Hin Hb].
  apply (filter_fmap_lt _ _ _ _ a); [| |by eapply billable_pending|].
  - intros x _. by destruct (aggregate_is _ x).
  - done.
  - unfold aggregate_is. by rewrite Z.eqb_refl.
Qed.
Lemma unpaid_progress d a v amount w d' :
  due d a v amount w → window_unpaid a v amount w d d' →
  pending d' = pending d ∧ (open_windows d' < open_windows d)%nat.
Proof.
  intros Hd [_ Ul _ Uc _ _ _ _ _ (bs & Uu & Uold & Unew) _].
  assert (usage_aggregates (usage d') = usage_aggregates (usage d)) as Ea by (by rewrite Uu).
  split; [unfold pending; by rewrite Ea|]. unfold open_windows. rewrite Ea. destruct (due_in _ _ _ _ _ Hd) as [Hin Hb].
  rewrite <- (list_fmap_id (usage_aggregates (usage d))) at 1.
  apply (filter_fmap_lt _ _ id _ a); [|done|done|].
  - intros x _. unfold billable, charged_window, failed_before, credit_available. cbn [id]. rewrite Uu, Ul, Uc.
    cbn [set_billing_attempts usage_charges billing_attempts].
    intros H'. apply andb_true_iff in H' as [H1 H2]. rewrite H1. cbn [andb].
    destruct (select_wallet _ _); [|done]. rewrite negb_true_iff, exists_row_false in *. eauto.
  - unfold billable. cbn [id]. rewrite Ul, (du_wallet _ _ _ _ _ Hd). apply andb_false_iff. right. rewrite negb_false_iff.
    unfold failed_before. rewrite Uu. cbn [set_billing_attempts billing_attempts]. apply exists_row_true in Unew as (b & Hbin & Hb').
    apply exists_row_true. exists b. split; [done|]. unfold same_attempt in Hb'. cbn in Hb'. unfold attempt_of, credit_available.
    rewrite Uc. fold (credit_available (ua_user a) at_ d). fold (credit_of d a). bool_hyps.
    repeat (apply andb_true_iff; split);
      first [by apply bool_decide_eq_true_2|by apply Z.eqb_eq|by destruct (ba_charged b)].
Qed.
(** The work left: every charge opens windows again at most as often as there
    are pending ones. *)
Definition work (d : db) : nat := (pending d * S (pending d) + open_windows d)%nat.
Lemma open_pending d : (open_windows d <= pending d)%nat.
Proof.
  unfold open_windows, pending. induction (usage_aggregates (usage d)) as [|x t IH]; [done|]. cbn.
  pose proof (billable_pending d x). destruct (billable at_ d x); [rewrite H1 by done|destruct (pending_aggregate x)]; cbn; lia.
Qed.
Lemma bill_outcome_work d r d' :
  bill_outcome d r d' → (r = Idle ∨ r = Failed) ∧ d' = d ∨ (work d' < work d)%nat.
Proof.
  intros [Hn| |a v amount w cs d1 Hd Hlt Hu|a v amount w cs d1 Hd Hle Hc]; [by left; auto|by left; auto|right..]; unfold work.
  - destruct (unpaid_progress _ _ _ _ _ _ Hd Hu) as [-> H']. lia.
  - pose proof (paid_progress _ _ _ _ _ _ _ _ Hd Hc). pose proof (open_pending d1). nia.
Qed.
Lemma bill_outcome_stable d r d' : bill_outcome d r d' → prices_ok d → credit_limited d → prices_ok d' ∧ credit_limited d'.
Proof.
  intros [Hn| |a v amount w cs d1 Hd Hlt Hu|a v amount w cs d1 Hd Hle Hc] Hp Hl; [done|done|..].
  - destruct Hu as [_ _ _ Uc _ _ _ _ _ (bs & Uu & _) _]. unfold prices_ok, credit_limited. by rewrite Uu, Uc.
  - unfold prices_ok, credit_limited. rewrite (wc_versions _ _ _ _ _ _ _ _ _ Hc), (wc_credits _ _ _ _ _ _ _ _ _ Hc).
    split; [done|]. cbn. rewrite <- list_fmap_compose. exact Hl.
Qed.
End run.

(** ** The loop *)
Section loop.
Context `{Releases} `{NumericDivision} (envs : nat → bill_env) (at_ : timestamp).
Hypothesis frozen : ∀ i, be_now (envs i) = at_.
(** The database after [n] runs. *)
Fixpoint after_runs (n : nat) (d : db) : db :=
  match n with O => d | S n => (run_billing (envs n) no_faults (after_runs n d)).2 end.

(** C9: the billing loop comes to rest.  At a fixed time, with fresh
    identifiers for every run, after at most [work d] runs a run has nothing
    more to do (no window is due) or ends in an error; the books are in order
    all along. *)
Theorem billUsage_rests d :
  books_ok d → prices_ok d → credit_limited d →
  ∃ n, (n <= work (envs O) d)%nat ∧ books_ok (after_runs n d) ∧
    let '(r, d') := run_billing (envs n) no_faults (after_runs n d) in
    d' = after_runs n d ∧
    (r = Idle ∧ (∀ a v amount w, ¬ due (envs n) (after_runs n d) a v amount w) ∨ r = Failed).
Proof.
  intros Hb Hp Hc.
  assert (∀ i j d, work (envs i) d = work (envs j) d) as Hw.
  { intros i j d0. unfold work, open_windows. by rewrite !frozen. }
  assert (∀ k, books_ok (after_runs k d) ∧ prices_ok (after_runs k d) ∧ credit_limited (after_runs k d)) as Hinv.
  { induction k as [|k (I1 & I2 & I3)]; [done|]. cbn. pose proof I1 as (P1 & P2 & P3 & _).
    pose proof (bill_cases (envs k) _ (po_ledger _ P1) P2 P3 I2 I3) as Hr.
    destruct (run_billing (envs k) no_faults (after_runs k d)) as [r d']. cbn. split; [by eapply bill_outcome_ok|].
    by eapply bill_outcome_stable. }
  set (resting n := let '(r, d') := run_billing (envs n) no_faults (after_runs n d) in
    d' = after_runs n d ∧ (r = Idle ∧ (∀ a v amount w, ¬ due (envs n) (after_runs n d) a v amount w) ∨ r = Failed)).
  assert (∀ k, resting k ∨ (work (envs O) (after_runs (S k) d) < work (envs O) (after_runs k d))%nat) as Hstep.
  { intros k. destruct (Hinv k) as ((P1 & P2 & P3 & _) & I2 & I3). unfold resting. cbn [after_runs].
    pose proof (bill_cases (envs k) _ (po_ledger _ P1) P2 P3 I2 I3) as Hr.
    destruct (run_billing (envs k) no_faults (after_runs k d)) as [r d'].
    pose proof (bill_outcome_work _ _ _ _ Hr) as [[Hx ->]|Hlt]; [left|right; cbn [snd]; by rewrite (Hw O k), (Hw O k)].
    split; [done|]. destruct Hx as [-> | ->]; [left|by right]. split; [done|]. by inversion Hr. }
  assert (∀ m k, (work (envs O) (after_runs k d) <= m)%nat → ∃ n, (n <= k + m)%nat ∧ resting n) as Hrun.
  { induction m as [|m IH]; intros k Hm; (destruct (Hstep k) as [Hr|Hlt]; [exists k; split; [lia|done]|]); [lia|].
    destruct (IH (S k)) as (n & Hn & Hres); [lia|]. exists n. split; [lia|done]. }
  destruct (Hrun _ O (le_n _)) as (n & Hn & Hres). exists n. split; [done|]. split; [apply Hinv|done].
Qed.
End loop.

(** ** Concrete runs *)
Module Metered.
Definition twenty_digits : NumericDivision.
Proof. exists (λ _, 20). lia. Defined.
Definition all_active : Releases := {| release_active := λ _ _, true |}.
Definition grant_of (id : string) (amount : Z) (expires : option timestamp) : credit_grant :=
  {| cg_id := id; cg_user := "u-1"; cg_amount := amount; cg_remaining := amount; cg_ref := id; cg_note := "";
     cg_expires := expires; cg_by_ := None; cg_created := 1 |}.
Definition window (id hours : Z) : usage_aggregate :=
  {| ua_id := id; ua_user := "u-1"; ua_app := Some "app-1"; ua_code := "cpu"; ua_unit := "hour";
     ua_start := id * hour; ua_stop := (id + 1) * hour; ua_price := Some "p-1"; ua_quantity := hours * 10 ^ 12;
     ua_sealed := None; ua_disposition := Pending |}.
(** 100 cents in the wallet; windows of 120 and 500 cents at 2 cents an hour,
    the first 10 hours of each free; [metered] has 30 and 50 cents of credit. *)
Definition metered_with (gs : list credit_grant) : db :=
  upd_usage (λ t, set_pricing_versions [{| pv_id := "p-1"; pv_item := "cpu"; pv_unit_price_micros := 2000000;
      pv_rounding := RoundUp; pv_minimum := 0; pv_free := 10 * 10 ^ 12; pv_effective := 0 |}]
    (set_usage_aggregates [window 1 70; window 2 260] (set_next_aggregate 3 t)))
  (upd_credits (set_grants gs)
  (upd_apps (set_user_apps [{| a_id := "app-1"; a_user := "u-1"; a_slug := "web"; a_status := AppRunning;
      a_suspension := None; a_suspended_at := None; a_last_release := Some "r-1"; a_deleted_at := None |}]) Sample.db1)).
Definition metered : db := metered_with [grant_of "g-1" 30 None; grant_of "g-2" 50 (Some (100 * hour))].
(** Credit for more than the first window, written down in the wrong order; the
    last grant has expired. *)
Definition queued : db := metered_with
  [grant_of "g-1" 30 None; grant_of "g-2" 100 (Some (200 * hour)); grant_of "g-3" 50 (Some (100 * hour));
   grant_of "g-4" 70 (Some (2 * hour))].
Definition env (n : nat) : bill_env :=
  {| be_now := 3 * hour; be_unlocked := λ _, true; be_bill := "bill-" ^+ format_int (Z.of_nat n);
     be_job := λ a, a; be_key := λ a, a |}.
Definition bill (n : nat) : db → billing * db := @run_billing all_active twenty_digits (env n) no_faults.

Ltac metered_books :=
  split_and!; [split_and!|unfold prices_ok; by_eval|unfold credit_limited; by_eval];
  [ apply (payments_ok_frame Sample.db1); [done..|apply Sample.db1_ok]
  | constructor; try by_eval; by intros i Hi%elem_of_nil
  | constructor; [by_eval..|]; repeat constructor; cbn; lia
  | constructor; try by_eval; try (by intros ? Hi%elem_of_nil);
    [ by intros c i Hc%elem_of_nil
    | by intros e ->%list_elem_of_singleton
    | intros g Hg; repeat (apply elem_of_cons in Hg as [->|Hg]; [done|]); by apply elem_of_nil in Hg ] ].
Lemma metered_ok : books_ok metered ∧ prices_ok metered ∧ credit_limited metered.
Proof. metered_books. Qed.
Lemma queued_ok : books_ok queued ∧ prices_ok queued ∧ credit_limited queued.
Proof. metered_books. Qed.
(** The first window is paid: 80 cents of credit and 40 of the wallet. *)
Lemma first_window : (bill 0 metered).1 = Billed [] ∧
  cg_remaining <$> grants (credits (bill 0 metered).2) = [0; 0] ∧
  w_balance <$> wallets (ledger (bill 0 metered).2) = [60].
Proof. by vm_compute. Qed.
End Metered.
Import Metered.

Lemma billUsage_run_witness :
  (bill 0 metered).1 = Billed [] ∧ (bill 1 (bill 0 metered).2).1 = Suspended [] ∧ books_ok (bill 0 metered).2.
Proof.
  destruct metered_ok as (H1 & H2 & H3). split; [by vm_compute|]. split; [by vm_compute|].
  pose proof (@billUsage_run all_active twenty_digits (env 0) metered H1 H2 H3) as H. unfold bill.
  destruct (run_billing _ _ metered) as [r d']. by destruct H.
Defined.
Lemma billUsage_rests_witness :
  ∃ n, (n <= work (env O) metered)%nat ∧
    books_ok (@after_runs all_active twenty_digits env n metered).
Proof.
  destruct metered_ok as (H1 & H2 & H3).
  destruct (@billUsage_rests all_active twenty_digits env (3 * hour) (λ _, eq_refl) metered H1 H2 H3) as (n & Hn & Hb & _).
  by exists n.
Defined.
(** 120 cents: 50 of the grant that expires first, 70 of the next, none of the
    one without an end or of the one that has expired. *)
Lemma billUsage_credit_order_witness :
  (cg_id <$> available_grants "u-1" (3 * hour) queued) = ["g-3"; "g-2"; "g-1"] ∧
  (λ g, (cg_id g, cg_remaining g)) <$> grants (credits (bill 0 queued).2) =
    [("g-1", 30); ("g-2", 30); ("g-3", 0); ("g-4", 70)] ∧
  ∃ a v amount w gs, @due twenty_digits (env 0) queued a v amount w ∧ credit_queue (ua_user a) (3 * hour) queued gs.
Proof.
  destruct queued_ok as (H1 & H2 & H3). split; [by vm_compute|]. split; [by vm_compute|].
  assert ((@run_billing all_active twenty_digits (env 0) no_faults queued).1 = Billed []) as Hr by (by vm_compute).
  pose proof (@billUsage_credit_order all_active twenty_digits (env 0) queued []
    (@run_billing all_active twenty_digits (env 0) no_faults queued).2 H1 H2 H3) as H.
  revert Hr H. destruct (@run_billing all_active twenty_digits (env 0) no_faults queued) as [r d']. cbn [fst snd].
  intros -> H. destruct (H eq_refl) as (a & v & amount & w & gs & Hd & Hq & _). by exists a, v, amount, w, gs.
Defined.
(** 60 billable hours at 2 cents. *)
Lemma price_amount_spec_witness :
  0 <= 120 ∧ ∃ v, pricing_versions (usage metered) = [v] ∧ @price_amount twenty_digits v (70 * 10 ^ 12) = Ok 120.
Proof.
  split; [|eexists; split; [reflexivity|by vm_compute]].
  eapply (@price_amount_spec twenty_digits (nth 0 (pricing_versions (usage metered))
    {| pv_id := ""; pv_item := ""; pv_unit_price_micros := 0; pv_rounding := RoundUp; pv_minimum := 0; pv_free := 0; pv_effective := 0 |})
    (70 * 10 ^ 12) 120); by vm_compute.
Defined.
