(* ===== verification/Metering.v ===== *)
(** * Correctness of the aggregation of usage

    What [aggregateUsage] keeps: every unit of usage of the claimed events is in
    the aggregate of its window, unless that aggregate was sealed before. *)
From S2P Require Import Prelude GoStrings GoTime Tx Table Ledger Schema Accounts Bills Recovery Billing BillingBooks.
From stdpp Require Import list.
Open Scope string_scope.
Open Scope Z_scope.
Open Scope list_scope.

(** ** Windows and groups by their keys *)
Definition window_key (e : usage_event) : string * option string * string * timestamp * timestamp * option string :=
  (ue_user e, ue_app e, ue_code e, ue_start e, ue_stop e, ue_price e).
Definition row_key (a : usage_aggregate) : string * option string * string * timestamp * timestamp * option string :=
  (ua_user a, ua_app a, ua_code a, ua_start a, ua_stop a, ua_price a).
Definition group_key (e : usage_event) := (window_key e, ue_unit e).
Lemma same_window_spec e a : same_window e a = true ↔ window_key e = row_key a.
Proof.
  unfold same_window, window_key, row_key. rewrite !andb_true_iff, !bool_decide_eq_true, !Z.eqb_eq. split.
  - intros (((((-> & ->) & ->) & ->) & ->) & ->). done.
  - by intros [= -> -> -> -> -> ->].
Qed.
Lemma same_group_spec e g : same_group e g = true ↔ group_key e = group_key g.
Proof.
  unfold same_group, group_key, window_key. rewrite !andb_true_iff, !bool_decide_eq_true, !Z.eqb_eq. split.
  - intros ((((((-> & ->) & ->) & ->) & ->) & ->) & ->). done.
  - by intros [= -> -> -> -> -> -> ->].
Qed.
Definition in_window (e f : usage_event) : bool := bool_decide (window_key e = window_key f).

(** The usage of a window, in events and in aggregates. *)
Definition quantity_in (e : usage_event) (es : list usage_event) : Z :=
  sumZ (ue_quantity <$> List.filter (in_window e) es).
Definition quantity_of (e : usage_event) (t : usage_t) : Z :=
  sumZ (ua_quantity <$> List.filter (same_window e) (usage_aggregates t)).
(** The unique index on the columns of a window. *)
Definition windows_unique (t : usage_t) : Prop := NoDup (row_key <$> usage_aggregates t).
Definition window_sealed (e : usage_event) (t : usage_t) : bool :=
  exists_row (λ a, same_window e a && negb (open_aggregate a)) (usage_aggregates t).

(** Only the key of the window matters. *)
Lemma same_window_key e g a : window_key e = window_key g → same_window e a = same_window g a.
Proof. intros E. apply eq_true_iff_eq. by rewrite !same_window_spec, E. Qed.
Lemma window_sealed_key e g t : window_key e = window_key g → window_sealed e t = window_sealed g t.
Proof.
  intros E. unfold window_sealed, exists_row. induction (usage_aggregates t) as [|a l IH]; [done|]. cbn.
  by rewrite IH, (same_window_key e g a E).
Qed.
Lemma in_window_spec e f : in_window e f = true ↔ window_key e = window_key f.
Proof. apply bool_decide_eq_true. Qed.

Lemma quantity_in_cons e x es :
  quantity_in e (x :: es) = (if in_window e x then ue_quantity x else 0) + quantity_in e es.
Proof. unfold quantity_in. cbn [List.filter]. by destruct (in_window e x). Qed.

(** ** Grouping *)
Lemma add_to_group_quantity e x gs :
  quantity_in e (add_to_group x gs) = quantity_in e gs + if in_window e x then ue_quantity x else 0.
Proof.
  induction gs as [|g gs IH]; cbn [add_to_group].
  - rewrite quantity_in_cons. unfold quantity_in. cbn. lia.
  - destruct (same_group x g) eqn:E; rewrite !quantity_in_cons.
    + apply same_group_spec in E. apply (f_equal fst) in E. cbn [group_key fst] in E.
      assert (in_window e (with_event_quantity (ue_quantity g + ue_quantity x) g) = in_window e g) as -> by done.
      assert (in_window e x = in_window e g) as -> by (unfold in_window; apply bool_decide_ext; by rewrite E).
      cbn. destruct (in_window e g); lia.
    + rewrite IH. lia.
Qed.
Lemma add_to_group_keys x gs :
  group_key <$> add_to_group x gs =
  (group_key <$> gs) ++ (if existsb (same_group x) gs then [] else [group_key x]).
Proof.
  induction gs as [|g gs IH]; [done|]. cbn [add_to_group existsb]. destruct (same_group x g) eqn:E; cbn [orb].
  - cbn. by rewrite app_nil_r.
  - cbn. by rewrite IH.
Qed.
Lemma group_events_spec es :
  NoDup (group_key <$> group_events es) ∧ ∀ e, quantity_in e (group_events es) = quantity_in e es.
Proof.
  unfold group_events.
  enough (∀ gs, NoDup (group_key <$> gs) → NoDup (group_key <$> fold_left (λ gs e, add_to_group e gs) es gs) ∧
    ∀ e, quantity_in e (fold_left (λ gs e, add_to_group e gs) es gs) = quantity_in e gs + quantity_in e es) as H.
  { destruct (H [] (NoDup_nil_2)) as [H1 H2]. split; [done|]. intros e. by rewrite H2. }
  induction es as [|x es IH]; intros gs Hgs; cbn [fold_left].
  - split; [done|]. intros e. unfold quantity_in at 3. cbn. lia.
  - destruct (IH (add_to_group x gs)) as [H1 H2].
    + rewrite add_to_group_keys. destruct (existsb (same_group x) gs) eqn:E; [by rewrite app_nil_r|].
      apply NoDup_app. split_and!; [done| |apply NoDup_singleton].
      intros k (g & -> & Hg)%list_elem_of_fmap Hk%list_elem_of_singleton.
      assert (existsb (same_group x) gs = true) as F; [|congruence].
      apply existsb_exists. exists g. split; [by apply list_elem_of_In|]. by apply same_group_spec.
    + split; [done|]. intros e. rewrite H2, add_to_group_quantity, quantity_in_cons. lia.
Qed.
(** Without a second unit in a window that is not sealed, the window is one
    group. *)
Lemma one_group e t gs :
  NoDup (group_key <$> gs) → mixed_units gs t = false → window_sealed e t = false →
  (List.length (List.filter (in_window e) gs) <= 1)%nat.
Proof.
  intros Hnd Hm Hs.
  assert (∀ g h, g ∈ gs → h ∈ gs → in_window e g = true → in_window e h = true → group_key g = group_key h) as Hkey.
  { intros g h Hg Hh Eg%in_window_spec Eh%in_window_spec. unfold group_key. f_equal; [congruence|].
    destruct (decide (ue_unit g = ue_unit h)) as [|Hne]; [done|]. exfalso.
    assert (mixed_units gs t = true) as F; [|congruence]. unfold mixed_units.
    apply existsb_exists. exists g. split; [by apply list_elem_of_In|]. apply existsb_exists. exists h.
    split; [by apply list_elem_of_In|]. rewrite (bool_decide_eq_false_2 _ Hne).
    assert (same_window g (aggregate_of 0 0 h) = true) as ->
      by (apply same_window_spec; change (row_key (aggregate_of 0 0 h)) with (window_key h); congruence).
    fold (window_sealed g t). by rewrite <- (window_sealed_key e g t Eg), Hs. }
  clear Hm Hs. induction gs as [|g gs IH]; [cbn; lia|]. cbn in Hnd |- *. apply NoDup_cons in Hnd as [Hg Hnd].
  assert (List.length (List.filter (in_window e) gs) <= 1)%nat as Hle.
  { apply IH; [done|]. intros x y Hx Hy. apply Hkey; by right. }
  destruct (in_window e g) eqn:Eg; [|done].
  rewrite filter_none; [cbn; lia|]. intros h Hh. destruct (in_window e h) eqn:Eh; [|done]. exfalso. apply Hg.
  rewrite (Hkey g h); [|by left|by right|done|done]. apply list_elem_of_fmap. eauto.
Qed.

(** ** One group *)
Lemma quantity_of_app e l a t :
  usage_aggregates t = l ++ [a] →
  quantity_of e t = sumZ (ua_quantity <$> List.filter (same_window e) l) + if same_window e a then ua_quantity a else 0.
Proof.
  unfold quantity_of. intros ->. rewrite List.filter_app, fmap_app, sumZ_app. cbn [List.filter].
  destruct (same_window e a); cbn; lia.
Qed.
(** The update of the one open aggregate of a window. *)
Lemma quantity_update e g l q :
  NoDup (row_key <$> l) → window_key e = window_key g →
  existsb (λ a, same_window e a && open_aggregate a) l = true →
  sumZ (ua_quantity <$> List.filter (same_window e)
     (update (λ a, same_window g a && open_aggregate a) (λ a, with_quantity (ua_quantity a + q) a) l)) =
  sumZ (ua_quantity <$> List.filter (same_window e) l) + q.
Proof.
  intros Hnd Ek. induction l as [|a l IH]; [done|]. cbn in Hnd. apply NoDup_cons in Hnd as [Ha Hnd].
  cbn [existsb update fmap list_fmap]. fold (update (λ a, same_window g a && open_aggregate a)
    (λ a, with_quantity (ua_quantity a + q) a) l). rewrite (same_window_key e g a Ek) at 1. intros Hex.
  destruct (same_window g a && open_aggregate a) eqn:E.
  - apply andb_true_iff in E as [Ea Eo]. rewrite update_none.
    + cbn [List.filter]. rewrite (same_window_key e g (with_quantity _ a) Ek), (same_window_key e g a Ek).
      assert (same_window g (with_quantity (ua_quantity a + q) a) = true) as -> by done. rewrite Ea. cbn. lia.
    + intros b Hb. apply not_true_iff_false. intros F. apply andb_true_iff in F as [Fb _].
      apply same_window_spec in Fb, Ea. apply Ha. rewrite <- Ea, Fb. apply list_elem_of_fmap. eauto.
  - cbn [orb] in Hex. cbn [List.filter]. destruct (same_window e a); cbn; rewrite IH by done; lia.
Qed.
Lemma quantity_update_other e g l q :
  window_key e ≠ window_key g →
  List.filter (same_window e)
     (update (λ a, same_window g a && open_aggregate a) (λ a, with_quantity (ua_quantity a + q) a) l) =
  List.filter (same_window e) l.
Proof.
  intros Hne. induction l as [|a l IH]; [done|]. cbn [update fmap list_fmap List.filter].
  fold (update (λ a, same_window g a && open_aggregate a) (λ a, with_quantity (ua_quantity a + q) a) l). rewrite IH.
  destruct (same_window g a && open_aggregate a) eqn:E; [|done]. apply andb_true_iff in E as [E _].
  assert (same_window e a = false) as Ea.
  { apply not_true_iff_false. rewrite same_window_spec. apply same_window_spec in E. congruence. }
  assert (same_window e (with_quantity (ua_quantity a + q) a) = same_window e a) as -> by done. by rewrite Ea.
Qed.
Lemma window_sealed_false e t : window_sealed e t = false ↔ ∀ a, a ∈ usage_aggregates t → same_window e a = true → open_aggregate a = true.
Proof.
  unfold window_sealed. rewrite exists_row_false. split.
  - intros H a Ha E. specialize (H a Ha). rewrite E in H. by apply negb_false_iff in H.
  - intros H a Ha. destruct (same_window e a) eqn:E; [|done]. by rewrite (H a Ha E).
Qed.
Lemma open_with_quantity q a : open_aggregate (with_quantity q a) = open_aggregate a.
Proof. done. Qed.
Lemma sealed_update e g l q :
  exists_row (λ a, same_window e a && negb (open_aggregate a))
    (update (λ a, same_window g a && open_aggregate a) (λ a, with_quantity (ua_quantity a + q) a) l) =
  exists_row (λ a, same_window e a && negb (open_aggregate a)) l.
Proof.
  unfold exists_row, update. induction l as [|a l IH]; [done|]. cbn. rewrite IH. by destruct (same_window g a && open_aggregate a).
Qed.
Lemma row_keys_update g l q :
  row_key <$> update (λ a, same_window g a && open_aggregate a) (λ a, with_quantity (ua_quantity a + q) a) l = row_key <$> l.
Proof. by apply update_column. Qed.

Record group_written (g : usage_event) (t t1 : usage_t) : Prop := {
  gw_events : usage_events t1 = usage_events t;
  gw_unique : windows_unique t1;
  gw_other : ∀ e, in_window e g = false → quantity_of e t1 = quantity_of e t ∧ window_sealed e t1 = window_sealed e t;
  gw_open : ∀ e, in_window e g = true → window_sealed e t = false → quantity_of e t1 = quantity_of e t + ue_quantity g;
  gw_sealed : ∀ e, window_sealed e t = true → quantity_of e t1 = quantity_of e t ∧ window_sealed e t1 = true
}.
Lemma aggregate_event_update at_ g t t1 :
  exists_row (same_window g) (usage_aggregates t) = true → aggregate_event at_ g t = Ok t1 → windows_unique t →
  group_written g t t1.
Proof.
  unfold aggregate_event. intros Hex. rewrite Hex. destruct (negb _); [done|]. cbv zeta.
  destruct (forallb _ _); [|done]. intros [= <-] Hu. apply exists_row_true in Hex as (a & Ha & Hga).
  constructor; unfold windows_unique, quantity_of, window_sealed; cbn [set_usage_aggregates usage_aggregates usage_events].
  - done.
  - by rewrite row_keys_update.
  - intros e He. rewrite sealed_update, quantity_update_other; [done|]. intros E. apply in_window_spec in E. congruence.
  - intros e Ek%in_window_spec Hs. apply quantity_update; [done|done|]. apply existsb_exists. exists a.
    split; [by apply list_elem_of_In|]. rewrite <- (same_window_key e g a Ek) in Hga. rewrite Hga. cbn.
    by apply (proj1 (window_sealed_false e t) Hs a Ha).
  - intros e Hs. rewrite sealed_update. split; [|done]. destruct (in_window e g) eqn:E.
    2: { apply f_equal, f_equal, quantity_update_other. intros F. apply in_window_spec in F. congruence. }
    apply in_window_spec in E. apply exists_row_true in Hs as (b & Hb & F). apply andb_true_iff in F as [F1 F2].
    rewrite update_id; [done|]. intros c Hc G. apply andb_true_iff in G as [G1 G2].
    assert (c = b) as ->; [|by rewrite G2 in F2]. apply (key_inj row_key _ _ _ Hu Hc Hb).
    apply same_window_spec in G1, F1. congruence.
Qed.
Lemma aggregate_event_insert at_ g t t1 :
  exists_row (same_window g) (usage_aggregates t) = false → aggregate_event at_ g t = Ok t1 → windows_unique t →
  group_written g t t1.
Proof.
  unfold aggregate_event. intros Hex. rewrite Hex. destruct (negb _); [done|]. intros [= <-] Hu.
  rewrite exists_row_false in Hex. set (a := aggregate_of (next_aggregate t) at_ g).
  assert (row_key a = window_key g) as Ka by done.
  assert (∀ e, same_window e a = in_window e g) as Hw.
  { intros e. apply eq_true_iff_eq. by rewrite same_window_spec, in_window_spec, Ka. }
  assert (∀ e, in_window e g = true → ∀ b, b ∈ usage_aggregates t → same_window e b = false) as Hno.
  { intros e E%in_window_spec b Hb. rewrite (same_window_key e g b E). by apply Hex. }
  assert (∀ e, in_window e g = true → quantity_of e t = 0) as Hz.
  { intros e E. unfold quantity_of. by rewrite filter_none by (by apply Hno). }
  constructor.
  - done.
  - unfold windows_unique. cbn. apply NoDup_snoc; [done|]. intros b Hb E. rewrite Ka in E. symmetry in E.
    apply same_window_spec in E. by rewrite Hex in E.
  - intros e E. rewrite (quantity_of_app e (usage_aggregates t) a) by done. rewrite Hw, E, Z.add_0_r. split; [done|].
    unfold window_sealed. cbn. unfold exists_row. rewrite existsb_app. cbn. by rewrite Hw, E, orb_false_r.
  - intros e E _. rewrite (quantity_of_app e (usage_aggregates t) a) by done. by rewrite Hw, E.
  - intros e Hs. destruct (in_window e g) eqn:E.
    + apply exists_row_true in Hs as (b & Hb & F). apply andb_true_iff in F as [F _]. by rewrite (Hno e E b Hb) in F.
    + rewrite (quantity_of_app e (usage_aggregates t) a) by done. rewrite Hw, E, Z.add_0_r. split; [done|].
      unfold window_sealed. cbn. unfold window_sealed, exists_row in *. rewrite existsb_app. by rewrite Hs.
Qed.
Lemma aggregate_event_ok at_ g t t1 : aggregate_event at_ g t = Ok t1 → windows_unique t → group_written g t t1.
Proof.
  destruct (exists_row (same_window g) (usage_aggregates t)) eqn:E;
    [by apply aggregate_event_update|by apply aggregate_event_insert].
Qed.

(** ** The batch *)
Record groups_written (gs : list usage_event) (t t1 : usage_t) : Prop := {
  gsw_events : usage_events t1 = usage_events t;
  gsw_unique : windows_unique t1;
  gsw_open : ∀ e, (List.length (List.filter (in_window e) gs) <= 1)%nat → window_sealed e t = false →
    quantity_of e t1 = quantity_of e t + quantity_in e gs;
  gsw_sealed : ∀ e, window_sealed e t = true → quantity_of e t1 = quantity_of e t
}.
Lemma aggregate_events_ok at_ gs t t1 : aggregate_events at_ gs t = Ok t1 → windows_unique t → groups_written gs t t1.
Proof.
  revert t. induction gs as [|g gs IH]; intros t; cbn [aggregate_events].
  - intros [= <-] Hu. constructor; [done|done| |done]. intros e _ _. unfold quantity_in. cbn. lia.
  - destruct (aggregate_event at_ g t) as [t0|] eqn:E; [|done]. cbn. intros Hrest Hu.
    destruct (aggregate_event_ok _ _ _ _ E Hu) as [G1 G2 G3 G4 G5]. destruct (IH t0 Hrest G2) as [I1 I2 I3 I4].
    constructor; [congruence|done| |].
    + intros e Hlen Hs. rewrite quantity_in_cons. cbn [List.filter] in Hlen. destruct (in_window e g) eqn:Eg.
      * assert (List.filter (in_window e) gs = []) as Hnil.
        { destruct (List.filter (in_window e) gs); [done|cbn in Hlen; lia]. }
        specialize (G4 e Eg Hs). destruct (window_sealed e t0) eqn:Es0.
        -- rewrite (I4 e Es0), G4. unfold quantity_in. rewrite Hnil. cbn. lia.
        -- rewrite (I3 e), G4 by (done || (rewrite Hnil; cbn; lia)). unfold quantity_in. lia.
      * destruct (G3 e Eg) as [G3a G3b]. rewrite (I3 e), G3a by (done || congruence). lia.
    + intros e Hs. destruct (G5 e Hs) as [G5a G5b]. by rewrite (I4 e G5b).
Qed.

(** C17: no usage is lost and none is counted twice: when a batch is aggregated,
    the claimed events are marked, and each window that was not sealed grows by
    exactly the quantities of its claimed events; every window keeps a single
    aggregate.  (A window that was sealed before keeps its quantity: see
    [aggregateUsage_late].) *)
Theorem aggregateUsage_conserves unlocked at_ d t1 :
  windows_unique (usage d) → aggregate_batch unlocked at_ (usage d) = Ok t1 →
  let claimed := claimed_events unlocked (usage d) in
  run (λ _, tt) (aggregateUsage unlocked at_) no_faults d = (tt, upd_usage (λ _, t1) d) ∧
  windows_unique t1 ∧
  (∀ e, window_sealed e (usage d) = false → quantity_of e t1 = quantity_of e (usage d) + quantity_in e claimed) ∧
  usage_events t1 = update (λ e, existsb (λ c, ue_id c =? ue_id e) claimed) (mark_aggregated at_) (usage_events (usage d)).
Proof.
  intros Hu Hb claimed. split.
  { apply (run_wp (λ _, tt) _ d (λ x, x = _)). unfold aggregateUsage. repeat tx_step. unfold on_usage. rewrite Hb. by repeat tx_step. }
  unfold aggregate_batch in Hb. fold claimed in Hb. cbv zeta in Hb.
  destruct (mixed_units (group_events claimed) (usage d)) eqn:Em; [done|].
  destruct (aggregate_events at_ (group_events claimed) (usage d)) as [t0|] eqn:E; [|done]. cbn in Hb. injection Hb as <-.
  destruct (aggregate_events_ok _ _ _ _ E Hu) as [G1 G2 G3 _]. destruct (group_events_spec claimed) as [Hnd Hq].
  split; [done|]. split; [|cbn; by rewrite G1].
  intros e Hs. rewrite <- Hq. apply (G3 e); [by eapply one_group|done].
Qed.
(** C18: usage that arrives after its window was sealed is dropped: the event is
    marked as aggregated and the quantity of the window stays. *)
Theorem aggregateUsage_late unlocked at_ d t1 e :
  windows_unique (usage d) → aggregate_batch unlocked at_ (usage d) = Ok t1 →
  e ∈ claimed_events unlocked (usage d) → window_sealed e (usage d) = true →
  quantity_of e t1 = quantity_of e (usage d) ∧
  ∃ e', e' ∈ usage_events t1 ∧ ue_id e' = ue_id e ∧ ue_aggregated e' = Some at_.
Proof.
  intros Hu Hb Hin Hs. unfold aggregate_batch in Hb. set (claimed := claimed_events unlocked (usage d)) in *. cbv zeta in Hb.
  destruct (mixed_units (group_events claimed) (usage d)); [done|].
  destruct (aggregate_events at_ (group_events claimed) (usage d)) as [t0|] eqn:E; [|done]. cbn in Hb. injection Hb as <-.
  destruct (aggregate_events_ok _ _ _ _ E Hu) as [G1 G2 _ G4]. split; [by apply (G4 e)|].
  exists (mark_aggregated at_ e). split; [|done]. cbn. rewrite G1. apply elem_of_update. exists e. split.
  - unfold claimed, claimed_events in Hin. apply elem_of_take in Hin as (i & Hi & _). apply list_elem_of_lookup_2 in Hi.
    apply list_elem_of_In, List.filter_In in Hi as [Hi _]. apply list_elem_of_In in Hi. by rewrite elem_of_sort_by in Hi.
  - assert (existsb (λ c, ue_id c =? ue_id e) claimed = true) as ->; [|done].
    apply existsb_exists. exists e. split; [by apply list_elem_of_In|apply Z.eqb_refl].
Qed.

(** ** Concrete batches *)
Definition event (id : Z) (quantity : Z) : usage_event :=
  {| ue_id := id; ue_user := "u-1"; ue_app := Some "app-1"; ue_code := "cpu"; ue_quantity := quantity; ue_unit := "hour";
     ue_start := hour; ue_stop := 2 * hour; ue_price := Some "p-1"; ue_aggregated := None |}.
(** Two events of the first window of [Metered.metered]. *)
Definition emitted : db := upd_usage (set_usage_events [event 2 5; event 1 3]) Metered.metered.
Definition batch (d : db) : usage_t :=
  match aggregate_batch (λ _, true) 9 (usage d) with Ok t => t | Err _ => usage d end.
Lemma metered_windows : windows_unique (usage emitted).
Proof. unfold windows_unique, timestamp. by_eval. Qed.
Lemma aggregateUsage_conserves_witness :
  windows_unique (usage emitted) ∧ quantity_of (event 1 3) (batch emitted) = 70 * 10 ^ 12 + 8.
Proof.
  split; [apply metered_windows|].
  destruct (aggregateUsage_conserves (λ _, true) 9 emitted (batch emitted) metered_windows) as (_ & _ & H & _); [by vm_compute|].
  rewrite (H (event 1 3)) by (by vm_compute). by vm_compute.
Defined.
(** The same events after the window was charged. *)
Definition late : db :=
  upd_usage (λ t, set_usage_aggregates [Billing.seal 5 Charged (Some "p-1") (Metered.window 1 70)] t) emitted.
Lemma late_windows : windows_unique (usage late).
Proof. unfold windows_unique, timestamp. by_eval. Qed.
Lemma aggregateUsage_late_witness :
  quantity_of (event 1 3) (batch late) = 70 * 10 ^ 12 ∧
  ∃ e', e' ∈ usage_events (batch late) ∧ ue_id e' = 1 ∧ ue_aggregated e' = Some 9.
Proof.
  destruct (aggregateUsage_late (λ _, true) 9 late (batch late) (event 1 3) late_windows) as (H & e' & He).
  - by vm_compute.
  - unfold late. apply list_elem_of_In. vm_compute. by left.
  - by vm_compute.
  - split; [rewrite H; by vm_compute|by exists e'].
Defined.
