(* ===== verification/Names.v ===== *)
(** * Names of Docker resources (internal/runtime/spec.go, apps/worker/main.go)

    Volumes, networks and containers carry the owner of the deployment, except
    for the production owner, whose names predate the scoping. *)
From S2P Require Import Prelude GoStrings Regex GoValue RuntimeSpec Crypto.
From stdpp Require Import list.
Open Scope string_scope.
Open Scope Z_scope.
Open Scope list_scope.

Definition DefaultRuntimeOwner : string := "cloudmeter".
Definition DefaultBackupVolume : string := "cloudmeter_backup_data".

(** [if len(s) > n { s = s[:n] }] *)
Definition shorten (n : nat) (s : string) : string := if Z.of_nat n <? slen s then take_str n s else s.

Definition AppVolumeName (appID key : string) : string :=
  "cmv-" ^+ shorten 20 (remove_byte appID "-") ^+ "-" ^+ key.
Definition ResourceScopeToken (owner : string) : string :=
  let owner := trim_space owner in
  let owner := if bool_decide (owner = "") then DefaultRuntimeOwner else owner in
  hex_encode (take 5 (sha256_sum owner)).
Definition UsesLegacyResourceNames (owner : string) : bool :=
  let owner := trim_space owner in
  bool_decide (owner = "") || equal_fold owner DefaultRuntimeOwner.
Definition UserNetworkName (owner userID : string) : string :=
  if UsesLegacyResourceNames owner then "user_net_" ^+ userID
  else "user_net_" ^+ ResourceScopeToken owner ^+ "-" ^+ userID.
Definition AppVolumeNameForOwner (owner appID key : string) : string :=
  if UsesLegacyResourceNames owner then AppVolumeName appID key
  else "cmv-" ^+ ResourceScopeToken owner ^+ "-" ^+ shorten 20 (remove_byte appID "-") ^+ "-" ^+ key.
Definition BackupVolumeName (owner configured : string) : string :=
  let configured := trim_space configured in
  let configured := if bool_decide (configured = "") then DefaultBackupVolume else configured in
  if UsesLegacyResourceNames owner then configured
  else
    let scope := ResourceScopeToken owner in
    if bool_decide (configured = DefaultBackupVolume) then "cloudmeter_backup_" ^+ scope
    else if has_suffix configured ("-" ^+ scope) || has_suffix configured ("_" ^+ scope) then configured
    else configured ^+ "-" ^+ scope.
Definition HelperContainerName (owner kind jobID : string) : string :=
  if bool_decide (trim_space owner = "") then "cm-" ^+ kind ^+ "-" ^+ jobID
  else "cm-" ^+ kind ^+ "-" ^+ ResourceScopeToken owner ^+ "-" ^+ jobID.

(** ** The worker's containers; [runtimeScope] is the token of the owner. *)
Section scope.
Context (runtimeScope : string).
Definition containerName (instanceID releaseID : string) : string :=
  if bool_decide (runtimeScope = "") then "cm-" ^+ instanceID ^+ "-" ^+ releaseID
  else "cm-" ^+ runtimeScope ^+ "-" ^+ instanceID ^+ "-" ^+ releaseID.
Definition healthProbeName (jobID : string) : string :=
  let compact := shorten 12 (remove_byte jobID "-") in
  if bool_decide (runtimeScope = "") then "cm-health-" ^+ compact
  else "cm-health-" ^+ runtimeScope ^+ "-" ^+ compact.
End scope.
Definition releaseAlias (releaseID : string) : string := "release-" ^+ shorten 12 (remove_byte releaseID "-").

(** ** Reading a container name back *)
Definition regexpUUID : regex :=
  rseq [rrep 8 8 r_hex; rlit "-"; rrep 4 4 r_hex; rlit "-"; rrep 4 4 r_hex; rlit "-"; rrep 4 4 r_hex; rlit "-";
        rrep 12 12 r_hex].
Definition scopeToken : regex := rrep 10 10 r_hex.
Definition runtimeContainerPattern : regex := rseq [rlit "cm-"; regexpUUID; rlit "-"; regexpUUID].
Definition scopedRuntimeContainerPattern : regex :=
  rseq [rlit "cm-"; scopeToken; rlit "-"; regexpUUID; rlit "-"; regexpUUID].
(** The groups of both patterns have fixed lengths, so a submatch is a slice. *)
Definition slice (from len : nat) (s : string) : string := str (take len (drop from (chars s))).
Definition runtimeContainerIdentity (runtimeScope name : string) : option (string * string * bool) :=
  if match_string scopedRuntimeContainerPattern name then
    if bool_decide (runtimeScope = "") || negb (bool_decide (slice 3 10 name = runtimeScope)) then None
    else Some (slice 14 36 name, slice 51 36 name, false)
  else if match_string runtimeContainerPattern name then Some (slice 3 36 name, slice 40 36 name, true)
  else None.
Definition stopContainerMatches (runtimeOwner runtimeScope appID releaseID name : string) : bool :=
  match runtimeContainerIdentity runtimeScope name with
  | Some (a, r, legacy) =>
      bool_decide (a = appID) && bool_decide (r = releaseID) && (negb legacy || UsesLegacyResourceNames runtimeOwner)
  | None => false
  end.

(** ** Fixed-length patterns *)
Fixpoint rlen (r : regex) : option nat :=
  match r with
  | REps => Some O
  | RCls _ => Some 1%nat
  | RCat r s => m ← rlen r; n ← rlen s; Some (m + n)%nat
  | _ => None
  end.
Lemma rlen_spec r n l : rlen r = Some n → matches r l → List.length l = n.
Proof.
  intros Hr Hm. revert n Hr. induction Hm as [|k c Hc|r s l1 l2 _ IH1 _ IH2| | | |]; intros n; cbn; try done.
  - by intros [= <-].
  - by intros [= <-].
  - destruct (rlen r) as [a|]; [|done]. cbn. destruct (rlen s) as [b|]; [|done]. cbn. intros [= <-].
    rewrite length_app, (IH1 a eq_refl), (IH2 b eq_refl). done.
Qed.
Lemma match_length r n s : rlen r = Some n → match_string r s = true → List.length (chars s) = n.
Proof. intros Hr Hm%match_string_spec. by eapply rlen_spec. Qed.
Lemma matches_lit s : matches (rlit s) (chars s).
Proof.
  unfold rlit. induction (chars s) as [|c l IH]; [constructor|]. cbn [foldr]. change (c :: l) with ([c] ++ l).
  constructor; [|done]. constructor. unfold in_cls. cbn. by rewrite Nat.leb_refl.
Qed.
Lemma slice_app p q t n m :
  List.length (chars p) = n → List.length (chars q) = m → slice n m (p ^+ q ^+ t) = q.
Proof.
  intros <- <-. unfold slice. rewrite !chars_app, drop_app_length, take_app_length. apply str_chars.
Qed.
Lemma slice_end p q n m :
  List.length (chars p) = n → List.length (chars q) = m → slice n m (p ^+ q) = q.
Proof.
  intros <- <-. unfold slice. rewrite chars_app, drop_app_length, firstn_all. apply str_chars.
Qed.

Section identity.
Context (scope i r : string).
Hypothesis Hi : match_string regexpUUID i = true.
Hypothesis Hr : match_string regexpUUID r = true.
Lemma uuid_length s : match_string regexpUUID s = true → List.length (chars s) = 36%nat.
Proof. by apply match_length. Qed.
Lemma scoped_matches :
  match_string scopeToken scope = true →
  match_string scopedRuntimeContainerPattern ("cm-" ^+ scope ^+ "-" ^+ i ^+ "-" ^+ r) = true.
Proof.
  intros Hs. apply match_string_spec in Hs. apply match_string_spec. rewrite !chars_app.
  apply match_string_spec in Hi, Hr. unfold scopedRuntimeContainerPattern. cbn [rseq].
  repeat (constructor; [first [apply matches_lit|done]|]). done.
Qed.
Lemma legacy_matches : match_string runtimeContainerPattern ("cm-" ^+ i ^+ "-" ^+ r) = true.
Proof.
  apply match_string_spec. rewrite !chars_app. apply match_string_spec in Hi, Hr. unfold runtimeContainerPattern.
  cbn [rseq]. repeat (constructor; [first [apply matches_lit|done]|]). done.
Qed.

(** C34: the names the worker gives to containers identify the instance and the
    release: reading one back gives both, and whether it is an unscoped one. *)
Theorem runtimeContainerIdentity_containerName :
  scope = "" ∨ match_string scopeToken scope = true →
  runtimeContainerIdentity scope (containerName scope i r) = Some (i, r, bool_decide (scope = "")).
Proof.
  pose proof (uuid_length i Hi) as Li. pose proof (uuid_length r Hr) as Lr.
  unfold containerName. intros [->|Hs].
  - rewrite bool_decide_eq_true_2 by done. unfold runtimeContainerIdentity.
    destruct (match_string scopedRuntimeContainerPattern _) eqn:E.
    { apply (match_length scopedRuntimeContainerPattern 87 _ eq_refl) in E. rewrite !chars_app, !length_app, Li, Lr in E. by cbn in E. }
    rewrite legacy_matches. do 2 f_equal. f_equal.
    + by apply slice_app.
    + assert ("cm-" ^+ i ^+ "-" ^+ r = ("cm-" ^+ i ^+ "-") ^+ r)%string as -> by (apply (inj chars); by rewrite !chars_app, <- !app_assoc).
      apply slice_end; [by rewrite !chars_app, !length_app, Li|done].
  - pose proof (match_length scopeToken 10 scope eq_refl Hs) as Ls.
    assert (scope ≠ "") as Hne by (intros E; by rewrite E in Ls).
    rewrite (bool_decide_eq_false_2 (scope = "")) by done.
    unfold runtimeContainerIdentity. rewrite (scoped_matches Hs), (bool_decide_eq_false_2 (scope = "")) by done.
    assert (slice 3 10 ("cm-" ^+ scope ^+ "-" ^+ i ^+ "-" ^+ r) = scope) as ->
      by (by apply slice_app).
    rewrite bool_decide_eq_true_2 by done. cbn [orb negb]. do 2 f_equal. f_equal.
    + assert ("cm-" ^+ scope ^+ "-" ^+ i ^+ "-" ^+ r = ("cm-" ^+ scope ^+ "-") ^+ i ^+ "-" ^+ r)%string as ->
        by (apply (inj chars); by rewrite !chars_app, <- !app_assoc).
      apply slice_app; [by rewrite !chars_app, !length_app, Ls|done].
    + assert ("cm-" ^+ scope ^+ "-" ^+ i ^+ "-" ^+ r = ("cm-" ^+ scope ^+ "-" ^+ i ^+ "-") ^+ r)%string as ->
        by (apply (inj chars); by rewrite !chars_app, <- !app_assoc).
      apply slice_end; [by rewrite !chars_app, !length_app, Ls, Li|done].
Qed.
End identity.

(** ** Scoped names stay apart *)
Lemma sha_round_length h kw : List.length h = 8%nat → List.length (sha_round h kw) = 8%nat.
Proof. intros Hh. by do 9 (destruct h as [|? h]; [try done|]). Qed.
Lemma sha_block_length h b : List.length h = 8%nat → List.length (sha_block h b) = 8%nat.
Proof.
  intros Hh. unfold sha_block. rewrite length_zip_with.
  assert (∀ l h, List.length h = 8%nat → List.length (fold_left sha_round l h) = 8%nat) as Hf.
  { clear. induction l as [|x l IH]; intros h Hh; [done|]. apply IH. by apply sha_round_length. }
  rewrite Hf by done. by rewrite Hh.
Qed.
Lemma sha256_length s : List.length (sha256_sum s) = 32%nat.
Proof.
  unfold sha256_sum. match goal with |- context [fold_left sha_block ?bs ?h0] =>
    assert (∀ l h, List.length h = 8%nat → List.length (fold_left sha_block l h) = 8%nat) as Hf;
    [|pose proof (Hf bs h0 eq_refl) as H8; revert H8; generalize (fold_left sha_block bs h0)] end.
  { induction l as [|x l IH]; intros h Hh; [done|]. apply IH. by apply sha_block_length. }
  intros h H8. by do 9 (destruct h as [|? h]; [try done|]).
Qed.
Lemma hex_encode_length bs : List.length (chars (hex_encode bs)) = (2 * List.length bs)%nat.
Proof. unfold hex_encode. rewrite chars_str. induction bs as [|b bs IH]; [done|]. cbn in *. lia. Qed.
Lemma scope_length owner : List.length (chars (ResourceScopeToken owner)) = 10%nat.
Proof. unfold ResourceScopeToken. by rewrite hex_encode_length, length_take, sha256_length. Qed.

