(* ===== verification/Health.v ===== *)
(** * What a deployment reads from a release (apps/worker/main.go)

    The next state of a deployment, and the readers of the immutable snapshot:
    health, route and secrets.  A snapshot is decoded JSON; the readers follow
    [json.Unmarshal] into a struct with one field of type [map[string]any]. *)
From S2P Require Import Prelude GoStrings Regex GoValue Domain Schema RuntimeSpec Names.
From Stdlib Require Import QArith.
From stdpp Require Import list gmap.
Open Scope string_scope.
Open Scope Z_scope.
Open Scope list_scope.

(** ** States *)
Definition deploymentMaxHealthAttempts : Z := 8.
Definition nextDeploymentState (state : DeploymentState) : option DeploymentState :=
  match state with
  | DeploymentQueued => Some DeploymentPulling
  | DeploymentPulling => Some DeploymentStarting
  | DeploymentStarting => Some DeploymentChecking
  | DeploymentChecking => Some DeploymentSwitching
  | DeploymentSwitching => Some DeploymentSucceeded
  | _ => None
  end.
Definition isRecoveryOperation (operation : string) : bool :=
  bool_decide (operation = "billing_recovery") || bool_decide (operation = "subscription_recovery").
Definition deploymentFailureState (operation : string) (hasLast : bool) : app_status * string :=
  if bool_decide (operation = "start") then (AppStopped, "")
  else if bool_decide (operation = "billing_recovery") then (AppSuspended, "billing_insufficient")
  else if bool_decide (operation = "subscription_recovery") then (AppSuspended, "subscription_expired")
  else if hasLast then (AppRunning, "") else (AppFailed, "").
Definition nextDeploymentStateWithHealth (state : DeploymentState) (healthy : bool) (healthAttempt : Z) :
    option DeploymentState :=
  if bool_decide (state = DeploymentChecking) && negb healthy then
    if healthAttempt <? deploymentMaxHealthAttempts then Some DeploymentChecking else Some DeploymentRollingBack
  else if bool_decide (state = DeploymentRollingBack) then Some DeploymentFailed
  else nextDeploymentState state.
Definition deploymentHealthAttempt (attempts : Z) : Z :=
  let attempt := attempts - 2 in if attempt <? 1 then 1 else attempt.

(** ** The snapshot *)
(** A field that is absent or null leaves the map nil; any other value than an
    object is an error of the decoder. *)
Definition decode_map (v : any) : option obj :=
  match v with AObj m => Some m | ANil => Some ∅ | _ => None end.
Definition decode_text (v : any) : option string :=
  match v with AStr s => Some s | ANil => Some "" | _ => None end.
Definition snapshot_map (snapshot : any) (key : string) : option obj :=
  match snapshot with AObj m => decode_map (get m key) | ANil => Some ∅ | _ => None end.
Definition snapshot_text (snapshot : any) (key : string) : option string :=
  match snapshot with AObj m => decode_text (get m key) | ANil => Some "" | _ => None end.

Definition snapshotHealthOK (snapshot : any) : bool :=
  match snapshot_map snapshot "health_spec" with
  | None => true
  | Some spec => negb (truthy (get spec "simulateFailure"))
  end.
Definition healthPath (spec : obj) : option string :=
  match as_string (get spec "path") with
  | None => None
  | Some path =>
      let path := trim_space path in
      if bool_decide (path = "") then None
      else if negb (has_prefix path "/") || contains_any path (" " ^+ str [byte 13; byte 10; byte 9])%string
      then Some "/__invalid_health_path__" else Some path
  end.
(** [value < lo || value > hi] of a number, or no number: the default. *)
Definition int_within (lo hi dflt : Z) (v : any) : Z :=
  match numeric v with
  | None => dflt
  | Some f => if f_lt f (f_of_Z lo) || f_lt (f_of_Z hi) f then dflt else default dflt (f_int f)
  end.
Definition healthTimeout (spec : obj) : Z := int_within 1 30 5 (get spec "timeoutSeconds").
Fixpoint status_codes (seen : list Z) (values : list any) : list Z :=
  match values with
  | [] => []
  | raw :: values =>
      match numeric raw with
      | None => status_codes seen values
      | Some value =>
          match f_int value with
          | None => status_codes seen values
          | Some statusCode =>
              if negb (f_eq value (f_of_Z statusCode)) || (statusCode <? 100) || (599 <? statusCode)
                 || bool_decide (statusCode ∈ seen)
              then status_codes seen values
              else statusCode :: status_codes (statusCode :: seen) values
          end
      end
  end.
Definition healthAcceptedStatusCodes (spec : obj) : list Z :=
  match as_arr (get spec "acceptedStatusCodes") with None => [] | Some values => status_codes [] values end.
Definition healthInterval (snapshot : any) : Z :=
  match snapshot_map snapshot "health_spec" with
  | None => 5
  | Some spec => int_within 1 120 5 (get spec "intervalSeconds")
  end.

(** ** The route *)
(** The number of a field when it is a port. *)
Definition port_of (v : any) : option Z :=
  match numeric v with
  | None => None
  | Some f => if f_lt f (f_of_Z 1) || f_lt (f_of_Z 65535) f then None else f_int f
  end.
Definition routePort (spec : obj) : Z :=
  match port_of (get spec "port") with
  | Some p => p
  | None => default 8080 (port_of (get spec "containerPort"))
  end.
Definition routePortMappingAvailableWorker (routeSpec : obj) : bool :=
  match as_obj (get routeSpec "portMapping") with
  | None => false
  | Some mapping => truthy (get mapping "available")
  end.
(** Looking up a key of a value that is no object is looking into a nil map. *)
Definition field (v : any) (key : string) : any := match v with AObj m => get m key | _ => ANil end.
Definition routeSpecHasEnabledMapping (routeSpec : obj) : bool :=
  existsb (λ value, truthy (field value "mappingEnabled")) (default [] (as_arr (get routeSpec "listeners"))).

(** ** Dependencies and secrets *)
Definition dependencyNoProxy (runtimeSpec : obj) : list string :=
  let values := ["localhost"; "127.0.0.1"; "::1"] in
  match RuntimeDependencies runtimeSpec with
  | Err _ => values
  | Ok dependencies => values ++ (dep_ServiceSlug <$> dependencies)
  end.
Inductive secret_error := SpecError (e : spec_error) | NoVersion (key : string).
Fixpoint declared_versions (versions : obj) (keys : list string) : result secret_error (gmap string string) :=
  match keys with
  | [] => Ok ∅
  | key :: keys =>
      match as_string (get versions key) with
      | None => Err (NoVersion key)
      | Some versionID =>
          if match_string regexpUUID versionID then m ← declared_versions versions keys; Ok (<[key := versionID]> m)
          else Err (NoVersion key)
      end
  end.
Definition declaredSecretVersions (runtimeSpec versions : obj) : result secret_error (gmap string string) :=
  match RuntimeSecretKeys runtimeSpec with
  | Err e => Err (SpecError e)
  | Ok keys => declared_versions versions keys
  end.
