(* ===== verification/DeployDb.v ===== *)
(** * The tables of deployments

    user_apps, app_releases, deployment_jobs, deployment_events, app_routes,
    app_port_mappings and what a deployment reads besides (migrations 1, 11,
    12, 37, 38, 57, 63, 66, 81, 89, 93, 108 and 114), with the statements of
    apps/worker/main.go on them.  The table of applications has here the columns that a
    deployment uses. *)
From S2P Require Import Prelude GoStrings Regex GoValue GoTime Domain Tx Table Schema RuntimeSpec Health Names.
From stdpp Require Import list.
Open Scope string_scope.
Open Scope Z_scope.
Open Scope list_scope.

Inductive release_state := RelCreated | RelActive | RelSuperseded | RelFailed | RelRolledBack.
#[export] Instance release_state_eq_dec : EqDecision release_state.
Proof. solve_decision. Defined.

(** Why a deployment failed, or a health check did not pass: one constructor
    per message of the worker, with the error it wraps. *)
Inductive dependency_error := DepSpec (e : spec_error) | DepSql (e : sqlerr).
Inductive cause :=
  | ImageMissing | DependencyCheck (e : dependency_error) | DependenciesMissing (labels : list string)
  | DockerError (text : string) | PullTimedOut (image : string) | ProbeImage (text : string)
  | SettingsError (e : sqlerr) | CredentialError | SnapshotInvalid
  | SecretConfig (e : secret_error) | SecretReference | SecretAuthentication
  | ListenerInvalid | PortsExhausted | MappingSql (e : sqlerr) | PublishedPort (text : string)
  | NotReady | HealthSpecInvalid | ProbeFailed (text : string) | HealthRejected | NoGateway
  | PublicProbeFailed (text : string) | AfterAttempts (attempts : Z) (last : option cause).
Inductive message :=
  | Progressed | CheckFailed | Completed | RollbackCompleted | FailedMessage | BecauseOf (c : cause).

Record dapp := {
  da_id : string; da_user : string; da_product : string; da_service : string; da_instance : string;
  da_status : app_status; da_suspension : option string; da_billing_at : option timestamp;
  da_last : option string; da_mapping : bool; da_label : string; da_created : timestamp
}.
Record release := {
  rl_id : string; rl_app : string; rl_version : string; rl_number : Z; rl_snapshot : any; rl_state : release_state;
  rl_container : string; rl_host_port : option Z; rl_created : timestamp
}.
Record deploy_job := {
  dj_id : string; dj_app : string; dj_release : string; dj_key : string; dj_source : option string;
  dj_state : DeploymentState; dj_operation : string; dj_attempts : Z; dj_available : timestamp; dj_created : timestamp; dj_error : option cause
}.
Record deploy_route := {
  dr_app : string; dr_instance : string; dr_release : string; dr_path : string; dr_host : string; dr_port : Z;
  dr_container : string; dr_network : string; dr_container_id : string; dr_host_port : option Z
}.
Record port_mapping := {
  pm_app : string; pm_release : string; pm_key : string; pm_port : Z; pm_host_port : Z; pm_remark : string
}.
Record deploy_event := {
  de_job : string; de_from : DeploymentState; de_to : DeploymentState; de_message : message
}.
(** A row of usage_events of quantity one. *)
Record unit_event := {
  un_user : string; un_app : string; un_code : string; un_unit : string; un_start : timestamp; un_stop : timestamp;
  un_price : option string; un_key : string
}.
Record price_row := { pr_id : string; pr_active : bool; pr_code : string; pr_unit : string; pr_effective : timestamp; pr_version : Z }.
Record secret_version := { sv_id : string; sv_app : string; sv_key : string; sv_encrypted : string }.
Record deploy_settings := {
  ds_port_min : Z; ds_port_max : Z; ds_domain : string; ds_registry : string; ds_registry_user : string;
  ds_registry_password : string; ds_pull_timeout : Z
}.
Record deploy_t := {
  dapps : list dapp; releases : list release; jobs : list deploy_job; routes : list deploy_route;
  port_mappings : list port_mapping; events : list deploy_event; unit_events : list unit_event;
  recovered_notices : list (string * string); prices : list price_row; secret_versions : list secret_version;
  settings : deploy_settings
}.
Definition upd_dapps f (d : deploy_t) : deploy_t := {|
  dapps := f (dapps d); releases := releases d; jobs := jobs d; routes := routes d; port_mappings := port_mappings d;
  events := events d; unit_events := unit_events d; recovered_notices := recovered_notices d; prices := prices d;
  secret_versions := secret_versions d; settings := settings d |}.
Definition upd_releases f (d : deploy_t) : deploy_t := {|
  dapps := dapps d; releases := f (releases d); jobs := jobs d; routes := routes d; port_mappings := port_mappings d;
  events := events d; unit_events := unit_events d; recovered_notices := recovered_notices d; prices := prices d;
  secret_versions := secret_versions d; settings := settings d |}.
Definition upd_jobs f (d : deploy_t) : deploy_t := {|
  dapps := dapps d; releases := releases d; jobs := f (jobs d); routes := routes d; port_mappings := port_mappings d;
  events := events d; unit_events := unit_events d; recovered_notices := recovered_notices d; prices := prices d;
  secret_versions := secret_versions d; settings := settings d |}.
Definition upd_routes f (d : deploy_t) : deploy_t := {|
  dapps := dapps d; releases := releases d; jobs := jobs d; routes := f (routes d); port_mappings := port_mappings d;
  events := events d; unit_events := unit_events d; recovered_notices := recovered_notices d; prices := prices d;
  secret_versions := secret_versions d; settings := settings d |}.
Definition upd_port_mappings f (d : deploy_t) : deploy_t := {|
  dapps := dapps d; releases := releases d; jobs := jobs d; routes := routes d; port_mappings := f (port_mappings d);
  events := events d; unit_events := unit_events d; recovered_notices := recovered_notices d; prices := prices d;
  secret_versions := secret_versions d; settings := settings d |}.
Definition upd_events f (d : deploy_t) : deploy_t := {|
  dapps := dapps d; releases := releases d; jobs := jobs d; routes := routes d; port_mappings := port_mappings d;
  events := f (events d); unit_events := unit_events d; recovered_notices := recovered_notices d; prices := prices d;
  secret_versions := secret_versions d; settings := settings d |}.
Definition upd_unit_events f (d : deploy_t) : deploy_t := {|
  dapps := dapps d; releases := releases d; jobs := jobs d; routes := routes d; port_mappings := port_mappings d;
  events := events d; unit_events := f (unit_events d); recovered_notices := recovered_notices d; prices := prices d;
  secret_versions := secret_versions d; settings := settings d |}.
Definition upd_notices f (d : deploy_t) : deploy_t := {|
  dapps := dapps d; releases := releases d; jobs := jobs d; routes := routes d; port_mappings := port_mappings d;
  events := events d; unit_events := unit_events d; recovered_notices := f (recovered_notices d); prices := prices d;
  secret_versions := secret_versions d; settings := settings d |}.

(** ** Rows *)
Definition app_is (id : string) (a : dapp) : bool := bool_decide (da_id a = id).
Definition job_is (id : string) (j : deploy_job) : bool := bool_decide (dj_id j = id).
Definition release_is (id app : string) (r : release) : bool := bool_decide (rl_id r = id) && bool_decide (rl_app r = app).
Definition select_app (id : string) (d : deploy_t) : result sqlerr dapp := select (app_is id) (dapps d).
Definition select_release (id app : string) (d : deploy_t) : result sqlerr release := select (release_is id app) (releases d).
Definition terminal_job (j : deploy_job) : bool :=
  bool_decide (dj_state j = DeploymentSucceeded) || bool_decide (dj_state j = DeploymentFailed).

(** The claim: ORDER BY created_at FOR UPDATE SKIP LOCKED LIMIT 1, of the jobs
    that are due and have their release and application. *)
Definition created_le (i j : deploy_job) : bool := dj_created i <=? dj_created j.
Definition claim_job (unlocked : string → bool) (at_ : timestamp) (d : deploy_t) : result sqlerr (deploy_job * release * dapp) :=
  j ← select (λ j, negb (terminal_job j) && (dj_available j <=? at_) && unlocked (dj_id j)
                   && is_ok (select_release (dj_release j) (dj_app j) d) && is_ok (select_app (dj_app j) d))
        (sort_by created_le (jobs d));
  r ← select_release (dj_release j) (dj_app j) d;
  a ← select_app (dj_app j) d;
  Ok (j, r, a).

(** ** Statements *)
(** The transitions that the trigger deployment_jobs_integrity_guard lets
    through. *)
Definition job_transition (old new : DeploymentState) : bool :=
  bool_decide (old = new) ||
  match old, new with
  | DeploymentQueued, DeploymentPulling => true
  | DeploymentPulling, (DeploymentStarting | DeploymentRollingBack) => true
  | DeploymentStarting, (DeploymentChecking | DeploymentRollingBack) => true
  | DeploymentChecking, (DeploymentSwitching | DeploymentRollingBack) => true
  | DeploymentSwitching, (DeploymentSucceeded | DeploymentRollingBack) => true
  | (DeploymentSucceeded | DeploymentFailed), _ => false
  | _, DeploymentFailed => true
  | _, _ => false
  end.
Definition with_job_state (next : DeploymentState) (available : timestamp) (error : option cause) (j : deploy_job) : deploy_job :=
  {| dj_id := dj_id j; dj_app := dj_app j; dj_release := dj_release j; dj_key := dj_key j; dj_source := dj_source j; dj_state := next; dj_operation := dj_operation j;
     dj_attempts := dj_attempts j + 1; dj_available := available; dj_created := dj_created j; dj_error := error |}.
Definition write_job (id : string) (next : DeploymentState) (new : deploy_job → deploy_job) (d : deploy_t) : result sqlerr deploy_t :=
  let hit := List.filter (job_is id) (jobs d) in
  if forallb (λ j, job_transition (dj_state j) next && negb (terminal_job j)) hit
  then Ok (upd_jobs (update (job_is id) new) d)
  else Err (Constraint "invalid deployment job transition").
Definition progress_job (id : string) (next : DeploymentState) (interval : Z) (failure : option cause) (at_ : timestamp) :
    deploy_t → result sqlerr deploy_t :=
  write_job id next (λ j, with_job_state next
    (if bool_decide (next = DeploymentChecking) then at_ + interval * second else at_)
    (match failure with
     | Some c => Some c
     | None => if bool_decide (next = DeploymentSwitching) || bool_decide (next = DeploymentSucceeded) then None else dj_error j
     end) j).
Definition fail_job (id : string) (c : cause) : deploy_t → result sqlerr deploy_t :=
  write_job id DeploymentFailed (λ j, with_job_state DeploymentFailed (dj_available j) (Some c) j).

Definition with_release_state (s : release_state) (r : release) : release :=
  {| rl_id := rl_id r; rl_app := rl_app r; rl_version := rl_version r; rl_number := rl_number r; rl_snapshot := rl_snapshot r; rl_state := s; rl_container := rl_container r;
     rl_host_port := rl_host_port r; rl_created := rl_created r |}.
Definition with_container (c : string) (r : release) : release :=
  {| rl_id := rl_id r; rl_app := rl_app r; rl_version := rl_version r; rl_number := rl_number r; rl_snapshot := rl_snapshot r; rl_state := rl_state r; rl_container := c;
     rl_host_port := rl_host_port r; rl_created := rl_created r |}.
Definition with_host_port (p : Z) (r : release) : release :=
  {| rl_id := rl_id r; rl_app := rl_app r; rl_version := rl_version r; rl_number := rl_number r; rl_snapshot := rl_snapshot r; rl_state := rl_state r; rl_container := rl_container r;
     rl_host_port := Some p; rl_created := rl_created r |}.
Definition write_release (id app : string) (f : release → release) (d : deploy_t) : result sqlerr deploy_t :=
  Ok (upd_releases (update (release_is id app) f) d).
Definition port_range (p : Z) : bool := (1 <=? p) && (p <=? 65535).
Definition set_release_port (id app : string) (p : Z) (d : deploy_t) : result sqlerr deploy_t :=
  if port_range p || negb (exists_row (release_is id app) (releases d)) then write_release id app (with_host_port p) d
  else Err (Constraint "app_releases_host_port_check").
Definition supersede (id app : string) (d : deploy_t) : result sqlerr deploy_t :=
  Ok (upd_releases (update (λ r, bool_decide (rl_app r = app) && negb (bool_decide (rl_id r = id))
                                 && bool_decide (rl_state r = RelActive)) (with_release_state RelSuperseded)) d).

Definition with_status (s : app_status) (reason : option string) (billing : option timestamp) (last : option string) (a : dapp) : dapp :=
  {| da_id := da_id a; da_user := da_user a; da_product := da_product a; da_service := da_service a;
     da_instance := da_instance a; da_status := s; da_suspension := reason; da_billing_at := billing; da_last := last;
     da_mapping := da_mapping a; da_label := da_label a; da_created := da_created a |}.
Definition with_mapping (b : bool) (a : dapp) : dapp :=
  {| da_id := da_id a; da_user := da_user a; da_product := da_product a; da_service := da_service a;
     da_instance := da_instance a; da_status := da_status a; da_suspension := da_suspension a;
     da_billing_at := da_billing_at a; da_last := da_last a; da_mapping := b; da_label := da_label a; da_created := da_created a |}.
Definition write_app (id : string) (f : dapp → dapp) (d : deploy_t) : result sqlerr deploy_t :=
  Ok (upd_dapps (update (app_is id) f) d).
Definition nullif_empty (s : string) : option string := if bool_decide (s = "") then None else Some s.
Definition restore_app (id : string) (status : app_status * string) : deploy_t → result sqlerr deploy_t :=
  write_app id (λ a, with_status status.1 (nullif_empty status.2) (da_billing_at a) (da_last a) a).
Definition run_app (id release : string) : deploy_t → result sqlerr deploy_t :=
  write_app id (with_status AppRunning None None (Some release)).

(** Characters of a UTF-8 text. *)
Definition text_length (s : string) : Z :=
  Z.of_nat (List.length (List.filter (λ c, negb ((128 <=? code c)%nat && (code c <? 192)%nat)) (chars s))).
Definition insert_port_mapping (row : port_mapping) (d : deploy_t) : result sqlerr deploy_t :=
  if negb (match_string volumeKeyPattern (pm_key row)) then Err (Constraint "app_port_mappings_port_key_check")
  else if negb (port_range (pm_port row)) then Err (Constraint "app_port_mappings_container_port_check")
  else if negb (port_range (pm_host_port row)) then Err (Constraint "app_port_mappings_host_port_check")
  else if 120 <? text_length (pm_remark row) then Err (Constraint "app_port_mappings_remark_check")
  else if exists_row (λ m, bool_decide (pm_release m = pm_release row) && bool_decide (pm_key m = pm_key row)) (port_mappings d)
  then Err (Constraint "app_port_mappings_pkey")
  else if exists_row (λ m, bool_decide (pm_release m = pm_release row) && (pm_port m =? pm_port row)) (port_mappings d)
  then Err (Constraint "app_port_mappings_release_id_container_port_key")
  else if exists_row (λ m, pm_host_port m =? pm_host_port row) (port_mappings d)
  then Err (Constraint "app_port_mappings_host_port_key")
  else Ok (upd_port_mappings (λ t, t ++ [row]) d).
Definition delete_other_mappings (app release : string) (d : deploy_t) : result sqlerr deploy_t :=
  Ok (upd_port_mappings (List.filter (λ m, negb (bool_decide (pm_app m = app) && negb (bool_decide (pm_release m = release))))) d).
Definition delete_mappings (app release : string) (d : deploy_t) : result sqlerr deploy_t :=
  Ok (upd_port_mappings (List.filter (λ m, negb (bool_decide (pm_app m = app) && bool_decide (pm_release m = release)))) d).

(** INSERT INTO app_routes ... ON CONFLICT(user_app_id) DO UPDATE. *)
Definition route_of (app : string) (r : deploy_route) : bool := bool_decide (dr_app r = app).
Definition upsert_route (row : deploy_route) (d : deploy_t) : result sqlerr deploy_t :=
  let others := List.filter (λ r, negb (route_of (dr_app row) r)) (routes d) in
  if negb (port_range (dr_port row)) then Err (Constraint "app_routes_upstream_port_check")
  else if exists_row (λ r, bool_decide (dr_path r = dr_path row)) others then Err (Constraint "app_routes_public_path_key")
  else if exists_row (λ r, bool_decide (dr_instance r = dr_instance row)) others then Err (Constraint "app_routes_instance_id_key")
  else Ok (upd_routes (λ t, if exists_row (route_of (dr_app row)) t then update (route_of (dr_app row)) (λ _, row) t
                            else t ++ [row]) d).
Definition insert_event (row : deploy_event) (d : deploy_t) : result sqlerr deploy_t :=
  Ok (upd_events (λ t, t ++ [row]) d).

(** resolve_pricing_version: the newest version in force at the time. *)
Definition newer (p q : price_row) : bool :=
  (pr_effective q <? pr_effective p) || ((pr_effective p =? pr_effective q) && (pr_version q <=? pr_version p)).
Definition resolve_pricing_version (code unit : string) (at_ : timestamp) (d : deploy_t) : option string :=
  match sort_by newer (List.filter (λ p, pr_active p && bool_decide (pr_code p = code) && bool_decide (pr_unit p = unit)
                                         && (pr_effective p <=? at_)) (prices d)) with
  | p :: _ => Some (pr_id p) | [] => None
  end.
(** INSERT INTO usage_events ... ON CONFLICT DO NOTHING: any unique index. *)
Definition once_per_app (code : string) : bool :=
  bool_decide (code = "product.authorization") || bool_decide (code = "network.public_ingress").
Definition same_unit_event (x y : unit_event) : bool :=
  bool_decide (un_code x = un_code y) &&
  (bool_decide (un_user x = un_user y) && (un_start x =? un_start y) && (un_stop x =? un_stop y)
     && bool_decide (un_key x = un_key y)
   || once_per_app (un_code x) && bool_decide (un_app x = un_app y)).
Definition insert_unit_event (row : unit_event) (d : deploy_t) : deploy_t :=
  if exists_row (same_unit_event row) (unit_events d) then d else upd_unit_events (λ t, t ++ [row]) d.
