(* ===== verification/Deploy.v ===== *)
(** * Deployments (apps/worker/main.go: processOne and markJobError)

    One pass claims the oldest job that is due, does the work of its state with
    Docker, and moves it to the next state in the same transaction.  Docker is
    a parameter of the pass: a record of its answers. *)
From S2P Require Import Prelude GoStrings Regex GoValue GoTime Domain Tx Table Schema Http RuntimeSpec Crypto Names Health DeployDb.
From stdpp Require Import list gmap.
Open Scope string_scope.
Open Scope Z_scope.
Open Scope list_scope.

(** The configuration of the worker. *)
Record worker_config := {
  runtimeOwner : string; runtimeScope : string; routerContainer : string; egressProxyContainer : string;
  egressToken : string; backupHelperImage : string
}.
(** What Docker answers during a pass (internal/runtime/docker_executor.go).
    Texts are those of its errors; a pull may also run into its timeout. *)
Record listener := { li_key : string; li_port : Z; li_host_port : Z; li_remark : string; li_primary : bool }.
Record docker := {
  x_ensure_network : string → result string unit;
  x_connect_network : string → string → string → result string unit;
  x_image_exists : string → bool;
  x_pull : string → result string unit;
  x_pull_registry : string → string → string → string → result (option string) unit;
  x_healthy : string → result string bool;
  x_create : string → string → string → list string → obj → list listener → result string string;
  x_start : string → result string unit;
  x_published_port : string → Z → result string Z;
  x_probe : string → string → string → Z → list Z → result string unit;
  x_gateway : string → result string string
}.
(** How a pass ends: nothing was due; it gave up and left the job as it is; the
    job has to be marked as failed; or it moved the job on, and removes some
    containers. *)
Inductive pass := NoJob | Stalled | JobFailed (id : string) (c : cause) | Advanced (next : DeploymentState) (removed : list string).
Definition deploy_tx := tx deploy_t pass.

(** ** Images (apps/worker/docker_settings.go)

    Deployments and the tests of versions share them: [fail] is the caller's
    failure. *)
Definition cut_slash (s : string) : option string := fst <$> cut s "/".
Definition registry_like (first : string) : bool :=
  bool_decide (first = "localhost") || contains first "." || contains first ":".
Definition imageHasRegistry (image : string) : bool :=
  match cut_slash image with None => false | Some first => registry_like first end.
Definition imageRegistryHost (image : string) : string :=
  let first := default image (cut_slash image) in
  if registry_like first then first else "docker.io".
Definition resolveConfiguredImage (image defaultRegistry : string) : string :=
  let image := trim_space image in
  let defaultRegistry := trim (trim_space defaultRegistry) "/" in
  if bool_decide (image = "") || bool_decide (defaultRegistry = "") || imageHasRegistry image then image
  else (defaultRegistry ^+ "/" ^+ image)%string.
Record docker_settings := { wd_registry : string; wd_username : string; wd_password : string; wd_timeout : Z }.
Section images.
Context `{Secrets} {D R : Type} (fail : ∀ {A}, cause → tx D R A) (settings_of : D → deploy_settings) (x : docker).
Definition loadWorkerDockerSettings (committed : D) : tx D R docker_settings :=
  s ← handle (pool committed (λ d, Ok (settings_of d))) (λ e, fail _ (SettingsError e));
  let registry := trim (trim_space (ds_registry s)) "/" in
  let timeout := ds_pull_timeout s * second in
  let timeout := if (timeout <? 30 * second) || (30 * 60 * second <? timeout) then 5 * 60 * second else timeout in
  if bool_decide (ds_registry_password s = "")
  then mret {| wd_registry := registry; wd_username := ds_registry_user s; wd_password := ""; wd_timeout := timeout |}
  else match decrypt "docker.registry.password" (ds_registry_password s) with
       | None => fail _ CredentialError
       | Some password =>
           mret {| wd_registry := registry; wd_username := ds_registry_user s; wd_password := password; wd_timeout := timeout |}
       end.
Definition configuredProductImage (committed : D) (image : string) : tx D R string :=
  s ← loadWorkerDockerSettings committed; mret (resolveConfiguredImage image (wd_registry s)).
Definition pullConfiguredProductImage (committed : D) (image : string) : tx D R string :=
  s ← loadWorkerDockerSettings committed;
  let resolved := resolveConfiguredImage image (wd_registry s) in
  let own := negb (bool_decide (wd_registry s = "")) &&
             bool_decide (imageRegistryHost resolved = default (wd_registry s) (cut_slash (wd_registry s))) in
  let '(username, password, server) :=
    if own then (wd_username s, wd_password s, imageRegistryHost resolved) else ("", "", "") in
  if x_image_exists x resolved then mret resolved
  else match x_pull_registry x resolved username password server with
       | Ok _ => mret resolved
       | Err None => fail _ (PullTimedOut resolved)
       | Err (Some text) => fail _ (DockerError text)
       end.
End images.

Section worker.
Context `{GoRange} `{Secrets} `{UnicodeLower} (cfg : worker_config).
Record pass_env := { p_now : timestamp; p_unlocked : string → bool; p_docker : option docker }.
Context (env : pass_env).
(** [scan_or x m]: [_ = tx.QueryRow(...).Scan(&v)] into a variable that holds [x]. *)
Definition scan_or {A} (x : A) (m : deploy_tx A) : deploy_tx A := handle m (λ _, mret x).

Section job.
Context (x : docker) (j : deploy_job) (r : release).
#[local] Abbreviation fail c := (exit (JobFailed (dj_id j) c)).
(** [if err != nil { tx.Rollback; markJobError; return }] *)
Definition docker_ok {A} (c : string → cause) (a : result string A) : deploy_tx A :=
  match a with Ok a => mret a | Err e => fail (c e) end.

(** *** Dependencies *)
Definition dependency_label (d : Dependency) : string := (dep_Key d ^+ " (" ^+ dep_ServiceSlug d ^+ ")")%string.
(** The container of a running application of the customer that offers the
    service. *)
Definition dependency_container (userID appID : string) (dep : Dependency) (d : deploy_t) : result sqlerr string :=
  let serves a rt := app_is (dr_app rt) a && bool_decide (da_user a = userID) && bool_decide (da_product a = dep_ProductID dep)
    && bool_decide (da_service a = dep_ServiceSlug dep) && negb (bool_decide (da_id a = appID))
    && bool_decide (da_status a = AppRunning) && bool_decide (da_last a = Some (dr_release rt)) in
  rt ← select (λ rt, exists_row (λ a, serves a rt) (dapps d)) (routes d);
  Ok (dr_container rt).
Fixpoint unavailableRuntimeDependencies (userID appID : string) (deps : list Dependency) : deploy_tx (list string) :=
  match deps with
  | [] => mret []
  | dep :: deps =>
      if dep_Required dep then
        container ← optional (query (dependency_container userID appID dep));
        let healthy := match container with
                       | None => false
                       | Some c => match x_healthy x c with Ok b => b | Err _ => false end
                       end in
        missing ← unavailableRuntimeDependencies userID appID deps;
        mret (if healthy then missing else dependency_label dep :: missing)
      else unavailableRuntimeDependencies userID appID deps
  end.

(** *** pulling *)
Definition pull_phase (committed : deploy_t) : deploy_tx unit :=
  a ← query (select_app (dj_app j));
  let userID := da_user a in
  match snapshot_text (rl_snapshot r) "image_digest", snapshot_map (rl_snapshot r) "runtime_spec" with
  | Some image, Some runtime =>
      guard_exit (bool_decide (image = "")) (JobFailed (dj_id j) ImageMissing);;
      missing ← match RuntimeDependencies runtime with
                | Err e => fail (DependencyCheck (DepSpec e))
                | Ok deps => handle (unavailableRuntimeDependencies userID (dj_app j) deps)
                                    (λ e, fail (DependencyCheck (DepSql e)))
                end;
      guard_exit (negb (bool_decide (missing = []))) (JobFailed (dj_id j) (DependenciesMissing missing));;
      let network := UserNetworkName (runtimeOwner cfg) userID in
      docker_ok DockerError (x_ensure_network x network);;
      docker_ok DockerError (x_connect_network x network (routerContainer cfg) "cloudmeter-app-router");;
      (if bool_decide (egressProxyContainer cfg = "") then mret tt
       else docker_ok DockerError (x_connect_network x network (egressProxyContainer cfg) "cloudmeter-egress-proxy"));;
      pullConfiguredProductImage (λ A c, fail c) settings x committed image;;
      match healthPath (default ∅ (snapshot_map (rl_snapshot r) "health_spec")) with
      | Some _ => docker_ok ProbeImage (x_pull x (backupHelperImage cfg))
      | None => mret tt
      end
  | _, _ => fail ImageMissing
  end.

(** *** Host ports *)
Definition free_port (reserved : list Z) (d : deploy_t) (candidate : Z) : bool :=
  negb (exists_row (λ rt, bool_decide (dr_host_port rt = Some candidate)) (routes d))
  && negb (exists_row (λ m, pm_host_port m =? candidate) (port_mappings d))
  && negb (bool_decide (candidate ∈ reserved)).
Definition first_free_port (min max : Z) (reserved : list Z) (d : deploy_t) : result sqlerr Z :=
  select (free_port reserved d) (seqZ min (max - min + 1)).
(** Errors of the statements become the error of the function. *)
Definition allocateConfiguredHostPort (reserved : list Z) : deploy_tx Z :=
  exec (λ d, Ok d);; (* pg_advisory_xact_lock *)
  s ← query (λ d, Ok (settings d));
  on_no_rows (query (first_free_port (ds_port_min s) (ds_port_max s) reserved)) (fail PortsExhausted).
Fixpoint map_listeners (reserved : list Z) (raw : list any) : deploy_tx (list listener) :=
  match raw with
  | [] => mret []
  | value :: raw =>
      match as_obj value with
      | None => map_listeners reserved raw
      | Some item =>
          if truthy (get item "mappingEnabled") then
            match port_of (get item "containerPort") with
            | None => fail ListenerInvalid
            | Some port =>
                hostPort ← allocateConfiguredHostPort reserved;
                rest ← map_listeners (reserved ++ [hostPort]) raw;
                mret ({| li_key := default "" (as_string (get item "key")); li_port := port; li_host_port := hostPort;
                         li_remark := default "" (as_string (get item "remark"));
                         li_primary := truthy (get item "primary") |} :: rest)
            end
          else map_listeners reserved raw
      end
  end.
Definition routePortMappings (routeSpec : obj) (legacyEnabled : bool) : deploy_tx (list listener) :=
  match as_arr (get routeSpec "listeners") with
  | Some (v :: raw) => map_listeners [] (v :: raw)
  | _ =>
      if negb legacyEnabled || negb (routePortMappingAvailableWorker routeSpec) then mret []
      else map_listeners [] [AObj (list_to_map [("key", AStr "web"); ("containerPort", ANum (f_of_Z (routePort routeSpec)));
                                                ("remark", AStr "Web 入口"); ("primary", ABool true);
                                                ("mappingEnabled", ABool true)])]
  end.

(** *** starting *)
Definition select_secret (versionID appID key : string) (d : deploy_t) : result sqlerr string :=
  v ← select (λ v, bool_decide (sv_id v = versionID) && bool_decide (sv_app v = appID) && bool_decide (sv_key v = key))
        (secret_versions d);
  Ok (sv_encrypted v).
Fixpoint release_secrets (env : obj) (declared : list (string * string)) : deploy_tx obj :=
  match declared with
  | [] => mret env
  | (key, versionID) :: declared =>
      encrypted ← on_error (query (select_secret versionID (dj_app j) key)) (JobFailed (dj_id j) SecretReference);
      match decrypt ("app.secret.version." ^+ versionID)%string encrypted with
      | None => fail SecretAuthentication
      | Some plaintext => release_secrets (<[key := AStr plaintext]> env) declared
      end
  end.
(** The variables that route the traffic of the container through the proxy. *)
Definition egress_env (runtime env : obj) : obj :=
  let password := hex_encode (hmac_sha256 (egressToken cfg) (dj_app j)) in
  let proxyURL := AStr ("http://" ^+ dj_app j ^+ ":" ^+ password ^+ "@cloudmeter-egress-proxy:3128")%string in
  let noProxy := AStr (GoStrings.join "," (dependencyNoProxy runtime)) in
  <["no_proxy" := noProxy]> (<["NO_PROXY" := noProxy]> (<["https_proxy" := proxyURL]> (<["http_proxy" := proxyURL]>
    (<["HTTPS_PROXY" := proxyURL]> (<["HTTP_PROXY" := proxyURL]> env))))).
Definition container_runtime (runtime secretEnv : obj) : obj :=
  let runtime := if bool_decide (secretEnv = ∅) then runtime else <["env" := AObj secretEnv]> runtime in
  let runtime := if bool_decide (egressToken cfg = "") then runtime
                 else <["env" := AObj (egress_env runtime secretEnv)]> runtime in
  <["appId" := AStr (dj_app j)]> runtime.
Fixpoint persist_mappings (containerID : string) (ls : list listener) : deploy_tx unit :=
  match ls with
  | [] => mret tt
  | l :: ls =>
      publishedPort ← docker_ok PublishedPort (x_published_port x containerID (li_port l));
      exec (insert_port_mapping {| pm_app := dj_app j; pm_release := dj_release j; pm_key := li_key l; pm_port := li_port l;
                                   pm_host_port := publishedPort; pm_remark := li_remark l |});;
      (if li_primary l then ignore (exec (set_release_port (dj_release j) (dj_app j) publishedPort)) else mret tt);;
      persist_mappings containerID ls
  end.
Definition start_phase (committed : deploy_t) : deploy_tx unit :=
  a ← query (select_app (dj_app j));
  match snapshot_text (rl_snapshot r) "image_digest", snapshot_map (rl_snapshot r) "runtime_spec",
        snapshot_map (rl_snapshot r) "route_spec", snapshot_map (rl_snapshot r) "secret_versions" with
  | Some image, Some runtime, Some route, Some versions =>
      image ← configuredProductImage (λ A c, fail c) settings committed image;
      declared ← match declaredSecretVersions runtime versions with
                 | Err e => fail (SecretConfig e)
                 | Ok m => mret m
                 end;
      secretEnv ← release_secrets (default ∅ (as_obj (get runtime "env"))) (go_range declared);
      let runtime := container_runtime runtime secretEnv in
      let name := containerName (runtimeScope cfg) (da_instance a) (dj_release j) in
      mappings ← handle (routePortMappings route (da_mapping a)) (λ e, fail (MappingSql e));
      containerID ← docker_ok DockerError (x_create x name image (UserNetworkName (runtimeOwner cfg) (da_user a))
                                             [da_service a; releaseAlias (dj_release j)] runtime mappings);
      (if bool_decide (containerID = "") then mret tt
       else ignore (exec (write_release (dj_release j) (dj_app j) (with_container containerID))));;
      docker_ok DockerError (x_start x name);;
      persist_mappings containerID mappings
  | _, _, _, _ => fail SnapshotInvalid
  end.

(** *** health_checking *)
Definition http_target (host : string) (port : Z) (path : string) : string :=
  ("http://" ^+ host ^+ ":" ^+ format_int port ^+ path)%string.
(** The health of the release: [None], or why it is not healthy. *)
Definition internal_check (a : dapp) (route health : obj) : deploy_tx (option cause) :=
  match healthPath health with
  | None => mret None
  | Some path =>
      app ← query (select_app (dj_app j));
      mret (match x_probe x (healthProbeName (runtimeScope cfg) (dj_id j)) (UserNetworkName (runtimeOwner cfg) (da_user app))
                    (http_target (releaseAlias (dj_release j)) (routePort route) path) (healthTimeout health)
                    (healthAcceptedStatusCodes health) with
            | Ok _ => None | Err e => Some (ProbeFailed e) end)
  end.
Definition public_check (route health : obj) : deploy_tx (option cause) :=
  if routePortMappingAvailableWorker route then
    portMappingOn ← scan_or false (query (λ d, a ← select_app (dj_app j) d; Ok (da_mapping a)));
    hostPort ← scan_or 0 (query (λ d, r ← select_release (dj_release j) (dj_app j) d; Ok (default 0 (rl_host_port r))));
    if portMappingOn && port_range hostPort then
      match healthPath health with
      | None => mret None
      | Some path =>
          match x_gateway x "bridge" with
          | Ok gateway =>
              if bool_decide (gateway = "") then mret (Some NoGateway)
              else mret (match x_probe x (healthProbeName (runtimeScope cfg) (dj_id j) ^+ "-pub")%string "bridge"
                               (http_target gateway hostPort path) (healthTimeout health) (healthAcceptedStatusCodes health) with
                         | Ok _ => None | Err e => Some (PublicProbeFailed e) end)
          | Err _ => mret (Some NoGateway)
          end
      end
    else mret None
  else mret None.
Definition check_phase : deploy_tx (option cause) :=
  a ← query (select_app (dj_app j));
  running ← docker_ok DockerError (x_healthy x (containerName (runtimeScope cfg) (da_instance a) (dj_release j)));
  if negb running then mret (Some NotReady)
  else
    let specs := route ← snapshot_map (rl_snapshot r) "route_spec";
                 health ← snapshot_map (rl_snapshot r) "health_spec"; Some (route, health) in
    failure ← match specs with
              | None => mret (Some HealthSpecInvalid)
              | Some (route, health) => internal_check a route health
              end;
    match failure with
    | Some c => mret (Some c)
    | None =>
        if negb (snapshotHealthOK (rl_snapshot r)) then mret (Some HealthRejected)
        else match specs with None => mret None | Some (route, health) => public_check route health end
    end.
End job.

(** *** The end of a deployment *)
Section finish.
Context (j : deploy_job) (r : release).
#[local] Abbreviation app := (dj_app j).
#[local] Abbreviation rel := (dj_release j).

Definition recovery_notice (d : deploy_t) : result sqlerr deploy_t :=
  match select_app app d with
  | Ok a =>
      let row := (da_user a, "billing-recovered/" ^+ dj_id j)%string in
      if bool_decide (dj_operation j = "billing_recovery") && negb (exists_row (λ n, bool_decide (n = row)) (recovered_notices d))
      then Ok (upd_notices (λ t, t ++ [row]) d) else Ok d
  | Err _ => Ok d
  end.
(** A usage event of quantity one that starts at [from]. *)
Definition unit_usage (code unit key : string) (when : bool) (from : dapp → timestamp) (d : deploy_t) : result sqlerr deploy_t :=
  match select_app app d with
  | Ok a =>
      if when then
        Ok (insert_unit_event {| un_user := da_user a; un_app := app; un_code := code; un_unit := unit; un_start := from a;
              un_stop := Z.max (p_now env) (from a + 1); un_price := resolve_pricing_version code unit (from a) d;
              un_key := key |} d)
      else Ok d
  | Err _ => Ok d
  end.
Definition billed_operation : bool := bool_decide (dj_operation j ∈ ["deploy"; "update"; "rollback"]%string).

(** The last transition: the application runs the release, and its route leads
    to the container.  The result is the container of the route before. *)
Definition succeed_phase : deploy_tx string :=
  exec (run_app app rel);;
  exec recovery_notice;;
  exec (write_release rel app (with_release_state RelActive));;
  exec (supersede rel app);;
  exec (unit_usage "app.deployment" "deployment" ("deployment:" ^+ dj_id j ^+ ":deployment")%string billed_operation
          (λ _, dj_created j));;
  exec (unit_usage "product.authorization" "authorization" ("app:" ^+ app ^+ ":authorization")%string true da_created);;
  exec (unit_usage "network.public_ingress" "ingress" ("app:" ^+ app ^+ ":public-ingress")%string true da_created);;
  a ← query (select_app app);
  releaseContainerID ← scan_or "" (query (λ d, r ← select_release rel app d; Ok (rl_container r)));
  stagedHostPort ← scan_or None (query (λ d, r ← select_release rel app d; Ok (rl_host_port r)));
  let routeHostPort := default 0 stagedHostPort in
  let route := default ∅ (snapshot_map (rl_snapshot r) "route_spec") in
  oldContainer ← scan_or "" (query (λ d, rt ← select (route_of app) (routes d); Ok (dr_container rt)));
  a' ← query (select_app app);
  let networkName := if bool_decide (da_user a = "") then "" else UserNetworkName (runtimeOwner cfg) (da_user a) in
  cloudDomain ← scan_or "" (query (λ d, Ok (ds_domain (settings d))));
  let cloudDomain := trim_suffix (to_lower (trim_space cloudDomain)) "." in
  guard_exit (bool_decide (cloudDomain = "")) Stalled;;
  exec (upsert_route {| dr_app := app; dr_instance := da_instance a'; dr_release := rel;
          dr_path := ("//" ^+ da_label a ^+ "." ^+ cloudDomain ^+ "/")%string; dr_host := releaseAlias rel;
          dr_port := routePort route; dr_container := containerName (runtimeScope cfg) (da_instance a') rel;
          dr_network := networkName; dr_container_id := releaseContainerID;
          dr_host_port := if port_range routeHostPort then Some routeHostPort else None |});;
  exec (delete_other_mappings app rel);;
  exec (write_app app (with_mapping ((0 <? routeHostPort)
          || (negb (bool_decide (route = ∅)) && routeSpecHasEnabledMapping route))));;
  mret oldContainer.

(** The deployment failed: the application returns to the state it had. *)
Definition fail_phase : deploy_tx message :=
  let rolling := bool_decide (dj_state j = DeploymentRollingBack) in
  (if rolling then scan_or tt (query (λ d, select_app app d;; Ok tt)) else mret tt);;
  hasLast ← query (λ d, a ← select_app app d; Ok (bool_decide (is_Some (da_last a))));
  exec (restore_app app (deploymentFailureState (dj_operation j) hasLast));;
  (if negb rolling && negb (isRecoveryOperation (dj_operation j))
   then exec (write_release rel app (with_release_state RelFailed)) else mret tt);;
  exec (delete_mappings app rel);;
  mret (if rolling then RollbackCompleted else FailedMessage).
End finish.

(** *** One pass *)
Definition next_state (j : deploy_job) (failure : option cause) : option DeploymentState :=
  match nextDeploymentStateWithHealth (dj_state j) (bool_decide (failure = None)) (deploymentHealthAttempt (dj_attempts j)) with
  | Some next => if is_ok (ValidateDeploymentTransition (dj_state j) next) then Some next else None
  | None => None
  end.
Definition attempts_failure (j : deploy_job) (next : DeploymentState) (failure : option cause) : option cause :=
  if bool_decide (dj_state j = DeploymentChecking) && bool_decide (is_Some failure) && bool_decide (next = DeploymentRollingBack)
  then Some (AfterAttempts (deploymentHealthAttempt (dj_attempts j)) failure) else failure.
(** What the last transitions do, and the containers to remove after the
    commit. *)
Definition enter (j : deploy_job) (r : release) (a : dapp) (next : DeploymentState) : deploy_tx (message * list string) :=
  let name := containerName (runtimeScope cfg) (da_instance a) (dj_release j) in
  match next with
  | DeploymentRollingBack =>
      (if isRecoveryOperation (dj_operation j) then mret tt
       else exec (write_release (dj_release j) (dj_app j) (with_release_state RelFailed)));;
      mret (CheckFailed, [])
  | DeploymentSucceeded =>
      old ← succeed_phase j r;
      mret (Completed, if bool_decide (old = "") || bool_decide (old = name) then [] else [old])
  | DeploymentFailed =>
      m ← fail_phase j;
      mret (m, if bool_decide (dj_state j = DeploymentRollingBack) then [name] else [])
  | _ => mret (Progressed, [])
  end.
Definition processOne (committed : deploy_t) : deploy_tx pass :=
  begin_tx;;
  c ← on_no_rows (query (claim_job (p_unlocked env) (p_now env))) (exit NoJob);
  let '(j, r, a) := c in
  failure ← match p_docker env with
            | None => mret None
            | Some x =>
                match dj_state j with
                | DeploymentPulling => pull_phase x j r committed;; mret None
                | DeploymentStarting => start_phase x j r committed;; mret None
                | DeploymentChecking => check_phase x j r
                | _ => mret None
                end
            end;
  match next_state j failure with
  | None => exit Stalled
  | Some next =>
      exec (progress_job (dj_id j) next (healthInterval (rl_snapshot r)) (attempts_failure j next failure) (p_now env));;
      mr ← enter j r a next;
      exec (insert_event {| de_job := dj_id j; de_from := dj_state j; de_to := next; de_message := mr.1 |});;
      commit;;
      mret (Advanced next (if bool_decide (is_Some (p_docker env)) then mr.2 else []))
  end.
Definition stalled (_ : sqlerr) : pass := Stalled.

(** A query on the pool after the commit sees what the transaction wrote. *)
Definition after_commit {R A} (q : deploy_t → result sqlerr A) : tx deploy_t R A := λ orc s,
  pool (default (work s) (committed s)) q orc s.

(** ** markJobError: the job fails, in a transaction of its own *)
Inductive marking := NotMarked | Marked (removed : list string).
Definition markJobError (id : string) (c : cause) : tx deploy_t marking marking :=
  begin_tx;;
  j ← query (λ d, select (job_is id) (jobs d));
  guard_exit (terminal_job j) NotMarked;;
  guard_exit (negb (is_ok (ValidateDeploymentTransition (dj_state j) DeploymentFailed))) NotMarked;;
  exec (fail_job id c);;
  (if isRecoveryOperation (dj_operation j) then mret tt
   else exec (write_release (dj_release j) (dj_app j) (with_release_state RelFailed)));;
  hasLast ← query (λ d, a ← select_app (dj_app j) d; Ok (bool_decide (is_Some (da_last a))));
  exec (restore_app (dj_app j) (deploymentFailureState (dj_operation j) hasLast));;
  exec (insert_event {| de_job := id; de_from := dj_state j; de_to := DeploymentFailed; de_message := BecauseOf c |});;
  commit;;
  match p_docker env with
  | None => mret (Marked [])
  | Some _ =>
      instance ← handle (after_commit (λ d, a ← select_app (dj_app j) d; Ok (da_instance a))) (λ _, mret "");
      mret (Marked [containerName (runtimeScope cfg) instance (dj_release j)])
  end.
Definition not_marked (_ : sqlerr) : marking := NotMarked.

(** A pass of the worker: [processOne], and [markJobError] when it asks for it. *)
Definition deploy_pass (orc orc' : oracle) (d : deploy_t) : pass * deploy_t :=
  let '(p, d1) := run stalled (processOne d) orc d in
  match p with
  | JobFailed id c => (p, (run not_marked (markJobError id c) orc' d1).2)
  | _ => (p, d1)
  end.
End worker.
