(* ===== verification/DeployFacts.v ===== *)
(** * What a pass of the deployment worker does to the deployments

    The invariant [deploy_ok] of the deployment tables, that a pass keeps it
    whatever fails, and the description of a pass as one step of the state
    machine of deployments. *)
From S2P Require Import Prelude GoStrings Regex GoValue GoTime Domain Tx Table Schema Http RuntimeSpec Crypto Names Health DeployDb Triple Deploy.
From stdpp Require Import list gmap.
Open Scope string_scope.
Open Scope Z_scope.
Open Scope list_scope.

(** ** The invariant *)
(** The transitions of a deployment so far, and their number. *)
Definition event_of (id : string) (e : deploy_event) : bool := bool_decide (de_job e = id).
Definition history (id : string) (d : deploy_t) : list DeploymentState := de_to <$> List.filter (event_of id) (events d).
(** How often a deployment has been moved when it is in a state. *)
Definition attempts_fit (s : DeploymentState) (n : Z) : Prop :=
  match s with
  | DeploymentQueued => n = 0
  | DeploymentPulling => n = 1
  | DeploymentStarting => n = 2
  | DeploymentChecking => 3 <= n <= 10
  | DeploymentSwitching | DeploymentRollingBack => 4 <= n <= 11
  | DeploymentSucceeded => 5 <= n <= 12
  | DeploymentFailed => 1 <= n <= 12
  end.
Record deploy_ok (d : deploy_t) : Prop := {
  dk_jobs : NoDup (dj_id <$> jobs d);
  dk_releases : NoDup (rl_id <$> releases d);
  dk_apps : NoDup (da_id <$> dapps d);
  (** An application has at most one deployment under way. *)
  dk_single : ∀ i j, i ∈ jobs d → j ∈ jobs d → terminal_job i = false → terminal_job j = false →
    dj_app i = dj_app j → i = j;
  (** It aims at the release that runs when it is a recovery, at another one
      otherwise. *)
  dk_target : ∀ j a, j ∈ jobs d → a ∈ dapps d → terminal_job j = false → da_id a = dj_app j →
    da_last a = Some (dj_release j) ↔ isRecoveryOperation (dj_operation j) = true;
  (** The active release of an application is the last one that succeeded. *)
  dk_active : ∀ a r, a ∈ dapps d → r ∈ releases d → rl_app r = da_id a →
    rl_state r = RelActive ↔ da_last a = Some (rl_id r);
  (** The route of an application leads to it. *)
  dk_routes : ∀ rt a, rt ∈ routes d → a ∈ dapps d → da_id a = dr_app rt → da_last a = Some (dr_release rt);
  (** The events are the run of the state machine that led to the state. *)
  dk_history : ∀ j, j ∈ jobs d →
    trace deployment_step DeploymentQueued (history (dj_id j) d) (dj_state j) ∧
    dj_attempts j = Z.of_nat (List.length (history (dj_id j) d)) ∧ attempts_fit (dj_state j) (dj_attempts j)
}.

Lemma trace_snoc {S} (R : S → S → Prop) a l b c : trace R a l b → R b c → trace R a (l ++ [c]) c.
Proof. induction 1; intros ?; cbn; econstructor; eauto using trace. Qed.

(** ** One step of a deployment *)
Record stepped (d w : deploy_t) (j : deploy_job) (next : DeploymentState) (m : message) : Prop := {
  sp_in : j ∈ jobs d;
  sp_open : terminal_job j = false;
  sp_step : deployment_step (dj_state j) next;
  sp_fit : attempts_fit (dj_state j) (dj_attempts j) → attempts_fit next (dj_attempts j + 1);
  sp_jobs : ∃ available error,
    jobs w = update (job_is (dj_id j)) (λ i, with_job_state next (available i) (error i) i) (jobs d);
  sp_events : events w = events d ++ [{| de_job := dj_id j; de_from := dj_state j; de_to := next; de_message := m |}]
}.

Lemma history_app id d evs :
  de_to <$> List.filter (event_of id) (events d ++ evs) = history id d ++ (de_to <$> List.filter (event_of id) evs).
Proof. by rewrite List.filter_app, fmap_app. Qed.
Lemma job_is_spec id j : job_is id j = true ↔ dj_id j = id.
Proof. unfold job_is. by rewrite bool_decide_eq_true. Qed.
(** The job that moved, or a job that did not. *)
Lemma elem_of_stepped d j next av err i :
  NoDup (dj_id <$> jobs d) → j ∈ jobs d →
  i ∈ update (job_is (dj_id j)) (λ i, with_job_state next (av i) (err i) i) (jobs d) →
  i = with_job_state next (av j) (err j) j ∨ (i ∈ jobs d ∧ dj_id i ≠ dj_id j).
Proof.
  intros Hnd Hj (i0 & Hi & ->)%elem_of_update. destruct (job_is _ i0) eqn:E.
  - left. apply job_is_spec in E. by rewrite (key_inj dj_id _ i0 j Hnd Hi Hj E).
  - right. split; [done|]. intros H. apply job_is_spec in H. congruence.
Qed.
Lemma terminal_next next av err j : terminal_job (with_job_state next av err j) = false →
  next ≠ DeploymentSucceeded ∧ next ≠ DeploymentFailed.
Proof. unfold terminal_job. cbn. intros. bool_hyps. done. Qed.

(** A deployment that is no recovery marks its release as failed. *)
Definition failed_release (fails : bool) (j : deploy_job) : list release → list release :=
  if fails then update (release_is (dj_release j) (dj_app j)) (with_release_state RelFailed) else id.

Section step.
Context (d w : deploy_t) (j : deploy_job) (next : DeploymentState) (m : message).
Hypothesis Hok : deploy_ok d.
Hypothesis Hst : stepped d w j next m.

Lemma stepped_jobs_nodup : NoDup (dj_id <$> jobs w).
Proof using Hok Hst.
  destruct Hst as [_ _ _ _ (av & err & ->) _]. rewrite update_column by done. by apply dk_jobs.
Qed.
Lemma stepped_cases i : i ∈ jobs w →
  (∃ av err, i = with_job_state next av err j) ∨ (i ∈ jobs d ∧ dj_id i ≠ dj_id j).
Proof using Hok Hst.
  destruct Hst as [Hj _ _ _ (av & err & ->) _]. intros Hi.
  eapply elem_of_stepped in Hi as [->|Hi]; [left; eauto|by right|by apply dk_jobs|done].
Qed.
Lemma stepped_single i k : i ∈ jobs w → k ∈ jobs w → terminal_job i = false → terminal_job k = false →
  dj_app i = dj_app k → i = k.
Proof using Hok Hst.
  pose proof (sp_in _ _ _ _ _ Hst) as Hj. pose proof (sp_open _ _ _ _ _ Hst) as Ho.
  intros Hi Hk Hti Htk Ha. pose proof stepped_jobs_nodup as Hnd.
  apply (key_inj dj_id _ _ _ Hnd Hi Hk).
  destruct (stepped_cases i Hi) as [(av & err & ->)|[Hi' Hni]];
    destruct (stepped_cases k Hk) as [(av' & err' & ->)|[Hk' Hnk]]; cbn in *.
  - done.
  - by rewrite (dk_single _ Hok j k Hj Hk' Ho Htk Ha).
  - by rewrite (dk_single _ Hok i j Hi' Hj Hti Ho Ha).
  - by rewrite (dk_single _ Hok i k Hi' Hk' Hti Htk Ha).
Qed.
Lemma stepped_history i : i ∈ jobs w →
  trace deployment_step DeploymentQueued (history (dj_id i) w) (dj_state i) ∧
  dj_attempts i = Z.of_nat (List.length (history (dj_id i) w)) ∧ attempts_fit (dj_state i) (dj_attempts i).
Proof using Hok Hst.
  intros Hi. pose proof (sp_in _ _ _ _ _ Hst) as Hj.
  assert (history (dj_id i) w = history (dj_id i) d ++ (if bool_decide (dj_id j = dj_id i) then [next] else [])) as ->.
  { unfold history at 1. rewrite (sp_events _ _ _ _ _ Hst), history_app. f_equal. cbn. unfold event_of. cbn.
    by destruct (bool_decide _). }
  destruct (stepped_cases i Hi) as [(av & err & ->)|[Hi' Hni]]; cbn.
  - rewrite bool_decide_eq_true_2 by done. destruct (dk_history _ Hok j Hj) as (Ht & Hn & Hf).
    split_and!.
    + eapply trace_snoc; [done|]. by destruct Hst.
    + rewrite length_app. cbn. lia.
    + by apply (sp_fit _ _ _ _ _ Hst).
  - rewrite bool_decide_eq_false_2 by done. rewrite app_nil_r. by apply dk_history.
Qed.

(** A step that does not change which release runs. *)
Lemma stepped_kept (f : dapp → dapp) (fails : bool) :
  (∀ a, da_id (f a) = da_id a ∧ da_last (f a) = da_last a) →
  (∃ a, a ∈ dapps d ∧ da_id a = dj_app j) →
  (fails = true → isRecoveryOperation (dj_operation j) = false) →
  dapps w = update (app_is (dj_app j)) f (dapps d) →
  releases w = failed_release fails j (releases d) →
  routes w = routes d → deploy_ok w.
Proof using Hok Hst.
  intros Hf (a0 & Ha0 & Hid0) Hfails Happs Hrel Hroutes.
  set (g := if fails then with_release_state RelFailed else id).
  assert (∀ r, rl_id (g r) = rl_id r ∧ rl_app (g r) = rl_app r) as Hg by (by subst g; destruct fails).
  assert ((∀ r, rl_state (g r) = rl_state r) ∨ isRecoveryOperation (dj_operation j) = false ∧ ∀ r, rl_state (g r) = RelFailed)
    as Hstate by (subst g; destruct fails; [right; auto|by left]).
  assert (releases w = update (release_is (dj_release j) (dj_app j)) g (releases d)) as Hrel'.
  { rewrite Hrel. unfold failed_release, g. destruct fails; [done|]. symmetry. by apply update_id. }
  clear Hrel. rename Hrel' into Hrel. clearbody g. constructor.
  - apply stepped_jobs_nodup.
  - rewrite Hrel, update_column by apply Hg. by apply dk_releases.
  - rewrite Happs, update_column by apply Hf. by apply dk_apps.
  - apply stepped_single.
  - intros i a Hi Ha Ht Hid. rewrite Happs in Ha. apply elem_of_update in Ha as (a1 & Ha1 & ->).
    assert (da_last (if app_is (dj_app j) a1 then f a1 else a1) = da_last a1) as -> by (destruct (app_is _ _); [apply Hf|done]).
    assert (da_id a1 = dj_app i) as Hid1 by (destruct (app_is _ _); [rewrite (proj1 (Hf a1)) in Hid|]; done).
    destruct (stepped_cases i Hi) as [(av & err & ->)|[Hi' _]]; cbn in *.
    + apply (dk_target _ Hok); [by eapply sp_in|done|by eapply sp_open|done].
    + by apply (dk_target _ Hok).
  - intros a r Ha Hr Hid. rewrite Happs in Ha. rewrite Hrel in Hr.
    apply elem_of_update in Ha as (a1 & Ha1 & ->). apply elem_of_update in Hr as (r1 & Hr1 & ->).
    assert (da_last (if app_is (dj_app j) a1 then f a1 else a1) = da_last a1) as -> by (destruct (app_is _ _); [apply Hf|done]).
    assert (da_id (if app_is (dj_app j) a1 then f a1 else a1) = da_id a1) as Hida by (destruct (app_is _ _); [apply Hf|done]).
    rewrite Hida in Hid. pose proof (dk_active _ Hok a1 r1 Ha1 Hr1) as Hact.
    destruct (release_is (dj_release j) (dj_app j) r1) eqn:E.
    + destruct (Hg r1) as [Hg1 Hg2]. rewrite Hg1. rewrite Hg2 in Hid. specialize (Hact Hid).
      destruct Hstate as [Hs|[Hrec Hs]]; [by rewrite Hs|]. rewrite Hs.
      split; [done|]. intros Hl. unfold release_is in E. bool_hyps.
      assert (isRecoveryOperation (dj_operation j) = true); [|congruence].
      apply (dk_target _ Hok j a1); [by eapply sp_in|done|by eapply sp_open|congruence|congruence].
    + by apply Hact.
  - intros rt a Hrt Ha Hid. rewrite Hroutes in Hrt. rewrite Happs in Ha.
    apply elem_of_update in Ha as (a1 & Ha1 & ->).
    assert (da_last (if app_is (dj_app j) a1 then f a1 else a1) = da_last a1) as -> by (destruct (app_is _ _); [apply Hf|done]).
    assert (da_id (if app_is (dj_app j) a1 then f a1 else a1) = da_id a1) as Hida by (destruct (app_is _ _); [apply Hf|done]).
    apply (dk_routes _ Hok); [done..|congruence].
  - apply stepped_history.
Qed.
(** The last step of a deployment that succeeds. *)
Lemma stepped_succeeded (f : dapp → dapp) :
  next = DeploymentSucceeded →
  (∀ a, da_id (f a) = da_id a ∧ da_last (f a) = Some (dj_release j)) →
  dapps w = update (app_is (dj_app j)) f (dapps d) →
  rl_id <$> releases w = rl_id <$> releases d →
  (∀ r', r' ∈ releases w → ∃ r, r ∈ releases d ∧ rl_id r' = rl_id r ∧ rl_app r' = rl_app r ∧
     (rl_app r = dj_app j → rl_state r' = RelActive ↔ rl_id r = dj_release j) ∧
     (rl_app r ≠ dj_app j → rl_state r' = rl_state r)) →
  (∀ rt, rt ∈ routes w → if route_of (dj_app j) rt then dr_release rt = dj_release j else rt ∈ routes d) →
  deploy_ok w.
Proof using Hok Hst.
  intros Hnext Hf Happs Hids Hrel Hroutes.
  assert (∀ a, a ∈ dapps w → ∃ a1, a1 ∈ dapps d ∧ da_id a = da_id a1 ∧
    da_last a = if bool_decide (da_id a1 = dj_app j) then Some (dj_release j) else da_last a1) as Hap.
  { intros a Ha. rewrite Happs in Ha. apply elem_of_update in Ha as (a1 & Ha1 & ->). exists a1. split; [done|].
    unfold app_is. destruct (bool_decide _); [apply Hf|done]. }
  constructor.
  - apply stepped_jobs_nodup.
  - rewrite Hids. by apply dk_releases.
  - rewrite Happs, update_column by apply Hf. by apply dk_apps.
  - apply stepped_single.
  - intros i a Hi Ha Ht Hid. destruct (stepped_cases i Hi) as [(av & err & ->)|[Hi' Hne]].
    { by apply terminal_next in Ht as [? _]. }
    destruct (Hap a Ha) as (a1 & Ha1 & Hida & ->). rewrite bool_decide_eq_false_2.
    + apply (dk_target _ Hok); [done..|congruence].
    + intros Hj. apply Hne. f_equal.
      apply (dk_single _ Hok); [done|by eapply sp_in|done|by eapply sp_open|congruence].
  - intros a r' Ha Hr' Hid. destruct (Hap a Ha) as (a1 & Ha1 & Hida & ->).
    destruct (Hrel r' Hr') as (r & Hr & Hrid & Happ & Hs1 & Hs2). rewrite Hrid.
    case_bool_decide as Hj.
    + rewrite Hs1 by congruence. split; [by intros ->|congruence].
    + rewrite Hs2 by congruence. apply (dk_active _ Hok); [done..|congruence].
  - intros rt a Hrt Ha Hid. destruct (Hap a Ha) as (a1 & Ha1 & Hida & ->). specialize (Hroutes rt Hrt).
    unfold route_of in Hroutes. case_bool_decide as Hj; case_bool_decide as Hrt'; try congruence.
    apply (dk_routes _ Hok); [done..|congruence].
  - apply stepped_history.
Qed.
End step.

(** ** What the work of a state changes *)
(** What a release is a copy of. *)
Definition release_copy (r : release) := (rl_version r, rl_number r, rl_created r, rl_snapshot r).
Definition release_key (r : release) := (rl_id r, rl_app r, release_copy r, rl_state r).
(** Only the containers and ports of releases, and the port mappings. *)
Definition staged (d w : deploy_t) : Prop :=
  ∃ rs pm, w = upd_releases (λ _, rs) (upd_port_mappings (λ _, pm) d) ∧ release_key <$> rs = release_key <$> releases d.

Lemma staged_refl d : staged d d.
Proof. exists (releases d), (port_mappings d). split; [by destruct d|done]. Qed.
Lemma staged_release d w id app f w' :
  (∀ r, release_key (f r) = release_key r) → staged d w → write_release id app f w = Ok w' → staged d w'.
Proof.
  intros Hf (rs & pm & -> & Hk) [= <-]. exists (update (release_is id app) f rs), pm. split; [done|].
  by rewrite update_column.
Qed.
Lemma staged_mapping d w row w' : staged d w → insert_port_mapping row w = Ok w' → staged d w'.
Proof.
  intros (rs & pm & -> & Hk). unfold insert_port_mapping. repeat (case_match; try done). intros [= <-].
  by exists rs, (pm ++ [row]).
Qed.
Lemma staged_releases d w : staged d w → ∀ r, r ∈ releases w → ∃ r', r' ∈ releases d ∧ release_key r = release_key r'.
Proof.
  intros (rs & pm & -> & Hk) r Hr. cbn in Hr.
  assert (release_key r ∈ release_key <$> rs) as Hin by (apply list_elem_of_fmap; eauto).
  rewrite Hk in Hin. apply list_elem_of_fmap in Hin as (r' & -> & ?). eauto.
Qed.
Lemma staged_ok d w : deploy_ok d → staged d w → deploy_ok w.
Proof.
  intros [H1 H2 H3 H4 H5 H6 H7 H8] Hs. pose proof (staged_releases _ _ Hs) as Hr. destruct Hs as (rs & pm & -> & Hk).
  constructor; try done; cbn.
  - assert (rl_id <$> rs = (λ x, x.1.1.1) <$> (release_key <$> rs)) as -> by (by rewrite <- list_fmap_compose).
    by rewrite Hk, <- list_fmap_compose.
  - intros a r Ha Hr' Hid. destruct (Hr r Hr') as (r' & Hin & Heq). injection Heq as -> Happ _ _ _ _ ->. apply H6; [done..|congruence].
Qed.

(** An answer other than that the job moved. *)
Definition still (p : pass) : Prop := match p with Advanced _ _ => False | _ => True end.
Definition keeps {A} (P : deploy_t → Prop) (m : deploy_tx A) : Prop := triple P m (λ _, P) still.

Ltac keep :=
  cbv beta zeta;
  lazymatch goal with
  | |- keeps _ _ => unfold keeps; keep
  | |- triple ?P (mbind _ _) _ _ => apply (triple_bind _ _ _ (λ _, P)); [keep|intros ?; keep]
  | |- triple _ (mret _) _ _ => by apply triple_ret
  | |- triple _ (exit _) _ _ => by apply triple_exit
  | |- triple _ (throw _) _ _ => by apply triple_throw
  | |- triple _ (guard_exit _ _) _ _ => by apply triple_guard
  | |- triple _ (query _) _ _ => by apply triple_query
  | |- triple _ (pool _ _) _ _ => by apply triple_pool
  | |- triple _ begin_tx _ _ => apply triple_begin
  | |- triple _ (scan_or _ (query _)) _ _ => by apply triple_or
  | |- triple _ (optional (query _)) _ _ => by apply triple_optional
  | |- triple _ (on_error _ _) _ _ => apply triple_handle_exit; [keep|intros ?; keep]
  | |- triple _ (on_no_rows _ _) _ _ => apply triple_no_rows_exit; [keep|keep]
  | |- triple _ (handle _ _) _ _ => apply triple_handle_exit; [keep|intros ?; keep]
  | |- triple _ (docker_ok _ _ ?a) _ _ => unfold docker_ok; destruct a; keep
  | |- triple _ (match ?x with _ => _ end) _ _ => destruct x; keep
  | |- triple _ (exec (λ d, Ok d)) _ _ => apply triple_exec; by intros ? ? ? [= <-]
  | _ => idtac
  end.

Section passes.
Context `{GoRange} `{Secrets} `{UnicodeLower} (cfg : worker_config) (x : docker) (j : deploy_job) (r : release).
Implicit Types (P : deploy_t → Prop).

Lemma loadWorkerDockerSettings_keeps P c : keeps P (loadWorkerDockerSettings (λ A e, exit (JobFailed (dj_id j) e)) settings c).
Proof. unfold loadWorkerDockerSettings. keep. Qed.
Lemma unavailable_keeps P user app deps : keeps P (unavailableRuntimeDependencies x user app deps).
Proof. induction deps as [|dep deps IH]; cbn; keep; apply IH. Qed.
Lemma pull_phase_keeps P c : keeps P (pull_phase cfg x j r c).
Proof.
  unfold pull_phase, pullConfiguredProductImage. keep;
    first [apply unavailable_keeps|apply loadWorkerDockerSettings_keeps].
Qed.
Lemma map_listeners_keeps P reserved raw : keeps P (map_listeners j reserved raw).
Proof.
  revert reserved. induction raw as [|v raw IH]; intros reserved; cbn; unfold allocateConfiguredHostPort; keep; apply IH.
Qed.
Lemma release_secrets_keeps P env declared : keeps P (release_secrets j env declared).
Proof. revert env. induction declared as [|[k v] l IH]; intros env; cbn; keep; apply IH. Qed.
Lemma check_phase_keeps P : keeps P (check_phase cfg x j r).
Proof. unfold check_phase, internal_check, public_check. keep. Qed.

Lemma persist_mappings_staged d id ls : keeps (staged d) (persist_mappings x j id ls).
Proof.
  induction ls as [|l ls IH]; cbn; keep; try apply IH.
  - apply triple_exec. intros ? ?. by apply staged_mapping.
  - apply triple_ignore; [|done]. intros w w' Hw. unfold set_release_port. case_match; [|done].
    by apply staged_release.
Qed.
Lemma start_phase_staged d c : keeps (staged d) (start_phase cfg x j r c).
Proof.
  unfold start_phase, configuredProductImage, routePortMappings. keep;
    try first [apply loadWorkerDockerSettings_keeps|apply release_secrets_keeps|apply map_listeners_keeps
              |apply persist_mappings_staged].
  apply triple_ignore; [|done]. intros w w' Hw. by apply staged_release.
Qed.
End passes.

#[local] Arguments update : simpl never.
(** ** Strongest postconditions *)
Lemma sp_or {A} (P : deploy_t → Prop) (q : deploy_t → result sqlerr A) y : keeps P (scan_or y (query q)).
Proof. by apply triple_or. Qed.
Ltac sp :=
  cbv beta zeta;
  lazymatch goal with
  | |- triple _ (mbind _ (exec _)) _ _ => eapply triple_bind; [apply sp_exec|intros []; sp]
  | |- triple _ (mbind _ (query _)) _ _ => eapply triple_bind; [apply sp_query|intros ?; sp]
  | |- triple _ (mbind _ (scan_or _ (query _))) _ _ => eapply triple_bind; [apply sp_or|intros ?; sp]
  | |- triple _ (mbind _ (guard_exit _ _)) _ _ => eapply triple_bind; [apply sp_guard; done|intros []; sp]
  | |- triple _ (mret _) _ _ => apply triple_ret
  | _ => idtac
  end.
(** Open the assertion that [sp] built: the databases between the statements. *)
Ltac sp_open :=
  repeat match goal with
  | H : ∃ _, _ |- _ => destruct H as [? H]
  | H : _ ∧ _ |- _ => destruct H
  | H : Ok _ = Ok _ |- _ => injection H as <-
  end.

Lemma recovery_notice_frame j w w' : recovery_notice j w = Ok w' → ∃ ns, w' = upd_notices (λ _, ns) w.
Proof.
  unfold recovery_notice. destruct (select_app _ _); [case_match|]; intros [= <-]; eexists; try reflexivity;
    instantiate (1 := recovered_notices w); by destruct w.
Qed.
Lemma insert_unit_event_frame row w : ∃ us, insert_unit_event row w = upd_unit_events (λ _, us) w.
Proof.
  unfold insert_unit_event. case_match; eexists; try reflexivity. instantiate (1 := unit_events w); by destruct w.
Qed.
Lemma unit_usage_frame env j c u k b f w w' :
  unit_usage env j c u k b f w = Ok w' → ∃ us, w' = upd_unit_events (λ _, us) w.
Proof.
  unfold unit_usage. destruct (select_app _ _); [destruct b|]; intros [= <-]; try apply insert_unit_event_frame;
    exists (unit_events w); by destruct w.
Qed.
Lemma upsert_route_inv row w w' : upsert_route row w = Ok w' →
  w' = upd_routes (λ t, if exists_row (route_of (dr_app row)) t then update (route_of (dr_app row)) (λ _, row) t
                        else t ++ [row]) w.
Proof. unfold upsert_route. repeat (case_match; try done). by intros [= <-]. Qed.

(** The last statements of a deployment that succeeds. *)
Record succeeded (cfg : worker_config) (j : deploy_job) (d w : deploy_t) : Prop := {
  su_jobs : jobs w = jobs d;
  su_events : events w = events d;
  su_apps : ∃ b, dapps w = update (app_is (dj_app j))
    (λ a, with_mapping b (with_status AppRunning None None (Some (dj_release j)) a)) (dapps d);
  su_releases : releases w =
    update (λ r, bool_decide (rl_app r = dj_app j) && negb (bool_decide (rl_id r = dj_release j))
                 && bool_decide (rl_state r = RelActive)) (with_release_state RelSuperseded)
      (update (release_is (dj_release j) (dj_app j)) (with_release_state RelActive) (releases d));
  su_routes : ∃ row a, dr_app row = dj_app j ∧ dr_release row = dj_release j ∧
    a ∈ dapps d ∧ da_id a = dj_app j ∧
    dr_container row = containerName (runtimeScope cfg) (da_instance a) (dj_release j) ∧
    routes w = (if exists_row (route_of (dj_app j)) (routes d) then update (route_of (dj_app j)) (λ _, row) (routes d)
                else routes d ++ [row]);
  su_mappings : port_mappings w =
    List.filter (λ m, negb (bool_decide (pm_app m = dj_app j) && negb (bool_decide (pm_release m = dj_release j))))
      (port_mappings d)
}.
Lemma select_app_spec id w a : select_app id w = Ok a → a ∈ dapps w ∧ da_id a = id.
Proof. intros [H1 H2]%select_ok. unfold app_is in H2. by bool_hyps. Qed.

Section finish.
Context `{UnicodeLower} (cfg : worker_config) (env : pass_env) (j : deploy_job) (r : release).
Lemma succeed_phase_spec P :
  triple P (succeed_phase cfg env j r) (λ _ w, ∃ d, P d ∧ succeeded cfg j d w) still.
Proof.
  unfold succeed_phase. sp. intros w Hw. sp_open.
  repeat match goal with
  | H : recovery_notice _ _ = Ok _ |- _ => apply recovery_notice_frame in H as [? ->]
  | H : unit_usage _ _ _ _ _ _ _ _ = Ok _ |- _ => apply unit_usage_frame in H as [? ->]
  | H : upsert_route _ _ = Ok _ |- _ => apply upsert_route_inv in H as ->
  end.
  match goal with H : select_app _ _ = Ok ?a, _ : context [da_instance ?a] |- _ => rename a into a'; apply select_app_spec in H as [Ha Hida] end.
  match goal with H : context [upd_routes _ _] |- _ => revert H end. set (row := Build_deploy_route _ _ _ _ _ _ _ _ _ _).
  intros Hdel. unfold write_app, run_app, write_app, write_release, supersede, delete_other_mappings in *.
  repeat match goal with H : Ok _ = Ok ?y |- _ => injection H as <- end. cbn in Ha.
  match goal with H : P ?d |- _ => exists d; split; [exact H|] end.
  apply elem_of_update in Ha as (a & Ha & ->).
  assert (da_instance (if app_is (dj_app j) a then with_status AppRunning None None (Some (dj_release j)) a else a)
    = da_instance a) as Hins by (by destruct (app_is _ _)).
  constructor; cbn; try done.
  - eexists. by rewrite update_update.
  - exists row, a. split_and!; try done; cbn; [|by rewrite Hins]. by destruct (app_is _ _).
Qed.
End finish.

(** The state that a failed operation prescribes: a start leaves the application
    stopped, a recovery leaves it suspended for the reason it was, and any other
    operation leaves the release that ran before running, or nothing. *)
Definition prescribed (operation : string) (last : option string) (status : app_status) (suspension : option string) : Prop :=
  (operation = "start" → status = AppStopped ∧ suspension = None) ∧
  (operation = "billing_recovery" → status = AppSuspended ∧ suspension = Some "billing_insufficient") ∧
  (operation = "subscription_recovery" → status = AppSuspended ∧ suspension = Some "subscription_expired") ∧
  (operation ∉ ["start"; "billing_recovery"; "subscription_recovery"] →
     (status = match last with Some _ => AppRunning | None => AppFailed end) ∧ suspension = None).
Lemma failure_state_prescribed operation last :
  let '(s, reason) := deploymentFailureState operation (bool_decide (is_Some last)) in
  prescribed operation last s (nullif_empty reason).
Proof.
  unfold deploymentFailureState, prescribed.
  repeat match goal with |- context [bool_decide (operation = ?t)] => destruct (bool_decide_reflect (operation = t)) as [->|] end;
    try (split_and!; intros; by (done || set_solver)).
  destruct last; cbn; (split_and!; intros; by (done || set_solver)).
Qed.
(** The statements of a deployment that failed. *)
Record restored (j : deploy_job) (d w : deploy_t) : Prop := {
  rs_jobs : jobs w = jobs d;
  rs_events : events w = events d;
  rs_routes : routes w = routes d;
  rs_apps : ∃ a, a ∈ dapps d ∧ da_id a = dj_app j ∧
    let '(s, reason) := deploymentFailureState (dj_operation j) (bool_decide (is_Some (da_last a))) in
    dapps w = update (app_is (dj_app j)) (λ a, with_status s (nullif_empty reason) (da_billing_at a) (da_last a) a) (dapps d);
  rs_releases : ∃ fails, (fails = true → isRecoveryOperation (dj_operation j) = false) ∧
    releases w = failed_release fails j (releases d)
}.
Lemma triple_when P (b : bool) (f : deploy_t → result sqlerr deploy_t) :
  triple P (if b then exec f else mret tt) (λ _ w', ∃ w, P w ∧ if b then f w = Ok w' else w' = w) still.
Proof. destruct b; [apply triple_exec|apply triple_ret]; eauto. Qed.

Lemma fail_phase_spec P j : triple P (fail_phase j) (λ _ w, ∃ d, P d ∧ restored j d w) still.
Proof.
  unfold fail_phase. eapply (triple_bind _ _ _ (λ _, P)); [destruct (bool_decide _); [apply sp_or|by apply triple_ret]|].
  intros []. cbv zeta. sp. eapply triple_bind; [apply triple_when|intros []]. sp. intros w Hw. sp_open.
  match goal with H : P ?d |- _ => exists d; split; [exact H|] end.
  match goal with H : (a ← select_app _ _; _) = Ok _ |- _ => apply bind_ok_inv in H as (a & Ha & H); injection H as <- end.
  apply select_app_spec in Ha. unfold restore_app, write_app, write_release, delete_mappings in *.
  repeat match goal with H : Ok _ = Ok ?y |- _ => injection H as <- end.
  destruct (negb _ && negb _) eqn:E; [match goal with H : Ok _ = Ok ?y |- _ => injection H as <- end|subst];
    (constructor; cbn; try done; [exists a; split_and!; try apply Ha; by destruct (deploymentFailureState _ _)|]).
  - exists true. bool_hyps. done.
  - by exists false.
Qed.

(** ** A pass *)
Section pass.
Context `{GoRange} `{Secrets} `{UnicodeLower} (cfg : worker_config) (env : pass_env).

Lemma claim_job_inv u t d j r a : claim_job u t d = Ok (j, r, a) →
  j ∈ jobs d ∧ terminal_job j = false ∧ r ∈ releases d ∧ rl_id r = dj_release j ∧ rl_app r = dj_app j ∧
  a ∈ dapps d ∧ da_id a = dj_app j.
Proof.
  unfold claim_job. intros. inv_ok. match goal with H : select _ (sort_by _ _) = Ok _ |- _ => apply select_ok in H as [Hj Ht] end.
  apply elem_of_sort_by in Hj.
  match goal with H : select_release _ _ _ = Ok _ |- _ => apply select_ok in H as [Hr Hri] end.
  match goal with H : select_app _ _ = Ok _ |- _ => apply select_app_spec in H as [Ha Hai] end.
  unfold release_is in Hri. cbv beta in Ht. bool_hyps. by split_and!.
Qed.
Lemma next_state_spec j failure next : next_state j failure = Some next →
  deployment_step (dj_state j) next ∧ (attempts_fit (dj_state j) (dj_attempts j) → attempts_fit next (dj_attempts j + 1)).
Proof.
  unfold next_state. destruct (nextDeploymentStateWithHealth _ _ _) as [s|] eqn:E; [|done].
  destruct (is_ok _) eqn:Ev; [|done]. intros [= ->]. split.
  { apply is_ok_true_iff in Ev as [[] Ev]. exact Ev. }
  unfold nextDeploymentStateWithHealth, nextDeploymentState, deploymentHealthAttempt, deploymentMaxHealthAttempts in E.
  destruct (dj_state j), (bool_decide (failure = None)); cbn in E; try (injection E as <-); try discriminate E;
    cbn; try lia.
  intros Hf. destruct (dj_attempts j - 2 <? 1) eqn:E1; destruct (_ <? 8) eqn:E2; injection E as <-; cbn; bool_hyps; lia.
Qed.
Lemma write_job_inv id next new w w' : write_job id next new w = Ok w' → w' = upd_jobs (update (job_is id) new) w.
Proof. unfold write_job. case_match; [|done]. by intros [= <-]. Qed.

(** What a transition does besides moving the job. *)
Definition entered (j : deploy_job) (next : DeploymentState) (d w : deploy_t) : Prop :=
  match next with
  | DeploymentSucceeded => succeeded cfg j d w
  | DeploymentFailed => restored j d w
  | _ => jobs w = jobs d ∧ events w = events d ∧ dapps w = dapps d ∧ routes w = routes d ∧
         ∃ fails, (fails = true → isRecoveryOperation (dj_operation j) = false) ∧
           releases w = failed_release fails j (releases d)
  end.
Lemma enter_spec P j r a next :
  triple P (enter cfg env j r a next) (λ _ w, ∃ d, P d ∧ entered j next d w) still.
Proof.
  assert (∀ w w', P w → w' = w → ∃ d, P d ∧ jobs w' = jobs d ∧ events w' = events d ∧ dapps w' = dapps d ∧
    routes w' = routes d ∧ ∃ fails, (fails = true → isRecoveryOperation (dj_operation j) = false) ∧
      releases w' = failed_release fails j (releases d)) as Hsame.
  { intros w w' Hw ->. exists w. split_and!; try done. by exists false. }
  unfold enter. destruct next; try (apply triple_ret; intros w Hw; by apply (Hsame w w)).
  - eapply triple_bind; [apply succeed_phase_spec|]. intros old. by apply triple_ret.
  - apply (triple_bind _ _ _ (λ _ w, ∃ d, P d ∧ entered j DeploymentRollingBack d w)); [|intros []; by apply triple_ret].
    destruct (isRecoveryOperation (dj_operation j)) eqn:E in |- *.
    + apply triple_ret. intros w Hw. by apply (Hsame w w).
    + apply triple_exec. intros w w' Hw [= <-]. exists w.
      split; [done|]. cbn. split_and!; try done. by exists true.
  - eapply triple_bind; [apply fail_phase_spec|]. intros m. by apply triple_ret.
Qed.

Lemma entered_frame j next d w : entered j next d w → jobs w = jobs d ∧ events w = events d.
Proof. destruct next; cbn; try (by intros (? & ? & _)); by intros []. Qed.

(** The database after a transition of a job. *)
Definition moved (d w : deploy_t) (j : deploy_job) (next : DeploymentState) : Prop :=
  ∃ d1 m, staged d d1 ∧ stepped d1 w j next m ∧ (∃ a, a ∈ dapps d ∧ da_id a = dj_app j) ∧
    ∃ d2 w2, releases d2 = releases d1 ∧ dapps d2 = dapps d1 ∧ routes d2 = routes d1 ∧
      port_mappings d2 = port_mappings d1 ∧ entered j next d2 w2 ∧
      releases w = releases w2 ∧ dapps w = dapps w2 ∧ routes w = routes w2 ∧ port_mappings w = port_mappings w2 ∧
      (next = DeploymentSucceeded → ∃ r, r ∈ releases d ∧ rl_id r = dj_release j).
Definition pass_end (d : deploy_t) (p : pass) (w : deploy_t) : Prop :=
  ∃ j next, moved d w j next ∧ (p = Stalled ∨ ∃ removed, p = Advanced next removed).

Lemma processOne_ends committed d :
  ends stalled (λ w, w = d) (processOne cfg env committed) (pass_end d) still.
Proof.
  unfold processOne. eapply ends_bind; [apply triple_begin|done|intros []]. cbv beta.
  apply ends_claim; [done..|]. intros w [[j r] a] -> Hclaim. apply claim_job_inv in Hclaim as (Hj & Ht & Hr & Hri & _ & Ha & Hai).
  eapply (ends_bind _ _ _ _ (λ _, staged d)); [|done|intros failure].
  { apply (triple_pre (staged d)); [intros ? ->; apply staged_refl|].
    destruct (p_docker env) as [x|]; [|by apply triple_ret]. destruct (dj_state j); try (by apply triple_ret).
    - eapply triple_bind; [apply pull_phase_keeps|intros []; by apply triple_ret].
    - eapply triple_bind; [apply start_phase_staged|intros []; by apply triple_ret].
    - apply check_phase_keeps. }
  destruct (next_state j failure) as [next|] eqn:En; [|by apply ends_exit].
  apply next_state_spec in En as [Hstep Hfit].
  eapply ends_bind; [apply sp_exec|done|intros []]. eapply ends_bind; [apply enter_spec|done|intros mr].
  eapply ends_bind; [apply sp_exec|done|intros []].
  eapply (ends_commit _ _ _ (λ p, p = Stalled ∨ ∃ rm, p = Advanced next rm)); [intros e; split; [by left|done]|apply closing_ret; right; eauto|].
  intros p w Hp (w2 & (d2 & (d1 & Hst & Hprog) & Hent) & [= <-]).
  apply write_job_inv in Hprog as ->. exists j, next. split; [|done].
  assert (jobs d1 = jobs d ∧ events d1 = events d ∧ dapps d1 = dapps d) as (Hjd & Hed & Had) by (destruct Hst as (? & ? & -> & _); by split_and!).
  exists d1, mr.1. split_and!; [done| |eauto|].
  - apply entered_frame in Hent as [Hjw Hew]. constructor; cbn; try done.
    + by rewrite Hjd.
    + eexists (λ _, _), (λ i, _). exact Hjw.
    + by rewrite Hew.
  - eexists _, w2. split_and!; [..|exact Hent|done|done|done|done|eauto]; done.
Qed.
End pass.

(** ** What a transition of a job guarantees *)
Section moved.
Context (cfg : worker_config) (d w : deploy_t) (j : deploy_job) (next : DeploymentState).
Hypothesis Hmoved : moved cfg d w j next.

Lemma supersede_release app rel (l : list release) r' :
  r' ∈ update (λ r, bool_decide (rl_app r = app) && negb (bool_decide (rl_id r = rel)) && bool_decide (rl_state r = RelActive))
         (with_release_state RelSuperseded) (update (release_is rel app) (with_release_state RelActive) l) →
  ∃ r, r ∈ l ∧ rl_id r' = rl_id r ∧ rl_app r' = rl_app r ∧ (rl_app r = app → rl_state r' = RelActive ↔ rl_id r = rel) ∧
    (rl_app r ≠ app → rl_state r' = rl_state r).
Proof.
  intros (r1 & (r & Hr & ->)%elem_of_update & ->)%elem_of_update. exists r. unfold release_is.
  destruct (decide (rl_id r = rel)) as [Hid|Hid], (decide (rl_app r = app)) as [Hap|Hap];
    rewrite ?(bool_decide_eq_true_2 _ Hid), ?(bool_decide_eq_false_2 _ Hid); cbn;
    rewrite ?(bool_decide_eq_true_2 _ Hid), ?(bool_decide_eq_false_2 _ Hid), ?(bool_decide_eq_true_2 _ Hap), ?(bool_decide_eq_false_2 _ Hap); cbn;
    try (case_bool_decide; cbn); split_and!; try done; congruence.
Qed.
Lemma upserted_route row (l : list deploy_route) rt :
  rt ∈ (if exists_row (route_of (dr_app row)) l then update (route_of (dr_app row)) (λ _, row) l else l ++ [row]) →
  rt = row ∨ (rt ∈ l ∧ route_of (dr_app row) rt = false).
Proof.
  destruct (exists_row _ _) eqn:E.
  - intros (r0 & Hr & ->)%elem_of_update. destruct (route_of _ r0) eqn:E'; auto.
  - intros [Hr| ->%list_elem_of_singleton]%elem_of_app; [right|by left]. split; [done|].
    by eapply exists_row_false in E.
Qed.

Lemma moved_ok : deploy_ok d → deploy_ok w.
Proof using Hmoved.
  intros Hok. destruct Hmoved as (d1 & m & Hst & Hs & (a & Ha & Hida) & d2 & w2 & Hr2 & Ha2 & Hrt2 & _ & Hent & Hrw & Haw & Hrtw & _).
  pose proof (staged_ok _ _ Hok Hst) as Hok1.
  assert (dapps d1 = dapps d) as Had by (by destruct Hst as (? & ? & -> & _)).
  assert (∃ a, a ∈ dapps d1 ∧ da_id a = dj_app j) as Hex by (rewrite Had; eauto).
  assert (next = DeploymentSucceeded ∨ next = DeploymentFailed ∨
    (dapps w2 = dapps d2 ∧ routes w2 = routes d2 ∧ ∃ fails, (fails = true → isRecoveryOperation (dj_operation j) = false) ∧
           releases w2 = failed_release fails j (releases d2))) as [->|[->|Hsame]].
  { destruct next; auto; right; right; cbn in Hent; naive_solver. }
  - destruct Hent as [_ _ [b Happs] Hrel (row & a' & Hrow1 & Hrow2 & _ & _ & _ & Hroutes) _].
    eapply (stepped_succeeded d1 w j DeploymentSucceeded m Hok1 Hs); [done| |by rewrite Haw, Happs, Ha2|..].
    + done.
    + rewrite Hrw, Hrel, Hr2, !update_column by done. done.
    + rewrite Hrw, Hrel, Hr2. apply supersede_release.
    + rewrite Hrtw, Hroutes, Hrt2, <- Hrow1. intros rt [->|[Hrt ->]]%upserted_route; [|done].
      unfold route_of. by rewrite bool_decide_eq_true_2.
  - destruct Hent as [_ _ Hroutes (a' & _ & _ & Happs) (fails & Hf & Hrel)].
    destruct (deploymentFailureState _ _) as [s reason].
    eapply (stepped_kept d1 w j DeploymentFailed m Hok1 Hs _ fails); [|done|done|by rewrite Haw, Happs, Ha2|congruence|congruence].
    done.
  - destruct Hsame as (Happs & Hroutes & fails & Hf & Hrel).
    eapply (stepped_kept d1 w j next m Hok1 Hs id fails); [done..| |congruence|congruence].
    rewrite update_id by done. congruence.
Qed.

(** The state in which a transition leaves the application. *)
Definition settled : Prop :=
  match next with
  | DeploymentSucceeded =>
      (** it runs the release, and its route leads to the release's container *)
      ∃ a rt, a ∈ dapps w ∧ da_id a = dj_app j ∧ da_status a = AppRunning ∧ da_suspension a = None ∧
        da_last a = Some (dj_release j) ∧
        rt ∈ routes w ∧ dr_app rt = dj_app j ∧ dr_release rt = dj_release j ∧
        dr_container rt = containerName (runtimeScope cfg) (da_instance a) (dj_release j) ∧
        (∀ m, m ∈ port_mappings w → pm_app m = dj_app j → pm_release m = dj_release j)
  | DeploymentFailed =>
      (** it is in the state that the operation prescribes, on the release and
          the route that it had *)
      (∃ a a', a ∈ dapps d ∧ da_id a = dj_app j ∧ a' ∈ dapps w ∧ da_id a' = dj_app j ∧ da_last a' = da_last a ∧
        prescribed (dj_operation j) (da_last a) (da_status a') (da_suspension a')) ∧ routes w = routes d
  | _ => dapps w = dapps d ∧ routes w = routes d
  end.
Lemma moved_settled : deploy_ok d → settled.
Proof using Hmoved.
  intros Hok. destruct Hmoved as (d1 & m & Hst & Hs & (a & Ha & Hida) & d2 & w2 & Hr2 & Ha2 & Hrt2 & Hpm2 & Hent & Hrw & Haw & Hrtw & Hpmw & _).
  assert (dapps d1 = dapps d ∧ routes d1 = routes d) as [Had Hrtd] by (destruct Hst as (? & ? & -> & _); done).
  unfold settled. destruct next; cbn in Hent; try (destruct Hent as (_ & _ & ? & ? & _); split; congruence).
  - destruct Hent as [_ _ [b Happs] _ (row & a' & Hrow1 & Hrow2 & Ha' & Hida' & Hrow3 & Hroutes) Hpm].
    exists (with_mapping b (with_status AppRunning None None (Some (dj_release j)) a')), row.
    split_and!; try done.
    + rewrite Haw, Happs. apply elem_of_update. exists a'. split; [done|]. unfold app_is. by rewrite bool_decide_eq_true_2.
    + rewrite Hrtw, Hroutes. destruct (exists_row _ _) eqn:E.
      * apply exists_row_true in E as (rt & Hrt & E). apply elem_of_update. exists rt. by rewrite E.
      * apply elem_of_app. right. by apply list_elem_of_singleton.
    + rewrite Hpmw, Hpm. intros pm Hin%list_elem_of_In Happ. apply List.filter_In in Hin as [_ Hin].
      rewrite Happ, bool_decide_eq_true_2 in Hin by done. cbn in Hin. by bool_hyps.
  - destruct Hent as [_ _ Hroutes (a' & Ha' & Hida' & Happs) _]. split; [|congruence].
    pose proof (failure_state_prescribed (dj_operation j) (da_last a')) as Hp.
    destruct (deploymentFailureState _ _) as [s reason].
    exists a', (with_status s (nullif_empty reason) (da_billing_at a') (da_last a') a').
    split_and!; [congruence|done| |done|done|exact Hp]. rewrite Haw, Happs. apply elem_of_update. exists a'.
    split; [done|]. unfold app_is. by rewrite bool_decide_eq_true_2.
Qed.
End moved.

(** ** markJobError *)
Section mark.
Context `{GoRange} `{Secrets} `{UnicodeLower} (cfg : worker_config) (env : pass_env).
Lemma mark_closing (P : marking → Prop) : P NotMarked → (∀ l, P (Marked l)) → ∀ instance rel,
  closing (match p_docker env with
        | None => mret (Marked [])
        | Some _ =>
            i ← handle (after_commit instance) (λ _, mret "");
            mret (Marked [containerName (runtimeScope cfg) i rel])
        end : tx deploy_t marking marking) P.
Proof.
  intros Hn Hm instance rel orc s Hs. destruct (p_docker env); [|split; [done|apply Hm]].
  unfold handle, after_commit, pool, mbind, tx_bind. destruct (orc (tick s)); [destruct (instance _)|..]; (split; [done|apply Hm]).
Qed.
Definition fails_with (id : string) (d w : deploy_t) : Prop :=
  ∃ j, dj_id j = id ∧ moved cfg d w j DeploymentFailed.
Lemma markJobError_ends id c d :
  ends not_marked (λ w, w = d) (markJobError cfg env id c) (λ _ w, fails_with id d w) (λ _, True).
Proof.
  unfold markJobError. eapply ends_bind; [apply triple_begin|done|intros []]. cbv beta.
  apply ends_query; [done|]. intros w j -> Hsel.
  apply select_ok in Hsel as [Hj Hid]. apply job_is_spec in Hid.
  apply ends_guard; [done|intros Ht]. apply ends_guard; [done|intros Hv].
  apply negb_false_iff, is_ok_true_iff in Hv as [[] Hv].
  eapply ends_bind; [apply sp_exec|done|intros []].
  apply (ends_bind _ _ _ _ (λ _ w', ∃ w, (∃ w0, w0 = d ∧ fail_job id c w0 = Ok w) ∧ ∃ fails,
      (fails = true → isRecoveryOperation (dj_operation j) = false) ∧ w' = upd_releases (failed_release fails j) w));
    [|done|intros []].
  { destruct (isRecoveryOperation _).
    - apply triple_ret. intros w Hw. exists w. split; [exact Hw|]. exists false. split; [done|]. by destruct w.
    - apply triple_exec. intros w w' Hw [= <-]. exists w. split; [exact Hw|]. by exists true. }
  eapply ends_bind; [apply sp_query|done|intros hasLast].
  eapply ends_bind; [apply sp_exec|done|intros []]. eapply ends_bind; [apply sp_exec|done|intros []].
  apply (ends_commit _ _ _ (λ _, True)); [done|by apply mark_closing|].
  intros mk w _ (w3 & (w2 & ((w1 & (w0 & -> & Hfail) & fails & Hf & ->) & Hlast) & Hrest) & [= <-]).
  apply write_job_inv in Hfail as Hw1. injection Hrest as Hw3.
  assert (dapps w1 = dapps d ∧ events w1 = events d ∧ releases w1 = releases d ∧ routes w1 = routes d) as (Hd1 & Hd2 & Hd3 & Hd4)
    by (by rewrite Hw1).
  apply bind_ok_inv in Hlast as (a & Ha & [= <-]). apply select_app_spec in Ha as [Ha Hida]. cbn in Ha. rewrite Hd1 in Ha.
  exists j. split; [done|]. exists d, (BecauseOf c). split_and!; [apply staged_refl| |eauto|].
  - constructor; cbn; try done.
    + destruct (dj_state j); cbn; try lia; done.
    + exists dj_available, (λ _, Some c). by rewrite <- Hw3, Hid, Hw1.
    + by rewrite <- Hw3, Hid, <- Hd2.
  - exists w1, w3. split_and!; try done; [by rewrite Hw1|]. rewrite <- Hw3. constructor; cbn; try done; [|by exists fails].
    exists a. rewrite Hd1. split_and!; [done..|]. by destruct (deploymentFailureState _ _).
Qed.
End mark.

(** ** Passes *)
Section worker.
Context `{GoRange} `{Secrets} `{UnicodeLower} (cfg : worker_config).

(** A pass leaves the database alone or moves one deployment, whatever fails. *)
Lemma deploy_pass_moves env orc orc' d :
  let '(p, w) := deploy_pass cfg env orc orc' d in
  (w = d ∧ still p) ∨
  ∃ j next, moved cfg d w j next ∧ ∀ n removed, p = Advanced n removed → n = next.
Proof.
  unfold deploy_pass. pose proof (run_ends stalled _ _ _ _ orc d (processOne_ends cfg env d d) eq_refl) as Hrun.
  destruct (run stalled (processOne cfg env d) orc d) as [p d1]. cbn in Hrun.
  destruct Hrun as [[-> Hp]|(j & next & Hm & Hp)].
  - destruct p as [| |id c|]; try (by left).
    pose proof (run_ends not_marked _ _ _ _ orc' d (markJobError_ends cfg env id c d) eq_refl) as [[-> _]|(j & _ & Hm)].
    + by left.
    + right. exists j, DeploymentFailed. by split.
  - destruct Hp as [-> |[removed ->]]; right; exists j, next; (split; [done|]); intros ? ? [=]; congruence.
Qed.
Lemma moved_stepped d w j next : moved cfg d w j next → ∃ m, stepped d w j next m.
Proof.
  intros (d1 & m & (rs & pm & -> & _) & [] & _). exists m. by constructor.
Qed.

(** C29: the invariant of the deployments is kept by every pass of the worker,
    whichever interactions with the database fail and whatever Docker answers:
    one deployment under way per application, the active release is the last
    successful one and the route leads to it, a recovery aims at the release
    that ran and no other deployment does, and the events of a deployment are
    the run of the state machine that led to its state. *)
Theorem deploy_pass_keeps env orc orc' d : deploy_ok d → deploy_ok (deploy_pass cfg env orc orc' d).2.
Proof.
  intros Hok. pose proof (deploy_pass_moves env orc orc' d) as Hp. destruct (deploy_pass _ _ _ _ d) as [p w].
  destruct Hp as [[-> _]|(j & next & Hm & _)]; [done|]. by eapply moved_ok.
Qed.

(** C30: a pass implements the state machine of deployments: it leaves the
    database as it is, or takes one transition that the machine allows for one
    deployment that is not finished, and records it as an event; a pass that
    answers that it moved a deployment took that transition. *)
Theorem deploy_pass_step env orc orc' d :
  let '(p, w) := deploy_pass cfg env orc orc' d in
  (w = d ∧ ∀ next removed, p ≠ Advanced next removed) ∨
  ∃ j next m, stepped d w j next m ∧ ∀ n removed, p = Advanced n removed → n = next.
Proof.
  pose proof (deploy_pass_moves env orc orc' d) as Hp. destruct (deploy_pass _ _ _ _ d) as [p w].
  destruct Hp as [[-> Hp]|(j & next & Hm & Hp)]; [left; by destruct p|right].
  apply moved_stepped in Hm as [m Hm]. eauto.
Qed.


(** ** Every deployment ends *)
Fixpoint passes (rounds : list (pass_env * oracle * oracle)) (d : deploy_t) : list pass * deploy_t :=
  match rounds with
  | [] => ([], d)
  | (env, orc, orc') :: rounds =>
      let '(p, d1) := deploy_pass cfg env orc orc' d in
      let '(ps, d2) := passes rounds d1 in (p :: ps, d2)
  end.
Definition is_advance (p : pass) : bool := match p with Advanced _ _ => true | _ => false end.
(** The transitions that the deployments may still take. *)
Definition budget (j : deploy_job) : Z := if terminal_job j then 0 else 12 - dj_attempts j.
Definition remaining (d : deploy_t) : Z := sumZ (budget <$> jobs d).

Lemma budget_nonneg d j : deploy_ok d → j ∈ jobs d → 0 <= budget j.
Proof.
  intros Hok Hj. destruct (dk_history _ Hok j Hj) as (_ & _ & Hf). unfold budget.
  destruct (terminal_job j) eqn:E; [lia|]. unfold terminal_job in E. destruct (dj_state j); cbn in *; try lia; done.
Qed.
Lemma sum_update_lt (l : list deploy_job) (f g : deploy_job → Z) p upd :
  (∀ i, i ∈ l → p i = true → f (upd i) <= f i - 1) → (∃ i, i ∈ l ∧ p i = true) →
  sumZ (f <$> update p upd l) <= sumZ (f <$> l) - 1.
Proof.
  intros Hlt.
  assert (∀ l', (∀ i, i ∈ l' → p i = true → f (upd i) <= f i - 1) → sumZ (f <$> update p upd l') <= sumZ (f <$> l')) as Hle.
  { induction l' as [|i l' IH]; intros Hl'; [done|]. specialize (IH (λ k Hk, Hl' k ltac:(by right))).
    specialize (Hl' i ltac:(left)). unfold update in *. cbn. destruct (p i); cbn; [specialize (Hl' eq_refl)|]; lia. }
  induction l as [|i l IH]; intros (k & Hk & Hpk); [by apply elem_of_nil in Hk|].
  pose proof (Hlt i ltac:(left)) as Hi. specialize (Hle l (λ k Hk, Hlt k ltac:(by right))).
  specialize (IH (λ k Hk, Hlt k ltac:(by right))). unfold update in *. cbn.
  apply elem_of_cons in Hk as [->|Hk].
  - rewrite Hpk. specialize (Hi Hpk). lia.
  - specialize (IH (ex_intro _ k (conj Hk Hpk))). destruct (p i); cbn; [specialize (Hi eq_refl)|]; lia.
Qed.
Lemma stepped_remaining d w j next m : deploy_ok d → stepped d w j next m → remaining w <= remaining d - 1.
Proof.
  intros Hok Hs. pose proof Hs as [Hj Ho Hst Hf (av & err & Hjobs) _]. unfold remaining. rewrite Hjobs.
  apply sum_update_lt; [exact budget| |].
  - intros i Hi Hid. apply job_is_spec in Hid. rewrite (key_inj dj_id _ i j (dk_jobs _ Hok) Hi Hj Hid).
    destruct (dk_history _ Hok j Hj) as (_ & _ & Hfit). specialize (Hf Hfit).
    unfold budget at 2. rewrite Ho. unfold budget. destruct (terminal_job (with_job_state _ _ _ _)); cbn; [|lia].
    unfold terminal_job in Ho. destruct (dj_state j); cbn in *; try lia; done.
  - exists j. split; [done|]. by apply job_is_spec.
Qed.
Lemma remaining_nonneg d : deploy_ok d → 0 <= remaining d.
Proof.
  intros Hok. apply sumZ_nonneg, Forall_fmap, Forall_forall. intros j Hj. by apply (budget_nonneg d).
Qed.

(** C32: however the worker's passes go, a deployment takes at most twelve
    transitions: in any sequence of passes, at most [remaining] of them move a
    deployment, which is at most twelve for each unfinished one. *)
Theorem deployments_end rounds d :
  deploy_ok d →
  Z.of_nat (List.length (List.filter is_advance (passes rounds d).1)) <= remaining d ∧
  remaining d <= 12 * Z.of_nat (List.length (List.filter (λ j, negb (terminal_job j)) (jobs d))).
Proof.
  intros Hok. split.
  - revert d Hok. induction rounds as [|[[env orc] orc'] rounds IH]; intros d Hok; [by apply remaining_nonneg|].
    cbn. pose proof (deploy_pass_moves env orc orc' d) as Hp. destruct (deploy_pass _ _ _ _ d) as [p w].
    assert (deploy_ok w) as Hok'.
    { destruct Hp as [[-> _]|(j & next & Hm & _)]; [done|]. by eapply moved_ok. }
    specialize (IH w Hok'). destruct (passes rounds w) as [ps d2]. cbn in *.
    destruct Hp as [[-> Hp]|(j & next & Hm & _)]; [by destruct p|].
    apply moved_stepped in Hm as [m Hm]. apply stepped_remaining in Hm; [|done].
    destruct (is_advance p); cbn; lia.
  - unfold remaining. pose proof (dk_history _ Hok) as Hh. revert Hh.
    induction (jobs d) as [|j l IH]; intros Hh; [done|]. specialize (IH (λ k Hk, Hh k ltac:(by right))).
    destruct (Hh j ltac:(left)) as (_ & Hn & _). cbn. unfold budget at 1. destruct (terminal_job j); cbn; lia.
Qed.
End worker.
