(* ===== verification/DeployPorts.v ===== *)
(** * Host ports of deployments

    The host ports that a deployment gets are new, and a release whose ports
    are already recorded cannot be started again. *)
From S2P Require Import Prelude GoStrings Regex GoValue GoTime Domain Tx Table Schema Http RuntimeSpec Crypto Names Health DeployDb Triple Deploy DeployFacts.
From stdpp Require Import list gmap.
Open Scope string_scope.
Open Scope Z_scope.
Open Scope list_scope.

(** ** Inversion of a run that returned a value *)
Section inversion.
Context {D R A B : Type}.
Lemma bind_val (m : tx D R A) (k : A → tx D R B) orc s b s' :
  (m ≫= k) orc s = (Val b, s') → ∃ a s1, m orc s = (Val a, s1) ∧ k a orc s1 = (Val b, s').
Proof. unfold mbind, tx_bind. destruct (m orc s) as [[a|e|r] s1]; try done. eauto. Qed.
Lemma query_val (q : D → result sqlerr A) orc s a (s' : txst D) :
  query (R := R) q orc s = (Val a, s') → q (work s) = Ok a ∧ work s' = work s ∧ committed s' = committed s.
Proof.
  unfold query, stmt. destruct (st s), (orc (tick s)); try done. destruct (q (work s)) as [a'|[]]; try done.
  by intros [= <- <-].
Qed.
Lemma no_rows_exit_val (m : tx D R A) (r : R) orc s a s' :
  on_no_rows m (exit r) orc s = (Val a, s') → m orc s = (Val a, s').
Proof. unfold on_no_rows, handle. destruct (m orc s) as [[a'|[]|r'] s1]; try done. Qed.
End inversion.

Section ports.
Context `{GoRange} `{Secrets} `{UnicodeLower} (j : deploy_job).

Lemma first_free_port_spec min max reserved d p : first_free_port min max reserved d = Ok p →
  min <= p <= max ∧ (∀ rt, rt ∈ routes d → dr_host_port rt ≠ Some p) ∧
  (∀ m, m ∈ port_mappings d → pm_host_port m ≠ p) ∧ p ∉ reserved.
Proof.
  intros [Hin Hfree]%select_ok. apply elem_of_seqZ in Hin. unfold free_port in Hfree. bool_hyps.
  split_and!; [lia|lia| | |done].
  - intros rt Hrt Heq. eapply exists_row_false in Hrt; [|done]. cbv beta in Hrt. by bool_hyps.
  - intros m Hm Heq. eapply exists_row_false in Hm; [|done]. cbv beta in Hm. by bool_hyps.
Qed.

Definition fresh_ports (reserved : list Z) (d : deploy_t) (ls : list listener) : Prop :=
  NoDup (li_host_port <$> ls) ∧
  ∀ l, l ∈ ls → ds_port_min (settings d) <= li_host_port l <= ds_port_max (settings d) ∧
    (∀ rt, rt ∈ routes d → dr_host_port rt ≠ Some (li_host_port l)) ∧
    (∀ m, m ∈ port_mappings d → pm_host_port m ≠ li_host_port l) ∧ li_host_port l ∉ reserved.

Lemma allocate_val reserved orc s p s' :
  allocateConfiguredHostPort j reserved orc s = (Val p, s') →
  work s' = work s ∧ first_free_port (ds_port_min (settings (work s))) (ds_port_max (settings (work s))) reserved (work s) = Ok p.
Proof.
  unfold allocateConfiguredHostPort. intros ([] & s1 & He & Hrun)%bind_val.
  assert (work s1 = work s) as Hw1.
  { unfold exec, stmt in He. destruct (st s), (orc (tick s)); try done. by injection He as <-. }
  apply bind_val in Hrun as (st' & s2 & Hq & Hrun). apply query_val in Hq as ([= <-] & Hw2 & _).
  apply no_rows_exit_val, query_val in Hrun as (Hq & Hw3 & _). rewrite Hw2, Hw1 in *. split; [congruence|done].
Qed.
(** The listeners of a route whose direct mapping is enabled. *)
Definition enabled_listeners (raw : list any) : list obj :=
  omap (λ v, item ← as_obj v; if truthy (get item "mappingEnabled") then Some item else None) raw.
Definition serves (item : obj) (l : listener) : Prop :=
  li_key l = default "" (as_string (get item "key")) ∧ port_of (get item "containerPort") = Some (li_port l).
(** C33: a deployment assigns one host port to each listener of the release whose
    direct mapping is enabled, for its container port; the host ports are
    pairwise distinct, lie in the configured range, and belong to no route and
    no mapping of any application; assigning them changes nothing. *)
Theorem map_listeners_ports reserved raw orc s ls s' :
  map_listeners j reserved raw orc s = (Val ls, s') →
  work s' = work s ∧ Forall2 serves (enabled_listeners raw) ls ∧ fresh_ports reserved (work s) ls.
Proof.
  revert reserved s ls s'. induction raw as [|v raw IH]; intros reserved s ls s'; cbn.
  { intros [= <- <-]. split; [done|]. split; [constructor|]. split; [constructor|]. intros l Hl. by apply elem_of_nil in Hl. }
  destruct (as_obj v) as [item|]; cbn; [|by apply IH]. destruct (truthy _); [|by apply IH].
  destruct (port_of _) as [port|] eqn:Eport; [|done].
  intros (p & s1 & (Hw & Hp)%allocate_val & (rest & s2 & (Hw2 & Hserve & Hnd & Hall)%IH & [= <- <-])%bind_val)%bind_val.
  apply first_free_port_spec in Hp as (Hr & Hrt & Hpm & Hres). rewrite Hw in *. split; [done|].
  split; [by constructor|]. split; cbn.
  - constructor; [|done]. intros (l & Hl & Hin)%list_elem_of_fmap. destruct (Hall l Hin) as (_ & _ & _ & Hno).
    apply Hno. rewrite <- Hl. apply elem_of_app. right. by apply list_elem_of_singleton.
  - intros l [->|Hl]%elem_of_cons; [done|]. destruct (Hall l Hl) as (? & ? & ? & Hno). split_and!; try done; try lia.
    intros Hin. apply Hno, elem_of_app. by left.
Qed.

(** ** A release whose ports are recorded *)
Context (cfg : worker_config) (x : docker) (r : release) (key : string).
Definition mapped (w : deploy_t) : Prop :=
  ∃ m, m ∈ port_mappings w ∧ pm_release m = dj_release j ∧ pm_key m = key.
Definition listens (ls : list listener) : Prop := ∃ l, l ∈ ls ∧ li_key l = key.

Lemma persist_mappings_blocked id ls :
  triple (λ w, listens ls ∧ mapped w) (persist_mappings x j id ls) (λ _ _, False) still.
Proof.
  induction ls as [|l ls IH]; cbn.
  { apply triple_ret. intros w [(l & Hl & _) _]. by apply elem_of_nil in Hl. }
  apply (triple_bind _ _ _ (λ _ w, listens (l :: ls) ∧ mapped w)); [keep|intros p].
  apply (triple_bind _ _ _ (λ _ w, listens ls ∧ mapped w)); [|intros []; apply (triple_bind _ _ _ (λ _ w, listens ls ∧ mapped w))].
  - apply triple_exec. intros w w' [(l' & Hl' & Hk) (m & Hm & Hrel & Hkey)]. unfold insert_port_mapping.
    repeat (case_match; try done). intros [= <-]. split; [|exists m; cbn; set_solver].
    apply elem_of_cons in Hl' as [->|Hl']; [exfalso|by exists l'].
    match goal with E : exists_row (λ m, _ && bool_decide (pm_key m = _)) _ = false |- _ =>
      eapply exists_row_false in E; [|exact Hm]; cbn in E end.
    rewrite !bool_decide_eq_true_2 in * by congruence. done.
  - destruct (li_primary l); [|by apply triple_ret]. apply triple_ignore; [|done].
    intros w w' Hw. unfold set_release_port. case_match; [|done]. by intros [= <-].
  - intros []. exact IH.
Qed.
Lemma map_listeners_listens P reserved raw item :
  AObj item ∈ raw → truthy (get item "mappingEnabled") = true → key = default "" (as_string (get item "key")) →
  triple P (map_listeners j reserved raw) (λ ls w, listens ls ∧ P w) still.
Proof.
  intros Hin Ht Hkey. revert reserved. induction raw as [|v raw IH]; intros reserved; [by apply elem_of_nil in Hin|]. cbn.
  apply elem_of_cons in Hin as [<-|Hin].
  - cbn. rewrite Ht. destruct (port_of _); [|by apply triple_exit].
    apply (triple_bind _ _ _ (λ _, P)); [unfold allocateConfiguredHostPort; keep|intros p].
    apply (triple_bind _ _ _ (λ _, P)); [apply map_listeners_keeps|intros rest].
    apply triple_ret. intros w Hw. split; [|done]. eexists. split; [left|done].
  - specialize (IH Hin). destruct (as_obj v) as [o|]; [|apply IH]. destruct (truthy (get o _)); [|apply IH].
    destruct (port_of _); [|by apply triple_exit].
    apply (triple_bind _ _ _ (λ _, P)); [unfold allocateConfiguredHostPort; keep|intros p].
    eapply triple_bind; [apply IH|intros rest]. apply triple_ret. intros w [(l & Hl & Hk) Hw]. split; [|done].
    exists l. split; [by right|done].
Qed.

Context (route item : obj) (raw : list any).
Hypothesis Hroute : snapshot_map (rl_snapshot r) "route_spec" = Some route.
Hypothesis Hraw : as_arr (get route "listeners") = Some raw.
Hypothesis Hitem : AObj item ∈ raw.
Hypothesis Hmapping : truthy (get item "mappingEnabled") = true.
Hypothesis Hkey : key = default "" (as_string (get item "key")).
Lemma start_phase_blocked c : triple mapped (start_phase cfg x j r c) (λ _ _, False) still.
Proof using Hroute Hraw Hitem Hmapping Hkey.
  unfold start_phase, configuredProductImage. eapply (triple_bind _ _ _ (λ _, mapped)); [keep|intros a].
  destruct (snapshot_text _ _); [|by apply triple_exit]. destruct (snapshot_map _ "runtime_spec"); [|by apply triple_exit].
  rewrite Hroute. destruct (snapshot_map _ "secret_versions"); [|by apply triple_exit].
  apply (triple_bind _ _ _ (λ _, mapped)); [keep; apply loadWorkerDockerSettings_keeps|intros image].
  apply (triple_bind _ _ _ (λ _, mapped)); [keep|intros declared].
  apply (triple_bind _ _ _ (λ _, mapped)); [apply release_secrets_keeps|intros secretEnv]. cbv zeta.
  apply (triple_bind _ _ _ (λ ls w, listens ls ∧ mapped w)).
  { apply triple_handle_exit; [|intros e; by apply triple_exit]. unfold routePortMappings. rewrite Hraw.
    destruct raw as [|v raw']; [by apply elem_of_nil in Hitem|]. by eapply map_listeners_listens. }
  intros ls. apply (triple_bind _ _ _ (λ _ w, listens ls ∧ mapped w)); [keep|intros id].
  apply (triple_bind _ _ _ (λ _ w, listens ls ∧ mapped w)); [|intros []].
  { destruct (bool_decide _); [by apply triple_ret|]. apply triple_ignore; [|done]. by intros w w' Hw [= <-]. }
  apply (triple_bind _ _ _ (λ _ w, listens ls ∧ mapped w)); [keep|intros []]. apply persist_mappings_blocked.
Qed.
End ports.

Section blocked.
Context `{GoRange} `{Secrets} `{UnicodeLower} (cfg : worker_config) (env : pass_env) (d : deploy_t).
Context (x : docker) (j : deploy_job) (r : release) (a : dapp) (route item : obj) (raw : list any).

(** A deployment whose release already has a row in app_port_mappings for
    one of its listeners is never started: while it is the oldest deployment
    that is due, no pass moves any deployment, whatever Docker answers.  The
    rows of a release outlive the suspension of its application, and a recovery
    deploys that very release again. *)
Theorem mapped_release_blocks orc orc' :
  claim_job (p_unlocked env) (p_now env) d = Ok (j, r, a) → dj_state j = DeploymentStarting →
  p_docker env = Some x →
  snapshot_map (rl_snapshot r) "route_spec" = Some route → as_arr (get route "listeners") = Some raw →
  AObj item ∈ raw → truthy (get item "mappingEnabled") = true →
  mapped j (default "" (as_string (get item "key"))) d →
  let '(p, w) := deploy_pass cfg env orc orc' d in
  (p = Stalled ∨ p = NoJob) ∧ w = d ∨ ∃ id c, p = JobFailed id c.
Proof.
  intros Hclaim Hstate Hdocker Hroute Hraw Hitem Hmap Hm.
  assert (ends stalled (λ w, w = d) (processOne cfg env d) (λ _ _, False) still) as Hends.
  { unfold processOne. eapply ends_bind; [apply triple_begin|done|intros []]. cbv beta.
    apply ends_claim; [done..|]. intros w c -> Hc. rewrite Hclaim in Hc. injection Hc as <-. cbv beta iota.
    rewrite Hdocker, Hstate. eapply (ends_bind _ _ _ _ (λ _ _, False)); [|done|intros failure].
    { apply (triple_bind _ _ _ (λ _ _, False)); [|intros []; by apply triple_ret]. apply (triple_pre (mapped j (default "" (as_string (get item "key"))))).
      { by intros ? ->. }
      by eapply start_phase_blocked. }
    destruct (next_state j failure) as [next|]; [|by apply ends_exit].
    eapply (ends_bind _ _ _ _ (λ _ _, False)); [by apply triple_exec; intros ? ? []|done|intros []].
    eapply ends_bind; [apply enter_spec|done|intros mr]. eapply ends_bind; [apply sp_exec|done|intros []].
    apply (ends_commit _ _ _ (λ _, True)); [done|by apply closing_ret|]. by intros p w _ (? & (? & [] & _) & _). }
  unfold deploy_pass. pose proof (run_ends stalled _ _ _ _ orc d Hends eq_refl) as [[Hd Hp]|[]].
  destruct (run stalled (processOne cfg env d) orc d) as [p d1]. cbn in *. subst d1.
  destruct p as [| |id c|]; [left; auto|left; auto|right; eauto|done].
Qed.
End blocked.
