(* ===== verification/DeployRuns.v ===== *)
(** * Runs of the deployment worker

    Concrete deployments: the theorems on passes at inputs where their
    hypotheses hold. *)
From S2P Require Import Prelude GoStrings Regex GoValue GoTime Domain Tx Table Schema Http RuntimeSpec Crypto Names Health DeployDb Triple Deploy DeployFacts DeployPorts.
From stdpp Require Import list gmap.
Open Scope string_scope.
Open Scope Z_scope.
Open Scope list_scope.

Module Fleet.
#[export] Instance range : GoRange := map_order.
#[export] Instance lower : UnicodeLower := AsciiLower.
#[export] Instance clear : Secrets := {| decrypt := λ _ s, Some s |}.

Definition app : string := "6f2c9a10-1111-4aaa-8bbb-000000000001".
Definition rel : string := "6f2c9a10-2222-4aaa-8bbb-000000000002".
Definition config : worker_config :=
  {| runtimeOwner := "cloudmeter"; runtimeScope := ""; routerContainer := "router"; egressProxyContainer := "";
     egressToken := ""; backupHelperImage := "helper" |}.
Definition web : obj :=
  list_to_map [("key", AStr "web"); ("mappingEnabled", ABool true); ("primary", ABool true);
               ("containerPort", ANum (f_of_Z 8080))].
Definition route_spec : obj := list_to_map [("port", ANum (f_of_Z 8080)); ("listeners", AArr [AObj web])].
Definition snapshot : any := AObj (list_to_map [("image_digest", AStr "nginx"); ("route_spec", AObj route_spec)]).
Definition release (s : release_state) (port : option Z) : release :=
  {| rl_id := rel; rl_app := app; rl_version := "v-1"; rl_number := 1; rl_snapshot := snapshot; rl_state := s; rl_container := "c-1"; rl_host_port := port; rl_created := 0 |}.
Definition application (s : app_status) (last : option string) : dapp :=
  {| da_id := app; da_user := "u-1"; da_product := "p-1"; da_service := "web"; da_instance := app; da_status := s;
     da_suspension := None; da_billing_at := None; da_last := last; da_mapping := true; da_label := "shop";
     da_created := 0 |}.
Definition job (operation : string) (s : DeploymentState) (n : Z) : deploy_job :=
  {| dj_id := "j-1"; dj_app := app; dj_release := rel; dj_key := "k-1"; dj_source := None; dj_state := s; dj_operation := operation; dj_attempts := n;
     dj_available := 0; dj_created := 0; dj_error := None |}.
Definition move (a b : DeploymentState) : deploy_event :=
  {| de_job := "j-1"; de_from := a; de_to := b; de_message := Progressed |}.
Definition web_mapping : port_mapping :=
  {| pm_app := app; pm_release := rel; pm_key := "web"; pm_port := 8080; pm_host_port := 20000; pm_remark := "" |}.
Definition fleet (a : dapp) (r : DeployDb.release) (j : deploy_job) (pm : list port_mapping) (ev : list deploy_event) : deploy_t :=
  {| dapps := [a]; releases := [r]; jobs := [j]; routes := []; port_mappings := pm; events := ev; unit_events := [];
     recovered_notices := []; prices := []; secret_versions := [];
     settings := {| ds_port_min := 20000; ds_port_max := 20010; ds_domain := "Apps.example."; ds_registry := "";
                    ds_registry_user := ""; ds_registry_password := ""; ds_pull_timeout := 300 |} |}.
(** A first deployment that is about to switch its route. *)
Definition switching : deploy_t :=
  fleet (application AppDeploying None) (release RelCreated (Some 20000)) (job "deploy" DeploymentSwitching 4) [web_mapping]
    [move DeploymentQueued DeploymentPulling; move DeploymentPulling DeploymentStarting;
     move DeploymentStarting DeploymentChecking; move DeploymentChecking DeploymentSwitching].
(** The recovery of an application that was suspended while it ran. *)
Definition recovering : deploy_t :=
  fleet (application AppUpdating (Some rel)) (release RelActive (Some 20000)) (job "billing_recovery" DeploymentStarting 2)
    [web_mapping] [move DeploymentQueued DeploymentPulling; move DeploymentPulling DeploymentStarting].
Definition engine : docker :=
  {| x_ensure_network := λ _, Ok tt; x_connect_network := λ _ _ _, Ok tt; x_image_exists := λ _, true;
     x_pull := λ _, Ok tt; x_pull_registry := λ _ _ _ _, Ok tt; x_healthy := λ _, Ok true;
     x_create := λ _ _ _ _ _ _, Ok "c-2"; x_start := λ _, Ok tt; x_published_port := λ _ _, Ok 20001;
     x_probe := λ _ _ _ _ _, Ok tt; x_gateway := λ _, Ok "172.17.0.1" |}.
Definition env : pass_env := {| p_now := 10; p_unlocked := λ _, true; p_docker := Some engine |}.

Example switches : (deploy_pass config env no_faults no_faults switching).1 = Advanced DeploymentSucceeded [].
Proof. vm_compute. reflexivity. Qed.
Example stalls : (deploy_pass config env no_faults no_faults recovering).1 = Stalled.
Proof. vm_compute. reflexivity. Qed.

Ltac one := repeat match goal with
  | H : _ ∈ [_] |- _ => apply list_elem_of_singleton in H; subst
  | H : _ ∈ [] |- _ => by apply elem_of_nil in H
  end.
Lemma fleet_ok a r j pm ev :
  (terminal_job j = false → da_id a = dj_app j →
   da_last a = Some (dj_release j) ↔ isRecoveryOperation (dj_operation j) = true) →
  (rl_app r = da_id a → rl_state r = RelActive ↔ da_last a = Some (rl_id r)) →
  trace deployment_step DeploymentQueued (history (dj_id j) (fleet a r j pm ev)) (dj_state j) →
  dj_attempts j = Z.of_nat (List.length (history (dj_id j) (fleet a r j pm ev))) → attempts_fit (dj_state j) (dj_attempts j) →
  deploy_ok (fleet a r j pm ev).
Proof.
  intros. constructor; cbn; try apply NoDup_singleton; intros; one; try done; auto.
Qed.
Ltac steps := repeat (econstructor; [reflexivity|]); constructor.
Lemma switching_ok : deploy_ok switching.
Proof. apply fleet_ok; try done. steps. Qed.
Lemma recovering_ok : deploy_ok recovering.
Proof. apply fleet_ok; try done. steps. Qed.
End Fleet.
#[local] Existing Instances Fleet.range Fleet.lower Fleet.clear.

Lemma deploy_pass_keeps_witness :
  deploy_ok Fleet.switching ∧ deploy_ok (deploy_pass Fleet.config Fleet.env no_faults no_faults Fleet.switching).2.
Proof. split; [apply Fleet.switching_ok|apply deploy_pass_keeps, Fleet.switching_ok]. Defined.
Lemma deployments_end_witness :
  remaining Fleet.switching = 8 ∧
  Z.of_nat (List.length (List.filter is_advance
    (passes Fleet.config [(Fleet.env, no_faults, no_faults); (Fleet.env, no_faults, no_faults)] Fleet.switching).1)) <= 8.
Proof.
  split; [reflexivity|]. change 8 with (remaining Fleet.switching) at 1.
  apply (deployments_end Fleet.config [(Fleet.env, no_faults, no_faults); (Fleet.env, no_faults, no_faults)]), Fleet.switching_ok.
Defined.
(** The recovery stalls, and the deployment queue with it. *)
Lemma mapped_release_blocks_witness :
  deploy_ok Fleet.recovering ∧
  let '(p, w) := deploy_pass Fleet.config Fleet.env no_faults no_faults Fleet.recovering in
  (p = Stalled ∨ p = NoJob) ∧ w = Fleet.recovering ∨ ∃ id c, p = JobFailed id c.
Proof.
  split; [apply Fleet.recovering_ok|].
  apply (mapped_release_blocks Fleet.config Fleet.env Fleet.recovering Fleet.engine
    (Fleet.job "billing_recovery" DeploymentStarting 2) (Fleet.release RelActive (Some 20000))
    (Fleet.application AppUpdating (Some Fleet.rel)) Fleet.route_spec Fleet.web [AObj Fleet.web]).
  - vm_compute. reflexivity.
  - reflexivity.
  - reflexivity.
  - vm_compute. reflexivity.
  - vm_compute. reflexivity.
  - left.
  - vm_compute. reflexivity.
  - exists Fleet.web_mapping. split; [left|split; vm_compute; reflexivity].
Defined.
Lemma map_listeners_ports_witness :
  ∃ ls s', map_listeners (Fleet.job "deploy" DeploymentStarting 2) [] [AObj Fleet.web; AObj Fleet.web] no_faults
             (start (Fleet.switching)) = (Val ls, s') ∧
    li_host_port <$> ls = [20001; 20002] ∧ fresh_ports [] Fleet.switching ls.
Proof.
  destruct (map_listeners (Fleet.job "deploy" DeploymentStarting 2) [] [AObj Fleet.web; AObj Fleet.web] no_faults
             (start (Fleet.switching))) as [o s'] eqn:E.
  destruct o as [ls|e|r]; [|by vm_compute in E..]. exists ls, s'. split; [done|]. split.
  - vm_compute in E. by injection E as <- _.
  - by apply map_listeners_ports in E as (_ & _ & E).
Defined.

(** Names: an instance and a release of the worker, and two stacks. *)
Lemma runtimeContainerIdentity_containerName_witness :
  runtimeContainerIdentity "0123456789" (containerName "0123456789" Fleet.app Fleet.rel)
    = Some (Fleet.app, Fleet.rel, bool_decide ("0123456789" = "")).
Proof.
  apply runtimeContainerIdentity_containerName; [vm_compute; reflexivity..|]. right. vm_compute. reflexivity.
Defined.
