(* ===== verification/Catalog.v ===== *)
(** * The catalog of products

    internal/httpapi: createProduct, createProductVersion and
    publishProductVersion of server.go, product_lifecycle.go,
    version_lifecycle.go, deleteProduct of resource_deletion.go,
    startProductVersionTest of product_test_features.go, and the dependency
    graph of product_dependencies.go, on the tables app_products,
    app_product_versions and app_product_version_tests (migrations 1, 51, 52,
    54, 72 and 74).  The specifications in the tables passed the checks of the
    handlers before they were inserted; the CHECK constraints that repeat these
    checks, and the trigger that repeats validateProductDependencies under the
    same lock, are not modelled. *)
From S2P Require Import Prelude GoStrings Regex GoValue GoTime Tx Table Ledger Schema Http RuntimeSpec ProductSpec Graph Names Health DeployDb.
From stdpp Require Import list gmap.
Open Scope string_scope.
Open Scope Z_scope.
Open Scope list_scope.

Inductive product_status := ProductDraft | ProductTesting | ProductPublished | ProductRetired.
#[export] Instance product_status_eq_dec : EqDecision product_status.
Proof. solve_decision. Defined.
Inductive test_state := TestQueued | TestPulling | TestStarting | TestChecking | TestSucceeded | TestFailed | TestCancelled.
#[export] Instance test_state_eq_dec : EqDecision test_state.
Proof. solve_decision. Defined.
Record product := {
  pd_id : string; pd_slug : string; pd_name : string; pd_icon : string; pd_status : product_status;
  pd_deleted : option timestamp
}.
Record product_version := {
  pv_id : string; pv_product : string; pv_version : Z; pv_label : string; pv_image : string; pv_runtime : obj;
  pv_route : obj; pv_health : obj; pv_update : obj; pv_published : option timestamp; pv_archived : option timestamp;
  pv_deleted : option timestamp
}.
(** Why a test is not healthy: the container is not running, the product asks
    for a simulated failure, or a probe of its address failed.  The texts of
    Docker are kept. *)
Inductive health_detail :=
  | ContainerPending (diagnostics : string) | HealthSimulated | HealthProbe (target error diagnostics : string).
(** The stages of a test at which it fails (the texts written to last_error,
    whose redaction is not modelled). *)
Inductive test_cause :=
  | NoDockerEngine | SnapshotUnreadable | ImagePull (error : cause) | ProbePull (error : string)
  | ContainerStart (error : string) | SecretUnreadable | ContainerImage (error : cause) | HealthCheck (error : string) | HealthExhausted (detail : option health_detail)
  | HealthPending (detail : health_detail).
Record version_test := {
  vt_id : string; vt_version : string; vt_requested : string; vt_snapshot : obj; vt_secrets : gmap string string;
  vt_state : test_state; vt_attempts : Z; vt_health : Z; vt_available : timestamp; vt_error : option test_cause;
  vt_started : option timestamp; vt_completed : option timestamp; vt_created : timestamp; vt_updated : timestamp
}.
Record test_cancellation := { tc_test : string; tc_by : string; tc_requested : timestamp; tc_processed : option timestamp }.
(** [version_releases]: the version of each row of app_releases. *)
Record catalog_t := {
  products : list product; versions : list product_version; tests : list version_test;
  cancellations : list test_cancellation; version_releases : list string; catalog_audits : list audit_row;
  image_settings : deploy_settings
}.
Definition upd_products f (c : catalog_t) : catalog_t :=
  {| products := f (products c); versions := versions c; tests := tests c; cancellations := cancellations c; version_releases := version_releases c;
     catalog_audits := catalog_audits c; image_settings := image_settings c |}.
Definition upd_versions f (c : catalog_t) : catalog_t :=
  {| products := products c; versions := f (versions c); tests := tests c; cancellations := cancellations c; version_releases := version_releases c;
     catalog_audits := catalog_audits c; image_settings := image_settings c |}.
Definition upd_tests f (c : catalog_t) : catalog_t :=
  {| products := products c; versions := versions c; tests := f (tests c); cancellations := cancellations c; version_releases := version_releases c;
     catalog_audits := catalog_audits c; image_settings := image_settings c |}.
Definition upd_cancellations f (c : catalog_t) : catalog_t :=
  {| products := products c; versions := versions c; tests := tests c; cancellations := f (cancellations c);
     version_releases := version_releases c; catalog_audits := catalog_audits c; image_settings := image_settings c |}.
Definition upd_catalog_audits f (c : catalog_t) : catalog_t :=
  {| products := products c; versions := versions c; tests := tests c; cancellations := cancellations c; version_releases := version_releases c;
     catalog_audits := f (catalog_audits c); image_settings := image_settings c |}.

(** ** Rows *)
Definition product_is (id : string) (p : product) : bool := bool_decide (pd_id p = id).
Definition version_of (id product : string) (v : product_version) : bool :=
  bool_decide (pv_id v = id) && bool_decide (pv_product v = product).
Definition is_published (v : product_version) : bool := is_some (pv_published v).
(** Published and not deleted. *)
Definition offered (v : product_version) : bool := is_published v && negb (is_some (pv_deleted v)).
Definition test_ended (t : version_test) : bool := bool_decide (vt_state t ∈ [TestSucceeded; TestFailed; TestCancelled]).
Definition with_status (s : product_status) (p : product) : product :=
  {| pd_id := pd_id p; pd_slug := pd_slug p; pd_name := pd_name p; pd_icon := pd_icon p; pd_status := s; pd_deleted := pd_deleted p |}.
Definition set_status (id : string) (s : product_status) (c : catalog_t) : result sqlerr catalog_t :=
  Ok (upd_products (update (product_is id) (with_status s)) c).
Definition with_marks (published archived deleted : option timestamp) (v : product_version) : product_version :=
  {| pv_id := pv_id v; pv_product := pv_product v; pv_version := pv_version v; pv_label := pv_label v; pv_image := pv_image v;
     pv_runtime := pv_runtime v; pv_route := pv_route v; pv_health := pv_health v; pv_update := pv_update v;
     pv_published := published; pv_archived := archived; pv_deleted := deleted |}.
Definition select_product (id : string) (c : catalog_t) : result sqlerr product := select (product_is id) (products c).
Definition select_version (id product : string) (c : catalog_t) : result sqlerr product_version :=
  select (version_of id product) (versions c).
Definition record_catalog (actor : option string) (action rtype rid request : string) (meta : jsonb) (c : catalog_t) :
    result sqlerr catalog_t :=
  Ok (upd_catalog_audits (λ t, t ++ [{| au_actor := actor; au_subject := None; au_action := action; au_rtype := rtype;
        au_rid := rid; au_request := request; au_meta := meta |}]) c).
Definition active_tests (product : string) (c : catalog_t) : Z :=
  count_rows (λ t, negb (test_ended t) && exists_row (λ v, bool_decide (pv_id v = vt_version t) && bool_decide (pv_product v = product)) (versions c))
    (tests c).

(** ** The dependency graph (product_dependencies.go) *)
(** dependency->>'productId' of the elements of spec->'dependencies'. *)
Definition dependency_targets (spec : obj) : list string :=
  omap (λ item, entry ← as_obj item; as_string (get entry "productId")) (default [] (as_arr (get spec "dependencies"))).
Definition version_edges (v : product_version) : list (string * string) :=
  pair (pv_product v) <$> List.filter (match_string uuidPattern) (dependency_targets (pv_runtime v)).
Definition dependency_edges (vs : list product_version) : list (string * string) :=
  mjoin (version_edges <$> List.filter is_published vs).
(** Published products other than [id] with a published version [among] that
    depends on [id]. *)
Definition depended_on (id : string) (among : product → product_version → bool) (c : catalog_t) : bool :=
  exists_row (λ p, negb (bool_decide (pd_id p = id)) && bool_decide (pd_status p = ProductPublished)
    && exists_row (λ v, bool_decide (pv_product v = pd_id p) && is_published v && among p v
                        && bool_decide (id ∈ dependency_targets (pv_runtime v))) (versions c)) (products c).
Definition dependency_available (id : string) (c : catalog_t) : bool :=
  exists_row (λ p, product_is id p && bool_decide (pd_status p = ProductPublished)) (products c)
  && exists_row (λ v, bool_decide (pv_product v = id) && is_published v) (versions c).
Inductive dependency_problem :=
  | DependencyInvalid (e : spec_error) | DependencySelf (key : string) | DependencyUnavailable (key : string)
  | DependencyCycle (key : string).
#[global] Instance dependency_problem_inhabited : Inhabited dependency_problem := populate (DependencySelf "").

Section handlers.
Context `{GoRange} `{UuidSyntax} `{UnicodeLower} (rq : request).
(** url.ParseRequestURI: whether the text is a request URI with the scheme http
    or https and a host. *)
Context (http_url : string → bool).
(** The secret box's Encrypt, with the nonces of the run. *)
Context (encrypt : string → string → option string).
#[local] Abbreviation handler := (tx catalog_t response).

Definition lockProductDependencyGraph : handler unit := exec Ok.
Fixpoint check_dependencies (productID : string) (deps : list Dependency) : handler (option dependency_problem) :=
  match deps with
  | [] => mret None
  | d :: deps =>
      if bool_decide (dep_ProductID d = productID) then mret (Some (DependencySelf (dep_Key d)))
      else
        available ← query (λ c, Ok (dependency_available (dep_ProductID d) c));
        if negb available then mret (Some (DependencyUnavailable (dep_Key d)))
        else
          cyclic ← query (λ c, Ok (bool_decide (productID ∈ reachable (dependency_edges (versions c)) (dep_ProductID d))));
          if cyclic : bool then mret (Some (DependencyCycle (dep_Key d))) else check_dependencies productID deps
  end.
Definition validateProductDependencies (productID : string) (runtimeSpec : obj) : handler (option dependency_problem) :=
  match RuntimeDependencies runtimeSpec with
  | Err e => mret (Some (DependencyInvalid e))
  | Ok deps => check_dependencies productID deps
  end.
(** [if err = validateProductDependencies(...); err != nil { answer r }]: a
    failed query is answered in the same way. *)
Definition require_dependencies (productID : string) (runtimeSpec : obj) (r : response) : handler unit :=
  problem ← on_error (validateProductDependencies productID runtimeSpec) r;
  guard_exit (is_some problem) r.

(** ** Products *)
Definition maxProductNameCharacters : Z := 120.
Definition appSlugPattern : regex := RCat (RCls [r_lower; r_digit]) (rrep 0 62 (RCls [r_lower; r_digit; r_one "-"])).
Definition normalizeProductDetails (slug name : string) : option (string * string) :=
  let slug := to_lower (trim_space slug) in
  let name := trim_space name in
  if negb (match_string appSlugPattern slug) then None
  else if bool_decide (name = "") || (maxProductNameCharacters <? rune_count name) then None
  else Some (slug, name).
Definition normalizeProductName (name : string) : option string := snd <$> normalizeProductDetails "product" name.
Definition normalizeProductIconURL (value : string) : option string :=
  let value := trim_space value in
  if bool_decide (value = "") then Some ""
  else if negb (http_url value) || (2048 <? slen value) then None else Some value.
Definition insert_product (row : product) (c : catalog_t) : result sqlerr catalog_t :=
  if exists_row (product_is (pd_id row)) (products c) then Err (Constraint "app_products_pkey")
  else if exists_row (λ p, bool_decide (pd_slug p = pd_slug row) && negb (is_some (pd_deleted p))) (products c)
  then Err (Constraint "app_products_slug_key")
  else Ok (upd_products (λ t, t ++ [row]) c).
Definition status_text (s : product_status) : string :=
  match s with ProductDraft => "draft" | ProductTesting => "testing" | ProductPublished => "published" | ProductRetired => "retired" end.
(** [body]: the slug, the name and the icon of the request. *)
Definition createProduct (body : option (string * string * string)) (id : string) : handler response :=
  match body with
  | None => exit (RError 400 "invalid_request")
  | Some (slug, name, icon) =>
    match normalizeProductDetails slug name with
    | None => exit (RError 400 "validation_failed")
    | Some (slug, name) =>
      begin_tx;;
      match normalizeProductIconURL icon with
      | None => exit (RError 400 "validation_failed")
      | Some icon =>
        handle (exec (insert_product {| pd_id := id; pd_slug := slug; pd_name := name; pd_icon := icon;
                  pd_status := ProductDraft; pd_deleted := None |}))
          (λ e, match e with
                | Constraint "app_products_slug_key" => exit (RError 409 "slug_exists")
                | e => throw e
                end);;
        exec (record_catalog (Some (principal rq)) "product.create" "app_product" id (request_id rq)
                [("slug", JStr slug); ("name", JStr name)]);;
        commit;;
        mret (RJson 201 [("id", JStr id); ("slug", JStr slug); ("name", JStr name); ("status", JStr "draft")])
      end
    end
  end.
Definition with_name (name icon : string) (p : product) : product :=
  {| pd_id := pd_id p; pd_slug := pd_slug p; pd_name := name; pd_icon := icon; pd_status := pd_status p; pd_deleted := pd_deleted p |}.
Definition updateProduct (path : string) (body : option (string * string)) : handler response :=
  let productID := trim_space path in
  guard_exit (negb (valid_uuid productID)) (RError 400 "validation_failed");;
  match body with
  | None => exit (RError 400 "invalid_request")
  | Some (name, icon) =>
    match normalizeProductName name, normalizeProductIconURL icon with
    | Some name, Some icon =>
      begin_tx;;
      p ← on_no_rows (query (select_product productID)) (exit (RError 404 "product_not_found"));
      let answer idempotent := RJson 200 [("id", JStr productID); ("slug", JStr (pd_slug p)); ("name", JStr name);
        ("iconUrl", JStr icon); ("status", JStr (status_text (pd_status p))); ("idempotent", JBool idempotent)] in
      if bool_decide (pd_name p = name) && bool_decide (pd_icon p = icon) then exit (answer true)
      else
        exec (λ c, Ok (upd_products (update (product_is productID) (with_name name icon)) c));;
        exec (record_catalog (Some (principal rq)) "product.update" "app_product" productID (request_id rq)
                [("slug", JStr (pd_slug p)); ("previous_name", JStr (pd_name p)); ("name", JStr name)]);;
        commit;;
        mret (answer false)
    | _, _ => exit (RError 400 "validation_failed")
    end
  end.

(** *** Availability *)
Definition restoredProductStatus (hasPublishedVersion hasTestHistory : bool) : product_status :=
  if hasPublishedVersion then ProductPublished else if hasTestHistory then ProductTesting else ProductDraft.
Definition version_le (v w : product_version) : bool := pv_version v <=? pv_version w.
Definition offered_specs (productID : string) (c : catalog_t) : list obj :=
  pv_runtime <$> sort_by version_le (List.filter (λ v, bool_decide (pv_product v = productID) && offered v) (versions c)).
Definition restore_product (productID : string) : handler product_status :=
  history ← query (λ c, Ok (
    exists_row (λ v, bool_decide (pv_product v = productID) && offered v) (versions c),
    exists_row (λ t, exists_row (λ v, version_of (vt_version t) productID v) (versions c)) (tests c)));
  (if history.1 : bool then
     specs ← query (λ c, Ok (offered_specs productID c));
     for_each (λ spec, require_dependencies productID spec (RError 409 "product_dependency_conflict")) specs
   else mret tt);;
  mret (restoredProductStatus history.1 history.2).
Definition retire_product (productID : string) : handler product_status :=
  activeTests ← query (λ c, Ok (active_tests productID c));
  guard_exit (0 <? activeTests) (RError 409 "product_test_in_progress");;
  dependents ← query (λ c, Ok (depended_on productID (λ _ v, negb (is_some (pv_deleted v))) c));
  guard_exit dependents (RError 409 "product_is_dependency");;
  mret ProductRetired.
(** [body]: the field enabled, [None] inside when it is missing. *)
Definition updateProductAvailability (path : string) (body : option (option bool)) : handler response :=
  let productID := trim_space path in
  guard_exit (negb (valid_uuid productID)) (RError 400 "validation_failed");;
  match body with
  | None => exit (RError 400 "invalid_request")
  | Some None => exit (RError 400 "validation_failed")
  | Some (Some enabled) =>
    begin_tx;;
    lockProductDependencyGraph;;
    p ← on_no_rows (query (select_product productID)) (exit (RError 404 "product_not_found"));
    let retired := bool_decide (pd_status p = ProductRetired) in
    target ← (if enabled : bool then if retired then restore_product productID else mret (pd_status p)
              else if negb retired then retire_product productID else mret (pd_status p));
    let answer s idempotent := RJson 200 [("id", JStr productID); ("slug", JStr (pd_slug p)); ("name", JStr (pd_name p));
      ("status", JStr (status_text s)); ("enabled", JBool (negb (bool_decide (s = ProductRetired)))); ("idempotent", JBool idempotent)] in
    if bool_decide (target = pd_status p) then exit (answer (pd_status p) true)
    else
      exec (set_status productID target);;
      exec (record_catalog (Some (principal rq)) "product.availability.update" "app_product" productID (request_id rq)
              [("slug", JStr (pd_slug p)); ("from", JStr (status_text (pd_status p))); ("to", JStr (status_text target));
               ("enabled", JBool enabled)]);;
      commit;;
      mret (answer target false)
  end.
Definition archive_versions (productID : string) (c : catalog_t) : result sqlerr catalog_t :=
  Ok (upd_versions (update (λ v, bool_decide (pv_product v = productID))
        (λ v, with_marks (pv_published v) (Some (default (now rq) (pv_archived v))) (pv_deleted v) v)) c).
Definition mark_product_deleted (productID : string) (c : catalog_t) : result sqlerr catalog_t :=
  Ok (upd_products (update (product_is productID) (λ p,
        {| pd_id := pd_id p; pd_slug := pd_slug p; pd_name := pd_name p; pd_icon := pd_icon p; pd_status := ProductRetired;
           pd_deleted := Some (now rq) |})) c).
Definition deleteProduct (path : string) : handler response :=
  let productID := trim_space path in
  guard_exit (negb (valid_uuid productID)) (RError 400 "validation_failed");;
  begin_tx;;
  p ← on_no_rows (query (select_product productID)) (exit (RError 404 "product_not_found"));
  guard_exit (is_some (pd_deleted p)) (RJson 200 [("id", JStr productID); ("deleted", JBool true); ("idempotent", JBool true)]);;
  guard_exit (negb (bool_decide (pd_status p = ProductRetired))) (RError 409 "product_must_be_retired");;
  activeTests ← query (λ c, Ok (active_tests productID c));
  guard_exit (0 <? activeTests) (RError 409 "product_test_in_progress");;
  dependents ← query (λ c, Ok (depended_on productID (λ p _, negb (is_some (pd_deleted p))) c));
  guard_exit dependents (RError 409 "product_is_dependency");;
  exec (mark_product_deleted productID);;
  exec (archive_versions productID);;
  exec (record_catalog (Some (principal rq)) "product.delete" "app_product" productID (request_id rq)
          [("slug", JStr (pd_slug p)); ("name", JStr (pd_name p))]);;
  commit;;
  mret (RJson 200 [("id", JStr productID); ("deleted", JBool true); ("instancesPreserved", JBool true)]).

(** ** Versions *)
Record createVersionRequest := {
  cv_VersionLabel : string; cv_ImageDigest : string; cv_RuntimeSpec : obj; cv_RouteSpec : obj; cv_HealthSpec : obj;
  cv_UpdateSpec : obj
}.
Definition next_version (productID : string) (c : catalog_t) : Z :=
  foldr Z.max 0 (pv_version <$> List.filter (λ v, bool_decide (pv_product v = productID)) (versions c)) + 1.
Definition insert_version (row : product_version) (c : catalog_t) : result sqlerr catalog_t :=
  if exists_row (λ v, bool_decide (pv_id v = pv_id row)) (versions c) then Err (Constraint "app_product_versions_pkey")
  else if exists_row (λ v, bool_decide (pv_product v = pv_product row) && (pv_version v =? pv_version row)) (versions c)
  then Err (Constraint "app_product_versions_product_id_version_key")
  else Ok (upd_versions (λ t, t ++ [row]) c).
(** The checks before the transaction: the label and the specifications as they
    are stored. *)
Definition version_request (body : option createVersionRequest) : result response (string * string * obj * (obj * obj * obj)) :=
  match body with
  | None => Err (RError 400 "invalid_request")
  | Some req =>
      let label := trim_space (cv_VersionLabel req) in
      let bad := RError 400 "validation_failed" in
      if 64 <? rune_count label then Err bad
      else if negb (is_ok (ValidateImageDigest (cv_ImageDigest req))) then Err bad
      else
        let runtime := <["systemDiskGiB" := ANum DefaultSystemDiskGiB]> (cv_RuntimeSpec req) in
        if negb (is_ok (ValidateRuntimeSpec runtime)) then Err bad
        else match normalizeProductVersionSpecs runtime (cv_RouteSpec req) (cv_HealthSpec req) (cv_UpdateSpec req) with
             | Err _ => Err bad
             | Ok specs => Ok (label, cv_ImageDigest req, runtime, specs)
             end
  end.
Definition createProductVersion (productID : string) (body : option createVersionRequest) (id : string) : handler response :=
  guard_exit (negb (valid_uuid productID)) (RError 400 "validation_failed");;
  match version_request body with
  | Err r => exit r
  | Ok (label, image, runtime, (route, health, update)) =>
    begin_tx;;
    lockProductDependencyGraph;;
    p ← on_no_rows (query (select_product productID)) (exit (RError 404 "product_not_found"));
    guard_exit (bool_decide (pd_status p = ProductRetired)) (RError 409 "product_retired");;
    require_dependencies productID runtime (RError 400 "validation_failed");;
    version ← query (λ c, Ok (next_version productID c));
    exec (insert_version {| pv_id := id; pv_product := productID; pv_version := version; pv_label := label; pv_image := image;
            pv_runtime := runtime; pv_route := route; pv_health := health; pv_update := update; pv_published := None;
            pv_archived := None; pv_deleted := None |});;
    exec (record_catalog (Some (principal rq)) "product.version.create" "app_product_version" id (request_id rq)
            [("product_id", JStr productID); ("version", JInt version); ("image_digest", JStr image)]);;
    commit;;
    mret (RJson 201 [("id", JStr id); ("version", JInt version); ("status", JStr "testing")])
  end.
Definition completed_le (t u : version_test) : bool := default 0 (vt_completed u) <=? default 0 (vt_completed t).
Definition successful_test (versionID : string) (c : catalog_t) : result sqlerr version_test :=
  select (λ t, bool_decide (vt_version t = versionID) && bool_decide (vt_state t = TestSucceeded)) (sort_by completed_le (tests c)).
Definition publish_version (versionID : string) (c : catalog_t) : result sqlerr catalog_t :=
  Ok (upd_versions (update (λ v, bool_decide (pv_id v = versionID))
        (λ v, with_marks (Some (now rq)) (pv_archived v) (pv_deleted v) v)) c).
Definition publishProductVersion (productID versionID : string) : handler response :=
  guard_exit (negb (valid_uuid productID) || negb (valid_uuid versionID)) (RError 400 "validation_failed");;
  begin_tx;;
  lockProductDependencyGraph;;
  p ← on_error (query (select_product productID)) (RError 404 "product_not_found");
  guard_exit (bool_decide (pd_status p = ProductRetired)) (RError 409 "product_retired");;
  v ← on_error (query (select_version versionID productID)) (RError 404 "version_not_found");
  let answer := RJson 200 [("published", JBool true); ("alreadyPublished", JBool (is_published v)); ("versionId", JStr versionID)] in
  if is_published v then commit;; mret answer
  else
    require_dependencies productID (pv_runtime v) (RError 409 "product_dependency_conflict");;
    t ← on_no_rows (query (successful_test versionID)) (exit (RError 409 "successful_test_required"));
    exec (set_status productID ProductPublished);;
    exec (publish_version versionID);;
    exec (record_catalog (Some (principal rq)) "product.publish" "app_product_version" versionID (request_id rq)
            [("product_slug", JStr (pd_slug p)); ("image_digest", JStr (pv_image v)); ("test_id", JStr (vt_id t))]);;
    commit;;
    mret answer.
Definition delete_version (versionID productID : string) (c : catalog_t) : result sqlerr catalog_t :=
  Ok (upd_versions (update (version_of versionID productID)
        (λ v, with_marks (pv_published v) (pv_archived v) (Some (now rq)) v)) c).
Definition deleteProductVersion (product_path version_path : string) : handler response :=
  let productID := trim_space product_path in
  let versionID := trim_space version_path in
  guard_exit (negb (valid_uuid productID) || negb (valid_uuid versionID)) (RError 400 "validation_failed");;
  begin_tx;;
  row ← on_no_rows (query (λ c, v ← select_version versionID productID c; p ← select_product productID c;
          Ok (p, v, count_rows (λ r, bool_decide (r = versionID)) (version_releases c),
              count_rows (λ t, bool_decide (vt_version t = versionID) && negb (test_ended t)) (tests c))))
        (exit (RError 404 "version_not_found"));
  let '(p, v, released, activeTests) := row in
  if is_some (pv_deleted v) then
    ignore commit;;
    mret (RJson 200 [("id", JStr versionID); ("deleted", JBool true); ("idempotent", JBool true)])
  else
    guard_exit (0 <? activeTests) (RError 409 "product_test_in_progress");;
    exec (delete_version versionID productID);;
    exec (record_catalog (Some (principal rq)) "product.version.delete" "app_product_version" versionID (request_id rq)
            [("product_id", JStr productID); ("product_slug", JStr (pd_slug p)); ("release_references", JInt released)]);;
    commit;;
    mret (RJson 200 [("id", JStr versionID); ("deleted", JBool true); ("hardDeleted", JBool (released =? 0))]).

(** ** Tests of a version *)
Definition secret_length_ok (value : string) : bool := negb (bool_decide (value = "")) && (slen value <=? 65536).
(** app_secret_features.go: every declared secret and no other is given. *)
Definition validateInitialSecrets (runtimeSpec : obj) (provided : gmap string string) : bool :=
  match RuntimeSecretKeys runtimeSpec with
  | Err _ => false
  | Ok required =>
      forallb (λ key, match provided !! key with Some value => secret_length_ok value | None => false end) required
      && forallb (λ kv, bool_decide (kv.1 ∈ required) && secret_length_ok kv.2) (go_range provided)
  end.
Fixpoint encrypt_all (prefix : string) (kvs : list (string * string)) : option (gmap string string) :=
  match kvs with
  | [] => Some ∅
  | (key, value) :: kvs =>
      encrypted ← encrypt (prefix ^+ key)%string value;
      rest ← encrypt_all prefix kvs;
      Some (<[key := encrypted]> rest)
  end.
Definition insert_test (row : version_test) (c : catalog_t) : result sqlerr catalog_t :=
  if exists_row (λ t, bool_decide (vt_id t = vt_id row)) (tests c) then Err (Constraint "app_product_version_tests_pkey")
  else if exists_row (λ t, bool_decide (vt_version t = vt_version row) && negb (test_ended t)) (tests c)
  then Err (Constraint "app_product_version_tests_active_unique")
  else Ok (upd_tests (λ t, t ++ [row]) c).
Definition test_snapshot (p : product) (v : product_version) : obj :=
  {["product_slug" := AStr (pd_slug p); "image_digest" := AStr (pv_image v); "runtime_spec" := AObj (pv_runtime v);
    "route_spec" := AObj (pv_route v); "health_spec" := AObj (pv_health v); "update_spec" := AObj (pv_update v)]}.
Definition start_testing (productID : string) (c : catalog_t) : result sqlerr catalog_t :=
  Ok (upd_products (update (λ p, product_is productID p && bool_decide (pd_status p = ProductDraft)) (with_status ProductTesting)) c).
(** [body]: the secrets of the request; a missing map is empty. *)
Definition startProductVersionTest (productID versionID : string) (body : option (gmap string string)) (testID : string) : handler response :=
  guard_exit (negb (valid_uuid productID) || negb (valid_uuid versionID)) (RError 400 "validation_failed");;
  match body with
  | None => exit (RError 400 "invalid_request")
  | Some secrets =>
    begin_tx;;
    row ← on_no_rows (query (λ c, p ← select_product productID c; v ← select_version versionID productID c; Ok (p, v)))
            (exit (RError 404 "version_not_found"));
    let '(p, v) := row in
    guard_exit (bool_decide (pd_status p = ProductRetired)) (RError 409 "product_retired");;
    guard_exit (is_published v) (RError 409 "version_already_published");;
    guard_exit (negb (validateInitialSecrets (pv_runtime v) secrets)) (RError 400 "validation_failed");;
    active ← optional (query (λ c, select (λ t, bool_decide (vt_version t = versionID) && negb (test_ended t)) (tests c)));
    guard_exit (is_some active) (RError 409 "test_in_progress");;
    query (λ _, Ok tt);;
    match encrypt_all ("product.version.test." ^+ testID ^+ ".")%string (go_range secrets) with
    | None => exit internal_error
    | Some encrypted =>
      exec (insert_test {| vt_id := testID; vt_version := versionID; vt_requested := principal rq; vt_snapshot := test_snapshot p v;
              vt_secrets := encrypted; vt_state := TestQueued; vt_attempts := 0; vt_health := 0; vt_available := now rq;
              vt_error := None; vt_started := None; vt_completed := None; vt_created := now rq; vt_updated := now rq |});;
      exec (start_testing productID);;
      exec (record_catalog (Some (principal rq)) "product.test.request" "app_product_version" versionID (request_id rq)
              [("product_id", JStr productID); ("test_id", JStr testID);
               ("secret_keys", JStr (GoStrings.join "," (sort_by String.leb (go_range secrets).*1)))]);;
      commit;;
      mret (RJson 202 [("testId", JStr testID); ("state", JStr "queued")])
    end
  end.
End handlers.
