(* ===== verification/ProductTests.v ===== *)
(** * Tests of product versions

    apps/worker/product_tests.go, and cancelProductVersionTest of
    internal/httpapi/product_test_features.go: a worker moves the test of a
    version through pulling, starting and checking its container; another one
    carries out cancellations; a third one removes what Docker still holds of
    tests that have ended.  The trigger is the one of migration 107. *)
From S2P Require Import Prelude GoStrings Regex GoValue GoTime Tx Table Ledger Schema Http RuntimeSpec Crypto Names Health DeployDb Deploy ProductSpec Graph Catalog.
From stdpp Require Import list gmap.
Open Scope string_scope.
Open Scope Z_scope.
Open Scope list_scope.

(** ** Names *)
Section names.
Context (runtimeScope : string).
Definition scoped_prefix (prefix : string) : string :=
  if bool_decide (runtimeScope = "") then prefix else prefix ^+ runtimeScope ^+ "-".
Definition productTestReconcilePrefix : string := scoped_prefix "cm-test-".
Definition productTestNetworkReconcilePrefix : string := scoped_prefix "cm-test-net-".
Definition productTestHealthReconcilePrefix : string := scoped_prefix "cm-test-health-".
Definition productTestContainerName (id : string) : string := productTestReconcilePrefix ^+ id.
Definition legacyProductTestContainerName (id : string) : string := "cm-test-" ^+ id.
Definition productTestNetworkName (id : string) : string := productTestNetworkReconcilePrefix ^+ remove_byte id "-".
Definition legacyProductTestNetworkName (id : string) : string := "cm-test-net-" ^+ remove_byte id "-".
Definition productTestAlias (id : string) : string := "test-" ^+ take_str 12 (remove_byte id "-").
Definition productTestHealthContainerName (id : string) : string := productTestHealthReconcilePrefix ^+ id.
Definition legacyProductTestHealthContainerName (id : string) : string := "cm-test-health-" ^+ id.
Definition productTestHealthLegacyContainerName (id : string) : string :=
  productTestHealthReconcilePrefix ^+ shorten 12 (remove_byte id "-").
Definition legacyProductTestHealthLegacyContainerName (id : string) : string :=
  "cm-test-health-" ^+ shorten 12 (remove_byte id "-").
Definition regexpCompactUUID : regex := rrep 32 32 r_hex.
Definition regexpHealthPrefix : regex := rrep 12 12 r_hex.
Definition productTestIDFromContainerName (name : string) : option string :=
  let value := trim_prefix name productTestReconcilePrefix in
  if bool_decide (value = name) || negb (match_string regexpUUID value) then None else Some value.
Definition productTestIDFromNetworkName (name : string) : option string :=
  let compact := trim_prefix name productTestNetworkReconcilePrefix in
  if bool_decide (compact = name) || negb (match_string regexpCompactUUID compact) then None
  else
    let id := slice 0 8 compact ^+ "-" ^+ slice 8 4 compact ^+ "-" ^+ slice 12 4 compact ^+ "-" ^+ slice 16 4 compact
              ^+ "-" ^+ slice 20 12 compact in
    if match_string regexpUUID id then Some id else None.
Definition isProductTestHealthContainerName (name : string) : bool :=
  let value := trim_prefix name productTestHealthReconcilePrefix in
  negb (bool_decide (value = name)) && (match_string regexpUUID value || match_string regexpHealthPrefix value).
Definition productTestHealthOwnerActive (name : string) (active : gset string) : bool :=
  let value := trim_prefix name productTestHealthReconcilePrefix in
  if bool_decide (value = name) then false
  else if match_string regexpUUID value then bool_decide (value ∈ active)
  else if negb (match_string regexpHealthPrefix value) then false
  else existsb (λ id, has_prefix (remove_byte id "-") value) (elements active).
(** uniqueStrings. *)
Fixpoint unique_from (seen : gset string) (values : list string) : list string :=
  match values with
  | [] => []
  | v :: values =>
      if negb (bool_decide (v = "")) && negb (bool_decide (v ∈ seen)) then v :: unique_from ({[v]} ∪ seen) values
      else unique_from seen values
  end.
Definition uniqueStrings (values : list string) : list string := unique_from ∅ values.

(** ** Removing what Docker holds of a test *)
Record removals := { rm_containers : list string; rm_networks : list string }.
Definition removals_app (a b : removals) : removals :=
  {| rm_containers := rm_containers a ++ rm_containers b; rm_networks := rm_networks a ++ rm_networks b |}.
Definition no_removals : removals := {| rm_containers := []; rm_networks := [] |}.
Definition cleanupProductVersionTestRuntime (id : string) : removals :=
  {| rm_containers :=
       uniqueStrings [productTestContainerName id; legacyProductTestContainerName id]
       ++ uniqueStrings [productTestHealthContainerName id; productTestHealthLegacyContainerName id;
                         legacyProductTestHealthContainerName id; legacyProductTestHealthLegacyContainerName id];
     rm_networks := uniqueStrings [productTestNetworkName id; legacyProductTestNetworkName id] |}.
Definition reconcile_container (active : gset string) (name : string) : removals :=
  match productTestIDFromContainerName name with
  | Some id => if bool_decide (id ∈ active) then no_removals else cleanupProductVersionTestRuntime id
  | None =>
      if isProductTestHealthContainerName name && negb (productTestHealthOwnerActive name active)
      then {| rm_containers := [name]; rm_networks := [] |} else no_removals
  end.
Definition reconcile_network (active : gset string) (network : string) : removals :=
  match productTestIDFromNetworkName network with
  | Some id => if bool_decide (id ∈ active) then no_removals else cleanupProductVersionTestRuntime id
  | None => no_removals
  end.
(** [containers] and [networks]: what Docker lists under the prefixes. *)
Definition reconcileProductTestContainers (active : gset string) (containers networks : list string) : removals :=
  foldr removals_app no_removals ((reconcile_container active <$> containers) ++ (reconcile_network active <$> networks)).
End names.
Definition activeProductVersionTestIDs (c : catalog_t) : gset string :=
  list_to_set (vt_id <$> List.filter (λ t, negb (test_ended t)) (tests c)).

(** ** The rows of tests *)
Definition productTestMaxHealthAttempts : Z := 8.
Definition test_transition (old new : test_state) : bool :=
  match old, new with
  | TestQueued, (TestPulling | TestFailed | TestCancelled) | TestPulling, (TestStarting | TestFailed | TestCancelled)
  | TestStarting, (TestChecking | TestFailed | TestCancelled)
  | TestChecking, (TestChecking | TestSucceeded | TestFailed | TestCancelled) => true
  | _, _ => false
  end.
Definition test_is (id : string) (t : version_test) : bool := bool_decide (vt_id t = id).
(** An update of one test, with its trigger: a test that has ended is
    immutable, and secrets are only cleared when it ends. *)
Definition write_test (id : string) (f : version_test → version_test) (c : catalog_t) : result sqlerr catalog_t :=
  let hit := List.filter (test_is id) (tests c) in
  if forallb (λ t, negb (test_ended t) && test_transition (vt_state t) (vt_state (f t))
                   && (bool_decide (vt_secrets (f t) = vt_secrets t)
                       || test_ended (f t) && bool_decide (vt_secrets (f t) = ∅))) hit
  then Ok (upd_tests (update (test_is id) f) c) else Err (Constraint "protect_product_version_test_snapshot").
Definition moved_test (now : timestamp) (secrets : gmap string string) (st : test_state) (health : Z) (available : timestamp)
    (err : option test_cause) (started completed : option timestamp) (t : version_test) : version_test :=
  {| vt_id := vt_id t; vt_version := vt_version t; vt_requested := vt_requested t; vt_snapshot := vt_snapshot t;
     vt_secrets := secrets; vt_state := st; vt_attempts := vt_attempts t + 1; vt_health := health; vt_available := available;
     vt_error := err; vt_started := started; vt_completed := completed; vt_created := vt_created t; vt_updated := now |}.
Definition advanced (now : timestamp) (next : test_state) (delay : Z) (t : version_test) : version_test :=
  moved_test now (vt_secrets t) next (vt_health t) (now + delay * second) (vt_error t) (Some (default now (vt_started t)))
    (vt_completed t) t.
Definition retried (now : timestamp) (delay : Z) (why : test_cause) (t : version_test) : version_test :=
  moved_test now (vt_secrets t) (vt_state t) (vt_health t + 1) (now + delay * second) (Some why) (vt_started t) (vt_completed t) t.
Definition completed (now : timestamp) (st : test_state) (why : option test_cause) (t : version_test) : version_test :=
  moved_test now ∅ st (vt_health t) (vt_available t) why (vt_started t) (Some now) t.
Definition test_action (st : test_state) : string :=
  match st with
  | TestSucceeded => "product.test.succeeded" | TestFailed => "product.test.failed" | TestCancelled => "product.test.cancelled"
  | _ => ""
  end.
Definition test_state_text (st : test_state) : string :=
  match st with
  | TestQueued => "queued" | TestPulling => "pulling" | TestStarting => "starting" | TestChecking => "health_checking"
  | TestSucceeded => "succeeded" | TestFailed => "failed" | TestCancelled => "cancelled"
  end.
Definition test_audit (id : string) (st : test_state) (c : catalog_t) : result sqlerr catalog_t :=
  match select (test_is id) (tests c) with
  | Ok t => record_catalog (Some (vt_requested t)) (test_action st) "app_product_version_test" id
              ("worker/product-test/" ^+ id)%string [("state", JStr (test_state_text st))] c
  | Err _ => Ok c
  end.
Definition cancellation_pending (id : string) (c : catalog_t) : bool :=
  exists_row (λ x, bool_decide (tc_test x = id) && negb (is_some (tc_processed x))) (cancellations c).

(** ** One pass of the worker *)
(** What Docker answers; the tests add to it the removal of a container, the
    creation of a test container and the diagnostics of a container. *)
Record test_docker := {
  td_docker : docker; td_remove : string → result string unit;
  td_create : string → string → string → list string → obj → result string unit;
  td_diagnostics : string → Z → result string string
}.
Inductive test_pass :=
  | TestIdle | TestStalled | TestFailing (id : string) (c : test_cause) | TestAdvanced (id : string) (removed : option removals)
  | CancelIdle | CancelStalled (pending : string) | CancelDone (pending id : string).
Abbreviation test_tx := (tx catalog_t test_pass).
Definition claim_order (t u : version_test) : bool := vt_created t <=? vt_created u.

Section worker.
Context `{GoRange} `{Secrets} `{UnicodeLower} (cfg : worker_config) (now : timestamp) (unlocked : string → bool).
#[local] Abbreviation scope := (runtimeScope cfg).
#[local] Abbreviation failing id c := (exit (TestFailing id c)).

Definition advanceProductVersionTest (id : string) (next : test_state) (delay : Z) : test_tx unit :=
  exec (write_test id (advanced now next delay)).
Definition completeProductVersionTest (id : string) (st : test_state) (why : test_cause) : test_tx unit :=
  exec (write_test id (completed now st (if bool_decide (st = TestFailed) then Some why else None)));;
  exec (test_audit id st).

Section runtime.
Context (x : test_docker) (t : version_test).
#[local] Abbreviation id := (vt_id t).
Definition docker_step {A} (c : string → test_cause) (a : result string A) : test_tx A :=
  match a with Ok a => mret a | Err e => failing id (c e) end.
Fixpoint test_secrets (env : obj) (kvs : list (string * string)) : option obj :=
  match kvs with
  | [] => Some env
  | (key, encrypted) :: kvs =>
      value ← decrypt ("product.version.test." ^+ id ^+ "." ^+ key)%string encrypted;
      test_secrets (<[key := AStr value]> env) kvs
  end.
Definition test_proxy_env (env : obj) : obj :=
  let proxyURL := AStr ("http://" ^+ id ^+ ":" ^+ hex_encode (hmac_sha256 (egressToken cfg) id) ^+ "@cloudmeter-egress-proxy:3128")%string in
  let local := AStr "localhost,127.0.0.1,::1" in
  <["no_proxy" := local]> (<["NO_PROXY" := local]> (<["https_proxy" := proxyURL]> (<["http_proxy" := proxyURL]>
    (<["HTTPS_PROXY" := proxyURL]> (<["HTTP_PROXY" := proxyURL]> env))))).
Definition productVersionTestRuntime (runtimeSpec : obj) : option obj :=
  env ← test_secrets (default ∅ (as_obj (get runtimeSpec "env"))) (go_range (vt_secrets t));
  let env := if bool_decide (egressProxyContainer cfg = "") || bool_decide (egressToken cfg = "") then env
             else test_proxy_env env in
  let runtime := if bool_decide (env = ∅) then runtimeSpec else <["env" := AObj env]> runtimeSpec in
  Some (<["testId" := AStr id]> runtime).
Definition startProductVersionTestContainer (committed : catalog_t) (image : string) (runtime : obj) : test_tx unit :=
  let network := productTestNetworkName scope id in
  let container := productTestContainerName scope id in
  docker_step ContainerStart (x_ensure_network (td_docker x) network);;
  (if bool_decide (egressProxyContainer cfg = "") then mret tt
   else docker_step ContainerStart (x_connect_network (td_docker x) network (egressProxyContainer cfg) "cloudmeter-egress-proxy"));;
  match productVersionTestRuntime runtime with
  | None => failing id SecretUnreadable
  | Some runtimeSpec =>
      docker_step ContainerStart (td_remove x container);;
      image ← configuredProductImage (λ A c, failing id (ContainerImage c)) image_settings committed image;
      docker_step ContainerStart (td_create x container image network [productTestAlias id] runtimeSpec);;
      docker_step ContainerStart (x_start (td_docker x) container)
  end.
Definition dockerResourceMissing (message : string) : bool :=
  let message := to_lower message in contains message "no such container" || contains message "not found".
Definition diagnostics (container : string) (lines : Z) : string :=
  match td_diagnostics x container lines with
  | Ok text => if bool_decide (trim_space text = "") then "" else text
  | Err _ => ""
  end.
(** [Ok None]: healthy. *)
Definition productVersionTestHealthy (route health : obj) : result string (option health_detail) :=
  let own := (productTestContainerName scope id, productTestNetworkName scope id) in
  let legacy := (legacyProductTestContainerName id, legacyProductTestNetworkName id) in
  let '(names, answer) :=
    match x_healthy (td_docker x) own.1 with
    | Err e => if dockerResourceMissing e && negb (bool_decide (scope = "")) then (legacy, x_healthy (td_docker x) legacy.1)
               else (own, Err e)
    | a => (own, a)
    end in
  match answer with
  | Err e => Err e
  | Ok false => Ok (Some (ContainerPending (diagnostics names.1 80)))
  | Ok true =>
      if negb (snapshotHealthOK (AObj {["health_spec" := AObj health]})) then Ok (Some HealthSimulated)
      else match healthPath health with
           | None => Ok None
           | Some path =>
               let target := http_target (productTestAlias id) (routePort route) path in
               match x_probe (td_docker x) (productTestHealthContainerName scope id) names.2 target (healthTimeout health)
                       (healthAcceptedStatusCodes health) with
               | Ok _ => Ok None
               | Err e => Ok (Some (HealthProbe target e (diagnostics names.1 100)))
               end
           end
  end.
Definition test_step (committed : catalog_t) (image : string) (runtime route health : obj) : test_tx (option removals) :=
  match vt_state t with
  | TestQueued => advanceProductVersionTest id TestPulling 0;; mret None
  | TestPulling =>
      pullConfiguredProductImage (λ A c, failing id (ImagePull c)) image_settings (td_docker x) committed image;;
      (if is_some (healthPath health) then docker_step ProbePull (x_pull (td_docker x) (backupHelperImage cfg)) else mret tt);;
      advanceProductVersionTest id TestStarting 0;;
      mret None
  | TestStarting =>
      startProductVersionTestContainer committed image runtime;;
      advanceProductVersionTest id TestChecking (healthInterval (AObj (vt_snapshot t)));;
      mret None
  | TestChecking =>
      match productVersionTestHealthy route health with
      | Err e => failing id (HealthCheck e)
      | Ok None =>
          completeProductVersionTest id TestSucceeded NoDockerEngine;;
          mret (Some (cleanupProductVersionTestRuntime scope id))
      | Ok (Some detail) =>
          if productTestMaxHealthAttempts <=? vt_health t + 1 then
            completeProductVersionTest id TestFailed (HealthExhausted (Some detail));;
            mret (Some (cleanupProductVersionTestRuntime scope id))
          else
            exec (write_test id (retried now (healthInterval (AObj (vt_snapshot t))) (HealthPending detail)));;
            mret None
      end
  | _ => exit TestStalled
  end.
End runtime.

Definition claimable_test (t : version_test) : bool := negb (test_ended t) && (vt_available t <=? now) && unlocked (vt_id t).
Definition claim_test (c : catalog_t) : result sqlerr version_test := select claimable_test (sort_by claim_order (tests c)).
Definition processProductVersionTestOne (executor : option test_docker) (committed : catalog_t) : test_tx test_pass :=
  begin_tx;;
  t ← on_no_rows (query claim_test) (exit TestIdle);
  match executor with
  | None => failing (vt_id t) NoDockerEngine
  | Some x =>
      let snapshot := AObj (vt_snapshot t) in
      match snapshot_text snapshot "image_digest", snapshot_map snapshot "runtime_spec", snapshot_map snapshot "route_spec",
            snapshot_map snapshot "health_spec" with
      | Some image, Some runtime, Some route, Some health =>
          guard_exit (bool_decide (trim_space image = "")) (TestFailing (vt_id t) SnapshotUnreadable);;
          cancelled ← on_error (pool committed (λ c, Ok (cancellation_pending (vt_id t) c))) TestStalled;
          guard_exit cancelled TestStalled;;
          removed ← test_step x t committed image runtime route health;
          commit;;
          mret (TestAdvanced (vt_id t) removed)
      | _, _, _, _ => failing (vt_id t) SnapshotUnreadable
      end
  end.
(** Its own transaction, after the pass was rolled back; whatever becomes of it,
    the runtime of the test is removed. *)
Definition failProductVersionTest (id : string) (c : test_cause) : test_tx test_pass :=
  begin_tx;;
  t ← query (λ d, select (test_is id) (tests d));
  (if test_ended t then mret tt
   else
     cancelled ← query (λ d, Ok (cancellation_pending id d));
     if cancelled : bool then completeProductVersionTest id TestCancelled c else completeProductVersionTest id TestFailed c);;
  commit;;
  mret (TestAdvanced id (Some (cleanupProductVersionTestRuntime scope id))).

(** ** Cancellations *)
Definition requested_le (a b : test_cancellation) : bool := tc_requested a <=? tc_requested b.
Definition pending_cancellation (c : catalog_t) : result sqlerr string :=
  x ← select (λ x, negb (is_some (tc_processed x))) (sort_by requested_le (cancellations c)); Ok (tc_test x).
Definition claim_cancellation (c : catalog_t) : result sqlerr version_test :=
  x ← select (λ x, negb (is_some (tc_processed x)) && unlocked (tc_test x) && exists_row (test_is (tc_test x)) (tests c))
        (sort_by requested_le (cancellations c));
  select (test_is (tc_test x)) (tests c).
Definition acknowledge (id : string) (c : catalog_t) : result sqlerr catalog_t :=
  Ok (upd_cancellations (update (λ x, bool_decide (tc_test x = id))
        (λ x, {| tc_test := tc_test x; tc_by := tc_by x; tc_requested := tc_requested x; tc_processed := Some now |})) c).
(** Before the transaction the runtime of the first pending test is removed,
    after it the one of the test that was cancelled. *)
Definition processProductVersionTestCancellationOne (committed : catalog_t) : test_tx test_pass :=
  pending ← handle (pool committed pending_cancellation) (λ _, exit CancelIdle);
  on_error begin_tx (CancelStalled pending);;
  t ← on_error (query claim_cancellation) (CancelStalled pending);
  on_error (if test_ended t then mret tt else completeProductVersionTest (vt_id t) TestCancelled NoDockerEngine) (CancelStalled pending);;
  on_error (exec (acknowledge (vt_id t))) (CancelStalled pending);;
  on_error commit (CancelStalled pending);;
  mret (CancelDone pending (vt_id t)).
End worker.

(** *** The request (product_test_features.go) *)
(** A statement outside of a transaction commits on its own; [v] is what becomes
    of it. *)
Definition autocommit {D} (v : verdict) (f : D → result sqlerr D) (d : D) : bool * D :=
  match v, f d with
  | Succeeds, Ok d' => (true, d')
  | FailsApplied, Ok d' => (false, d')
  | _, _ => (false, d)
  end.
Definition request_cancellation (rq : request) (id : string) (c : catalog_t) : result sqlerr catalog_t :=
  if exists_row (λ x, bool_decide (tc_test x = id)) (cancellations c) then Ok c
  else if negb (exists_row (test_is id) (tests c)) then Err (Constraint "app_product_version_test_cancellations_test_id_fkey")
  else Ok (upd_cancellations (λ t, t ++ [{| tc_test := id; tc_by := principal rq; tc_requested := now rq; tc_processed := None |}]) c).
Definition test_of (productID versionID testID : string) (c : catalog_t) : result sqlerr version_test :=
  t ← select (λ t, test_is testID t && bool_decide (vt_version t = versionID)) (tests c);
  select_version versionID productID c;;
  Ok t.
Definition cancelProductVersionTest `{UuidSyntax} (rq : request) (productID versionID testID : string) (v1 v2 v3 : verdict)
    (c : catalog_t) : response * catalog_t :=
  if negb (valid_uuid productID) || negb (valid_uuid versionID) || negb (valid_uuid testID)
  then (RError 400 "validation_failed", c)
  else
    match v1, test_of productID versionID testID c with
    | Succeeds, Err NoRows => (RError 404 "test_not_found", c)
    | Succeeds, Ok t =>
        if test_ended t then
          (RJson 200 [("testId", JStr testID); ("state", JStr (test_state_text (vt_state t))); ("idempotent", JBool true)], c)
        else
          let '(ok, c) := autocommit v2 (request_cancellation rq testID) c in
          if negb ok then (internalError Unavailable, c)
          else
            let '(ok, c) := autocommit v3 (record_catalog (Some (principal rq)) "product.test.cancel.request"
              "app_product_version_test" testID (request_id rq) [("product_id", JStr productID); ("version_id", JStr versionID)]) c in
            if negb ok then (internalError Unavailable, c)
            else (RJson 202 [("testId", JStr testID); ("state", JStr "cancelling")], c)
    | _, _ => (internalError Unavailable, c)
    end.
