(* ===== verification/TestNames.v ===== *)
(** * The names of test resources

    Reading the names that Docker lists back, and why the reconciliation of
    ProductTests spares the tests that are under way. *)
From S2P Require Import Prelude GoStrings Regex GoValue GoTime Tx Table Ledger Schema Http RuntimeSpec Crypto Names Health DeployDb Deploy ProductSpec Graph Catalog ProductTests.
From stdpp Require Import list gmap.
Open Scope string_scope.
Open Scope Z_scope.
Open Scope list_scope.

(** ** The digits of an identifier *)
Definition is_hex (c : ascii) : bool := in_cls c [r_digit; ("a", "f")%char].
Definition block (n : nat) (l : list ascii) : Prop := List.length l = n ∧ Forall (λ c, is_hex c = true) l.
Lemma hex_block n l : matches (rrep n n r_hex) l ↔ block n l.
Proof. unfold r_hex, block. rewrite rrep_cls by done. naive_solver lia. Qed.
Lemma dash_lit l : matches (rlit "-") l ↔ l = ["-"%char].
Proof.
  change (rlit "-") with (RCat (RCls [("-", "-")%char]) REps). rewrite matches_cat. split.
  - intros (l1 & l2 & -> & (c & -> & Hc)%matches_cls & ->%matches_eps). cbn in Hc.
    unfold in_cls in Hc. cbn in Hc. rewrite orb_false_r in Hc. bool_hyps. assert (c = "-"%char) as ->; [|done].
    apply (inj code). lia.
  - intros ->. exists ["-"%char], []. split_and!; [done|apply matches_cls; by exists "-"%char|by apply matches_eps].
Qed.
Lemma uuid_blocks id : match_string regexpUUID id = true ↔
  ∃ a b c d e, chars id = a ++ "-"%char :: b ++ "-"%char :: c ++ "-"%char :: d ++ "-"%char :: e ∧
    block 8 a ∧ block 4 b ∧ block 4 c ∧ block 4 d ∧ block 12 e.
Proof.
  rewrite match_string_spec. unfold regexpUUID. cbn [rseq]. split.
  - intros H.
    repeat match goal with H : matches (RCat _ _) _ |- _ => apply matches_cat in H as (? & ? & ? & ? & ?) end.
    repeat match goal with H : matches (rlit _) _ |- _ => apply dash_lit in H end.
    repeat match goal with H : matches _ _ |- _ => apply hex_block in H end. subst.
    do 5 eexists. split; [rewrite H; reflexivity|]. split_and!; eassumption.
  - intros (a & b & c & d & e & -> & Ha & Hb & Hc & Hd & He). 
    repeat (apply matches_cat; eexists _, _; split; [first [reflexivity|exact (eq_refl (["-"%char] ++ _))]|split;
      [first [by apply hex_block|by apply dash_lit]|]]). by apply hex_block.
Qed.
Lemma hex_no_dash n l : block n l → filter (λ b, b ≠ "-"%char) l = l.
Proof.
  intros [_ HF]. induction HF as [|c l Hc _ IH]; [done|]. rewrite filter_cons_True; [by rewrite IH|]. by intros ->.
Qed.
(** The identifier without its dashes. *)
Lemma uuid_compact id a b c d e :
  chars id = a ++ "-"%char :: b ++ "-"%char :: c ++ "-"%char :: d ++ "-"%char :: e →
  block 8 a → block 4 b → block 4 c → block 4 d → block 12 e → chars (remove_byte id "-") = a ++ b ++ c ++ d ++ e.
Proof.
  intros E Ha Hb Hc Hd He. unfold remove_byte. rewrite chars_str, E.
  repeat (rewrite filter_app || (rewrite filter_cons_False; [|by intros H; apply H])).
  erewrite !hex_no_dash by done. done.
Qed.
Lemma remove_dash_length id : match_string regexpUUID id = true → List.length (chars (remove_byte id "-")) = 32%nat.
Proof.
  intros (a & b & c & d & e & E & Ha & Hb & Hc & Hd & He)%uuid_blocks. rewrite (uuid_compact id a b c d e E Ha Hb Hc Hd He), !length_app.
  by rewrite (proj1 Ha), (proj1 Hb), (proj1 Hc), (proj1 Hd), (proj1 He).
Qed.
Lemma str_block n l : block n l → List.length (chars (str l)) = n.
Proof. intros [<- _]. by rewrite chars_str. Qed.
(** Slicing the compact identifier gives the blocks back. *)
Lemma compact_slices id : match_string regexpUUID id = true →
  let compact := remove_byte id "-" in
  match_string regexpCompactUUID compact = true ∧
  (slice 0 8 compact ^+ "-" ^+ slice 8 4 compact ^+ "-" ^+ slice 12 4 compact ^+ "-" ^+ slice 16 4 compact
   ^+ "-" ^+ slice 20 12 compact)%string = id.
Proof.
  intros Hid compact. pose proof (remove_dash_length id Hid) as Hlen.
  apply uuid_blocks in Hid as (a & b & c & d & e & E & Ha & Hb & Hc & Hd & He).
  pose proof (uuid_compact id a b c d e E Ha Hb Hc Hd He) as Hcomp. split.
  - apply match_string_spec, hex_block. split; [done|]. subst compact. rewrite Hcomp. destruct Ha, Hb, Hc, Hd, He.
    by repeat apply Forall_app_2.
  - apply (inj chars). subst compact. unfold slice. rewrite Hcomp, !chars_app, !chars_str, E.
    destruct Ha as [La _], Hb as [Lb _], Hc as [Lc _], Hd as [Ld _], He as [Le _].
    assert (drop 0 (a ++ b ++ c ++ d ++ e) = a ++ b ++ c ++ d ++ e) as -> by done.
    assert (drop 8 (a ++ b ++ c ++ d ++ e) = b ++ c ++ d ++ e) as -> by (by apply drop_app_length').
    assert (drop 12 (a ++ b ++ c ++ d ++ e) = c ++ d ++ e) as ->
      by (rewrite app_assoc; apply drop_app_length'; rewrite length_app; lia).
    assert (drop 16 (a ++ b ++ c ++ d ++ e) = d ++ e) as ->
      by (rewrite !app_assoc, <- (app_assoc _ d e); apply drop_app_length'; rewrite !length_app; lia).
    assert (drop 20 (a ++ b ++ c ++ d ++ e) = e) as ->
      by (rewrite !app_assoc; apply drop_app_length'; rewrite !length_app; lia).
    rewrite !(take_app_length' _ _ 8), !(take_app_length' _ _ 4), (firstn_all2 e) by lia.
    cbn [chars]. done.
Qed.

Section scope.
Context (scope : string).
Hypothesis Hscope : scope = "" ∨ match_string scopeToken scope = true.

Lemma trim_prefix_changes p id : p ≠ "" → bool_decide (trim_prefix (p ^+ id) p = p ^+ id) = false.
Proof using.
  intros Hp. apply bool_decide_eq_false_2. rewrite trim_prefix_app. intros E. apply (f_equal (λ s, List.length (chars s))) in E.
  rewrite chars_app, length_app in E. apply Hp. apply (inj chars). destruct (chars p); [done|cbn in E; lia].
Qed.
Lemma scoped_nonempty p : p ≠ "" → scoped_prefix scope p ≠ "".
Proof using.
  intros Hp. unfold scoped_prefix. case_bool_decide; [done|]. intros E. apply (f_equal chars) in E. rewrite !chars_app in E.
  apply app_nil in E as [E _]. apply Hp. by apply (inj chars).
Qed.
Lemma productTestID_container id :
  match_string regexpUUID id = true → productTestIDFromContainerName scope (productTestContainerName scope id) = Some id.
Proof using.
  intros Hid. unfold productTestIDFromContainerName, productTestContainerName, productTestReconcilePrefix.
  rewrite trim_prefix_changes by (by apply scoped_nonempty). by rewrite trim_prefix_app, Hid.
Qed.
Lemma productTestID_network id :
  match_string regexpUUID id = true → productTestIDFromNetworkName scope (productTestNetworkName scope id) = Some id.
Proof using.
  intros Hid. unfold productTestIDFromNetworkName, productTestNetworkName, productTestNetworkReconcilePrefix.
  rewrite trim_prefix_changes by (by apply scoped_nonempty). rewrite trim_prefix_app.
  destruct (compact_slices id Hid) as [Hc Hs]. cbv zeta. rewrite Hc. cbn [orb negb]. by rewrite Hs, Hid.
Qed.

#[local] Arguments shorten : simpl never.
#[local] Arguments remove_byte : simpl never.
(** The resources of two tests have different names. *)
Lemma unique_from_sub seen vs v : v ∈ unique_from seen vs → v ∈ vs.
Proof using.
  revert seen. induction vs as [|w vs IH]; intros seen; cbn; [done|].
  destruct (_ && _); [intros [->|Hv]%elem_of_cons; [left|right; by eapply IH]|right; by eapply IH].
Qed.
Lemma uniqueStrings_sub vs v : v ∈ uniqueStrings vs → v ∈ vs.
Proof using. apply unique_from_sub. Qed.
Ltac by_length E :=
  apply (f_equal (λ s, List.length (chars s))) in E; rewrite ?chars_app, ?length_app in E; 
  repeat match goal with H : List.length _ = _ |- _ => rewrite H in E end; vm_compute in E; discriminate E.
Ltac apart Hin :=
  repeat match type of Hin with _ ∈ (_ ++ _) => apply elem_of_app in Hin as [Hin|Hin] end; apply uniqueStrings_sub in Hin;
  repeat (apply elem_of_cons in Hin as [Hin|Hin]; [first [done|by_length Hin]|]); by apply elem_of_nil in Hin.
Lemma shorten_dash_length id : match_string regexpUUID id = true → List.length (chars (shorten 12 (remove_byte id "-"))) = 12%nat.
Proof using.
  intros Hid. pose proof (remove_dash_length id Hid) as Hl. unfold shorten, slen, take_str. rewrite Hl.
  change (Z.of_nat 12 <? Z.of_nat 32) with true. cbv iota. by rewrite chars_str, length_take, Hl.
Qed.
Lemma cleanup_spares id id' :
  match_string regexpUUID id = true → match_string regexpUUID id' = true → id ≠ id' →
  let r := cleanupProductVersionTestRuntime scope id' in
  (productTestContainerName scope id ∉ rm_containers r) ∧ (productTestHealthContainerName scope id ∉ rm_containers r) ∧
  (productTestNetworkName scope id ∉ rm_networks r).
Proof using Hscope.
  intros Hid Hid' Hne. pose proof (uuid_length id Hid) as L. pose proof (uuid_length id' Hid') as L'.
  pose proof (shorten_dash_length id' Hid') as S'. pose proof (remove_dash_length id Hid) as R. pose proof (remove_dash_length id' Hid') as R'.
  assert (productTestContainerName scope id ≠ productTestContainerName scope id') as Hc.
  { intros E. pose proof (productTestID_container id Hid) as E1. rewrite E, (productTestID_container id' Hid') in E1. congruence. }
  assert (productTestNetworkName scope id ≠ productTestNetworkName scope id') as Hn.
  { intros E. pose proof (productTestID_network id Hid) as E1. rewrite E, (productTestID_network id' Hid') in E1. congruence. }
  assert (productTestHealthContainerName scope id ≠ productTestHealthContainerName scope id') as Hh.
  { intros E. apply Hne. unfold productTestHealthContainerName in E. apply (f_equal chars) in E. rewrite !chars_app in E.
    apply app_inv_head in E. by apply (inj chars). }
  unfold cleanupProductVersionTestRuntime. cbn [rm_containers rm_networks].
  assert (∀ p, scope = "" → scoped_prefix scope p = p) as Hempty by (intros p ->; done).
  assert (∀ p, scope ≠ "" → List.length (chars (scoped_prefix scope p)) = (List.length (chars p) + 11)%nat) as Hlen.
  { intros p Hs. unfold scoped_prefix. rewrite bool_decide_eq_false_2 by done. rewrite !chars_app, !length_app.
    destruct Hscope as [|Hm]; [done|]. apply (match_length scopeToken 10 scope eq_refl) in Hm. rewrite Hm. change (List.length (chars "-")) with 1%nat. lia. }
  unfold productTestContainerName, legacyProductTestContainerName, productTestHealthContainerName,
    productTestHealthLegacyContainerName, legacyProductTestHealthContainerName, legacyProductTestHealthLegacyContainerName,
    productTestNetworkName, legacyProductTestNetworkName, productTestReconcilePrefix, productTestNetworkReconcilePrefix,
    productTestHealthReconcilePrefix in *.
  destruct (decide (scope = "")) as [Hs|Hs].
  - rewrite !Hempty in * by done. split_and!; intros Hin; apart Hin.
  - pose proof (Hlen "cm-test-" Hs) as L1. pose proof (Hlen "cm-test-health-" Hs) as L2. pose proof (Hlen "cm-test-net-" Hs) as L3.
    cbn in L1, L2, L3. split_and!; intros Hin; apart Hin.
Qed.
End scope.

(** ** Reconciliation *)
Section reconcile.
Context (scope : string).
Hypothesis Hscope : scope = "" ∨ match_string scopeToken scope = true.
Context (active : gset string) (id : string).
Hypothesis Hactive : id ∈ active.
Hypothesis Hid : match_string regexpUUID id = true.
Definition spares (r : removals) : Prop :=
  (productTestContainerName scope id ∉ rm_containers r) ∧ (productTestHealthContainerName scope id ∉ rm_containers r) ∧
  (productTestNetworkName scope id ∉ rm_networks r).
Lemma spares_nothing : spares no_removals.
Proof using. split_and!; apply not_elem_of_nil. Qed.
Lemma spares_app a b : spares a → spares b → spares (removals_app a b).
Proof using. unfold spares. cbn. rewrite !not_elem_of_app. naive_solver. Qed.
Lemma spares_other id' : match_string regexpUUID id' = true → id' ∉ active → spares (cleanupProductVersionTestRuntime scope id').
Proof using Hscope Hactive Hid. intros Hid' Hn. apply cleanup_spares; [done..|]. by intros ->. Qed.
Lemma reconcile_container_spares name : spares (reconcile_container scope active name).
Proof using Hscope Hactive Hid.
  unfold reconcile_container. destruct (productTestIDFromContainerName scope name) as [id'|] eqn:E.
  - case_bool_decide; [apply spares_nothing|]. apply spares_other; [|done].
    unfold productTestIDFromContainerName in E. destruct (_ || _) eqn:Eb; [done|]. injection E as <-. by bool_hyps.
  - destruct (_ && _) eqn:Eb; [|apply spares_nothing]. bool_hyps. unfold spares. cbn.
    split_and!; [| |apply not_elem_of_nil]; intros <-%list_elem_of_singleton.
    + by rewrite productTestID_container in E.
    + match goal with H : productTestHealthOwnerActive _ _ _ = false |- _ => revert H end.
      unfold productTestHealthOwnerActive, productTestHealthContainerName, productTestHealthReconcilePrefix.
      rewrite trim_prefix_changes by (by apply scoped_nonempty). rewrite trim_prefix_app, Hid. by rewrite bool_decide_eq_true_2.
Qed.
Lemma reconcile_network_spares name : spares (reconcile_network scope active name).
Proof using Hscope Hactive Hid.
  unfold reconcile_network. destruct (productTestIDFromNetworkName scope name) as [id'|] eqn:E; [|apply spares_nothing].
  case_bool_decide; [apply spares_nothing|]. apply spares_other; [|done]. unfold productTestIDFromNetworkName in E. cbv zeta in E.
  destruct (_ || _); [done|]. revert E. case_match; [|done]. by intros [= <-].
Qed.
(** Whatever Docker lists, the reconciliation removes neither the container,
    nor the probe, nor the network of a test that is under way, although it
    removes the resources of the other tests under four generations of names. *)
Theorem reconcile_spares_active containers networks :
  spares (reconcileProductTestContainers scope active containers networks).
Proof using Hscope Hactive Hid.
  unfold reconcileProductTestContainers.
  assert (∀ rs, Forall spares rs → spares (foldr removals_app no_removals rs)) as Hall.
  { induction 1 as [|r rs Hr _ IH]; [apply spares_nothing|]. by apply spares_app. }
  apply Hall, Forall_app_2; apply Forall_fmap, Forall_forall; intros n _; [apply reconcile_container_spares|apply reconcile_network_spares].
Qed.
End reconcile.

Lemma reconcile_spares_active_witness :
  ∃ r, reconcileProductTestContainers "" {["6f2c9a10-1111-4aaa-8bbb-000000000001"]}
         ["cm-test-6f2c9a10-1111-4aaa-8bbb-000000000001"; "cm-test-6f2c9a10-1111-4aaa-8bbb-000000000002"; "cm-test-health-6f2c9a101111"]
         ["cm-test-net-6f2c9a1011114aaa8bbb000000000001"] = r ∧
  rm_networks r = ["cm-test-net-6f2c9a1011114aaa8bbb000000000002"] ∧
  spares "" "6f2c9a10-1111-4aaa-8bbb-000000000001" r.
Proof.
  eexists. split; [reflexivity|]. split; [by vm_compute|].
  apply reconcile_spares_active; [by left|set_solver|by vm_compute].
Defined.
