(* ===== verification/CatalogFacts.v ===== *)
(** * The catalog stays consistent

    The invariant of products and versions over every interleaving of the
    handlers of Catalog and of the worker that tests versions: dependencies
    between products have no cycle, an offered product depends on published
    products only, and what is published has passed a test. *)
From S2P Require Import Prelude GoStrings Regex GoValue GoTime Tx Table Ledger Schema Http RuntimeSpec RuntimeSpecFacts ProductSpec Graph Triple Crypto Names Health DeployDb Deploy Catalog ProductTests.
From stdpp Require Import list gmap relations.
Open Scope string_scope.
Open Scope Z_scope.
Open Scope list_scope.

#[local] Arguments update : simpl never.

Definition published (d : string) (c : catalog_t) : Prop := ∃ q, q ∈ products c ∧ pd_id q = d ∧ pd_status q = ProductPublished.
Definition tested (v : product_version) (ts : list version_test) : Prop := ∃ t, t ∈ ts ∧ vt_version t = pv_id v ∧ vt_state t = TestSucceeded.
(** A test moves through its states one by one and is checked at most eight
    times; when it has ended, its secrets are gone. *)
Definition test_progress (t : version_test) : Prop :=
  match vt_state t with
  | TestQueued => vt_attempts t = 0 ∧ vt_health t = 0
  | TestPulling => vt_attempts t = 1 ∧ vt_health t = 0
  | TestStarting => vt_attempts t = 2 ∧ vt_health t = 0
  | TestChecking => vt_attempts t = 3 + vt_health t ∧ 0 <= vt_health t < productTestMaxHealthAttempts
  | TestSucceeded | TestFailed | TestCancelled =>
      1 <= vt_attempts t <= 3 + productTestMaxHealthAttempts ∧ vt_secrets t = ∅ ∧ vt_completed t ≠ None
  end.
Record tests_ok (ts : list version_test) : Prop := {
  tt_ids : NoDup (vt_id <$> ts);
  tt_progress : ∀ t, t ∈ ts → test_progress t;
  (** A version has at most one test under way. *)
  tt_active : ∀ t u, t ∈ ts → u ∈ ts → test_ended t = false → test_ended u = false → vt_version t = vt_version u → t = u
}.
Record catalog_ok (c : catalog_t) : Prop := {
  ct_products : NoDup (pd_id <$> products c);
  ct_versions : NoDup (pv_id <$> versions c);
  ct_acyclic : acyclic (dependency_edges (versions c));
  (** The offered versions of a published product depend on published
      products. *)
  ct_closed : ∀ p v d, p ∈ products c → pd_status p = ProductPublished → v ∈ versions c → pv_product v = pd_id p →
    offered v = true → d ∈ dependency_targets (pv_runtime v) → published d c;
  (** A product with an offered version is published, or retired. *)
  ct_offered : ∀ p v, p ∈ products c → v ∈ versions c → pv_product v = pd_id p → offered v = true →
    pd_status p = ProductPublished ∨ pd_status p = ProductRetired;
  ct_tested : ∀ v, v ∈ versions c → is_published v = true → tested v (tests c);
  ct_tests : tests_ok (tests c);
  (** The foreign key of app_product_versions. *)
  ct_owned : ∀ v, v ∈ versions c → ∃ p, p ∈ products c ∧ pd_id p = pv_product v
}.

(** ** The dependencies of a specification *)
Lemma dependency_targets_checked spec deps d :
  RuntimeDependencies spec = Ok deps → d ∈ dependency_targets spec → d ∈ dep_ProductID <$> deps.
Proof.
  intros Hd%RuntimeDependencies_ok. unfold dependencies_ok, dependency_targets, get in *.
  destruct (spec !! "dependencies") as [raw|]; cbn; [|by intros ?%elem_of_nil].
  destruct Hd as (values & -> & _ & HF & _). cbn. induction HF as [|v dep values deps Hv _ IH]; cbn; [by intros ?%elem_of_nil|].
  destruct Hv as (entry & -> & _ & _ & Hp & _). cbn. unfold get in Hp. rewrite Hp. cbn.
  intros [->|Hin]%elem_of_cons; [left|right]. by apply IH.
Qed.
Lemma elem_of_dependency_edges vs a b :
  (a, b) ∈ dependency_edges vs ↔ ∃ v, v ∈ vs ∧ is_published v = true ∧ pv_product v = a ∧
    match_string uuidPattern b = true ∧ b ∈ dependency_targets (pv_runtime v).
Proof.
  unfold dependency_edges. rewrite list_elem_of_join. split.
  - intros (es & Hin & (v & -> & Hv%list_elem_of_In)%list_elem_of_fmap). apply List.filter_In in Hv as [Hv%list_elem_of_In Hp].
    apply list_elem_of_fmap in Hin as (d & [= -> ->] & Hd%list_elem_of_In). apply List.filter_In in Hd as [Hd%list_elem_of_In Hm].
    by exists v.
  - intros (v & Hv & Hp & <- & Hm & Hd). exists (version_edges v). split.
    + apply list_elem_of_fmap. exists b. split; [done|]. apply list_elem_of_In, List.filter_In. by rewrite <- list_elem_of_In.
    + apply list_elem_of_fmap. exists v. split; [done|]. apply list_elem_of_In, List.filter_In. by rewrite <- list_elem_of_In.
Qed.
Lemma dependency_available_published d c : dependency_available d c = true → published d c.
Proof.
  unfold dependency_available, product_is. intros H. bool_hyps.
  match goal with H : exists_row _ (products c) = true |- _ => apply exists_row_true in H as (q & Hq & Hp) end. bool_hyps. by exists q.
Qed.

(** ** What keeps the invariant *)
Section keep.
Context (c : catalog_t).
Hypothesis Hok : catalog_ok c.

Lemma catalog_audits_keep f : catalog_ok (upd_catalog_audits f c).
Proof using Hok. by destruct Hok. Qed.
Lemma catalog_tests_keep f :
  (∀ v, tested v (tests c) → tested v (f (tests c))) → tests_ok (f (tests c)) → catalog_ok (upd_tests f c).
Proof using Hok. intros Hf Ht. destruct Hok as [H1 H2 H3 H4 H5 H6 H7 H8]. constructor; cbn; try done. intros v Hv Hp. by apply Hf, H6. Qed.

(** The versions keep what they are and lose offers only. *)
Lemma catalog_withdraw p f :
  (∀ v, pv_id (f v) = pv_id v ∧ pv_product (f v) = pv_product v ∧ pv_runtime (f v) = pv_runtime v ∧
     is_published (f v) = is_published v ∧ (offered (f v) = true → offered v = true)) →
  catalog_ok (upd_versions (update p f) c).
Proof using Hok.
  intros Hf. destruct Hok as [H1 H2 H3 H4 H5 H6 H7 H8].
  assert (∀ v, v ∈ update p f (versions c) → ∃ u, u ∈ versions c ∧ pv_id v = pv_id u ∧ pv_product v = pv_product u ∧
    pv_runtime v = pv_runtime u ∧ is_published v = is_published u ∧ (offered v = true → offered u = true)) as Hv.
  { intros v (u & Hu & ->)%elem_of_update. exists u. split; [done|]. destruct (p u); [apply Hf|done]. }
  constructor; cbn; try done.
  - rewrite update_column; [done|]. apply Hf.
  - eapply acyclic_subset; [|exact H3]. intros [a b] (v & (u & Hu & _ & Hp & Hr & Hpub & _)%Hv & E1 & E2 & E3 & E4)%elem_of_dependency_edges.
    apply elem_of_dependency_edges. exists u. rewrite <- Hp, <- Hr, <- Hpub. done.
  - intros q v d Hq Hs (u & Hu & _ & Hp & Hr & _ & Ho)%Hv Hqv Hov Hd. apply (H4 q u d); auto; congruence.
  - intros q v Hq (u & Hu & _ & Hp & _ & _ & Ho)%Hv Hqv Hov. apply (H5 q u); auto; congruence.
  - intros v (u & Hu & Hid & _ & _ & Hpub & _)%Hv Hv'. unfold tested. rewrite Hid. apply H6; congruence.
  - intros v (u & Hu & _ & -> & _)%Hv. by apply H8.
Qed.
(** A new version is not published. *)
Lemma catalog_draft row p :
  pv_published row = None → p ∈ products c → pd_id p = pv_product row → (∀ v, v ∈ versions c → pv_id v ≠ pv_id row) → catalog_ok (upd_versions (λ t, t ++ [row]) c).
Proof using Hok.
  intros Hrow Hin Hpid Hid. destruct Hok as [H1 H2 H3 H4 H5 H6 H7 H8].
  assert (is_published row = false) as Hp by (unfold is_published; by rewrite Hrow).
  assert (offered row = false) as Ho by (unfold offered; by rewrite Hp).
  constructor; cbn; try done.
  - by apply NoDup_snoc.
  - eapply acyclic_subset; [|exact H3]. intros [a b] (v & Hv & E1 & E2)%elem_of_dependency_edges.
    apply elem_of_dependency_edges. apply elem_of_app in Hv as [Hv| ->%list_elem_of_singleton]; [by exists v|congruence].
  - intros q v d Hq Hs [Hv| ->%list_elem_of_singleton]%elem_of_app; [by apply H4|congruence].
  - intros q v Hq [Hv| ->%list_elem_of_singleton]%elem_of_app; [by apply H5|congruence].
  - intros v [Hv| ->%list_elem_of_singleton]%elem_of_app; [by apply H6|congruence].
  - intros v [Hv| ->%list_elem_of_singleton]%elem_of_app; [by apply H8|by exists p].
Qed.
Lemma catalog_new_product row :
  pd_status row = ProductDraft → (∀ p, p ∈ products c → pd_id p ≠ pd_id row) →
  catalog_ok (upd_products (λ t, t ++ [row]) c).
Proof using Hok.
  intros Hrow Hid. destruct Hok as [H1 H2 H3 H4 H5 H6 H7 H8]. constructor; cbn; try done.
  - by apply NoDup_snoc.
  - intros p v d [Hp| ->%list_elem_of_singleton]%elem_of_app; [|by rewrite Hrow]. intros Hs Hv Hpv Ho Hd.
    destruct (H4 p v d Hp Hs Hv Hpv Ho Hd) as (q & Hq & ?). exists q. split; [|done]. apply elem_of_app. by left.
  - intros p v [Hp| ->%list_elem_of_singleton]%elem_of_app Hv Hpv; [by apply H5|].
    destruct (H8 v Hv) as (p & Hp & E). destruct (Hid p Hp). congruence.
  - intros v (p & Hp & E)%H8. exists p. split; [|done]. apply elem_of_app. by left.
Qed.

(** *** Statuses of products *)
Section status.
Context (sel : product → bool) (f : product → product).
Hypothesis Hid : ∀ p, pd_id (f p) = pd_id p.
Lemma updated p : p ∈ update sel f (products c) →
  ∃ q, q ∈ products c ∧ pd_id p = pd_id q ∧ (sel q = true ∧ p = f q ∨ sel q = false ∧ p = q).
Proof using Hid. intros (q & Hq & ->)%elem_of_update. exists q. destruct (sel q) eqn:E; auto. Qed.
Lemma updated_owned v :
  (∃ p, p ∈ products c ∧ pd_id p = pv_product v) → ∃ p, p ∈ update sel f (products c) ∧ pd_id p = pv_product v.
Proof using Hid.
  intros (p & Hp & E). exists (if sel p then f p else p). split; [apply elem_of_update; by exists p|].
  destruct (sel p); by rewrite ?Hid.
Qed.
(** Products that are not made published, nor cease to be. *)
Lemma catalog_same_status :
  (∀ p, p ∈ products c → sel p = true → pd_status (f p) = pd_status p ∨
     pd_status p ≠ ProductPublished ∧ pd_status (f p) ≠ ProductPublished ∧
     (pd_status (f p) = ProductRetired ∨ ∀ v, v ∈ versions c → pv_product v = pd_id p → offered v = false)) →
  catalog_ok (upd_products (update sel f) c).
Proof using Hok Hid.
  intros Hf. destruct Hok as [H1 H2 H3 H4 H5 H6 H7 H8]. constructor; cbn; try done.
  - by rewrite update_column.
  - intros p v d (q & Hq & Hpq & Hcase)%updated Hs Hv Hpv Ho Hd.
    assert (pd_status q = ProductPublished) as Hqs.
    { destruct Hcase as [[Hsel ->]|[_ ->]]; [|done]. destruct (Hf q Hq Hsel) as [E|(_ & E & _)]; [by rewrite <- E|done]. }
    destruct (H4 q v d Hq Hqs Hv) as (r & Hr & Hrd & Hrs); [congruence|done..|].
    exists (if sel r then f r else r). split; [apply elem_of_update; by exists r|].
    destruct (sel r) eqn:E; [|done]. rewrite Hid. split; [done|]. destruct (Hf r Hr E) as [E'|(E' & _)]; [by rewrite E'|done].
  - intros p v (q & Hq & Hpq & Hcase)%updated Hv Hpv Ho. destruct Hcase as [[Hsel ->]|[_ ->]]; [|by apply (H5 q v)].
    destruct (Hf q Hq Hsel) as [E|(_ & _ & [E|Hno])].
    + rewrite E. apply (H5 q v); congruence.
    + by right.
    + rewrite (Hno v) in Ho; congruence.
  - intros v Hv. by apply updated_owned, H8.
Qed.
(** A product on which no other published product depends is retired. *)
Lemma catalog_retire :
  (∀ p, pd_status (f p) = ProductRetired) →
  (∀ p v r, p ∈ products c → sel p = false → pd_status p = ProductPublished → v ∈ versions c → pv_product v = pd_id p →
     offered v = true → r ∈ products c → sel r = true → pd_id r ∉ dependency_targets (pv_runtime v)) →
  catalog_ok (upd_products (update sel f) c).
Proof using Hok Hid.
  intros Hf Hno. destruct Hok as [H1 H2 H3 H4 H5 H6 H7 H8]. constructor; cbn; try done.
  - by rewrite update_column.
  - intros p v d (q & Hq & Hpq & [[_ ->]|[Hsel ->]])%updated Hs Hv Hpv Ho Hd; [by rewrite Hf in Hs|].
    destruct (H4 q v d Hq Hs Hv Hpv Ho Hd) as (r & Hr & Hrd & Hrs).
    assert (sel r = false) as E.
    { apply not_true_iff_false. intros E. apply (Hno q v r); try done. by rewrite Hrd. }
    exists r. split; [|done]. apply elem_of_update. exists r. by rewrite E.
  - intros p v (q & Hq & Hpq & [[_ ->]|[_ ->]])%updated Hv Hpv Ho; [right; apply Hf|]. by apply (H5 q v).
  - intros v Hv. by apply updated_owned, H8.
Qed.
(** A product whose offered versions depend on published products. *)
Lemma catalog_promote :
  (∀ p, pd_status (f p) = ProductPublished) →
  (∀ p v d, p ∈ products c → sel p = true → v ∈ versions c → pv_product v = pd_id p → offered v = true →
     d ∈ dependency_targets (pv_runtime v) → published d c) →
  catalog_ok (upd_products (update sel f) c).
Proof using Hok Hid.
  intros Hf Hdeps. destruct Hok as [H1 H2 H3 H4 H5 H6 H7 H8]. constructor; cbn; try done.
  - by rewrite update_column.
  - intros p v d (q & Hq & Hpq & Hcase)%updated Hs Hv Hpv Ho Hd.
    assert (published d c) as (r & Hr & Hrd & Hrs).
    { destruct Hcase as [[Hsel ->]|[_ ->]]; [apply (Hdeps q v d); congruence|by apply (H4 q v d)]. }
    exists (if sel r then f r else r). split; [apply elem_of_update; by exists r|].
    destruct (sel r); [|done]. rewrite Hid. split; [done|apply Hf].
  - intros p v (q & Hq & Hpq & Hcase)%updated Hv Hpv Ho. destruct Hcase as [[Hsel ->]|[_ ->]]; [left; apply Hf|by apply (H5 q v)].
  - intros v Hv. by apply updated_owned, H8.
Qed.
End status.
End keep.

(** ** Publishing a version *)
Section publish.
Context `{UuidSyntax} (rq : request) (c : catalog_t) (v : product_version).
Hypothesis Hok : catalog_ok c.
Hypothesis Hin : v ∈ versions c.
Hypothesis Hdeps : ∀ d, d ∈ dependency_targets (pv_runtime v) →
  published d c ∧ pv_product v ∉ reachable (dependency_edges (versions c)) d.
Lemma catalog_publish w :
  publish_version rq (pv_id v) c = Ok w → (∀ p, p ∈ products c → pd_id p = pv_product v → pd_status p = ProductPublished) →
  tested v (tests c) → catalog_ok w.
Proof using Hok Hin Hdeps.
  intros [= <-] Hp Ht. destruct Hok as [H1 H2 H3 H4 H5 H6 H7 H8].
  set (f := λ v, with_marks (Some (now rq)) (pv_archived v) (pv_deleted v) v).
  assert (∀ u, u ∈ update (λ v', bool_decide (pv_id v' = pv_id v)) f (versions c) → u = f v ∨ u ∈ versions c) as Hv.
  { intros u (u' & Hu' & ->)%elem_of_update. case_bool_decide as E; [left|by right].
    by rewrite (key_inj pv_id _ _ _ H2 Hu' Hin E). }
  constructor; cbn; fold f; try done.
  - by rewrite update_column.
  - apply (acyclic_subset (added (dependency_edges (versions c)) (pv_product v) (dependency_targets (pv_runtime v)))).
    + intros [a b] (u & Hu & E1 & E2 & E3 & E4)%elem_of_dependency_edges. apply edge_added.
      destruct (Hv u Hu) as [->|Hu']; [right; cbn in *; by subst|left].
      unfold edge. apply elem_of_dependency_edges. by exists u.
    + apply acyclic_added; [done|]. intros d Hd. by apply Hdeps.
  - intros p u d Hpin Hs [->|Hu]%Hv Hup Ho Hd; [|by apply (H4 p u d)]. by apply Hdeps.
  - intros p u Hpin [->|Hu]%Hv Hup Ho; [|by apply (H5 p u)]. left. apply Hp; [done|]. by rewrite <- Hup.
  - intros u [->|Hu]%Hv Hpub; [|by apply H6]. done.
  - intros u [->|Hu]%Hv; [|by apply H8]. by apply (H8 v).
Qed.
End publish.

(** ** The dependency checks *)
Abbreviation any_answer := (λ _ : response, True).
Abbreviation kept := (λ (_ : response) (w : catalog_t), catalog_ok w).
Definition target_ok (c : catalog_t) (id d : string) : Prop :=
  dependency_available d c = true ∧ id ∉ reachable (dependency_edges (versions c)) d.
Definition targets_ok (c : catalog_t) (id : string) (spec : obj) : Prop :=
  ∀ d, d ∈ dependency_targets spec → target_ok c id d.

Section checks.
Context `{GoRange} `{UuidSyntax} (c : catalog_t).
Lemma check_dependencies_checks id deps : ∀ F : Prop,
  triple (λ w, w = c ∧ F) (check_dependencies id deps)
    (λ r w, w = c ∧ F ∧ (r = None → Forall (target_ok c id) (dep_ProductID <$> deps))) any_answer.
Proof.
  induction deps as [|d deps IH]; intros F; [by apply triple_ret; intros w [-> ?]|]. cbn [check_dependencies].
  case_bool_decide; [by apply triple_ret; intros w [-> ?]|].
  apply (triple_bind _ _ _ (λ b w, w = c ∧ F ∧ b = dependency_available (dep_ProductID d) c)).
  { apply triple_query. intros w b [-> HF] [= <-]. done. }
  intros available. destruct available; cbn [negb]; [|by apply triple_ret; intros w (-> & HF & _)].
  apply (triple_bind _ _ _ (λ b w, w = c ∧ F ∧ dependency_available (dep_ProductID d) c = true ∧
    b = bool_decide (id ∈ reachable (dependency_edges (versions c)) (dep_ProductID d)))).
  { apply triple_query. intros w b (-> & HF & Ha) [= <-]. done. }
  intros cyclic. destruct cyclic; [by apply triple_ret; intros w (-> & HF & _)|].
  eapply triple_pre; [|eapply triple_mono; [|apply (IH (F ∧ target_ok c id (dep_ProductID d)))]].
  - intros w (-> & HF & Ha & Hr). split; [done|]. split; [done|]. split; [done|]. symmetry in Hr. by bool_hyps.
  - intros r w (-> & [HF Hd] & Hr). split_and!; [done..|]. intros E. cbn. constructor; auto.
Qed.
Lemma require_dependencies_checks id spec r (F : Prop) :
  triple (λ w, w = c ∧ F) (require_dependencies id spec r) (λ _ w, w = c ∧ F ∧ targets_ok c id spec) any_answer.
Proof.
  unfold require_dependencies.
  apply (triple_bind _ _ _ (λ o w, w = c ∧ F ∧ (o = None → targets_ok c id spec))).
  - apply triple_handle_exit; [|intros; by apply triple_exit]. unfold validateProductDependencies.
    destruct (RuntimeDependencies spec) as [deps|e] eqn:E; [|by apply triple_ret; intros w [-> HF]].
    eapply triple_mono; [|apply check_dependencies_checks]. intros o w (-> & HF & Ho). split_and!; [done..|].
    intros Hn d Hd%(dependency_targets_checked spec deps); [|done]. specialize (Ho Hn). rewrite Forall_forall in Ho. by apply Ho.
  - intros [o|]; cbn [is_some]; apply triple_guard; try done. intros _ w (-> & HF & Ho). auto.
Qed.
Lemma require_all id specs r : ∀ F : Prop,
  triple (λ w, w = c ∧ F) (for_each (λ spec, require_dependencies id spec r) specs)
    (λ _ w, w = c ∧ F ∧ ∀ spec, spec ∈ specs → targets_ok c id spec) any_answer.
Proof.
  induction specs as [|spec specs IH]; intros F; cbn [for_each].
  - apply triple_ret. intros w [-> HF]. split_and!; [done..|]. by intros ? ?%elem_of_nil.
  - eapply triple_bind; [apply require_dependencies_checks|]. intros []. cbv beta.
    eapply triple_pre; [|eapply triple_mono; [|apply (IH (F ∧ targets_ok c id spec))]]; [naive_solver|].
    intros [] w (-> & [HF Ht] & Hs). split_and!; [done..|]. intros s [->|Hin]%elem_of_cons; auto.
Qed.

(** The status to which a product is restored. *)
Lemma restore_product_checks id :
  triple (λ w, w = c) (restore_product id)
    (λ s w, w = c ∧ ((s = ProductPublished ∧ ∀ v, v ∈ versions c → pv_product v = id → offered v = true → targets_ok c id (pv_runtime v)) ∨
      ((s = ProductTesting ∨ s = ProductDraft) ∧ ∀ v, v ∈ versions c → pv_product v = id → offered v = false))) any_answer.
Proof.
  unfold restore_product. eapply triple_bind; [apply sp_query|]. intros [hasPublished hasTests]. cbv beta. cbn [fst snd].
  set (F := exists_row (λ v, bool_decide (pv_product v = id) && offered v) (versions c) = hasPublished).
  apply (triple_bind _ _ _ (λ _ w, w = c ∧ F ∧ (hasPublished = true →
    ∀ v, v ∈ versions c → pv_product v = id → offered v = true → targets_ok c id (pv_runtime v)))).
  - destruct hasPublished.
    + eapply triple_pre; [|eapply triple_bind].
      2: { apply (triple_query (λ w, w = c ∧ F) _ (λ specs w, w = c ∧ F ∧ specs = offered_specs id c)). by intros w specs [-> HF] [= <-]. }
      { intros w (-> & E). injection E as E1 E2. split; [done|exact E1]. }
      intros specs. cbv beta. eapply triple_pre; [|eapply triple_mono; [|apply (require_all id specs _ (F ∧ specs = offered_specs id c))]]; [naive_solver|].
      intros [] w (-> & [HF ->] & Hs). split_and!; [done..|]. intros _ v Hv Hid Ho. apply Hs. unfold offered_specs.
      apply list_elem_of_fmap. exists v. split; [done|]. rewrite elem_of_sort_by. apply list_elem_of_In, List.filter_In.
      rewrite <- list_elem_of_In. split; [done|]. by rewrite (bool_decide_eq_true_2 _ Hid), Ho.
    + apply triple_ret. intros w (-> & E). injection E as E1 E2. by split_and!.
  - intros []. apply triple_ret. intros w (-> & HF & Hs). split; [done|]. unfold restoredProductStatus. unfold F in HF.
    destruct hasPublished; [left; by auto|right]. split; [destruct hasTests; by auto|].
    intros v Hv Hid. eapply exists_row_false in HF; [|exact Hv]. cbv beta in HF. by rewrite (bool_decide_eq_true_2 _ Hid) in HF.
Qed.
End checks.

(** ** The handlers *)
Lemma product_is_spec id p : product_is id p = true ↔ pd_id p = id.
Proof. unfold product_is. apply bool_decide_eq_true. Qed.
Lemma select_product_spec id c p : select_product id c = Ok p → p ∈ products c ∧ pd_id p = id.
Proof. intros [H1 H2]%select_ok. by rewrite product_is_spec in H2. Qed.
Lemma select_version_spec id product c v :
  select_version id product c = Ok v → v ∈ versions c ∧ pv_id v = id ∧ pv_product v = product.
Proof. intros [H1 H2]%select_ok. unfold version_of in H2. bool_hyps. done. Qed.
Ltac refused H :=
  repeat match type of H with (if ?b then Err _ else _) = Ok _ => destruct b eqn:?; [discriminate H|] end.
Lemma insert_version_spec row c w : insert_version row c = Ok w →
  (∀ v, v ∈ versions c → pv_id v ≠ pv_id row) ∧ w = upd_versions (λ t, t ++ [row]) c.
Proof.
  unfold insert_version. intros H. refused H. injection H as <-. split; [|done]. intros v Hv E.
  match goal with H : exists_row (λ v, bool_decide (pv_id v = _)) _ = false |- _ => eapply exists_row_false in H; [|exact Hv] end.
  cbv beta in *. by bool_hyps.
Qed.
Lemma insert_product_spec row c w : insert_product row c = Ok w →
  (∀ p, p ∈ products c → pd_id p ≠ pd_id row) ∧ w = upd_products (λ t, t ++ [row]) c.
Proof.
  unfold insert_product. intros H. refused H. injection H as <-. split; [|done]. intros p Hp E.
  match goal with H : exists_row (product_is _) _ = false |- _ => eapply exists_row_false in H; [|exact Hp] end.
  apply product_is_spec in E. congruence.
Qed.
Lemma insert_test_spec row c w : insert_test row c = Ok w →
  (∀ t, t ∈ tests c → vt_id t ≠ vt_id row) ∧ (∀ t, t ∈ tests c → vt_version t = vt_version row → test_ended t = true) ∧
  w = upd_tests (λ t, t ++ [row]) c.
Proof.
  unfold insert_test. intros H. refused H. injection H as <-. split_and!; [| |done].
  - intros t Ht E.
    match goal with H : exists_row (λ t, bool_decide (vt_id t = _)) _ = false |- _ => eapply exists_row_false in H; [|exact Ht] end.
    cbv beta in *. by bool_hyps.
  - intros t Ht E.
    match goal with H : exists_row (λ t, _ && _) _ = false |- _ => eapply exists_row_false in H; [|exact Ht] end.
    cbv beta in *. rewrite (bool_decide_eq_true_2 _ E) in *. cbn in *. by bool_hyps.
Qed.
Lemma tests_ok_snoc ts t :
  tests_ok ts → (∀ u, u ∈ ts → vt_id u ≠ vt_id t) → (∀ u, u ∈ ts → vt_version u = vt_version t → test_ended u = true) →
  test_progress t → tests_ok (ts ++ [t]).
Proof.
  intros [H1 H2 H3] Hid Hq Hp. constructor.
  - by apply NoDup_snoc.
  - intros u [Hu| ->%list_elem_of_singleton]%elem_of_app; auto.
  - intros u v [Hu| ->%list_elem_of_singleton]%elem_of_app [Hv| ->%list_elem_of_singleton]%elem_of_app Hau Hav E.
    + by apply H3.
    + by rewrite (Hq u) in Hau.
    + by rewrite (Hq v) in Hav.
    + done.
Qed.
(** A step of one test that its trigger admits. *)
Lemma write_test_keeps c w t f :
  catalog_ok c → t ∈ tests c → vt_id (f t) = vt_id t → vt_version (f t) = vt_version t →
  (test_ended t = false → test_transition (vt_state t) (vt_state (f t)) = true → test_progress (f t)) →
  write_test (vt_id t) f c = Ok w → catalog_ok w ∧ ∃ u, u ∈ tests w ∧ vt_id u = vt_id t.
Proof.
  intros Hok Hin Hid Hv Hp Hw. unfold write_test in Hw.
  destruct (forallb _ _) eqn:Hall in Hw; [|done]. injection Hw as <-. pose proof (ct_tests _ Hok) as [H1 H2 H3].
  assert (∀ u, u ∈ tests c → test_is (vt_id t) u = true → u = t) as Huniq.
  { intros u Hu E. unfold test_is in E. bool_hyps. by apply (key_inj vt_id (tests c)). }
  assert (test_is (vt_id t) t = true) as Ht by (by apply bool_decide_eq_true).
  rewrite forallb_forall in Hall. specialize (Hall t). rewrite List.filter_In, <- list_elem_of_In in Hall.
  specialize (Hall (conj Hin Ht)). bool_hyps.
  assert (∀ u, u ∈ update (test_is (vt_id t)) f (tests c) → u = f t ∨ u ∈ tests c ∧ vt_id u ≠ vt_id t) as Hu.
  { intros u (u' & Hu' & ->)%elem_of_update. destruct (test_is (vt_id t) u') eqn:E; [left|right].
    - by rewrite (Huniq u' Hu' E).
    - split; [done|]. intros E'. unfold test_is in E. by bool_hyps. }
  split; [|exists (f t); split; [apply elem_of_update; exists t; by rewrite Ht|done]].
  apply catalog_tests_keep; [done| |].
  - intros v (u & Hu' & Huv & Hus). exists u. split; [|done]. apply elem_of_update. exists u. split; [done|].
    destruct (test_is (vt_id t) u) eqn:E; [|done]. rewrite (Huniq u Hu' E) in Hus. unfold test_ended in *. rewrite Hus in *. done.
  - constructor.
    + assert (vt_id <$> update (test_is (vt_id t)) f (tests c) = vt_id <$> tests c) as ->; [|done].
      unfold update. rewrite <- list_fmap_compose. apply list_fmap_ext. intros i u Hi. cbn.
      destruct (test_is (vt_id t) u) eqn:E; [|done]. apply list_elem_of_lookup_2 in Hi. by rewrite (Huniq u Hi E).
    + intros u [->|[Hu' _]]%Hu; auto.
    + intros u v [->|[Hu' Hne]]%Hu [->|[Hv' Hnv]]%Hu Hau Hav E; try done.
      * destruct Hnv. rewrite Hv in E. symmetry in E. by rewrite (H3 v t).
      * destruct Hne. rewrite Hv in E. by rewrite (H3 u t).
      * by apply H3.
Qed.
Lemma count_none {A} (q : A → bool) t : (0 <? count_rows q t) = false → ∀ r, r ∈ t → q r = false.
Proof.
  unfold count_rows. intros H r Hr. bool_hyps. destruct (q r) eqn:E; [|done].
  assert (r ∈ List.filter q t) as Hin by (apply list_elem_of_In, List.filter_In; by rewrite <- list_elem_of_In).
  destruct (List.filter q t); [by apply elem_of_nil in Hin|cbn in H; lia].
Qed.

Section handlers.
Context `{GoRange} `{UuidSyntax} `{UnicodeLower} (rq : request) (http_url : string → bool)
  (encrypt : string → string → option string) (c : catalog_t).
Hypothesis Hok : catalog_ok c.

Lemma commit_kept P r : (∀ w, P w → catalog_ok w) → ends internalError P (commit;; mret r) kept any_answer.
Proof using. intros HP. apply (ends_commit _ _ _ any_answer); [done|by apply closing_ret|]. intros _ w _. apply HP. Qed.
Lemma ignored_commit_kept r : ends internalError (λ w, w = c) (ignore commit;; mret r) kept any_answer.
Proof using Hok. apply (ends_ignore_commit _ _ _ any_answer); try done. by intros ? ? _ ->. Qed.

Lemma createProduct_keeps body id : ends internalError (λ w, w = c) (createProduct rq http_url body id) kept any_answer.
Proof using Hok.
  unfold createProduct. destruct body as [[[slug name] icon]|]; [|by apply ends_exit].
  destruct (normalizeProductDetails slug name) as [[slug' name']|]; [|by apply ends_exit].
  eapply ends_bind; [apply triple_begin|done|intros []]. cbv beta.
  destruct (normalizeProductIconURL _ icon); [|by apply ends_exit].
  eapply ends_bind; [|done|intros []].
  { apply triple_handle_exit; [apply sp_exec|]. intros e. destruct e as [| |n| |]; try apply triple_throw.
    repeat (destruct n as [|[] n]; try apply triple_throw; repeat match goal with |- context [if ?b then _ else _] => destruct b end; try apply triple_throw). 
    all: try (by apply triple_exit). }
  cbv beta. eapply ends_bind; [apply sp_exec|done|intros []]. cbv beta. apply commit_kept.
  intros w (w1 & (w0 & -> & [Hid ->]%insert_product_spec) & [= <-]). apply catalog_audits_keep. by apply catalog_new_product.
Qed.
Lemma updateProduct_keeps path body : ends internalError (λ w, w = c) (updateProduct rq http_url path body) kept any_answer.
Proof using Hok.
  unfold updateProduct. cbv zeta. apply ends_guard; [done|intros _]. destruct body as [[name icon]|]; [|by apply ends_exit].
  destruct (normalizeProductName name); [|by apply ends_exit]. destruct (normalizeProductIconURL _ icon); [|by apply ends_exit].
  eapply ends_bind; [apply triple_begin|done|intros []]. cbv beta. apply ends_claim; [done..|]. intros w p -> _.
  destruct (_ && _); [by apply ends_exit|].
  do 2 (eapply ends_bind; [apply sp_exec|done|intros []]). cbv beta. apply commit_kept.
  intros w (w1 & (w0 & -> & [= <-]) & [= <-]). apply catalog_audits_keep. apply catalog_same_status; [done..|]. intros q _ _. by left.
Qed.
Lemma retire_product_checks id :
  triple (λ w, w = c) (retire_product id) (λ s w, w = c ∧ s = ProductRetired ∧
    depended_on id (λ _ v, negb (is_some (pv_deleted v))) c = false) any_answer.
Proof using.
  unfold retire_product. apply (triple_bind _ _ _ (λ _ w, w = c)); [by apply triple_query|intros n].
  eapply triple_bind; [by apply sp_guard|intros []]. cbv beta.
  eapply triple_bind; [apply sp_query|intros b]. cbv beta.
  apply (triple_bind _ _ _ (λ _ w, w = c ∧ depended_on id (λ _ v, negb (is_some (pv_deleted v))) c = false)).
  - apply triple_guard; [done|]. intros -> w [-> [= E]]. done.
  - intros []. by apply triple_ret; intros w [-> ?].
Qed.
Lemma depended_on_spec id p v :
  depended_on id (λ _ v, negb (is_some (pv_deleted v))) c = false →
  p ∈ products c → pd_id p ≠ id → pd_status p = ProductPublished → v ∈ versions c → pv_product v = pd_id p →
  offered v = true → id ∉ dependency_targets (pv_runtime v).
Proof using.
  unfold depended_on. intros Hd Hp Hid Hs Hv Hpv Ho Hin. eapply exists_row_false in Hd; [|exact Hp]. cbv beta in Hd.
  rewrite (bool_decide_eq_false_2 _ Hid), (bool_decide_eq_true_2 _ Hs) in Hd. cbn in Hd.
  eapply exists_row_false in Hd; [|exact Hv]. cbv beta in Hd. unfold offered in Ho. bool_hyps.
  rewrite (bool_decide_eq_true_2 _ Hpv), (bool_decide_eq_true_2 _ Hin) in Hd.
  match goal with H : is_published v = true, H' : is_some (pv_deleted v) = false |- _ => rewrite H, H' in Hd end. done.
Qed.
(** What a change of the availability has checked before it sets the status. *)
Definition status_checked (p : product) (s : product_status) : Prop :=
  s = pd_status p ∨
  (s = ProductRetired ∧ depended_on (pd_id p) (λ _ v, negb (is_some (pv_deleted v))) c = false) ∨
  (s = ProductPublished ∧ ∀ v, v ∈ versions c → pv_product v = pd_id p → offered v = true → targets_ok c (pd_id p) (pv_runtime v)) ∨
  ((s = ProductTesting ∨ s = ProductDraft) ∧ pd_status p = ProductRetired ∧
   ∀ v, v ∈ versions c → pv_product v = pd_id p → offered v = false).
Lemma set_status_keeps p s w :
  p ∈ products c → status_checked p s → set_status (pd_id p) s c = Ok w → catalog_ok w.
Proof using Hok.
  intros Hp Hs [= <-].
  assert (∀ q, q ∈ products c → product_is (pd_id p) q = true → q = p) as Huniq.
  { intros q Hq Hid%product_is_spec. by apply (key_inj pd_id (products c)); [apply Hok| ..]. }
  destruct Hs as [->|[[-> Hd]|[[-> Hd]|(Hs & Hr & Hno)]]].
  - apply catalog_same_status; [done..|]. intros q Hq Hsel. left. by rewrite (Huniq q Hq Hsel).
  - apply catalog_retire; [done..|]. intros q v r Hq Hsel Hqs Hv Hqv Ho Hr Hrsel.
    rewrite (Huniq r Hr Hrsel). apply (depended_on_spec _ q); try done.
    intros E%product_is_spec. congruence.
  - apply catalog_promote; [done..|]. intros q v d Hq Hsel Hv Hqv Ho Hdin. rewrite (Huniq q Hq Hsel) in Hqv.
    apply dependency_available_published. by apply (Hd v Hv Hqv Ho d).
  - apply catalog_same_status; [done..|]. intros q Hq Hsel. right. rewrite (Huniq q Hq Hsel). cbn. rewrite Hr.
    split; [done|]. split; [by destruct Hs as [->| ->]|by right].
Qed.
Lemma updateProductAvailability_keeps path body :
  ends internalError (λ w, w = c) (updateProductAvailability rq path body) kept any_answer.
Proof using Hok.
  unfold updateProductAvailability. cbv zeta. apply ends_guard; [done|intros _]. destruct body as [[enabled|]|]; [|by apply ends_exit..].
  eapply ends_bind; [apply triple_begin|done|intros []]. cbv beta.
  apply (ends_bind _ _ _ _ (λ _ w, w = c)); [by apply triple_exec; intros w w' -> [= <-]|done|intros []].
  apply ends_claim; [done..|]. intros w p -> [Hp <-]%select_product_spec.
  apply (ends_bind _ _ _ _ (λ s w, w = c ∧ status_checked p s)); [|done|].
  - destruct enabled.
    + case_bool_decide as Hr; [|by apply triple_ret; intros w ->; split; [|left]].
      eapply triple_mono; [|apply restore_product_checks]. intros s w (-> & [[-> Hs]|[Hs Hno]]); (split; [done|]).
      * right; right; left. done.
      * right; right; right. done.
    + destruct (negb _); [|by apply triple_ret; intros w ->; split; [|left]].
      eapply triple_mono; [|apply retire_product_checks]. intros s w (-> & -> & Hd). split; [done|]. right; left. done.
  - intros s. cbv beta zeta. destruct (bool_decide _); [by apply ends_exit|].
    do 2 (eapply ends_bind; [apply sp_exec|done|intros []]). cbv beta. apply commit_kept.
    intros w (w1 & (w0 & (-> & Hs) & Hset) & [= <-]). apply catalog_audits_keep. by eapply set_status_keeps.
Qed.
Lemma deleteProduct_keeps path : ends internalError (λ w, w = c) (deleteProduct rq path) kept any_answer.
Proof using Hok.
  unfold deleteProduct. cbv zeta. apply ends_guard; [done|intros _].
  eapply ends_bind; [apply triple_begin|done|intros []]. cbv beta.
  apply ends_claim; [done..|]. intros w p -> [Hp <-]%select_product_spec.
  apply ends_guard; [done|intros _]. apply ends_guard; [done|intros Hr]. bool_hyps.
  apply ends_query; [done|intros w n -> _]. apply ends_guard; [done|intros _].
  apply ends_query; [done|intros w b -> _]. apply ends_guard; [done|intros _].
  do 3 (eapply ends_bind; [apply sp_exec|done|intros []]). cbv beta. apply commit_kept.
  intros w (w2 & (w1 & (w0 & -> & [= <-]) & [= <-]) & [= <-]). apply catalog_audits_keep. apply catalog_withdraw; [|done].
  apply catalog_same_status; [done..|]. intros q Hq Hid%product_is_spec. left. cbn.
  by rewrite (key_inj pd_id _ _ _ (ct_products _ Hok) Hq Hp Hid).
Qed.
Lemma createProductVersion_keeps productID body id :
  ends internalError (λ w, w = c) (createProductVersion rq productID body id) kept any_answer.
Proof using Hok.
  unfold createProductVersion. apply ends_guard; [done|intros _].
  destruct (version_request body) as [[[[label image] runtime] [[route health] upd]]|r]; [|by apply ends_exit].
  eapply ends_bind; [apply triple_begin|done|intros []]. cbv beta.
  apply (ends_bind _ _ _ _ (λ _ w, w = c)); [by apply triple_exec; intros w w' -> [= <-]|done|intros []].
  apply ends_claim; [done..|]. intros w p -> [Hp <-]%select_product_spec. apply ends_guard; [done|intros _].
  apply (ends_bind _ _ _ _ (λ _ w, w = c)); [|done|intros []].
  { eapply triple_pre; [|eapply triple_mono; [|apply (require_dependencies_checks c _ _ _ True)]]; [by intros w ->|by intros [] w [-> _]]. }
  apply ends_query; [done|intros w version -> _].
  do 2 (eapply ends_bind; [apply sp_exec|done|intros []]). cbv beta. apply commit_kept.
  intros w (w1 & (w0 & -> & [Hid ->]%insert_version_spec) & [= <-]). apply catalog_audits_keep. by apply (catalog_draft c Hok _ p).
Qed.
Lemma deleteProductVersion_keeps product_path version_path :
  ends internalError (λ w, w = c) (deleteProductVersion rq product_path version_path) kept any_answer.
Proof using Hok.
  unfold deleteProductVersion. cbv zeta. apply ends_guard; [done|intros _].
  eapply ends_bind; [apply triple_begin|done|intros []]. cbv beta.
  apply ends_claim; [done..|]. intros w [[[p v] released] n] -> _. cbv beta iota.
  destruct (is_some _); [by apply ignored_commit_kept|]. apply ends_guard; [done|intros _].
  do 2 (eapply ends_bind; [apply sp_exec|done|intros []]). cbv beta. apply commit_kept.
  intros w (w1 & (w0 & -> & [= <-]) & [= <-]). apply catalog_audits_keep. apply catalog_withdraw; [done|].
  intros u. unfold is_published, offered, is_published. cbn. split_and!; [done..|]. intros. bool_hyps. done.
Qed.
Lemma startProductVersionTest_keeps productID versionID body testID :
  ends internalError (λ w, w = c) (startProductVersionTest rq encrypt productID versionID body testID) kept any_answer.
Proof using Hok.
  unfold startProductVersionTest. cbv zeta. apply ends_guard; [done|intros _]. destruct body as [secrets|]; [|by apply ends_exit].
  eapply ends_bind; [apply triple_begin|done|intros []]. cbv beta.
  apply ends_claim; [done..|]. intros w [p v] -> _. cbv beta iota.
  do 3 (apply ends_guard; [done|intros _]).
  apply (ends_bind _ _ _ _ (λ _ w, w = c)); [by apply triple_optional|done|intros active]. apply ends_guard; [done|intros _].
  apply ends_query; [done|intros w [] -> _]. destruct (encrypt_all _ _ _); [|by apply ends_exit].
  do 3 (eapply ends_bind; [apply sp_exec|done|intros []]). cbv beta. apply commit_kept.
  intros w (w2 & (w1 & (w0 & -> & (Hid & Hq & ->)%insert_test_spec) & [= <-]) & [= <-]). apply catalog_audits_keep.
  apply catalog_same_status; [|done|].
  - apply catalog_tests_keep; [done| |].
    + intros u (t & Ht & Hu). exists t. split; [|done]. apply elem_of_app. by left.
    + apply tests_ok_snoc; [apply Hok|done..].
  - intros q Hqin Hsel. bool_hyps. right. cbn. match goal with H : pd_status q = _ |- _ => rewrite H end. split_and!; [done..|].
    right. intros u Hu Hqu. apply not_true_iff_false. intros Ho. destruct (ct_offered _ Hok q u Hqin Hu Hqu Ho); congruence.
Qed.
Lemma publishProductVersion_keeps productID versionID :
  ends internalError (λ w, w = c) (publishProductVersion rq productID versionID) kept any_answer.
Proof using Hok.
  unfold publishProductVersion. apply ends_guard; [done|intros _].
  eapply ends_bind; [apply triple_begin|done|intros []]. cbv beta.
  apply (ends_bind _ _ _ _ (λ _ w, w = c)); [by apply triple_exec; intros w w' -> [= <-]|done|intros []].
  apply (ends_bind _ _ _ _ (λ p w, w = c ∧ select_product productID c = Ok p)); [|done|intros p].
  { apply triple_handle_exit; [|intros; by apply triple_exit]. by apply triple_query; intros w p -> E. }
  apply ends_guard; [done|intros Hr]. bool_hyps.
  apply (ends_bind _ _ _ _ (λ v w, w = c ∧ select_product productID c = Ok p ∧ select_version versionID productID c = Ok v)); [|done|intros v].
  { apply triple_handle_exit; [|intros; by apply triple_exit]. by apply triple_query; intros w v [-> E] E'. }
  cbv zeta. destruct (is_published v) eqn:Hpub; [by apply commit_kept; intros w [-> _]|].
  eapply ends_bind; [apply require_dependencies_checks|done|intros []]. cbv beta.
  apply (ends_bind _ _ _ _ (λ t w, w = c ∧ (select_product productID c = Ok p ∧ select_version versionID productID c = Ok v) ∧
    targets_ok c productID (pv_runtime v) ∧ successful_test versionID c = Ok t)); [|done|intros t].
  { apply triple_no_rows_exit; [|by apply triple_exit]. apply triple_query. intros w t (-> & ? & ?) ?. done. }
  do 3 (eapply ends_bind; [apply sp_exec|done|intros []]). cbv beta. apply commit_kept.
  intros w (w2 & (w1 & (w0 & (-> & [[Hp <-]%select_product_spec (Hv & <- & Hvp)%select_version_spec] & Hd & Ht) & Hset) & Hw2) & [= <-]).
  apply catalog_audits_keep.
  assert (catalog_ok w1) as Hok1.
  { destruct (decide (pd_status p = ProductPublished)) as [E|E].
    - apply (set_status_keeps p ProductPublished w1); [done|by left|done].
    - apply (set_status_keeps p ProductPublished w1); [done| |done]. right; right; left. split; [done|].
      intros u Hu Hup Ho. destruct (ct_offered _ Hok p u Hp Hu (eq_sym (eq_sym Hup)) Ho); congruence. }
  assert (successful_test (pv_id v) w1 = Ok t) as Ht1 by (injection Hset as <-; exact Ht).
  apply select_ok in Ht1 as [Ht1 Ht2]. rewrite elem_of_sort_by in Ht1. bool_hyps.
  apply (catalog_publish rq w1 v Hok1) with (w := w2).
  - injection Hset as <-. done.
  - intros d Hdin. destruct (Hd d Hdin) as [Ha Hnr]. rewrite Hvp. injection Hset as <-. split; [|exact Hnr].
    destruct (dependency_available_published _ _ Ha) as (q & Hq & Hqd & Hqs). exists (if product_is (pd_id p) q then with_status ProductPublished q else q).
    split; [apply elem_of_update; by exists q|]. by destruct (product_is _ _).
  - done.
  - intros q Hq Hqv. injection Hset as <-. apply elem_of_update in Hq as (q' & Hq' & ->).
    destruct (product_is (pd_id p) q') eqn:E; [done|]. exfalso. apply not_true_iff_false in E. apply E, product_is_spec. congruence.
  - by exists t.
Qed.
End handlers.
