(* ===== verification/CatalogHistory.v ===== *)
(** * Every interleaving of the catalog

    The worker keeps the invariant of CatalogFacts, and with the handlers all
    of the steps that touch products, versions and tests. *)
From S2P Require Import Prelude GoStrings Regex GoValue GoTime Tx Triple Table Ledger Schema Http RuntimeSpec RuntimeSpecFacts Crypto Names Health DeployDb Deploy DeployFacts ProductSpec Graph Catalog ProductTests CatalogFacts.
From stdpp Require Import list gmap relations.
Open Scope string_scope.
Open Scope Z_scope.
Open Scope list_scope.

#[local] Arguments update : simpl never.
Abbreviation any_pass := (λ _ : test_pass, True).
Abbreviation kept_pass := (λ (_ : test_pass) (w : catalog_t), catalog_ok w).

Section worker.
Context `{GoRange} `{Secrets} `{UnicodeLower} (cfg : worker_config) (now : timestamp) (unlocked : string → bool) (c : catalog_t).
Hypothesis Hok : catalog_ok c.

Lemma test_audit_keeps id st w w' : test_audit id st w = Ok w' → catalog_ok w → catalog_ok w'.
Proof using. unfold test_audit. destruct (select _ _); intros [= <-]; [intros; by apply catalog_audits_keep|done]. Qed.

Section one.
Context (t : version_test).
Hypothesis Hin : t ∈ tests c.
Lemma progress_bounds : test_ended t = false → test_progress t → 0 <= vt_attempts t < 3 + productTestMaxHealthAttempts.
Proof using. unfold test_progress, test_ended, productTestMaxHealthAttempts. destruct (vt_state t); cbn; intros; lia || done. Qed.
Lemma complete_keeps st why :
  st ∈ [TestSucceeded; TestFailed; TestCancelled] →
  triple (λ w, w = c) (completeProductVersionTest now (vt_id t) st why) (λ _ w, catalog_ok w) any_pass.
Proof using Hok Hin.
  intros Hst. unfold completeProductVersionTest. eapply triple_bind; [apply sp_exec|intros []]. cbv beta.
  apply triple_exec. intros w w' (w0 & -> & Hw) Ha. apply (test_audit_keeps _ _ _ _ Ha).
  apply (write_test_keeps c w t _ Hok Hin) in Hw as [Hw _]; [done..|]. intros He _.
  pose proof (progress_bounds He (tt_progress _ (ct_tests _ Hok) t Hin)).
  assert (1 <= vt_attempts t + 1 <= 3 + productTestMaxHealthAttempts ∧ (∅ : gmap string string) = ∅ ∧ Some now ≠ None)
    by (split; [lia|done]).
  repeat (apply elem_of_cons in Hst as [->|Hst]; [done|]). by apply elem_of_nil in Hst.
Qed.
Lemma advance_keeps next delay :
  match next with TestPulling => vt_state t = TestQueued | TestStarting => vt_state t = TestPulling
                | TestChecking => vt_state t = TestStarting | _ => False end →
  triple (λ w, w = c) (advanceProductVersionTest now (vt_id t) next delay) (λ _ w, catalog_ok w) any_pass.
Proof using Hok Hin.
  intros Hnext. apply triple_exec. intros w w' -> Hw. apply (write_test_keeps c w' t _ Hok Hin) in Hw as [Hw _]; [done..|].
  intros _ _. pose proof (tt_progress _ (ct_tests _ Hok) t Hin) as Hp. unfold test_progress in Hp.
  destruct next; try done; rewrite Hnext in Hp; cbn; unfold productTestMaxHealthAttempts; lia.
Qed.
Lemma retry_keeps delay why :
  vt_state t = TestChecking → vt_health t + 1 < productTestMaxHealthAttempts →
  triple (λ w, w = c) (exec (write_test (vt_id t) (retried now delay why))) (λ _ w, catalog_ok w) any_pass.
Proof using Hok Hin.
  intros Hst Hh. apply triple_exec. intros w w' -> Hw. apply (write_test_keeps c w' t _ Hok Hin) in Hw as [Hw _]; [done..|].
  intros _ _. pose proof (tt_progress _ (ct_tests _ Hok) t Hin) as Hp. unfold test_progress in *. cbn. rewrite Hst in *. lia.
Qed.
(** The work on Docker leaves the database alone. *)
Lemma docker_step_keeps {A} P (f : string → test_cause) (a : result string A) :
  triple P (docker_step t f a) (λ _, P) any_pass.
Proof using. unfold docker_step. destruct a; [by apply triple_ret|by apply triple_exit]. Qed.
Lemma settings_keeps P f committed :
  triple P (loadWorkerDockerSettings (λ A e, exit (TestFailing (vt_id t) (f e))) image_settings committed) (λ _, P) any_pass.
Proof using. unfold loadWorkerDockerSettings. keep. Qed.
Lemma start_container_keeps P x committed image runtime :
  triple P (startProductVersionTestContainer cfg x t committed image runtime) (λ _, P) any_pass.
Proof using.
  unfold startProductVersionTestContainer, configuredProductImage. keep;
    first [apply docker_step_keeps|apply settings_keeps].
Qed.
Lemma test_step_keeps x committed image runtime route health :
  triple (λ w, w = c) (test_step cfg now x t committed image runtime route health) (λ _ w, catalog_ok w) any_pass.
Proof using Hok Hin.
  assert (∀ m : test_tx unit, ∀ r, triple (λ w, w = c) m (λ _ w, catalog_ok w) any_pass →
    triple (λ w, w = c) (m;; mret (r : option removals)) (λ _ w, catalog_ok w) any_pass) as Hret.
  { intros m r Hm. eapply triple_bind; [exact Hm|]. intros []. by apply triple_ret. }
  unfold test_step. destruct (vt_state t) eqn:Est; try by apply triple_exit.
  - apply Hret. by apply advance_keeps.
  - apply (triple_bind _ _ _ (λ _ w, w = c)).
    + unfold pullConfiguredProductImage. keep. apply settings_keeps.
    + intros _. apply (triple_bind _ _ _ (λ _ w, w = c)).
      * destruct (is_some _); [apply docker_step_keeps|by apply triple_ret].
      * intros _. apply Hret. by apply advance_keeps.
  - apply (triple_bind _ _ _ (λ _ w, w = c)); [apply start_container_keeps|].
    intros _. apply Hret. by apply advance_keeps.
  - destruct (productVersionTestHealthy _ _ _ _ _) as [[detail|]|e]; [|apply Hret|by apply triple_exit].
    + destruct (_ <=? _) eqn:Eh; bool_hyps; apply Hret; [apply complete_keeps; right; left|by apply retry_keeps].
    + apply complete_keeps. left.
Qed.
End one.

Lemma claim_test_spec t : claim_test now unlocked c = Ok t → t ∈ tests c.
Proof using. intros [Hin _]%select_ok. by rewrite elem_of_sort_by in Hin. Qed.
Lemma commit_pass P r on_err : (∀ w, P w → catalog_ok w) → ends on_err P (commit;; mret r) kept_pass any_pass.
Proof using. intros HP. apply (ends_commit _ _ _ any_pass); [done|by apply closing_ret|]. intros _ w _. apply HP. Qed.
Lemma processProductVersionTestOne_keeps on_err executor committed :
  ends on_err (λ w, w = c) (processProductVersionTestOne cfg now unlocked executor committed) kept_pass any_pass.
Proof using Hok.
  unfold processProductVersionTestOne. cbv zeta. eapply ends_bind; [apply triple_begin|done|intros []]. cbv beta.
  apply ends_claim; [done..|]. intros w t -> Hin%claim_test_spec. destruct executor as [x|]; [|by apply ends_exit].
  destruct (snapshot_text _ _); [|by apply ends_exit]. do 3 (destruct (snapshot_map _ _); [|by apply ends_exit]).
  apply ends_guard; [done|intros _].
  apply (ends_bind _ _ _ _ (λ _ w, w = c)); [by apply triple_handle_exit; [apply triple_pool|intros; apply triple_exit]|done|intros cancelled].
  apply ends_guard; [done|intros _]. eapply ends_bind; [by apply test_step_keeps|done|]. intros removed. by apply commit_pass.
Qed.
Lemma failProductVersionTest_keeps on_err id why :
  ends on_err (λ w, w = c) (failProductVersionTest cfg now id why) kept_pass any_pass.
Proof using Hok.
  unfold failProductVersionTest. eapply ends_bind; [apply triple_begin|done|intros []]. cbv beta.
  apply ends_query; [done|]. intros w t -> [Hin Hid]%select_ok. unfold test_is in Hid. bool_hyps. subst id.
  apply (ends_bind _ _ _ _ (λ _ w, catalog_ok w)); [|done|intros []; by apply commit_pass].
  destruct (test_ended t); [by apply triple_ret; intros w ->|].
  apply (triple_bind _ _ _ (λ _ w, w = c)); [by apply triple_query|intros cancelled].
  destruct cancelled; apply complete_keeps; try done; [right; right; left|right; left].
Qed.
Lemma claim_cancellation_spec t : claim_cancellation unlocked c = Ok t → t ∈ tests c.
Proof using. unfold claim_cancellation. intros (x & _ & [Hin _]%select_ok)%bind_ok_inv. done. Qed.
Lemma processProductVersionTestCancellationOne_keeps on_err committed :
  ends on_err (λ w, w = c) (processProductVersionTestCancellationOne now unlocked committed) kept_pass any_pass.
Proof using Hok.
  unfold processProductVersionTestCancellationOne.
  apply (ends_bind _ _ _ _ (λ _ w, w = c)); [by apply triple_handle_exit; [apply triple_pool|intros; apply triple_exit]|done|intros pending].
  apply (ends_bind _ _ _ _ (λ _ w, w = c)); [by apply triple_handle_exit; [apply triple_begin|intros; apply triple_exit]|done|intros []].
  apply ends_query_or; [done|]. intros w t -> Hin%claim_cancellation_spec.
  apply (ends_bind _ _ _ _ (λ _ w, catalog_ok w)); [|done|intros []].
  { apply triple_handle_exit; [|by intros; apply triple_exit]. destruct (test_ended t); [by apply triple_ret; intros w ->|].
    apply complete_keeps; [done|]. right; right; left. }
  apply (ends_bind _ _ _ _ (λ _ w, catalog_ok w)); [|done|intros []].
  { apply triple_handle_exit; [|by intros; apply triple_exit]. apply triple_exec. by intros w w' [] [= <-]. }
  by apply (ends_commit_or _ _ _ _ any_pass).
Qed.
End worker.

(** ** Histories *)
Section history.
Context `{GoRange} `{Secrets} `{UnicodeLower} `{UuidSyntax} (http_url : string → bool) (encrypt : string → string → option string)
  (cfg : worker_config).

(** One transaction of a handler, of the worker of the tests or of the one of
    the cancellations, with any faults; releases are written elsewhere. *)
Inductive catalog_step (c : catalog_t) : catalog_t → Prop :=
  | step_create rq body id orc : catalog_step c (run internalError (createProduct rq http_url body id) orc c).2
  | step_update rq path body orc : catalog_step c (run internalError (updateProduct rq http_url path body) orc c).2
  | step_availability rq path body orc : catalog_step c (run internalError (updateProductAvailability rq path body) orc c).2
  | step_delete rq path orc : catalog_step c (run internalError (deleteProduct rq path) orc c).2
  | step_create_version rq product body id orc : catalog_step c (run internalError (createProductVersion rq product body id) orc c).2
  | step_publish rq product version orc : catalog_step c (run internalError (publishProductVersion rq product version) orc c).2
  | step_delete_version rq product version orc : catalog_step c (run internalError (deleteProductVersion rq product version) orc c).2
  | step_start_test rq product version body id orc :
      catalog_step c (run internalError (startProductVersionTest rq encrypt product version body id) orc c).2
  | step_cancel_test rq product version test v1 v2 v3 : catalog_step c (cancelProductVersionTest rq product version test v1 v2 v3 c).2
  | step_test now unlocked executor committed orc :
      catalog_step c (run (λ _, TestStalled) (processProductVersionTestOne cfg now unlocked executor committed) orc c).2
  | step_fail_test now id why orc :
      catalog_step c (run (λ _, TestAdvanced id None) (failProductVersionTest cfg now id why) orc c).2
  | step_cancellation now unlocked committed orc :
      catalog_step c (run (λ _, CancelIdle) (processProductVersionTestCancellationOne now unlocked committed) orc c).2
  | step_releases rs :
      catalog_step c {| products := products c; versions := versions c; tests := tests c; cancellations := cancellations c;
                        version_releases := rs; catalog_audits := catalog_audits c; image_settings := image_settings c |}
  | step_settings s :
      catalog_step c {| products := products c; versions := versions c; tests := tests c; cancellations := cancellations c;
                        version_releases := version_releases c; catalog_audits := catalog_audits c; image_settings := s |}.

Lemma ends_catalog {R} (on_err : sqlerr → R) (m : tx catalog_t R R) orc c :
  catalog_ok c → ends on_err (λ w, w = c) m (λ _ w, catalog_ok w) (λ _, True) → catalog_ok (run on_err m orc c).2.
Proof. intros Hok Hm. destruct (run_ends on_err _ _ _ _ orc c Hm eq_refl) as [[-> _]|Hc]; done. Qed.
Lemma autocommit_cases {D} v (f : D → result sqlerr D) d : (autocommit v f d).2 = d ∨ f d = Ok (autocommit v f d).2.
Proof. unfold autocommit. destruct v, (f d); cbn; auto. Qed.
Lemma request_cancellation_keeps rq id c c' : catalog_ok c → request_cancellation rq id c = Ok c' → catalog_ok c'.
Proof. intros [] Hr. unfold request_cancellation in Hr. destruct (exists_row _ _); [by injection Hr as <-|]. by destruct (negb _); [|injection Hr as <-]. Qed.
Lemma cancelProductVersionTest_keeps rq product version test v1 v2 v3 c :
  catalog_ok c → catalog_ok (cancelProductVersionTest rq product version test v1 v2 v3 c).2.
Proof.
  intros Hok. unfold cancelProductVersionTest. destruct (_ || _); [done|]. destruct v1; [|done..].
  destruct (test_of _ _ _ c) as [t|[]]; [|done..]. destruct (test_ended t); [done|].
  assert (catalog_ok (autocommit v2 (request_cancellation rq test) c).2) as Hok1.
  { destruct (autocommit_cases v2 (request_cancellation rq test) c) as [->|E]; [done|]. by eapply request_cancellation_keeps. }
  destruct (autocommit v2 _ c) as [[] c1]; [|done]. cbn in Hok1 |- *.
  match goal with |- context [autocommit v3 ?f c1] => destruct (autocommit_cases v3 f c1) as [E|E]; destruct (autocommit v3 f c1) as [b c2] end.
  - cbn in E. subst. by destruct b.
  - injection E as <-. destruct b; by apply catalog_audits_keep.
Qed.
Lemma catalog_step_keeps c c' : catalog_step c c' → catalog_ok c → catalog_ok c'.
Proof.
  intros Hstep Hok. destruct Hstep; try (by destruct Hok).
  all: try (apply ends_catalog; [done|]).
  - by apply createProduct_keeps.
  - by apply updateProduct_keeps.
  - by apply updateProductAvailability_keeps.
  - by apply deleteProduct_keeps.
  - by apply createProductVersion_keeps.
  - by apply publishProductVersion_keeps.
  - by apply deleteProductVersion_keeps.
  - by apply startProductVersionTest_keeps.
  - by apply cancelProductVersionTest_keeps.
  - by apply processProductVersionTestOne_keeps.
  - by apply failProductVersionTest_keeps.
  - by apply processProductVersionTestCancellationOne_keeps.
Qed.

(** C37: over every interleaving of the catalog handlers and of the workers of
    the tests and of the cancellations, with any faults: the dependencies of the
    published versions have no cycle; a published product offers only versions
    whose dependencies are published products; a published version has passed a
    test; a version has at most one test under way, which is checked at most
    eight times, and a test that has ended keeps no secret. *)
Theorem catalog_history c c' : rtc catalog_step c c' → catalog_ok c → catalog_ok c'.
Proof. induction 1 as [|c1 c2 c3 Hstep _ IH]; [done|]. intros Hok. by apply IH, (catalog_step_keeps c1). Qed.
End history.
