(* ===== verification/CatalogRuns.v ===== *)
(** * A catalog from its first product on

    A database and a blog that depends on it are created, tested and published;
    the database can then not be retired, nor depend on the blog. *)
From S2P Require Import Prelude GoStrings Regex GoValue GoTime Tx Triple Table Ledger Schema Http RuntimeSpec RuntimeSpecFacts Crypto Accounts PaymentFacts Names Health DeployDb Deploy DeployFacts DeployRuns ProductSpec Graph Catalog ProductTests CatalogFacts CatalogHistory.
From stdpp Require Import list gmap relations.
Open Scope string_scope.
Open Scope Z_scope.
Open Scope list_scope.
#[local] Existing Instances Fleet.range Fleet.lower Fleet.clear Sample.any_uuid.

Module Store.
Definition db_id : string := "0f0e0d0c-0b0a-4908-8706-050403020100".
Definition blog_id : string := "1f0e0d0c-0b0a-4908-8706-050403020100".
Definition empty : catalog_t :=
  {| products := []; versions := []; tests := []; cancellations := []; version_releases := []; catalog_audits := [];
     image_settings := settings Fleet.switching |}.
Lemma store_empty_ok : catalog_ok empty.
Proof.
  assert (tests_ok []) by (constructor; cbn; [apply NoDup_nil_2|by intros t ?%elem_of_nil|by intros t u ?%elem_of_nil]).
  constructor; cbn; try apply NoDup_nil_2; try done; try (by intros ? ?%elem_of_nil).
  - intros x Hx. change (dependency_edges []) with (@nil (string * string)) in Hx.
    inversion Hx as [? ? He|? ? ? He]; by apply elem_of_nil in He.
  - by intros p v d ?%elem_of_nil.
  - by intros p v ?%elem_of_nil.
Qed.
Definition rq (n : Z) : request := {| principal := "admin"; actor := None; request_id := "r-1"; now := n; origin := "https://c.example" |}.
Definition http_url (_ : string) : bool := false.
Definition encrypt (_ v : string) : option string := Some v.
Definition engine : test_docker :=
  {| td_docker := Fleet.engine; td_remove := λ _, Ok tt; td_create := λ _ _ _ _ _, Ok tt; td_diagnostics := λ _ _, Ok "" |}.
Definition db_spec : obj := delete "dependencies" example_spec.
Definition request (spec : obj) : createVersionRequest :=
  {| cv_VersionLabel := "1"; cv_ImageDigest := "postgres:16"; cv_RuntimeSpec := spec; cv_RouteSpec := {["containerPort" := ANum (f_of_Z 8080)]};
     cv_HealthSpec := {["path" := AStr "/up"]}; cv_UpdateSpec := ∅ |}.
Definition answer (m : tx catalog_t response response) (c : catalog_t) : response * catalog_t := run internalError m no_faults c.
Definition test_pass (n : Z) (c : catalog_t) : catalog_t :=
  (run (λ _, TestStalled) (processProductVersionTestOne Fleet.config n (λ _, true) (Some engine) c) no_faults c).2.
(** A product is created, with a version that is tested. *)
Definition create (id slug : string) (c : catalog_t) : catalog_t := (answer (createProduct (rq 1) http_url (Some (slug, slug, "")) id) c).2.
Definition add_version (product version : string) (spec : obj) (c : catalog_t) : catalog_t :=
  (answer (createProductVersion (rq 2) product (Some (request spec)) version) c).2.
Definition start_test (product version test : string) (c : catalog_t) : catalog_t :=
  (answer (startProductVersionTest (rq 3) encrypt product version (Some {["TOKEN" := "secret"]}) test) c).2.
Definition publish (product version : string) (c : catalog_t) : catalog_t := (answer (publishProductVersion (rq 999) product version) c).2.
Definition passes (c : catalog_t) : catalog_t := test_pass (400 * second) (test_pass (300 * second) (test_pass (200 * second) (test_pass (100 * second) c))).
Definition with_db : catalog_t :=
  publish db_id "v-1" (passes (start_test db_id "v-1" "t-1" (add_version db_id "v-1" db_spec (create db_id "postgres" empty)))).
Definition with_blog : catalog_t :=
  publish blog_id "v-2" (passes (start_test blog_id "v-2" "t-2" (add_version blog_id "v-2" example_spec (create blog_id "blog" with_db)))).
Definition on_blog : obj :=
  <["dependencies" := AArr [AObj {["key" := AStr "blog"; "productId" := AStr blog_id; "serviceSlug" := AStr "blog"; "required" := ABool true]}]]> db_spec.
Definition facts (c : catalog_t) : list product_status * list (bool * bool) * list (test_state * Z * bool) :=
  (pd_status <$> products c, (λ v, (is_published v, offered v)) <$> versions c,
   (λ t, (vt_state t, vt_attempts t, bool_decide (vt_secrets t = ∅))) <$> tests c).

Example published_twice :
  facts with_blog = ([ProductPublished; ProductPublished], [(true, true); (true, true)],
                     [(TestSucceeded, 4, true); (TestSucceeded, 4, true)]).
Proof. vm_compute. reflexivity. Qed.
Example database_in_use : (answer (updateProductAvailability (rq 9) db_id (Some (Some false))) with_blog).1 = RError 409 "product_is_dependency".
Proof. vm_compute. reflexivity. Qed.
Example no_cycle : (answer (createProductVersion (rq 9) db_id (Some (request on_blog)) "v-3") with_blog).1 = RError 400 "validation_failed".
Proof. vm_compute. reflexivity. Qed.

(** A test that Docker never finds healthy ends after eight checks. *)
Definition sick : test_docker :=
  {| td_docker := {| x_ensure_network := λ _, Ok tt; x_connect_network := λ _ _ _, Ok tt; x_image_exists := λ _, true;
       x_pull := λ _, Ok tt; x_pull_registry := λ _ _ _ _, Ok tt; x_healthy := λ _, Ok false;
       x_create := λ _ _ _ _ _ _, Ok "c-2"; x_start := λ _, Ok tt; x_published_port := λ _ _, Ok 20001;
       x_probe := λ _ _ _ _ _, Ok tt; x_gateway := λ _, Ok "172.17.0.1" |};
     td_remove := λ _, Ok tt; td_create := λ _ _ _ _ _, Ok tt; td_diagnostics := λ _ _, Ok "exit 1" |}.
Definition sick_pass (c : catalog_t) (n : Z) : catalog_t :=
  (run (λ _, TestStalled) (processProductVersionTestOne Fleet.config (n * 1000 * second) (λ _, true) (Some sick) c) no_faults c).2.
Definition sick_run (n : Z) : catalog_t :=
  fold_left sick_pass (seqZ 1 n) (start_test db_id "v-1" "t-1" (add_version db_id "v-1" db_spec (create db_id "postgres" empty))).
Example eight_checks :
  ((λ n, (facts (sick_run n)).2) <$> [10; 11; 12]) = [[(TestChecking, 10, false)]; [(TestFailed, 11, true)]; [(TestFailed, 11, true)]].
Proof. vm_compute. reflexivity. Qed.
End Store.

#[local] Abbreviation store_step := (catalog_step Store.http_url Store.encrypt Fleet.config).
Lemma store_pass_steps c : rtc store_step c (Store.passes c).
Proof. do 4 (eapply rtc_r; [|apply step_test]). apply rtc_refl. Qed.
(** A product from its creation to its first published version. *)
Lemma store_product_steps id slug version test spec c :
  rtc store_step c (Store.publish id version (Store.passes (Store.start_test id version test
    (Store.add_version id version spec (Store.create id slug c))))).
Proof.
  eapply rtc_r; [|apply step_publish]. etrans; [|apply store_pass_steps].
  eapply rtc_r; [|apply step_start_test]. eapply rtc_r; [|apply step_create_version]. apply rtc_once, step_create.
Qed.
Lemma store_steps : rtc store_step Store.empty Store.with_blog.
Proof.
  unfold Store.with_blog. transitivity Store.with_db; [|apply store_product_steps]. unfold Store.with_db. apply store_product_steps.
Qed.
Lemma catalog_history_witness : catalog_ok Store.with_blog.
Proof.
  exact (catalog_history Store.http_url Store.encrypt Fleet.config Store.empty Store.with_blog store_steps Store.store_empty_ok).
Defined.
