(* ===== verification/Control.v ===== *)
(** * Stopping and starting applications

    internal/httpapi/app_control.go (stopApp, startApp) with what they call
    (deployment_entitlements.go, product_dependencies.go,
    resource_entitlements.go, resource_snapshot.go, missingSnapshotSecrets of
    app_lifecycle.go), and processStopOne of apps/worker/main.go.  The state
    joins the tables of deployments, the stop jobs (migrations 57, 66 and 91)
    and, for the startup reserve, the books. *)
From S2P Require Import Prelude GoStrings Regex GoValue GoTime Domain Tx Table Ledger Schema Http RuntimeSpec Accounts Names Health ProductSpec Graph Catalog DeployDb Deploy.
From stdpp Require Import list gmap.
Open Scope string_scope.
Open Scope Z_scope.
Open Scope list_scope.

Inductive stop_status := StopQueued | StopRunning | StopSucceeded.
#[export] Instance stop_status_eq_dec : EqDecision stop_status.
Proof. solve_decision. Defined.
Record stop_job := {
  sj_id : string; sj_app : string; sj_release : option string; sj_container : string; sj_key : string;
  sj_status : stop_status; sj_attempts : Z; sj_available : timestamp; sj_created : timestamp; sj_updated : timestamp;
  sj_error : option string; sj_completed : option timestamp
}.
(** Columns of user_apps that a deployment does not use. *)
Record app_access := { ac_Enabled : bool; ac_Username : string; ac_Hash : string }.
Record app_profile := {
  ap_id : string; ap_slug : string; ap_access : app_access; ap_refresh_days : option Z; ap_next_refresh : option timestamp;
  ap_deleted : option timestamp
}.
(** A row of app_backups that succeeded at [bk_completed]; [bk_deleting]: a
    deletion of it is queued, running or done. *)
Record backup_row := { bk_app : string; bk_volume : string; bk_completed : timestamp; bk_deleting : bool }.
(** [restores]: the applications with a row of app_restore_jobs that is queued
    or running; [app_secrets]: the application and the key of each row, whose
    versions are the rows of secret_versions in the order of their numbers. *)
Record control_t := {
  fleet : deploy_t; books : db; stop_jobs : list stop_job; restores : list string; control_audits : list audit_row;
  shop : catalog_t; profiles : list app_profile; app_secrets : list (string * string); backups : list backup_row;
  user_slugs : gmap string string
}.
Definition upd_fleet f (c : control_t) : control_t :=
  {| fleet := f (fleet c); books := books c; stop_jobs := stop_jobs c; restores := restores c; control_audits :=
     control_audits c; shop := shop c; profiles := profiles c; app_secrets := app_secrets c; backups := backups c;
     user_slugs := user_slugs c |}.
Definition upd_stop_jobs f (c : control_t) : control_t :=
  {| fleet := fleet c; books := books c; stop_jobs := f (stop_jobs c); restores := restores c; control_audits :=
     control_audits c; shop := shop c; profiles := profiles c; app_secrets := app_secrets c; backups := backups c;
     user_slugs := user_slugs c |}.
Definition upd_control_audits f (c : control_t) : control_t :=
  {| fleet := fleet c; books := books c; stop_jobs := stop_jobs c; restores := restores c; control_audits := f
     (control_audits c); shop := shop c; profiles := profiles c; app_secrets := app_secrets c; backups := backups c;
     user_slugs := user_slugs c |}.
Definition upd_profiles f (c : control_t) : control_t :=
  {| fleet := fleet c; books := books c; stop_jobs := stop_jobs c; restores := restores c; control_audits :=
     control_audits c; shop := shop c; profiles := f (profiles c); app_secrets := app_secrets c; backups := backups c;
     user_slugs := user_slugs c |}.
Definition upd_app_secrets f (c : control_t) : control_t :=
  {| fleet := fleet c; books := books c; stop_jobs := stop_jobs c; restores := restores c; control_audits :=
     control_audits c; shop := shop c; profiles := profiles c; app_secrets := f (app_secrets c); backups := backups c;
     user_slugs := user_slugs c |}.

(** ** Statements *)
Definition open_stop (s : stop_job) : bool := negb (bool_decide (sj_status s = StopSucceeded)).
Definition on_fleet (f : deploy_t → result sqlerr deploy_t) (c : control_t) : result sqlerr control_t :=
  d ← f (fleet c); Ok (upd_fleet (λ _, d) c).
Definition record_audit (row : audit_row) (c : control_t) : result sqlerr control_t :=
  Ok (upd_control_audits (λ t, t ++ [row]) c).
(** The container of a stop job belongs to the application (by its instance,
    or by the identifier of old names) and to the release. *)
Definition container_of (id release name : string) : bool :=
  bool_decide (name = "cm-" ^+ id ^+ "-" ^+ release)
  || match_string (rseq [rlit "cm-"; scopeToken; rlit ("-" ^+ id ^+ "-" ^+ release)]) name.
Definition insert_stop_job (row : stop_job) (c : control_t) : result sqlerr control_t :=
  let release_ok := match sj_release row with
                    | None => true
                    | Some r => exists_row (release_is r (sj_app row)) (releases (fleet c))
                    end in
  let container_ok :=
    bool_decide (sj_container row = "") ||
    match sj_release row, select_app (sj_app row) (fleet c) with
    | Some r, Ok a => container_of (da_instance a) r (sj_container row) || container_of (sj_app row) r (sj_container row)
    | _, _ => false
    end in
  if negb release_ok then Err (Constraint "application stop job release must belong to the same application")
  else if negb container_ok then Err (Constraint "application stop job container must match its application and release")
  else if exists_row (λ s, bool_decide (sj_id s = sj_id row)) (stop_jobs c) then Err (Constraint "app_stop_jobs_pkey")
  else if exists_row (λ s, bool_decide (sj_app s = sj_app row) && bool_decide (sj_key s = sj_key row)) (stop_jobs c)
  then Err (Constraint "app_stop_jobs_user_app_id_idempotency_key_key")
  else if exists_row (λ s, bool_decide (sj_app s = sj_app row) && open_stop s) (stop_jobs c)
  then Err (Constraint "app_stop_jobs_active_app_uidx")
  else Ok (upd_stop_jobs (λ t, t ++ [row]) c).
Definition delete_route (app : string) (d : deploy_t) : result sqlerr deploy_t :=
  Ok (upd_routes (List.filter (λ rt, negb (route_of app rt))) d).
Definition stopping_app (app : string) : deploy_t → result sqlerr deploy_t :=
  write_app app (λ a, with_status AppStopping None (da_billing_at a) (da_last a) a).
Definition updating_app (app : string) : deploy_t → result sqlerr deploy_t :=
  write_app app (λ a, with_status AppUpdating None None (da_last a) a).

(** The trigger on app_releases (migration 66) that compares a new release with
    the published product version and with the secrets of the application. *)
Class ReleaseTrigger := { release_admitted : release → deploy_t → bool }.
Definition insert_release `{ReleaseTrigger} (row : release) (d : deploy_t) : result sqlerr deploy_t :=
  if negb (release_admitted row d) then Err (Constraint "application release snapshot does not match immutable product version")
  else if exists_row (λ r, bool_decide (rl_id r = rl_id row)) (releases d) then Err (Constraint "app_releases_pkey")
  else if exists_row (λ r, bool_decide (rl_app r = rl_app row) && (rl_number r =? rl_number row)) (releases d)
  then Err (Constraint "app_releases_user_app_id_release_number_key")
  else Ok (upd_releases (λ t, t ++ [row]) d).
Definition created_release (id app version : string) (number : Z) (snapshot : any) (at_ : timestamp) : release :=
  {| rl_id := id; rl_app := app; rl_version := version; rl_number := number; rl_snapshot := snapshot;
     rl_state := RelCreated; rl_container := ""; rl_host_port := None; rl_created := at_ |}.
Definition release_in (states : list release_state) (id app : string) (d : deploy_t) : bool :=
  exists_row (λ r, release_is id app r && bool_decide (rl_state r ∈ states)) (releases d).
(** INSERT of a start job: the constraints of deployment_jobs and the trigger
    deployment_jobs_integrity_guard. *)
Definition insert_start_job (row : deploy_job) (source : string) (d : deploy_t) : result sqlerr deploy_t :=
  if negb (release_in [RelCreated] (dj_release row) (dj_app row) d) then Err (Constraint "deployment target release must be in created state")
  else if bool_decide (source = dj_release row) then Err (Constraint "rollback and start jobs require a distinct source release")
  else if negb (release_in [RelActive; RelSuperseded] source (dj_app row) d)
  then Err (Constraint "rollback and start source releases must be successful")
  else if exists_row (λ j, bool_decide (dj_id j = dj_id row)) (jobs d) then Err (Constraint "deployment_jobs_pkey")
  else if exists_row (λ j, bool_decide (dj_key j = dj_key row)) (jobs d) then Err (Constraint "deployment_jobs_idempotency_key_key")
  else if exists_row (λ j, bool_decide (dj_app j = dj_app row) && negb (terminal_job j)) (jobs d)
  then Err (Constraint "deployment_jobs_active_app_uidx")
  else Ok (upd_jobs (λ t, t ++ [row]) d).
Definition start_job (id app release key source : string) (at_ : timestamp) : deploy_job :=
  {| dj_id := id; dj_app := app; dj_release := release; dj_key := key; dj_source := Some source;
     dj_state := DeploymentQueued; dj_operation := "start"; dj_attempts := 0; dj_available := at_; dj_created := at_;
     dj_error := None |}.

(** ** What both handlers look at *)
Definition owned_app (app user : string) (c : control_t) : result sqlerr dapp :=
  select (λ a, app_is app a && bool_decide (da_user a = user)) (dapps (fleet c)).
Definition job_under_way (app : string) (d : deploy_t) : bool :=
  exists_row (λ j, bool_decide (dj_app j = app) && negb (terminal_job j)) (jobs d).

(** *** internal/httpapi: resource_snapshot.go, product_dependencies.go,
    resource_entitlements.go, app_lifecycle.go *)
Definition snapshotRuntime (snapshot : obj) : obj := default ∅ (as_obj (get snapshot "runtime_spec")).
(** EXISTS of a running application of the customer that offers the service. *)
Definition dependency_ready (userID appID : string) (dep : Dependency) (d : deploy_t) : bool :=
  exists_row (λ rt, exists_row (λ a,
    app_is (dr_app rt) a && bool_decide (da_user a = userID) && bool_decide (da_product a = dep_ProductID dep)
    && bool_decide (da_service a = dep_ServiceSlug dep) && bool_decide (da_status a = AppRunning)
    && bool_decide (da_last a = Some (dr_release rt))
    && (bool_decide (appID = "") || negb (bool_decide (da_id a = appID)))) (dapps d)) (routes d).
Section queries.
Context {R : Type}.
Fixpoint missing_dependencies (userID appID : string) (deps : list Dependency) : tx control_t R (list Dependency) :=
  match deps with
  | [] => mret []
  | dep :: deps =>
      if dep_Required dep then
        ready ← query (λ c, Ok (dependency_ready userID appID dep (fleet c)));
        missing ← missing_dependencies userID appID deps;
        mret (if ready : bool then missing else dep :: missing)
      else missing_dependencies userID appID deps
  end.
(** [None]: the declaration is not valid. *)
Definition missingRuntimeDependencies (userID appID : string) (runtimeSpec : obj) : tx control_t R (option (list Dependency)) :=
  match RuntimeDependencies runtimeSpec with
  | Err _ => mret None
  | Ok deps => missing ← missing_dependencies userID appID deps; mret (Some missing)
  end.
(** enforceDeploymentConcurrency and enforceRuntimeEntitlements ask the
    database nothing. *)
Definition enforceDeploymentConcurrency (userID : string) : tx control_t R unit := mret tt.
End queries.
Definition missingSnapshotSecrets (snapshot : obj) : result spec_error (list string) :=
  required ← RuntimeSecretKeys (snapshotRuntime snapshot);
  let versions := default ∅ (as_obj (get snapshot "secret_versions")) in
  Ok (List.filter (λ key, match as_string (get versions key) with
                          | None => true
                          | Some versionID => bool_decide (trim_space versionID = "")
                          end) required).
Definition enforceRuntimeEntitlements (spec : obj) : result spec_error unit :=
  _ ← RuntimeResources spec false; _ ← RuntimeStorage spec false; Ok tt.

(** ** The handlers *)
Section handlers.
Context `{UuidSyntax} `{ReleaseTrigger} (rq : request).
#[local] Abbreviation handler := (tx control_t response).

(** [body]: the idempotencyKey of the JSON body, [None] when the body is not
    valid. *)
Definition decodeAppControlRequest (body : option string) : result response string :=
  match body with
  | None => Err (RError 400 "invalid_request")
  | Some key =>
      let key := trim_space key in
      if bool_decide (key = "") || (128 <? slen key) then Err (RError 400 "validation_failed") else Ok key
  end.

(** The applications of the customer that run or are being deployed and whose
    newest release that has not failed requires the service of [a]. *)
Definition newest_release (app : string) (d : deploy_t) : option release :=
  head (sort_by (λ r s, rl_number s <=? rl_number r)
          (List.filter (λ r, bool_decide (rl_app r = app) && negb (bool_decide (rl_state r = RelFailed))) (releases d))).
(** The cast of the text of [required] to a boolean; a published specification
    has a boolean there or nothing. *)
Definition required_dependency (value : any) : result sqlerr bool :=
  match field value "required" with
  | ABool b => Ok b
  | ANil => Ok false
  | _ => Err (Constraint "invalid input syntax for type boolean")
  end.
Definition requires (a : dapp) (value : any) : result sqlerr bool :=
  required ← required_dependency value;
  Ok (bool_decide (as_string (field value "productId") = Some (da_product a))
      && bool_decide (as_string (field value "serviceSlug") = Some (da_service a)) && required).
Fixpoint any_ok {A} (f : A → result sqlerr bool) (xs : list A) : result sqlerr bool :=
  match xs with
  | [] => Ok false
  | x :: xs => b ← f x; rest ← any_ok f xs; Ok (b || rest)
  end.
Definition snapshot_dependencies (snapshot : any) : result sqlerr (list any) :=
  match field (field snapshot "runtime_spec") "dependencies" with
  | ANil => Ok []
  | AArr l => Ok l
  | _ => Err (Constraint "cannot extract elements from an object")
  end.
Definition has_dependents (a : dapp) (c : control_t) : result sqlerr bool :=
  any_ok (λ other,
    if bool_decide (da_user other = da_user a) && negb (bool_decide (da_id other = da_id a))
       && bool_decide (da_status other ∈ [AppDeploying; AppRunning; AppUpdating])
    then match newest_release (da_id other) (fleet c) with
         | None => Ok false
         | Some r => deps ← snapshot_dependencies (rl_snapshot r); any_ok (requires a) deps
         end
    else Ok false) (dapps (fleet c)).

Definition control_audit (action appID : string) (meta : jsonb) : control_t → result sqlerr control_t :=
  record_audit {| au_actor := Some (audit_actor rq); au_subject := Some (principal rq); au_action := action;
                  au_rtype := "user_app"; au_rid := appID; au_request := request_id rq; au_meta := meta |}.
Definition status_text (s : stop_status) : string :=
  match s with StopQueued => "queued" | StopRunning => "running" | StopSucceeded => "succeeded" end.

(** The container that the route of an application leads to, or the empty
    string. *)
Definition route_container (app : string) (d : deploy_t) : string :=
  match select (route_of app) (routes d) with Ok rt => dr_container rt | Err _ => "" end.

Definition stopApp (path : string) (body : option string) (stopJobID : string) : handler response :=
  let appID := trim_space path in
  guard_exit (negb (valid_uuid appID)) (RError 400 "validation_failed");;
  match decodeAppControlRequest body with
  | Err r => exit r
  | Ok key =>
    begin_tx;;
    existing ← optional (query (λ c, select (λ s, bool_decide (sj_app s = appID) && bool_decide (sj_key s = key)
                                                  && is_ok (owned_app appID (principal rq) c)) (stop_jobs c)));
    match existing with
    | Some job =>
        ignore commit;;
        mret (RJson 200 [("appId", JStr appID); ("stopJobId", JStr (sj_id job)); ("status", JStr (status_text (sj_status job)));
                         ("idempotent", JBool true)])
    | None =>
      row ← on_no_rows (query (λ c, a ← owned_app appID (principal rq) c; Ok (a, route_container appID (fleet c))))
              (exit (RError 404 "app_not_found"));
      let '(a, container) := row in
      if bool_decide (da_status a = AppStopped) then
        ignore commit;;
        mret (RJson 200 [("appId", JStr appID); ("status", JStr "stopped"); ("idempotent", JBool true)])
      else
        guard_exit (bool_decide (da_status a = AppStopping)) (RError 409 "app_stop_in_progress");;
        guard_exit (bool_decide (da_status a = AppSuspended)) (RError 409 "app_suspended");;
        guard_exit (negb (bool_decide (da_status a = AppRunning))) (RError 409 "app_not_running");;
        active ← query (λ c, Ok (job_under_way appID (fleet c), bool_decide (appID ∈ restores c)));
        guard_exit (active.1 || active.2) (RError 409 "app_operation_in_progress");;
        dependents ← query (has_dependents a);
        guard_exit dependents (RError 409 "app_required_by_dependents");;
        exec (insert_stop_job {| sj_id := stopJobID; sj_app := appID; sj_release := da_last a; sj_container := container;
                sj_key := key; sj_status := StopQueued; sj_attempts := 0; sj_available := now rq; sj_created := now rq;
                sj_updated := now rq; sj_error := None; sj_completed := None |});;
        exec (on_fleet (delete_route appID));;
        exec (on_fleet (stopping_app appID));;
        exec (control_audit "app.stop.request" appID
                [("stop_job_id", JStr stopJobID); ("release_id", match da_last a with Some r => JStr r | None => JNull end)]);;
        commit;;
        mret (RJson 202 [("appId", JStr appID); ("stopJobId", JStr stopJobID); ("status", JStr "stopping");
                         ("idempotent", JBool false)])
    end
  end.

Definition max_release_number (app : string) (d : deploy_t) : Z :=
  foldr Z.max 0 (rl_number <$> List.filter (λ r, bool_decide (rl_app r = app)) (releases d)).
Definition may_start (a : dapp) : bool :=
  bool_decide (da_status a = AppStopped) || bool_decide (da_status a = AppFailed)
  || bool_decide (da_status a = AppSuspended) && bool_decide (da_suspension a = Some "billing_insufficient").
(** The releases and the job that a start creates. *)
Definition create_start (appID key releaseID jobID : string) (source : release) (snapshot : obj) : handler response :=
  number ← query (λ c, Ok (max_release_number appID (fleet c) + 1));
  exec (on_fleet (insert_release (created_release releaseID appID (rl_version source) number (AObj snapshot) (now rq))));;
  exec (on_fleet (insert_start_job (start_job jobID appID releaseID key (rl_id source) (now rq)) (rl_id source)));;
  exec (on_fleet (updating_app appID));;
  exec (control_audit "app.start" appID
          [("job_id", JStr jobID); ("release_id", JStr releaseID); ("source_release_id", JStr (rl_id source))]);;
  commit;;
  mret (RJson 202 [("appId", JStr appID); ("releaseId", JStr releaseID); ("jobId", JStr jobID); ("status", JStr "updating");
                   ("idempotent", JBool false)]).
Definition startApp (path : string) (body : option string) (releaseID jobID : string) : handler response :=
  let appID := trim_space path in
  guard_exit (negb (valid_uuid appID)) (RError 400 "validation_failed");;
  match decodeAppControlRequest body with
  | Err r => exit r
  | Ok key =>
    begin_tx;;
    existing ← optional (query (λ c, select (λ j, bool_decide (dj_key j = key) && is_ok (owned_app (dj_app j) (principal rq) c))
                                       (jobs (fleet c))));
    match existing with
    | Some job =>
        guard_exit (negb (bool_decide (dj_app job = appID)) || negb (bool_decide (dj_operation job = "start")))
          (RError 409 "idempotency_conflict");;
        ignore commit;;
        mret (RJson 200 [("appId", JStr appID); ("jobId", JStr (dj_id job)); ("status", JStr "updating"); ("idempotent", JBool true)])
    | None =>
      enforceDeploymentConcurrency (principal rq);;
      a ← on_no_rows (query (owned_app appID (principal rq))) (exit (RError 404 "app_not_found"));
      guard_exit (bool_decide (da_status a = AppSuspended) && negb (bool_decide (da_suspension a = Some "billing_insufficient")))
        (RError 409 "app_suspended");;
      guard_exit (bool_decide (da_status a = AppStopping)) (RError 409 "app_stop_in_progress");;
      guard_exit (negb (may_start a)) (RError 409 "app_not_stopped");;
      match da_last a with
      | None => exit (RError 409 "successful_release_required")
      | Some sourceReleaseID =>
        balances ← query (λ c, startup_row (principal rq) (now rq) (books c));
        guard_exit (bool_decide (is_Some (startup_shortage balances))) (RError 409 "insufficient_startup_balance");;
        source ← query (λ c, select_release sourceReleaseID appID (fleet c));
        match as_obj (rl_snapshot source) with
        | None => exit internal_error
        | Some snapshot =>
          missing ← missingRuntimeDependencies (principal rq) appID (snapshotRuntime snapshot);
          guard_exit (bool_decide (missing = None)) internal_error;;
          guard_exit (negb (bool_decide (default [] missing = []))) (RError 409 "required_dependency_unavailable");;
          match missingSnapshotSecrets snapshot with
          | Err _ => exit internal_error
          | Ok secrets =>
            guard_exit (negb (bool_decide (secrets = []))) (RError 409 "required_secret_missing");;
            guard_exit (negb (is_ok (enforceRuntimeEntitlements (snapshotRuntime snapshot)))) internal_error;;
            create_start appID key releaseID jobID source snapshot
          end
        end
      end
    end
  end.
End handlers.

(** ** processStopOne *)
Section stop_worker.
Context (runtimeOwner runtimeScope : string) (now : timestamp) (unlocked : string → bool).
(** StopIfExists followed by RemoveIfExists, when Docker is available. *)
Context (remove_container : option (string → result string unit)).

Definition stale (s : stop_job) : bool := bool_decide (sj_status s = StopRunning) && (sj_updated s <? now - 60 * second).
Definition claimable (s : stop_job) : bool :=
  (sj_available s <=? now) && (bool_decide (sj_status s = StopQueued) || stale s) && unlocked (sj_id s).
Definition stop_created_le (s t : stop_job) : bool := sj_created s <=? sj_created t.
Definition with_stop (st : stop_status) (attempts : Z) (available : timestamp) (error : option string) (completed : option timestamp)
    (s : stop_job) : stop_job :=
  {| sj_id := sj_id s; sj_app := sj_app s; sj_release := sj_release s; sj_container := sj_container s; sj_key := sj_key s;
     sj_status := st; sj_attempts := attempts; sj_available := available; sj_created := sj_created s; sj_updated := now;
     sj_error := error; sj_completed := completed |}.
Definition stop_is (id : string) (s : stop_job) : bool := bool_decide (sj_id s = id).
Definition claim_stop (c : control_t) : result sqlerr (stop_job * control_t) :=
  s ← select claimable (sort_by stop_created_le (stop_jobs c));
  let claimed t := with_stop StopRunning (sj_attempts t + 1) (sj_available t) None (sj_completed t) t in
  Ok (claimed s, upd_stop_jobs (update (stop_is (sj_id s)) claimed) c).
Inductive stop_outcome := StopIdle | StopClaimed (s : stop_job) | StopRetried (why : string) | StopDone.
#[local] Abbreviation stop_tx := (tx control_t stop_outcome).
Definition idle (_ : sqlerr) : stop_outcome := StopIdle.
Definition claim_phase : stop_tx stop_outcome :=
  begin_tx;;
  s ← on_no_rows (stmt claim_stop) (exit StopIdle);
  commit;;
  mret (StopClaimed s).
Definition instance_of (app : string) (c : control_t) : string :=
  match select_app app (fleet c) with Ok a => da_instance a | Err _ => "" end.
(** [known]: whether the instance could be read. *)
Definition stop_container (known : bool) (s : stop_job) (c : control_t) : result string unit :=
  let instanceID := if known then instance_of (sj_app s) c else "" in
  let release := default "" (sj_release s) in
  if bool_decide (sj_container s = "") then Ok tt
  else if negb (stopContainerMatches runtimeOwner runtimeScope instanceID release (sj_container s))
          && negb (stopContainerMatches runtimeOwner runtimeScope (sj_app s) release (sj_container s))
  then Err "stop job container identity is invalid"
  else match remove_container with
       | None => Err "docker executor is unavailable"
       | Some f => f (sj_container s)
       end.
Definition backoff (attempts : Z) : Z := 2 ^ Z.min attempts 6 * second.
Definition running_stop (id : string) (s : stop_job) : bool := stop_is id s && bool_decide (sj_status s = StopRunning).
Definition retry_stop (s : stop_job) (why : string) (c : control_t) : result sqlerr control_t :=
  Ok (upd_stop_jobs (update (running_stop (sj_id s))
        (λ t, with_stop StopQueued (sj_attempts t) (now + backoff (sj_attempts s)) (Some why) (sj_completed t) t)) c).
(** A statement on the pool commits by itself. *)
Definition retry_phase (s : stop_job) (why : string) : stop_tx stop_outcome :=
  exec (retry_stop s why);; commit;; mret (StopRetried why).
Definition succeed_stop (s : stop_job) (c : control_t) : result sqlerr control_t :=
  Ok (upd_stop_jobs (update (running_stop (sj_id s))
        (λ t, with_stop StopSucceeded (sj_attempts t) (sj_available t) None (Some now) t)) c).
Definition stopped_app (app : string) (d : deploy_t) : result sqlerr deploy_t :=
  Ok (upd_dapps (update (λ a, app_is app a && bool_decide (da_status a = AppStopping))
        (λ a, with_status AppStopped None (da_billing_at a) (da_last a) a)) d).
Definition stop_audit (s : stop_job) (c : control_t) : result sqlerr control_t :=
  match select_app (sj_app s) (fleet c) with
  | Err _ => Ok c
  | Ok a => record_audit {| au_actor := None; au_subject := Some (da_user a); au_action := "app.stop.complete";
              au_rtype := "user_app"; au_rid := da_id a; au_request := ("worker/app-stop/" ^+ sj_id s)%string;
              au_meta := [("stop_job_id", JStr (sj_id s)); ("container", JStr (sj_container s))] |} c
  end.
Definition complete_phase (s : stop_job) : stop_tx stop_outcome :=
  begin_tx;;
  exec (succeed_stop s);;
  exec (on_fleet (stopped_app (sj_app s)));;
  exec (stop_audit s);;
  commit;;
  mret StopDone.
(** The claim, the container, and the retry or the completion, each with the
    faults of its own transaction. *)
Definition processStopOne (known : bool) (orc orc' : oracle) (c : control_t) : stop_outcome * control_t :=
  match run idle claim_phase orc c with
  | (StopClaimed s, c1) =>
      match stop_container known s c1 with
      | Err why => run idle (retry_phase s why) orc' c1
      | Ok _ => run idle (complete_phase s) orc' c1
      end
  | r => r
  end.
End stop_worker.
