(* ===== verification/ControlFacts.v ===== *)
(** * Stopping, starting and deploying exclude each other

    The invariant of the deployments and of the stop jobs over every
    interleaving of the handlers and of the worker's passes. *)
From S2P Require Import Prelude GoStrings Regex GoValue GoTime Domain Tx Table Ledger Schema Http RuntimeSpec Crypto Accounts Names Health ProductSpec Graph Catalog DeployDb Triple Deploy DeployFacts Control.
From stdpp Require Import list gmap relations.
Open Scope string_scope.
Open Scope Z_scope.
Open Scope list_scope.

#[local] Arguments update : simpl never.

(** The applications that rows of other tables name. *)
Definition mentioned (c : control_t) : list string :=
  (rl_app <$> releases (fleet c)) ++ (dj_app <$> jobs (fleet c)) ++ (dr_app <$> routes (fleet c)) ++ (sj_app <$> stop_jobs c).
Definition owned (c : control_t) : Prop := ∀ id, id ∈ mentioned c → id ∈ da_id <$> dapps (fleet c).
Record control_ok (c : control_t) : Prop := {
  co_fleet : deploy_ok (fleet c);
  co_ids : NoDup (sj_id <$> stop_jobs c);
  (** An application has at most one open stop job, and is stopping. *)
  co_single : ∀ s t, s ∈ stop_jobs c → t ∈ stop_jobs c → open_stop s = true → open_stop t = true → sj_app s = sj_app t → s = t;
  co_stopping : ∀ s a, s ∈ stop_jobs c → open_stop s = true → a ∈ dapps (fleet c) → da_id a = sj_app s → da_status a = AppStopping;
  (** An application that is stopping has no deployment under way and no
      route. *)
  co_jobs : ∀ a j, a ∈ dapps (fleet c) → da_status a = AppStopping → j ∈ jobs (fleet c) → dj_app j = da_id a → terminal_job j = true;
  co_routes : ∀ a rt, a ∈ dapps (fleet c) → da_status a = AppStopping → rt ∈ routes (fleet c) → dr_app rt ≠ da_id a;
  (** Events belong to deployments (the foreign key of deployment_events). *)
  co_events : ∀ e, e ∈ events (fleet c) → ∃ j, j ∈ jobs (fleet c) ∧ dj_id j = de_job e;
  (** Releases, jobs and routes belong to applications, and the last release of
      an application is one (foreign keys as well). *)
  co_owned : owned c;
  co_last : ∀ a i, a ∈ dapps (fleet c) → da_last a = Some i → i ∈ rl_id <$> releases (fleet c)
}.
(** The releases of [c] are still there, with what they are copies of. *)
Definition release_text (r : release) := (rl_id r, rl_app r, release_copy r).
Definition copies_kept (c w : control_t) : Prop := ∀ r, r ∈ releases (fleet c) →
  ∃ r', r' ∈ releases (fleet w) ∧ release_text r' = release_text r.
Lemma copies_refl c w : releases (fleet w) = releases (fleet c) → copies_kept c w.
Proof. intros E r Hr. exists r. by rewrite E. Qed.
Lemma copies_snoc c w r : releases (fleet w) = releases (fleet c) ++ [r] → copies_kept c w.
Proof. intros E r' Hr. exists r'. rewrite E. split; [apply elem_of_app; by left|done]. Qed.
Lemma copies_trans c1 c2 c3 : copies_kept c1 c2 → copies_kept c2 c3 → copies_kept c1 c3.
Proof.
  intros H1 H2 r Hr. destruct (H1 r Hr) as (r2 & Hr2 & E). destruct (H2 r2 Hr2) as (r3 & Hr3 & F). exists r3. split; [done|congruence].
Qed.
Lemma owned_next c w :
  (∀ id, id ∈ da_id <$> dapps (fleet c) → id ∈ da_id <$> dapps (fleet w)) →
  (∀ id, id ∈ mentioned w → id ∈ mentioned c ∨ id ∈ da_id <$> dapps (fleet w)) → owned c → owned w.
Proof. intros Hids Hm Ho id Hid. destruct (Hm id Hid); auto. Qed.
Lemma mentioned_cases c id : id ∈ mentioned c ↔
  id ∈ rl_app <$> releases (fleet c) ∨ id ∈ dj_app <$> jobs (fleet c) ∨ id ∈ dr_app <$> routes (fleet c) ∨ id ∈ sj_app <$> stop_jobs c.
Proof. unfold mentioned. by rewrite !elem_of_app. Qed.
Lemma elem_of_column_filter {A B} (f : A → B) p (l : list A) x : x ∈ f <$> List.filter p l → x ∈ f <$> l.
Proof.
  intros (y & -> & Hy%list_elem_of_In)%list_elem_of_fmap. apply List.filter_In in Hy as [Hy%list_elem_of_In _].
  apply list_elem_of_fmap. eauto.
Qed.

(** ** What keeps the invariant of the deployments *)
(** Applications that keep what they run, and fewer routes. *)
Lemma deploy_ok_apps d p f q :
  (∀ a, da_id (f a) = da_id a ∧ da_last (f a) = da_last a) →
  deploy_ok d → deploy_ok (upd_dapps (update p f) (upd_routes (List.filter q) d)).
Proof.
  intros Hf [H1 H2 H3 H4 H5 H6 H7 H8].
  assert (∀ a, a ∈ update p f (dapps d) → ∃ a', a' ∈ dapps d ∧ da_id a = da_id a' ∧ da_last a = da_last a') as Ha.
  { intros a (a' & Ha' & ->)%elem_of_update. exists a'. split; [done|]. destruct (p a'); [apply Hf|done]. }
  constructor; cbn; try done.
  - rewrite update_column; [done|]. apply Hf.
  - intros j a Hj (a' & Hin & Hid & Hl)%Ha Ht Hja. rewrite Hl. apply H5; [done..|congruence].
  - intros a r (a' & Hin & Hid & Hl)%Ha Hr Hra. rewrite Hl. apply H6; [done..|congruence].
  - intros rt a Hrt (a' & Hin & Hid & Hl)%Ha Hra. apply list_elem_of_In, List.filter_In in Hrt as [Hrt%list_elem_of_In _].
    rewrite Hl. apply H7; [done..|congruence].
Qed.
Lemma upd_routes_id d : upd_routes (List.filter (λ _, true)) d = d.
Proof.
  destruct d. unfold upd_routes. cbn. f_equal. induction routes as [|rt l IH]; [done|]. cbn. by rewrite IH.
Qed.
Lemma deploy_ok_status d p f :
  (∀ a, da_id (f a) = da_id a ∧ da_last (f a) = da_last a) → deploy_ok d → deploy_ok (upd_dapps (update p f) d).
Proof. intros Hf Hok. rewrite <- (upd_routes_id d). by apply deploy_ok_apps. Qed.
(** A new release that nothing refers to, and the job that deploys it. *)
Lemma deploy_ok_start d r j :
  deploy_ok d → rl_state r = RelCreated → (∀ r', r' ∈ releases d → rl_id r' ≠ rl_id r) →
  dj_state j = DeploymentQueued → dj_attempts j = 0 → isRecoveryOperation (dj_operation j) = false →
  dj_app j = rl_app r → dj_release j = rl_id r → (∀ j', j' ∈ jobs d → dj_id j' ≠ dj_id j) →
  (∀ e, e ∈ events d → de_job e ≠ dj_id j) →
  (∀ j', j' ∈ jobs d → dj_app j' = dj_app j → terminal_job j' = true) →
  (∀ a, a ∈ dapps d → da_id a = rl_app r → da_last a ≠ Some (rl_id r)) →
  deploy_ok (upd_jobs (λ t, t ++ [j]) (upd_releases (λ t, t ++ [r]) d)).
Proof.
  intros [H1 H2 H3 H4 H5 H6 H7 H8] Hr Hfresh Hs Hn Hop Happ Hrel Hid Hev Hquiet Hlast.
  assert (terminal_job j = false) as Ht by (unfold terminal_job; by rewrite Hs).
  constructor; cbn; try done.
  - by apply NoDup_snoc.
  - by apply NoDup_snoc.
  - intros i k [Hi| ->%list_elem_of_singleton]%elem_of_app [Hk| ->%list_elem_of_singleton]%elem_of_app Hti Htk Heq.
    + by apply H4.
    + rewrite (Hquiet i) in Hti; done.
    + rewrite (Hquiet k) in Htk; done.
    + done.
  - intros i a [Hi| ->%list_elem_of_singleton]%elem_of_app Ha Hti Hida; [by apply H5|].
    rewrite Hop, Hrel. split; [|done]. intros Hl. destruct (Hlast a); [done|congruence|done].
  - intros a r' Ha [Hr'| ->%list_elem_of_singleton]%elem_of_app Hida; [by apply H6|].
    rewrite Hr. split; [done|]. intros Hl. by destruct (Hlast a).
  - intros i [Hi| ->%list_elem_of_singleton]%elem_of_app; [by apply H8|].
    assert (history (dj_id j) d = []) as E.
    { unfold history. rewrite filter_none; [done|]. intros e He. apply bool_decide_eq_false_2. by apply Hev. }
    unfold history in *. cbn. rewrite E, Hs, Hn. split_and!; [constructor|done|done].
Qed.

(** ** What each operation changes *)
Section changes.
Context (c w : control_t).
Hypothesis Hok : control_ok c.

Lemma job_under_way_false app d : job_under_way app d = false →
  ∀ j, j ∈ jobs d → dj_app j = app → terminal_job j = true.
Proof.
  intros Hno j Hj Happ. eapply exists_row_false in Hno; [|exact Hj]. cbv beta in Hno.
  rewrite bool_decide_eq_true_2 in Hno by done. cbn in Hno. by bool_hyps.
Qed.
(** An application is asked to stop. *)
Lemma control_stop app row :
  app ∈ da_id <$> dapps (fleet c) → job_under_way app (fleet c) = false → sj_app row = app → open_stop row = true →
  (∀ s, s ∈ stop_jobs c → sj_id s ≠ sj_id row) → (∀ s, s ∈ stop_jobs c → sj_app s = app → open_stop s = false) →
  stop_jobs w = stop_jobs c ++ [row] →
  fleet w = upd_dapps (update (app_is app) (λ a, with_status AppStopping None (da_billing_at a) (da_last a) a))
              (upd_routes (List.filter (λ rt, negb (route_of app rt))) (fleet c)) →
  control_ok w.
Proof using Hok.
  intros Happs Hjobs Happ Hopen Hid Hother Hstops Hfleet. pose proof (job_under_way_false _ _ Hjobs) as Hquiet.
  destruct Hok as [H1 H2 H3 H4 H5 H6 H7 H8 H9].
  assert (∀ a, a ∈ dapps (fleet w) → ∃ a', a' ∈ dapps (fleet c) ∧ da_id a = da_id a' ∧
    (da_id a' = app ∧ da_status a = AppStopping ∨ da_id a' ≠ app ∧ a = a')) as Ha.
  { rewrite Hfleet. intros a (a' & Ha' & ->)%elem_of_update. exists a'. split; [done|]. unfold app_is.
    destruct (bool_decide _) eqn:E; bool_hyps; auto. }
  assert (∀ rt, rt ∈ routes (fleet w) → rt ∈ routes (fleet c) ∧ dr_app rt ≠ app) as Hrt.
  { rewrite Hfleet. cbn. intros rt Hin%list_elem_of_In. apply List.filter_In in Hin as [Hin%list_elem_of_In E].
    unfold route_of in E. by bool_hyps. }
  constructor.
  - rewrite Hfleet. by apply deploy_ok_apps.
  - rewrite Hstops. by apply NoDup_snoc.
  - rewrite Hstops. intros s t [Hs| ->%list_elem_of_singleton]%elem_of_app [Ht| ->%list_elem_of_singleton]%elem_of_app Hos Hot E;
      [by apply H3| | |done].
    + rewrite (Hother s) in Hos; [done|done|congruence].
    + rewrite (Hother t) in Hot; [done|done|congruence].
  - rewrite Hstops. intros s a [Hs| ->%list_elem_of_singleton]%elem_of_app Hos (a' & Hin & Hida & [[_ ?]|[Hne ->]])%Ha E; try done.
    + by apply (H4 s).
    + congruence.
  - intros a j (a' & Hin & Hida & [[? ?]|[Hne ->]])%Ha Hst Hj E; rewrite Hfleet in Hj.
    + apply Hquiet; [done|congruence].
    + by apply (H5 a').
  - intros a rt (a' & Hin & Hida & [[? ?]|[Hne ->]])%Ha Hst [Hr Hne']%Hrt; [congruence|]. by apply H6.
  - rewrite Hfleet. apply H7.
  - assert (da_id <$> dapps (fleet w) = da_id <$> dapps (fleet c)) as Hids by (rewrite Hfleet; by apply update_column).
    apply (owned_next c); [by rewrite Hids| |done]. rewrite Hids. intros id. rewrite !mentioned_cases, Hstops, Hfleet, fmap_app. cbn.
    rewrite elem_of_app, list_elem_of_singleton. intros [?|[?|[?%elem_of_column_filter|[?| ->]]]]; rewrite ?Happ; auto.
  - rewrite Hfleet. intros a i (a' & Ha' & ->)%elem_of_update Hl. apply (H9 a'); [done|]. by destruct (app_is app a').
Qed.
(** An application that is not stopping gets a new release and its job. *)
Lemma control_release a r j :
  a ∈ dapps (fleet c) → da_status a ≠ AppStopping → rl_app r = da_id a →
  rl_state r = RelCreated → (∀ r', r' ∈ releases (fleet c) → rl_id r' ≠ rl_id r) →
  dj_state j = DeploymentQueued → dj_attempts j = 0 → isRecoveryOperation (dj_operation j) = false →
  dj_app j = rl_app r → dj_release j = rl_id r → (∀ j', j' ∈ jobs (fleet c) → dj_id j' ≠ dj_id j) →
  job_under_way (dj_app j) (fleet c) = false →
  stop_jobs w = stop_jobs c →
  fleet w = upd_jobs (λ t, t ++ [j]) (upd_releases (λ t, t ++ [r]) (fleet c)) →
  control_ok w.
Proof using Hok.
  intros Ha Hst Hra Hrs Hrfresh Hjs Hjn Hop Hja Hjr Hjfresh Hno Hstops Hfleet.
  destruct Hok as [H1 H2 H3 H4 H5 H6 H7 H8 H9]. pose proof (job_under_way_false _ _ Hno) as Hquiet.
  constructor; rewrite ?Hstops; try done.
  - rewrite Hfleet. apply deploy_ok_start; try done.
    + intros e He Heq. destruct (H7 e He) as (j' & Hj' & Hid). by apply (Hjfresh j' Hj'); congruence.
    + intros b Hin _ Hl. apply (H9 _ _ Hin) in Hl as (r' & E & Hr')%list_elem_of_fmap. by apply (Hrfresh r').
  - rewrite Hfleet. exact H4.
  - rewrite Hfleet. cbn. intros b i Hb Hbs [Hi| ->%list_elem_of_singleton]%elem_of_app E; [by apply (H5 b)|].
    exfalso. apply Hst. by rewrite <- (key_inj da_id _ b a (dk_apps _ H1) Hb Ha ltac:(congruence)).
  - rewrite Hfleet. exact H6.
  - rewrite Hfleet. cbn. intros e He. destruct (H7 e He) as (j' & Hj' & Hid). exists j'. split; [|done].
    apply elem_of_app. by left.
  - assert (da_id a ∈ da_id <$> dapps (fleet c)) as Hina by (by apply list_elem_of_fmap_2).
    apply (owned_next c); rewrite ?Hfleet; [done| |done]. intros id. rewrite !mentioned_cases, Hstops, Hfleet. cbn.
    rewrite !fmap_app. cbn. rewrite !elem_of_app, !list_elem_of_singleton, Hja, Hra.
    intros [[?| ->]|[[?| ->]|[?|?]]]; auto.
  - rewrite Hfleet. cbn. intros b i Hb Hl. rewrite fmap_app. apply elem_of_app. left. by apply (H9 b).
Qed.
(** Applications that neither were nor are stopping change their status. *)
Lemma control_status p f :
  (∀ b, da_id (f b) = da_id b ∧ da_last (f b) = da_last b) →
  (∀ b, b ∈ dapps (fleet c) → p b = true → da_status b ≠ AppStopping ∧ da_status (f b) ≠ AppStopping) →
  stop_jobs w = stop_jobs c → fleet w = upd_dapps (update p f) (fleet c) → control_ok w.
Proof using Hok.
  intros Hf Hp Hstops Hfleet. destruct Hok as [H1 H2 H3 H4 H5 H6 H7 H8 H9].
  assert (∀ b, b ∈ dapps (fleet w) → ∃ b', b' ∈ dapps (fleet c) ∧ da_id b = da_id b' ∧ da_last b = da_last b' ∧
    (da_status b' ≠ AppStopping ∧ da_status b ≠ AppStopping ∨ b = b')) as Hb.
  { rewrite Hfleet. intros b (b' & Hb' & ->)%elem_of_update. exists b'. destruct (p b') eqn:E; [|auto].
    destruct (Hf b'), (Hp b' Hb' E). split_and!; [done..|by left]. }
  constructor; rewrite ?Hstops; try done.
  - rewrite Hfleet. by apply deploy_ok_status.
  - intros s b Hs Hos (b' & Hin & Hid & _ & [[Hn _]| ->])%Hb E; [|by apply (H4 s)].
    exfalso. apply Hn. apply (H4 s); congruence.
  - intros b i (b' & Hin & Hid & _ & [[_ ?]| ->])%Hb Hbs; [done|]. rewrite Hfleet. by apply H5.
  - intros b rt (b' & Hin & Hid & _ & [[_ ?]| ->])%Hb Hbs; [done|]. rewrite Hfleet. by apply H6.
  - by rewrite Hfleet.
  - assert (da_id <$> dapps (fleet w) = da_id <$> dapps (fleet c)) as Hids.
    { rewrite Hfleet. apply update_column. apply Hf. }
    apply (owned_next c); [by rewrite Hids| |done]. intros id. rewrite !mentioned_cases, Hstops, Hfleet. auto.
  - intros b i (b' & Hin & _ & -> & _)%Hb. rewrite Hfleet. by apply H9.
Qed.
(** The stop jobs advance; an application may have stopped. *)
Lemma control_advance (f : stop_job → stop_job) (p : stop_job → bool) :
  (∀ s, sj_id (f s) = sj_id s ∧ sj_app (f s) = sj_app s) →
  (∀ s, s ∈ stop_jobs c → p s = true → open_stop (f s) = true → open_stop s = true) →
  stop_jobs w = update p f (stop_jobs c) → fleet w = fleet c → control_ok w.
Proof using Hok.
  intros Hf Hopen Hstops Hfleet. destruct Hok as [H1 H2 H3 H4 H5 H6 H7 H8 H9].
  assert (∀ s, s ∈ stop_jobs w → ∃ s', s' ∈ stop_jobs c ∧ sj_id s = sj_id s' ∧ sj_app s = sj_app s' ∧
    (open_stop s = true → open_stop s' = true)) as Hs.
  { rewrite Hstops. intros s (s' & Hin & ->)%elem_of_update. exists s'. split; [done|]. destruct (p s') eqn:E; [|done].
    destruct (Hf s'). split_and!; [done..|]. by apply Hopen. }
  constructor; rewrite ?Hfleet; try done.
  - rewrite Hstops, update_column; [done|]. apply Hf.
  - intros s t Hs1 Ht1 Hos Hot E.
    destruct (Hs s Hs1) as (s' & Hin & Hids & Happs & Hop). destruct (Hs t Ht1) as (t' & Hint & Hidt & Happt & Hopt).
    assert (sj_id s = sj_id t) as Hid by (rewrite Hids, Hidt; f_equal; apply H3; auto; congruence).
    apply (key_inj sj_id (stop_jobs w)); try done. rewrite Hstops, update_column; [done|]. apply Hf.
  - intros s a (s' & Hin & Hid & Happ & Hop)%Hs Hos Ha E. apply (H4 s'); auto. congruence.
  - apply (owned_next c); rewrite ?Hfleet; [done| |done]. intros id. rewrite !mentioned_cases, Hfleet, Hstops, update_column; [auto|].
    apply Hf.
Qed.
End changes.

(** Both: a start, an update or a rollback. *)
Lemma control_start (c w : control_t) (f : dapp → dapp) a r j :
  control_ok c → (∀ b, da_id (f b) = da_id b ∧ da_last (f b) = da_last b ∧ da_status (f b) = AppUpdating) →
  a ∈ dapps (fleet c) → da_status a ≠ AppStopping → rl_app r = da_id a →
  rl_state r = RelCreated → (∀ r', r' ∈ releases (fleet c) → rl_id r' ≠ rl_id r) →
  dj_state j = DeploymentQueued → dj_attempts j = 0 → isRecoveryOperation (dj_operation j) = false →
  dj_app j = rl_app r → dj_release j = rl_id r → (∀ j', j' ∈ jobs (fleet c) → dj_id j' ≠ dj_id j) →
  job_under_way (dj_app j) (fleet c) = false →
  stop_jobs w = stop_jobs c →
  fleet w = upd_dapps (update (app_is (da_id a)) f) (upd_jobs (λ t, t ++ [j]) (upd_releases (λ t, t ++ [r]) (fleet c))) →
  control_ok w.
Proof.
  intros Hok Hf Ha Hst Hra Hrs Hrf Hjs Hjn Hop Hja Hjr Hjf Hno Hstops Hfleet.
  set (c1 := upd_fleet (λ d, upd_jobs (λ t, t ++ [j]) (upd_releases (λ t, t ++ [r]) d)) c).
  assert (control_ok c1) as Hok1 by (by apply (control_release c c1 Hok a r j)).
  apply (control_status c1 w Hok1 (app_is (da_id a)) f); [intros b; by destruct (Hf b) as (? & ? & ?)| |done|done].
  intros b Hb Hid. unfold app_is in Hid. bool_hyps.
  rewrite (key_inj da_id _ b a (dk_apps _ (co_fleet _ Hok)) Hb Ha Hid). split; [done|]. by destruct (Hf a) as (_ & _ & ->).
Qed.

Section changes2.
Context (c w : control_t).
Hypothesis Hok : control_ok c.

(** The stop job that the worker holds is done, and the application stopped. *)
Lemma control_complete now (s : stop_job) :
  (∃ t, t ∈ stop_jobs c ∧ sj_id t = sj_id s ∧ sj_app t = sj_app s ∧ sj_status t = StopRunning) →
  stop_jobs w = update (running_stop (sj_id s))
    (λ t, with_stop now StopSucceeded (sj_attempts t) (sj_available t) None (Some now) t) (stop_jobs c) →
  fleet w = upd_dapps (update (λ a, app_is (sj_app s) a && bool_decide (da_status a = AppStopping))
              (λ a, with_status AppStopped None (da_billing_at a) (da_last a) a)) (fleet c) →
  control_ok w.
Proof using Hok.
  intros (t & Ht & Htid & Htapp & Htst) Hstops Hfleet.
  set (c1 := upd_stop_jobs (λ _, stop_jobs w) c).
  assert (control_ok c1) as [H1 H2 H3 H4 H5 H6 H7 H8 H9].
  { eapply (control_advance c c1 Hok); [| |exact Hstops|done]; by intros u. }
  assert (∀ u, u ∈ stop_jobs w → open_stop u = true → sj_app u ≠ sj_app s) as Hnone.
  { intros u Hu Hou E. rewrite Hstops in Hu. apply elem_of_update in Hu as (u' & Hu' & ->).
    destruct (running_stop (sj_id s) u') eqn:Er; [done|].
    assert (u' = t) as ->.
    { apply (co_single _ Hok); try done; [|congruence]. unfold open_stop. by rewrite Htst. }
    unfold running_stop, stop_is in Er. rewrite Htid, Htst, !bool_decide_eq_true_2 in Er by done. done. }
  assert (∀ a, a ∈ dapps (fleet w) → ∃ a', a' ∈ dapps (fleet c) ∧ da_id a = da_id a' ∧
    (da_status a = AppStopped ∧ da_id a' = sj_app s ∨ a = a')) as Ha.
  { rewrite Hfleet. intros a (a' & Ha' & ->)%elem_of_update. exists a'. split; [done|]. unfold app_is.
    destruct (bool_decide _ && _) eqn:E; bool_hyps; auto. }
  constructor.
  - rewrite Hfleet. by apply deploy_ok_status.
  - exact H2.
  - exact H3.
  - intros u a Hu Hou (a' & Hin & Hid & [[_ E']| ->])%Ha E; [|by apply (H4 u)].
    exfalso. apply (Hnone u Hu Hou). congruence.
  - intros a j (a' & Hin & Hid & [[? _]| ->])%Ha Hst; [congruence|]. rewrite Hfleet. by apply H5.
  - intros a rt (a' & Hin & Hid & [[? _]| ->])%Ha Hst; [congruence|]. rewrite Hfleet. by apply H6.
  - rewrite Hfleet. apply H7.
  - assert (da_id <$> dapps (fleet w) = da_id <$> dapps (fleet c)) as Hids by (rewrite Hfleet; by apply update_column).
    apply (owned_next c1); rewrite ?Hids; [done| |done]. intros id. rewrite !mentioned_cases, Hfleet. auto.
  - rewrite Hfleet. cbn. intros a i (a' & Ha' & ->)%elem_of_update Hl. apply (H9 a'); [done|]. by destruct (_ && _).
Qed.

(** A pass of the deployment worker. *)
Lemma failure_state_not_stopping op last : (deploymentFailureState op last).1 ≠ AppStopping.
Proof. unfold deploymentFailureState. repeat case_match; done. Qed.
Lemma moved_apps cfg d d' j next : moved cfg d d' j next →
  (∀ a, a ∈ dapps d' → ∃ a', a' ∈ dapps d ∧ da_id a = da_id a' ∧
     (a = a' ∨ da_id a' = dj_app j ∧ da_status a ≠ AppStopping)) ∧
  (∀ rt, rt ∈ routes d' → rt ∈ routes d ∨ dr_app rt = dj_app j).
Proof.
  intros (d1 & m & Hst & Hs & _ & d2 & w2 & _ & Ha2 & Hrt2 & _ & Hent & _ & Haw & Hrtw & _).
  assert (dapps d1 = dapps d ∧ routes d1 = routes d) as [Had Hrtd] by (destruct Hst as (? & ? & -> & _); done).
  assert (∀ f, (∀ a, da_id (f a) = da_id a ∧ da_status (f a) ≠ AppStopping) →
    dapps w2 = update (app_is (dj_app j)) f (dapps d2) → ∀ a, a ∈ dapps d' → ∃ a', a' ∈ dapps d ∧ da_id a = da_id a' ∧
     (a = a' ∨ da_id a' = dj_app j ∧ da_status a ≠ AppStopping)) as Hupd.
  { intros f Hf E a. rewrite Haw, E, Ha2, Had. intros (a' & Ha' & ->)%elem_of_update. exists a'. split; [done|].
    unfold app_is. destruct (bool_decide _) eqn:Eb; bool_hyps; [|auto]. destruct (Hf a'). auto. }
  assert (dapps w2 = dapps d2 ∧ routes w2 = routes d2 → (∀ a, a ∈ dapps d' → ∃ a', a' ∈ dapps d ∧ da_id a = da_id a' ∧
     (a = a' ∨ da_id a' = dj_app j ∧ da_status a ≠ AppStopping)) ∧ (∀ rt, rt ∈ routes d' → rt ∈ routes d ∨ dr_app rt = dj_app j)) as Hsame.
  { intros [E1 E2]. rewrite Haw, E1, Ha2, Had, Hrtw, E2, Hrt2, Hrtd. split; [eauto|auto]. }
  destruct next; cbn in Hent; try (apply Hsame; by destruct Hent as (_ & _ & ? & ? & _)).
  - destruct Hent as [_ _ [b Happs] _ (row & a' & Hrow & _ & _ & _ & _ & Hroutes) _]. split.
    + eapply Hupd; [|exact Happs]. done.
    + rewrite Hrtw, Hroutes, Hrt2, Hrtd, <- Hrow. intros rt [->|[Hin _]]%upserted_route; [by right|by left].
  - destruct Hent as [_ _ Hroutes (a' & _ & _ & Happs) _].
    pose proof (failure_state_not_stopping (dj_operation j) (bool_decide (is_Some (da_last a')))) as Hns.
    destruct (deploymentFailureState _ _) as [s reason]. split.
    + eapply Hupd; [|exact Happs]. done.
    + rewrite Hrtw, Hroutes, Hrt2, Hrtd. auto.
Qed.
Lemma failed_release_text fails j l : release_text <$> failed_release fails j l = release_text <$> l.
Proof. unfold failed_release. destruct fails; [by apply update_column|done]. Qed.
Lemma moved_refs cfg d d' j next : moved cfg d d' j next →
  da_id <$> dapps d' = da_id <$> dapps d ∧ release_text <$> releases d' = release_text <$> releases d ∧
  dj_app j ∈ da_id <$> dapps d ∧
  ∀ a i, a ∈ dapps d' → da_last a = Some i → i ∈ rl_id <$> releases d ∨ ∃ a', a' ∈ dapps d ∧ da_last a' = Some i.
Proof.
  intros (d1 & m & (rs & pm & -> & Hk) & _ & (a0 & Ha0 & Hid0) & d2 & w2 & Hr2 & Ha2 & _ & _ & Hent & Hrw & Haw & _ & _ & Hrel).
  cbn in Hr2, Ha2. rewrite Hrw, Haw.
  assert (release_text <$> releases d2 = release_text <$> releases d) as Ht.
  { rewrite Hr2. assert (∀ l, release_text <$> l = fst <$> (release_key <$> l)) as E by (intros l; by rewrite <- list_fmap_compose).
    by rewrite !E, Hk. }
  assert (∀ f, (∀ a, da_id (f a) = da_id a ∧ (da_last (f a) = da_last a ∨
      da_last (f a) = Some (dj_release j) ∧ next = DeploymentSucceeded)) → dapps w2 = update (app_is (dj_app j)) f (dapps d) →
      da_id <$> dapps w2 = da_id <$> dapps d ∧ ∀ a i, a ∈ dapps w2 → da_last a = Some i →
        i ∈ rl_id <$> releases d ∨ ∃ a', a' ∈ dapps d ∧ da_last a' = Some i) as Hupd.
  { intros f Hf ->. split; [apply update_column; intros a; by destruct (Hf a)|].
    intros a i (a' & Ha' & ->)%elem_of_update. destruct (app_is _ a'); [|eauto]. destruct (Hf a') as [_ [->|[-> Hn]]]; [eauto|].
    intros [= <-]. left. destruct (Hrel Hn) as (r & Hr & <-). by apply list_elem_of_fmap_2. }
  assert (dj_app j ∈ da_id <$> dapps d) as Hin by (rewrite <- Hid0; by apply list_elem_of_fmap_2).
  assert (dapps w2 = dapps d2 → (∃ fails, releases w2 = failed_release fails j (releases d2)) →
    da_id <$> dapps w2 = da_id <$> dapps d ∧ release_text <$> releases w2 = release_text <$> releases d ∧
    dj_app j ∈ da_id <$> dapps d ∧
    ∀ a i, a ∈ dapps w2 → da_last a = Some i → i ∈ rl_id <$> releases d ∨ ∃ a', a' ∈ dapps d ∧ da_last a' = Some i) as Hsame.
  { intros -> (fails & ->). rewrite failed_release_text, Ha2. split_and!; [done..|]. intros a i Ha Hl. right. by exists a. }
  destruct next; cbn in Hent; try (destruct Hent as (_ & _ & ? & _ & fails & _ & ?); by apply Hsame; [|exists fails]).
  - destruct Hent as [_ _ [b Happs] Hrels _ _]. rewrite Ha2 in Happs. apply Hupd in Happs as [H1 H2]; [|by auto].
    rewrite Hrels, !update_column by done. done.
  - destruct Hent as [_ _ _ (a' & _ & _ & Happs) (fails & _ & Hrels)]. destruct (deploymentFailureState _ _) as [s reason].
    rewrite Ha2 in Happs. apply Hupd in Happs as [H1 H2]; [|by auto]. by rewrite Hrels, failed_release_text.
Qed.
Lemma texts_kept (l l' : list release) : release_text <$> l' = release_text <$> l → ∀ r, r ∈ l → ∃ r', r' ∈ l' ∧ release_text r' = release_text r.
Proof.
  intros E r Hr. apply (list_elem_of_fmap_2 release_text) in Hr. rewrite <- E in Hr.
  apply list_elem_of_fmap in Hr as (r' & -> & ?). eauto.
Qed.
Lemma control_moved cfg j next :
  moved cfg (fleet c) (fleet w) j next → stop_jobs w = stop_jobs c → control_ok w.
Proof using Hok.
  intros Hm Hstops. pose proof (moved_ok _ _ _ _ _ Hm (co_fleet _ Hok)) as Hok'.
  destruct (moved_apps _ _ _ _ _ Hm) as [Ha Hrt]. destruct (moved_refs _ _ _ _ _ Hm) as (Hids & Htext & Happ & Hlast). apply moved_stepped in Hm as [m Hs].
  destruct Hok as [H1 H2 H3 H4 H5 H6 H7 H8 H9].
  assert (∀ a, a ∈ dapps (fleet c) → da_status a = AppStopping → da_id a ≠ dj_app j) as Hfree.
  { intros a Hin Hst E. pose proof (sp_open _ _ _ _ _ Hs) as Ho.
    rewrite (H5 a j Hin Hst (sp_in _ _ _ _ _ Hs) ltac:(done)) in Ho. done. }
  assert (∀ a, a ∈ dapps (fleet w) → da_status a = AppStopping → a ∈ dapps (fleet c)) as Hback.
  { intros a (a' & Hin & Hid & [->|[_ ?]])%Ha Hst; done. }
  constructor; rewrite ?Hstops; try done.
  - intros s a Hin Hos (a' & Hin' & Hid & Hcase)%Ha E. assert (da_status a' = AppStopping) as Hst' by (apply (H4 s); congruence).
    destruct Hcase as [->|[E' _]]; [done|]. by destruct (Hfree a' Hin' Hst').
  - intros a i Hin Hst Hi E. pose proof (Hback a Hin Hst) as Hin'.
    destruct (stepped_cases _ _ _ _ _ H1 Hs i Hi) as [(av & err & ->)|[Hi' _]]; [|by apply (H5 a)].
    cbn in E. by destruct (Hfree a Hin' Hst).
  - intros a rt Hin Hst Hr. pose proof (Hback a Hin Hst) as Hin'. destruct (Hrt rt Hr) as [Hr'|E]; [by apply H6|].
    rewrite E. intros E'. by apply (Hfree a Hin' Hst).
  - rewrite (sp_events _ _ _ _ _ Hs). destruct Hs as [Hj _ _ _ (av & err & Hjobs) _].
    assert (∀ i, i ∈ jobs (fleet c) → ∃ i', i' ∈ jobs (fleet w) ∧ dj_id i' = dj_id i) as Hkeep.
    { intros i Hi. rewrite Hjobs. eexists. split; [apply elem_of_update; by exists i|]. by destruct (job_is _ i). }
    intros e [He| ->%list_elem_of_singleton]%elem_of_app; [|by apply Hkeep].
    destruct (H7 e He) as (i & Hi & <-). by apply Hkeep.
  - apply (owned_next c); [by rewrite Hids| |done]. rewrite Hids. intros id. rewrite !mentioned_cases, Hstops.
    intros [Hr|[Hi|[Hr|Hr]]]; [|auto..| |auto].
    + left. left. apply list_elem_of_fmap in Hr as (r & -> & Hr). apply list_elem_of_fmap.
      destruct (texts_kept _ _ (eq_sym Htext) r Hr) as (r' & ? & [= _ ? _]). eauto.
    + apply list_elem_of_fmap in Hi as (i & -> & Hi). left. right. left. apply list_elem_of_fmap.
      destruct (stepped_cases _ _ _ _ _ H1 Hs i Hi) as [(av & err & ->)|[Hi' _]]; [|eauto]. exists j. split; [done|apply Hs].
    + apply list_elem_of_fmap in Hr as (rt & -> & Hr). destruct (Hrt rt Hr) as [Hr'| ->]; [|auto]. left. right. right. left.
      apply list_elem_of_fmap. eauto.
  - intros a i Hin Hl. assert (i ∈ rl_id <$> releases (fleet c)) as (r & -> & Hr)%list_elem_of_fmap.
    { destruct (Hlast a i Hin Hl) as [?|(a' & ? & ?)]; [done|by apply (H9 a')]. }
    destruct (texts_kept _ _ Htext r Hr) as (r' & ? & [= <- _ _]). by apply list_elem_of_fmap_2.
Qed.
End changes2.

(** ** The handlers *)
Abbreviation any_answer := (λ _ : response, True).
Abbreviation kept c := (λ (_ : response) (w : control_t), control_ok w ∧ copies_kept c w).

Lemma answered_commit c (r : response) :
  control_ok c → ends internalError (λ w, w = c) (ignore commit;; mret r) (kept c) any_answer.
Proof.
  intros Hok. apply (ends_ignore_commit _ _ _ any_answer); try done. intros ? ? _ ->. split; [done|by apply copies_refl].
Qed.
Lemma owned_app_spec app user c a : owned_app app user c = Ok a → a ∈ dapps (fleet c) ∧ da_id a = app.
Proof. intros [H1 H2]%select_ok. unfold app_is in H2. by bool_hyps. Qed.
(** A statement that was not refused by a constraint. *)
Ltac refused H :=
  repeat match type of H with (if ?b then Err _ else _) = Ok _ => destruct b eqn:?; [discriminate H|] end.
Lemma insert_stop_job_inv row c w : insert_stop_job row c = Ok w →
  (∀ s, s ∈ stop_jobs c → sj_id s ≠ sj_id row) ∧ (∀ s, s ∈ stop_jobs c → sj_app s = sj_app row → open_stop s = false) ∧
  w = upd_stop_jobs (λ t, t ++ [row]) c.
Proof.
  unfold insert_stop_job. cbv zeta. intros Hi. refused Hi. injection Hi as <-. split_and!; try done.
  - intros s Hs E. match goal with H : exists_row (λ s, bool_decide (sj_id s = _)) _ = false |- _ => eapply exists_row_false in H; [|exact Hs] end.
    cbv beta in *. by bool_hyps.
  - intros s Hs E. match goal with H : exists_row (λ s, _ && open_stop s) _ = false |- _ => eapply exists_row_false in H; [|exact Hs] end.
    cbv beta in *. rewrite bool_decide_eq_true_2 in * by done. done.
Qed.

Section handlers.
Context `{UuidSyntax} `{ReleaseTrigger} (rq : request) (c : control_t).
Hypothesis Hok : control_ok c.

Lemma stopApp_keeps path body id : ends internalError (λ w, w = c) (stopApp rq path body id) (kept c) any_answer.
Proof using Hok.
  unfold stopApp. set (app := trim_space path). apply ends_guard; [done|intros _].
  destruct (decodeAppControlRequest body) as [key|r]; [|by apply ends_exit].
  eapply ends_bind; [apply triple_begin|done|intros []]. cbv beta.
  apply ends_optional; [done|intros w job -> _; by apply answered_commit|]. intros w -> _. cbv beta iota.
  apply ends_claim; [done..|]. intros w [a container] -> Ha. cbv beta iota.
  apply bind_ok_inv in Ha as (a' & Ha & [= -> <-]). apply owned_app_spec in Ha as [Ha Hid].
  destruct (bool_decide (da_status a = AppStopped)); [by apply answered_commit|].
  do 3 (apply ends_guard; [done|intros _]). apply ends_query; [done|]. intros w active -> [= <-].
  apply ends_guard; [done|intros Hno]. apply ends_query; [done|]. intros w dependents -> _.
  apply ends_guard; [done|intros _]. cbn in Hno. bool_hyps.
  do 4 (eapply ends_bind; [apply sp_exec|done|intros []]).
  apply (ends_commit _ _ _ any_answer); [done|by apply closing_ret|].
  intros r w _ (w4 & (w3 & (w2 & (w1 & -> & Hi) & Hd) & Hs) & [= <-]).
  apply insert_stop_job_inv in Hi as (Hids & Hothers & ->). injection Hd as <-. injection Hs as <-.
  split; [|by apply copies_refl].
  eapply (control_stop c _ Hok app); [rewrite <- Hid; by apply list_elem_of_fmap_2|done| | |exact Hids|exact Hothers|reflexivity|reflexivity]; done.
Qed.

Lemma missing_dependencies_keeps (P : control_t → Prop) E user app deps :
  triple P (missing_dependencies (R := response) user app deps) (λ _, P) E.
Proof.
  induction deps as [|dep deps IH]; [by apply triple_ret|]. cbn. destruct (dep_Required dep); [|done].
  apply (triple_bind _ _ _ (λ _, P)); [by apply triple_query|intros ready].
  apply (triple_bind _ _ _ (λ _, P)); [done|intros missing; by apply triple_ret].
Qed.
Lemma insert_release_inv row d d' : insert_release row d = Ok d' →
  (∀ r, r ∈ releases d → rl_id r ≠ rl_id row) ∧ d' = upd_releases (λ t, t ++ [row]) d.
Proof.
  unfold insert_release. intros Hi. refused Hi. injection Hi as <-. split; [|done].
  intros r Hr E. match goal with H : exists_row (λ r, bool_decide (rl_id r = _)) _ = false |- _ => eapply exists_row_false in H; [|exact Hr] end.
  cbv beta in *. by bool_hyps.
Qed.
Lemma insert_start_job_inv row source d d' : insert_start_job row source d = Ok d' →
  source ≠ dj_release row ∧ (∀ j, j ∈ jobs d → dj_id j ≠ dj_id row) ∧ job_under_way (dj_app row) d = false ∧
  d' = upd_jobs (λ t, t ++ [row]) d.
Proof.
  unfold insert_start_job. intros Hi. refused Hi. injection Hi as <-. bool_hyps. split_and!; try done.
  intros j Hj E. match goal with H : exists_row (λ j, bool_decide (dj_id j = _)) _ = false |- _ => eapply exists_row_false in H; [|exact Hj] end.
  cbv beta in *. by bool_hyps.
Qed.
Lemma on_fleet_inv f d d' : on_fleet f d = Ok d' → ∃ x, f (fleet d) = Ok x ∧ d' = upd_fleet (λ _, x) d.
Proof. intros (x & Hx & [= <-])%bind_ok_inv. eauto. Qed.

Lemma create_start_keeps a key release job source snapshot :
  a ∈ dapps (fleet c) → da_status a ≠ AppStopping →
  ends internalError (λ w, w = c) (create_start rq (da_id a) key release job source snapshot) (kept c) any_answer.
Proof using Hok.
  intros Ha Hst. unfold create_start. apply ends_query; [done|]. intros w n -> _.
  do 4 (eapply ends_bind; [apply sp_exec|done|intros []]).
  apply (ends_commit _ _ _ any_answer); [done|by apply closing_ret|].
  intros r w _ (w4 & (w3 & (w2 & (w1 & -> & Hr) & Hj) & Hs) & [= <-]).
  apply on_fleet_inv in Hr as (d1 & (Hrf & ->)%insert_release_inv & ->).
  apply on_fleet_inv in Hj as (d2 & (Hne & Hjf & Hno & ->)%insert_start_job_inv & ->).
  apply on_fleet_inv in Hs as (d3 & [= <-] & ->). cbn in *.
  split; [|by eapply copies_snoc].
  apply (control_start c _ (λ a, with_status AppUpdating None None (da_last a) a) a
    (created_release release (da_id a) (rl_version source) n (AObj snapshot) (now rq)) (start_job job (da_id a) release key (rl_id source) (now rq))); done.
Qed.

Lemma startApp_keeps path body release job :
  ends internalError (λ w, w = c) (startApp rq path body release job) (kept c) any_answer.
Proof using Hok.
  unfold startApp. set (app := trim_space path). apply ends_guard; [done|intros _].
  destruct (decodeAppControlRequest body) as [key|r]; [|by apply ends_exit].
  eapply ends_bind; [apply triple_begin|done|intros []]. cbv beta.
  apply ends_optional; [done| |].
  { intros w j -> _. cbv beta iota. apply ends_guard; [done|intros _]. by apply answered_commit. }
  intros w -> _. cbv beta iota. apply (ends_bind _ _ _ _ (λ _ w, w = c)); [by apply triple_ret|done|intros []].
  apply ends_claim; [done..|]. intros w a -> [Ha Hid]%owned_app_spec.
  apply ends_guard; [done|intros _]. apply ends_guard; [done|intros Hst]. apply ends_guard; [done|intros _]. bool_hyps.
  destruct (da_last a) as [sourceID|] eqn:Elast; [|by apply ends_exit].
  apply ends_query; [done|]. intros w balances -> _. apply ends_guard; [done|intros _].
  apply ends_query; [done|]. intros w source -> Hsource. apply select_ok in Hsource as [_ _].
  destruct (as_obj _) as [snapshot|]; [|by apply ends_exit].
  eapply (ends_bind _ _ _ _ (λ _ w, w = c)); [|done|intros missing].
  { unfold missingRuntimeDependencies. destruct (RuntimeDependencies _); [|by apply triple_ret].
    apply (triple_bind _ _ _ (λ _ w, w = c)); [apply missing_dependencies_keeps|intros; by apply triple_ret]. }
  do 2 (apply ends_guard; [done|intros _]). destruct (missingSnapshotSecrets snapshot); [|by apply ends_exit].
  do 2 (apply ends_guard; [done|intros _]). rewrite <- Hid. by apply create_start_keeps.
Qed.
End handlers.

(** ** The stop worker *)
Section stop_worker.
Context (now : timestamp) (c : control_t).
Hypothesis Hok : control_ok c.
Abbreviation kept_stop := (λ (_ : stop_outcome) (w : control_t), control_ok w ∧ copies_kept c w).

Lemma with_stop_frame st n av e k s : sj_id (with_stop now st n av e k s) = sj_id s ∧ sj_app (with_stop now st n av e k s) = sj_app s.
Proof. done. Qed.
Lemma claimable_open unlocked s : claimable now unlocked s = true → open_stop s = true.
Proof. unfold claimable, stale, open_stop. intros Hc. bool_hyps. destruct (sj_status s); [done..|cbn in *; done]. Qed.
Lemma claim_stop_keeps unlocked s w : claim_stop now unlocked c = Ok (s, w) → control_ok w ∧ copies_kept c w.
Proof using Hok.
  unfold claim_stop. intros (t & [Hin Hc]%select_ok & [= <- <-])%bind_ok_inv. apply elem_of_sort_by in Hin.
  split; [|by apply copies_refl].
  pose proof (claimable_open _ _ Hc) as Ho.
  eapply (control_advance c _ Hok); [| |reflexivity|done]; [done|].
  intros u Hu Hid _. unfold stop_is in Hid. bool_hyps. by rewrite (key_inj sj_id _ _ _ (co_ids _ Hok) Hu Hin Hid).
Qed.
Lemma claim_phase_keeps unlocked :
  ends idle (λ w, w = c) (claim_phase now unlocked) kept_stop (λ _, True).
Proof using Hok.
  unfold claim_phase. eapply ends_bind; [apply triple_begin|done|intros []]. cbv beta.
  apply (ends_bind _ _ _ _ (λ s w, claim_stop now unlocked c = Ok (s, w))); [|done|intros s].
  { apply triple_no_rows_exit; [|by apply triple_exit]. apply triple_stmt. by intros w s w' ->. }
  apply (ends_commit _ _ _ (λ _, True)); [done|by apply closing_ret|]. intros r w _ Hw. by eapply claim_stop_keeps.
Qed.
Lemma retry_phase_keeps s why : ends idle (λ w, w = c) (retry_phase now s why) kept_stop (λ _, True).
Proof using Hok.
  unfold retry_phase. eapply ends_bind; [apply sp_exec|done|intros []].
  apply (ends_commit _ _ _ (λ _, True)); [done|by apply closing_ret|].
  intros r w _ (w1 & -> & [= <-]). split; [|by apply copies_refl]. eapply (control_advance c _ Hok); [| |reflexivity|done]; [done|].
  intros u _ Hr _. unfold running_stop, open_stop in *. bool_hyps. by destruct (sj_status u).
Qed.
(** The row that the worker claimed is still in its hands. *)
Definition holds (s : stop_job) : Prop :=
  ∃ t, t ∈ stop_jobs c ∧ sj_id t = sj_id s ∧ sj_app t = sj_app s ∧ sj_status t = StopRunning.
Lemma complete_phase_keeps s : holds s → ends idle (λ w, w = c) (complete_phase now s) kept_stop (λ _, True).
Proof using Hok.
  intros Hh. unfold complete_phase. eapply ends_bind; [apply triple_begin|done|intros []]. cbv beta.
  do 3 (eapply ends_bind; [apply sp_exec|done|intros []]).
  apply (ends_commit _ _ _ (λ _, True)); [done|by apply closing_ret|].
  intros r w _ (w3 & (w2 & (w1 & -> & [= <-]) & (d & [= <-] & ->)%on_fleet_inv) & Ha).
  assert (stop_jobs w = update (running_stop (sj_id s))
    (λ t, with_stop now StopSucceeded (sj_attempts t) (sj_available t) None (Some now) t) (stop_jobs c) ∧
    fleet w = upd_dapps (update (λ a, app_is (sj_app s) a && bool_decide (da_status a = AppStopping))
              (λ a, with_status AppStopped None (da_billing_at a) (da_last a) a)) (fleet c)) as [H1 H2].
  { revert Ha. unfold stop_audit. destruct (select_app _ _); intros [= <-]; done. }
  split; [by apply (control_complete c w Hok now s)|]. apply copies_refl. by rewrite H2.
Qed.
End stop_worker.

(** ** Every interleaving *)
Section history.
Context `{GoRange} `{Secrets} `{UnicodeLower} `{UuidSyntax} `{ReleaseTrigger} (cfg : worker_config).

(** One transaction of a handler or of a worker, with any faults.  A worker
    completes a stop job that it still holds. *)
Inductive control_step (c : control_t) : control_t → Prop :=
  | step_stop rq path body id orc : control_step c (run internalError (stopApp rq path body id) orc c).2
  | step_start rq path body release job orc : control_step c (run internalError (startApp rq path body release job) orc c).2
  | step_claim now unlocked orc : control_step c (run idle (claim_phase now unlocked) orc c).2
  | step_retry now s why orc : control_step c (run idle (retry_phase now s why) orc c).2
  | step_complete now s orc : holds c s → control_step c (run idle (complete_phase now s) orc c).2
  | step_deploy env orc orc' : control_step c (upd_fleet (λ d, (deploy_pass cfg env orc orc' d).2) c).

Lemma ends_keep {R} (on_err : sqlerr → R) (m : tx control_t R R) orc c :
  control_ok c → ends on_err (λ w, w = c) m (λ _ w, control_ok w ∧ copies_kept c w) (λ _, True) →
  control_ok (run on_err m orc c).2 ∧ copies_kept c (run on_err m orc c).2.
Proof.
  intros Hok Hm. destruct (run_ends on_err _ _ _ _ orc c Hm eq_refl) as [[-> _]|Hc]; [|done]. split; [done|by apply copies_refl].
Qed.
Lemma control_step_keeps c c' : control_step c c' → control_ok c → control_ok c' ∧ copies_kept c c'.
Proof.
  intros Hstep Hok. destruct Hstep.
  - apply ends_keep; [done|]. by apply stopApp_keeps.
  - apply ends_keep; [done|]. by apply startApp_keeps.
  - apply ends_keep; [done|]. by apply claim_phase_keeps.
  - apply ends_keep; [done|]. by apply retry_phase_keeps.
  - apply ends_keep; [done|]. by apply complete_phase_keeps.
  - pose proof (deploy_pass_moves cfg env orc orc' (fleet c)) as Hp. cbn.
    destruct (deploy_pass _ _ _ _ (fleet c)) as [p d'] eqn:E.
    destruct Hp as [[Hd _]|(j & next & Hm & _)].
    + destruct c. cbn in *. unfold upd_fleet. cbn. rewrite E. cbn. rewrite Hd. split; [done|by apply copies_refl].
    + assert (moved cfg (fleet c) (fleet (upd_fleet (λ d, (deploy_pass cfg env orc orc' d).2) c)) j next) as Hm' by (cbn; by rewrite E).
      split; [by apply (control_moved c _ Hok cfg j next)|]. intros r Hr.
      destruct (moved_refs _ _ _ _ _ Hm') as (_ & Htext & _). by apply (texts_kept _ _ Htext).
Qed.

(** A pass of the stop worker is a sequence of such steps: it completes the job
    that it has just claimed. *)
Lemma claim_phase_holds now unlocked orc c s :
  (run idle (claim_phase now unlocked) orc c).1 = StopClaimed s →
  holds (run idle (claim_phase now unlocked) orc c).2 s.
Proof.
  assert (ends idle (λ w, w = c) (claim_phase now unlocked) (λ r w, ∀ s, r = StopClaimed s → holds w s)
    (λ r, ∀ s, r ≠ StopClaimed s)) as Hends.
  { unfold claim_phase. eapply ends_bind; [apply triple_begin|done|intros []]. cbv beta.
    apply (ends_bind _ _ _ _ (λ s w, claim_stop now unlocked c = Ok (s, w))); [|done|intros s'].
    { apply triple_no_rows_exit; [|by apply triple_exit]. apply triple_stmt. by intros w s' w' ->. }
    apply (ends_commit _ _ _ (λ r, r = StopIdle ∨ r = StopClaimed s')); [by split; [left|]|apply closing_ret; by right|].
    intros r w Hr (t & [Hin _]%select_ok & [= <- <-])%bind_ok_inv s1 ->. apply elem_of_sort_by in Hin.
    destruct Hr as [|[= ->]]; [done|]. eexists. cbn. split; [apply elem_of_update; by exists t|].
    unfold stop_is. by rewrite bool_decide_eq_true_2. }
  destruct (run_ends idle _ _ _ _ orc c Hends eq_refl) as [[_ Hr]|Hr]; [intros E; by destruct (Hr s)|by apply Hr].
Qed.
Lemma processStopOne_steps owner scope now unlocked remove known orc orc' c :
  rtc control_step c (processStopOne owner scope now unlocked remove known orc orc' c).2.
Proof.
  unfold processStopOne. pose proof (claim_phase_holds now unlocked orc c) as Hh. pose proof (step_claim c now unlocked orc) as Hs.
  destruct (run idle (claim_phase now unlocked) orc c) as [[|s|why|] c1]; try (by apply rtc_once).
  apply (rtc_l _ _ c1); [exact Hs|]. apply rtc_once. destruct (stop_container _ _ _ _ _ _); [|apply step_retry].
  apply step_complete. by apply Hh.
Qed.

End history.
