(* ===== verification/ControlRuns.v ===== *)
(** * Runs of the control handlers

    An application is stopped, and a worker that lost its claim. *)
From S2P Require Import Prelude GoStrings Regex GoValue GoTime Domain Tx Table Ledger Schema Http RuntimeSpec Crypto Accounts PaymentFacts Names Health ProductSpec Graph Catalog DeployDb Triple Deploy DeployFacts DeployRuns Control ControlFacts.
From stdpp Require Import list gmap relations.
Open Scope string_scope.
Open Scope Z_scope.
Open Scope list_scope.
#[local] Existing Instances Fleet.range Fleet.lower Fleet.clear Sample.any_uuid.

Module Desk.
#[export] Instance admits : ReleaseTrigger := {| release_admitted := λ _ _, true |}.
Definition release : DeployDb.release := Fleet.release RelActive (Some 20000).
Definition done_job : deploy_job := Fleet.job "deploy" DeploymentSucceeded 5.
Definition served : deploy_t :=
  Fleet.fleet (Fleet.application AppRunning (Some Fleet.rel)) release done_job []
    [Fleet.move DeploymentQueued DeploymentPulling; Fleet.move DeploymentPulling DeploymentStarting;
     Fleet.move DeploymentStarting DeploymentChecking; Fleet.move DeploymentChecking DeploymentSwitching;
     Fleet.move DeploymentSwitching DeploymentSucceeded].
Definition no_shop : catalog_t :=
  {| products := []; versions := []; tests := []; cancellations := []; version_releases := []; catalog_audits := [];
     image_settings := settings Fleet.switching |}.
Definition desk (d : deploy_t) (stops : list stop_job) : control_t :=
  {| fleet := d; books := Sample.empty; stop_jobs := stops; restores := []; control_audits := [];
     shop := no_shop; profiles := []; app_secrets := []; backups := []; user_slugs := ∅ |}.
Definition rq : request := {| principal := "u-1"; actor := None; request_id := "r-1"; now := 7; origin := "https://c.example" |}.
Definition open : control_t := desk served [].
Definition asked : control_t := (run internalError (stopApp rq Fleet.app (Some "k-1") "s-1") no_faults open).2.
Definition worker_pass (c : control_t) : stop_outcome * control_t :=
  processStopOne "cloudmeter" "" 8 (λ _, true) (Some (λ _, Ok tt)) true no_faults no_faults c.
Definition restarted : control_t :=
  (run internalError (startApp rq Fleet.app (Some "k-2") "rel-2" "j-2") no_faults (worker_pass asked).2).2.

Lemma open_ok : control_ok open.
Proof.
  constructor; cbn; try done.
  - apply Fleet.fleet_ok; try done. Fleet.steps.
  - constructor.
  - by intros s t ?%elem_of_nil.
  - by intros s a ?%elem_of_nil.
  - intros a j ->%list_elem_of_singleton ? ->%list_elem_of_singleton _. reflexivity.
  - by intros a rt _ _ ?%elem_of_nil.
  - intros e He. exists done_job. split; [left|].
    repeat (apply elem_of_cons in He as [->|He]; [reflexivity|]). by apply elem_of_nil in He.
  - intros id. unfold mentioned. cbn. by rewrite !elem_of_cons, elem_of_nil; intros [->|[->|[]]]; left.
  - intros a i ->%list_elem_of_singleton [= <-]. left.
Qed.
Example asked_then_started :
  ((da_status <$> dapps (fleet asked)), (da_status <$> dapps (fleet (worker_pass asked).2)), (dj_operation <$> jobs (fleet restarted)))
  = ([AppStopping], [AppStopped], ["deploy"; "start"]).
Proof. vm_compute. reflexivity. Qed.

(** A worker whose claim went stale completes a job that another worker has
    finished: the application is marked as stopped although a later stop job is
    open. *)
Definition job (id : string) (st : stop_status) : stop_job :=
  {| sj_id := id; sj_app := Fleet.app; sj_release := None; sj_container := ""; sj_key := id; sj_status := st;
     sj_attempts := 1; sj_available := 0; sj_created := 0; sj_updated := 0; sj_error := None;
     sj_completed := None |}.
Definition late : control_t :=
  desk (Fleet.fleet (Fleet.application AppStopping (Some Fleet.rel)) release done_job [] []) [job "s-1" StopSucceeded; job "s-2" StopQueued].
Lemma complete_stale_claim :
  ∃ s a, s ∈ stop_jobs (run idle (complete_phase 9 (job "s-1" StopRunning)) no_faults late).2 ∧ open_stop s = true ∧
    a ∈ dapps (fleet (run idle (complete_phase 9 (job "s-1" StopRunning)) no_faults late).2) ∧ da_id a = sj_app s ∧
    da_status a = AppStopped.
Proof.
  exists (job "s-2" StopQueued), (Fleet.application AppStopped (Some Fleet.rel)).
  assert ((run idle (complete_phase 9 (job "s-1" StopRunning)) no_faults late).2 =
    upd_control_audits (λ _, control_audits (run idle (complete_phase 9 (job "s-1" StopRunning)) no_faults late).2)
    (desk (Fleet.fleet (Fleet.application AppStopped (Some Fleet.rel)) release done_job [] []) [job "s-1" StopSucceeded; job "s-2" StopQueued]))
    as -> by (vm_compute; reflexivity).
  split_and!; [right; left|done|left|done|done].
Qed.
End Desk.
