(* ===== verification/Releases.v ===== *)
(** * Applications and their releases

    internal/httpapi: createApp of server.go with the allocation of its names,
    createAppRelease, rollbackApp and createReleaseJob of app_lifecycle.go,
    applyReleaseSecretUpdates of app_secret_features.go and
    resolveAppAccessPolicy of app_access_policy.go.  A release is an immutable
    copy of a published version with the choices of the customer; its
    deployment job is what the worker of Deploy picks up. *)
From S2P Require Import Prelude GoStrings Regex GoValue GoTime Domain Tx Table Ledger Schema Http RuntimeSpec Accounts Names Health ProductSpec Graph Catalog DeployDb Deploy Control.
From stdpp Require Import list gmap.
Open Scope string_scope.
Open Scope Z_scope.
Open Scope list_scope.

(** ** Access to an application (app_access_policy.go) *)
Record appAccessSettingsRequest := { aq_PasswordEnabled : bool; aq_Username : string; aq_Password : string }.
Definition no_access : app_access := {| ac_Enabled := false; ac_Username := ""; ac_Hash := "" |}.
(** [bcrypt]: GenerateFromPassword, with the salts of the run. *)
Definition resolveAppAccessPolicy (bcrypt : string → option string) (request : option appAccessSettingsRequest) (current : app_access) :
    option app_access :=
  match request with
  | None => Some current
  | Some q =>
      if negb (aq_PasswordEnabled q) then Some no_access
      else
        let username := trim_space (aq_Username q) in
        if bool_decide (username = "") || (64 <? rune_count username) then None
        else
          hash ← (let password := aq_Password q in
                  if bool_decide (password = "") then Some (ac_Hash current)
                  else if (slen password <? 8) || (72 <? slen password) then None else bcrypt password);
          if bool_decide (hash = "") then None
          else Some {| ac_Enabled := true; ac_Username := username; ac_Hash := hash |}
  end.

(** ** Names *)
Definition nextAppSlugCandidate (base : string) (attempt : Z) : string :=
  if attempt <=? 0 then base
  else
    let suffix := format_int (attempt + 1) in
    let core := trim_right base "-" in
    let maxCore := 63 - slen suffix - 1 in
    let core := if maxCore <? slen core then trim_right (take_str (Z.to_nat maxCore) core) "-" else core in
    (core ^+ "-" ^+ suffix)%string.
Definition profile_is (id : string) (p : app_profile) : bool := bool_decide (ap_id p = id).
(** Applications that are not deleted, with their profile. *)
Definition live_app (q : dapp → app_profile → bool) (c : control_t) : bool :=
  exists_row (λ a, exists_row (λ p, profile_is (da_id a) p && negb (is_some (ap_deleted p)) && q a p) (profiles c)) (dapps (fleet c)).
Definition slug_taken (userID candidate : string) : control_t → bool :=
  live_app (λ a p, bool_decide (da_user a = userID) && (bool_decide (ap_slug p = candidate) || bool_decide (da_service a = candidate))).
Section names.
Context `{UnicodeLower} {R : Type} (failed : R).
Fixpoint first_free (taken : string → control_t → bool) (candidates : list string) : tx control_t R string :=
  match candidates with
  | [] => exit failed
  | candidate :: candidates =>
      t ← query (λ c, Ok (taken candidate c));
      if negb t then mret candidate else first_free taken candidates
  end.
Definition allocateUserAppSlug (userID base : string) : tx control_t R string :=
  first_free (slug_taken userID) (nextAppSlugCandidate base <$> seqZ 0 512).
Definition label_taken (candidate : string) : control_t → bool :=
  live_app (λ a _, bool_decide (to_lower (da_label a) = to_lower candidate)).
(** [random]: the hexadecimal digits of six random bytes, per attempt. *)
Definition allocateRouteHostLabel (random : Z → string) (appSlug userSlug : string) : tx control_t R string :=
  let base := trim (to_lower (appSlug ^+ "-" ^+ userSlug)%string) "-" in
  free ← (if slen base <=? 63 then t ← query (λ c, Ok (label_taken base c)); mret (negb t) else mret false);
  if free : bool then mret base
  else
    let base := trim_right appSlug "-" in
    let base := if 50 <? slen base then trim_right (take_str 50 base) "-" else base in
    first_free label_taken ((λ attempt, (base ^+ "-" ^+ random attempt)%string) <$> seqZ 0 32).
End names.

(** ** Statements *)
Definition insert_user_app (a : dapp) (p : app_profile) (c : control_t) : result sqlerr control_t :=
  if exists_row (app_is (da_id a)) (dapps (fleet c)) then Err (Constraint "user_apps_pkey")
  else if live_app (λ b q, bool_decide (da_user b = da_user a) && bool_decide (ap_slug q = ap_slug p)) c
  then Err (Constraint "user_apps_user_id_slug_key")
  else if live_app (λ b _, bool_decide (da_user b = da_user a) && bool_decide (da_service b = da_service a)) c
  then Err (Constraint "user_apps_user_id_service_slug_key")
  else if live_app (λ b _, bool_decide (da_label b = da_label a)) c then Err (Constraint "user_apps_active_route_host_label_uidx")
  else Ok (upd_profiles (λ t, t ++ [p]) (upd_fleet (upd_dapps (λ t, t ++ [a])) c)).
Definition insert_secret (app key : string) (c : control_t) : result sqlerr control_t :=
  if bool_decide ((app, key) ∈ app_secrets c) then Err (Constraint "app_secrets_user_app_id_key_key")
  else Ok (upd_app_secrets (λ t, t ++ [(app, key)]) c).
Definition upd_secret_versions f (d : deploy_t) : deploy_t :=
  {| dapps := dapps d; releases := releases d; jobs := jobs d; routes := routes d; port_mappings := port_mappings d;
     events := events d; unit_events := unit_events d; recovered_notices := recovered_notices d; prices := prices d;
     secret_versions := f (secret_versions d); settings := settings d |}.
Definition insert_secret_version (row : secret_version) (d : deploy_t) : result sqlerr deploy_t :=
  if exists_row (λ v, bool_decide (sv_id v = sv_id row)) (secret_versions d) then Err (Constraint "app_secret_versions_pkey")
  else Ok (upd_secret_versions (λ t, t ++ [row]) d).
(** The last version of a secret of the application. *)
Definition latest_secret (app key : string) (d : deploy_t) : option string :=
  sv_id <$> last (List.filter (λ v, bool_decide (sv_app v = app) && bool_decide (sv_key v = key)) (secret_versions d)).
Definition latest_secrets (app : string) (keys : list string) (d : deploy_t) : obj :=
  list_to_map (omap (λ key, id ← latest_secret app key d; Some (key, AStr id)) keys).
Definition release_job (id app release key operation : string) (source : option string) (at_ : timestamp) : deploy_job :=
  {| dj_id := id; dj_app := app; dj_release := release; dj_key := key; dj_source := source;
     dj_state := DeploymentQueued; dj_operation := operation; dj_attempts := 0; dj_available := at_; dj_created := at_;
     dj_error := None |}.
(** INSERT of a job of the operations deploy, update and rollback. *)
Definition insert_release_job (row : deploy_job) (d : deploy_t) : result sqlerr deploy_t :=
  match dj_source row with
  | Some source => insert_start_job row source d
  | None =>
      if negb (release_in [RelCreated] (dj_release row) (dj_app row) d) then Err (Constraint "deployment target release must be in created state")
      else if exists_row (λ j, bool_decide (dj_id j = dj_id row)) (jobs d) then Err (Constraint "deployment_jobs_pkey")
      else if exists_row (λ j, bool_decide (dj_key j = dj_key row)) (jobs d) then Err (Constraint "deployment_jobs_idempotency_key_key")
      else if exists_row (λ j, bool_decide (dj_app j = dj_app row) && negb (terminal_job j)) (jobs d)
      then Err (Constraint "deployment_jobs_active_app_uidx")
      else Ok (upd_jobs (λ t, t ++ [row]) d)
  end.
Definition deployable (v : product_version) : bool :=
  is_published v && negb (is_some (pv_archived v)) && negb (is_some (pv_deleted v)).
Definition published_template (productID versionID : string) (c : control_t) : result sqlerr (product * product_version) :=
  p ← select (λ p, product_is productID p && bool_decide (pd_status p = ProductPublished)) (products (shop c));
  v ← select (λ v, version_of versionID productID v && deployable v) (versions (shop c));
  Ok (p, v).
Definition release_snapshot (slug image : string) (runtime route health update versions : obj) : obj :=
  {["product_slug" := AStr slug; "image_digest" := AStr image; "runtime_spec" := AObj runtime; "route_spec" := AObj route;
    "health_spec" := AObj health; "update_spec" := AObj update; "secret_versions" := AObj versions]}.

Section handlers.
Context `{GoRange} `{UuidSyntax} `{UnicodeLower} `{ReleaseTrigger} (rq : request).
Context (bcrypt : string → option string) (encrypt : string → string → option string) (random : Z → string).
(** gen_random_uuid() for the version of a secret. *)
Context (fresh : string → string).
#[local] Abbreviation handler := (tx control_t response).
#[local] Abbreviation bad := (RError 400 "validation_failed").
#[local] Abbreviation bad_configuration := (RError 400 "invalid_deployment_configuration").
(** A checked value, or the answer. *)
Definition or_answer {E A} (r : result E A) (answer : response) : handler A :=
  match r with Ok a => mret a | Err _ => exit answer end.

Definition encrypted_version (appID key value : string) : handler string :=
  let versionID := fresh key in
  query (λ _, Ok tt);;
  match encrypt ("app.secret.version." ^+ versionID)%string value with
  | None => exit internal_error
  | Some encrypted =>
      exec (on_fleet (insert_secret_version {| sv_id := versionID; sv_app := appID; sv_key := key; sv_encrypted := encrypted |}));;
      mret versionID
  end.

(** ** What every deployment asks for *)
Definition require_startup_balance : handler unit :=
  balances ← query (λ c, startup_row (principal rq) (now rq) (books c));
  guard_exit (bool_decide (is_Some (startup_shortage balances))) (RError 409 "insufficient_startup_balance").
Definition require_entitlements (spec : obj) : handler unit :=
  guard_exit (negb (is_ok (enforceRuntimeEntitlements spec))) internal_error.
Definition require_runtime_dependencies (appID : string) (spec : obj) : handler unit :=
  missing ← missingRuntimeDependencies (principal rq) appID spec;
  guard_exit (bool_decide (missing = None)) internal_error;;
  guard_exit (negb (bool_decide (default [] missing = []))) (RError 409 "required_dependency_unavailable").

(** ** createApp *)
Record createAppRequest := {
  cr_ProductID : string; cr_VersionID : string; cr_Slug : string; cr_DomainRefreshDays : option Z; cr_IdempotencyKey : string;
  cr_Secrets : gmap string string; cr_Resources : selectedResources; cr_Access : appAccessSettingsRequest
}.
Definition key_invalid (key : string) : bool := bool_decide (key = "") || (128 <? slen key).
Definition day : Z := 86400 * second.
Fixpoint insert_initial_secrets (appID : string) (kvs : list (string * string)) : handler obj :=
  match kvs with
  | [] => mret ∅
  | (key, value) :: kvs =>
      exec (insert_secret appID key);;
      versionID ← encrypted_version appID key value;
      rest ← insert_initial_secrets appID kvs;
      mret (<[key := AStr versionID]> rest)
  end.
Definition new_app (appID instanceID productID slug label : string) (mapping : bool) : dapp :=
  {| da_id := appID; da_user := principal rq; da_product := productID; da_service := slug; da_instance := instanceID;
     da_status := AppDeploying; da_suspension := None; da_billing_at := None; da_last := None; da_mapping := mapping;
     da_label := label; da_created := now rq |}.
Definition new_profile (appID slug : string) (access : app_access) (days : option Z) : app_profile :=
  {| ap_id := appID; ap_slug := slug; ap_access := access; ap_refresh_days := days;
     ap_next_refresh := (λ n, now rq + n * day) <$> days; ap_deleted := None |}.
Definition slug_contention (e : sqlerr) : bool :=
  match e with
  | Constraint n => bool_decide (n = "user_apps_user_id_slug_key") || bool_decide (n = "user_apps_user_id_service_slug_key")
  | _ => false
  end.
(** The rows of the application, its secrets, its release and its job. *)
Definition insert_everything (req : createAppRequest) (productID versionID key : string) (p : product) (v : product_version)
    (runtime route : obj) (slug label : string) (access : app_access) (appID instanceID releaseID jobID : string) : handler response :=
  handle (exec (insert_user_app (new_app appID instanceID productID slug label (routeHasEnabledMapping route))
                  (new_profile appID slug access (cr_DomainRefreshDays req))))
    (λ e, if slug_contention e then exit (RError 409 "slug_contention") else throw e);;
  secretVersions ← insert_initial_secrets appID (go_range (cr_Secrets req));
  exec (on_fleet (insert_release (created_release releaseID appID versionID 1
    (AObj (release_snapshot (pd_slug p) (pv_image v) runtime route (pv_health v) (pv_update v) secretVersions)) (now rq))));;
  exec (record_audit {| au_actor := Some (principal rq); au_subject := Some (principal rq); au_action := "app.create";
    au_rtype := "user_app"; au_rid := appID; au_request := request_id rq;
    au_meta := [("product_id", JStr productID); ("product_version_id", JStr versionID);
                ("secret_keys", JStr (GoStrings.join "," (sort_by String.leb (go_range (cr_Secrets req)).*1)))] |});;
  exec (on_fleet (insert_release_job (release_job jobID appID releaseID key "deploy" None (now rq))));;
  commit;;
  mret (RJson 201 [("appId", JStr appID); ("releaseId", JStr releaseID); ("jobId", JStr jobID); ("status", JStr "deploying");
                   ("slug", JStr slug)]).
Definition select_user_slug (c : control_t) : result sqlerr string :=
  match user_slugs c !! principal rq with Some s => Ok s | None => Err NoRows end.
Definition createApp (body : option createAppRequest) (appID instanceID releaseID jobID : string) : handler response :=
  match body with
  | None => exit (RError 400 "invalid_request")
  | Some req =>
    let slug := to_lower (trim_space (cr_Slug req)) in
    let productID := to_lower (trim_space (cr_ProductID req)) in
    let versionID := to_lower (trim_space (cr_VersionID req)) in
    let key := trim_space (cr_IdempotencyKey req) in
    guard_exit (negb (valid_uuid productID) || negb (valid_uuid versionID) || negb (match_string appSlugPattern slug) || key_invalid key) bad;;
    guard_exit (match cr_DomainRefreshDays req with Some n => n <? 1 | None => false end) bad;;
    begin_tx;;
    existing ← optional (query (λ c, select (λ j, bool_decide (dj_key j = key) && is_ok (owned_app (dj_app j) (principal rq) c))
                                       (jobs (fleet c))));
    match existing with
    | Some job =>
        ignore commit;;
        mret (RJson 200 [("appId", JStr (dj_app job)); ("jobId", JStr (dj_id job)); ("idempotent", JBool true)])
    | None =>
      require_startup_balance;;
      enforceDeploymentConcurrency (principal rq);;
      pv ← on_error (query (published_template productID versionID)) (RError 404 "template_unavailable");
      let '(p, v) := pv in
      runtime ← or_answer (selectedRuntimeSpec (pv_runtime v) (cr_Resources req)) (RError 400 "invalid_resource_selection");
      route ← or_answer (selectedRouteSpec (pv_route v) (cr_Resources req)) bad_configuration;
      or_answer (validateInternalRoutePort runtime route) bad_configuration;;
      require_entitlements runtime;;
      require_runtime_dependencies "" runtime;;
      guard_exit (negb (validateInitialSecrets runtime (cr_Secrets req))) bad;;
      appSlug ← allocateUserAppSlug internal_error (principal rq) slug;
      userSlug ← query select_user_slug;
      label ← allocateRouteHostLabel internal_error random appSlug userSlug;
      match resolveAppAccessPolicy bcrypt (Some (cr_Access req)) no_access with
      | None => exit (RError 400 "invalid_access_settings")
      | Some access => insert_everything req productID versionID key p v runtime route appSlug label access appID instanceID releaseID jobID
      end
    end
  end.

(** ** Updates and rollbacks *)
(** *** app_secret_features.go *)
Definition appSecretKeyPattern : regex := RCat (RCls [r_upper; r_one "_"]) (rrep 0 127 (RCls [r_upper; r_digit; r_one "_"])).
(** The upper case is only compared with a key that matches the pattern, where
    the tables of Unicode make no difference. *)
Definition ascii_upper (s : string) : string :=
  str ((λ a, if (97 <=? code a)%nat && (code a <=? 122)%nat then ascii_of_nat (code a - 32) else a) <$> chars s).
Fixpoint normalize_secrets (options : list SecretOption) (normalized : gmap string string) (provided : list (string * string)) :
    result response (gmap string string) :=
  match provided with
  | [] => Ok normalized
  | (rawKey, value) :: provided =>
      let key := ascii_upper (trim_space rawKey) in
      if negb (match_string appSecretKeyPattern key) || negb (bool_decide (key = rawKey)) then Err bad
      else if bool_decide (is_Some (normalized !! key)) then Err bad
      else match List.find (λ o, bool_decide (so_Key o = key)) options with
           | None => Err (RError 400 "secret_not_declared")
           | Some option =>
               if negb (so_Editable option) then Err (RError 403 "secret_not_editable")
               else if bool_decide (trim_space value = "") || (65536 <? slen value) then Err bad
               else normalize_secrets options (<[key := value]> normalized) provided
           end
  end.
Fixpoint rotate_secrets (appID : string) (kvs : list (string * string)) : handler unit :=
  match kvs with
  | [] => mret tt
  | (key, value) :: kvs =>
      exec Ok;;
      found ← optional (query (λ c, if bool_decide ((appID, key) ∈ app_secrets c) then Ok tt else Err NoRows));
      (if is_some found then mret tt else exec (insert_secret appID key));;
      query (λ _, Ok tt);;
      encrypted_version appID key value;;
      rotate_secrets appID kvs
  end.
Definition key_le (a b : string * string) : bool := String.leb a.1 b.1.
Definition applyReleaseSecretUpdates (appID : string) (runtimeSpec : obj) (provided : gmap string string) : handler unit :=
  if bool_decide (provided = ∅) then mret tt
  else match RuntimeSecretOptions runtimeSpec with
       | Err _ => exit (RError 400 "invalid_secret_metadata")
       | Ok options =>
           match normalize_secrets options ∅ (go_range provided) with
           | Err r => exit r
           | Ok normalized => rotate_secrets appID (sort_by key_le (go_range normalized))
           end
       end.

(** *** app_lifecycle.go *)
Definition missing_backup (appID : string) (since : timestamp) (key : string) (c : control_t) : bool :=
  negb (exists_row (λ b, bool_decide (bk_app b = appID) && bool_decide (bk_volume b = key) && (since <=? bk_completed b)
                         && negb (bk_deleting b)) (backups c)).
Fixpoint missing_backups (appID : string) (since : timestamp) (keys : list string) : handler (list string) :=
  match keys with
  | [] => mret []
  | key :: keys =>
      missing ← query (λ c, Ok (missing_backup appID since key c));
      rest ← missing_backups appID since keys;
      mret (if missing : bool then key :: rest else rest)
  end.
Definition missingRequiredBackups (appID : string) (runtimeSpec : obj) (releaseCreated : timestamp) : handler (list string) :=
  missing_backups appID releaseCreated (vm_Key <$> VolumeMounts runtimeSpec).
(** A request without ports keeps those of the current release. *)
Definition route_selection (current : obj) (s : selectedResources) : selectedResources :=
  match sr_ListenerPorts s, as_obj (get current "route_spec") with
  | None, Some route =>
      match routeListeners route with
      | Ok ls =>
          {| sr_CPUCores := sr_CPUCores s; sr_MemoryMiB := sr_MemoryMiB s; sr_DataVolumeGiB := sr_DataVolumeGiB s;
             sr_VolumeSizes := sr_VolumeSizes s; sr_Command := sr_Command s; sr_Environment := sr_Environment s;
             sr_Dependencies := sr_Dependencies s; sr_PortMappingEnabled := sr_PortMappingEnabled s;
             sr_ContainerPort := sr_ContainerPort s;
             sr_ListenerPorts := Some ((λ l, {| sl_Key := ln_Key l; sl_ContainerPort := ln_ContainerPort l;
                                                sl_MappingEnabled := ln_MappingEnabled l |}) <$> ls) |}
      | Err _ => s
      end
  | _, _ => s
  end.
Definition update_template (appID versionID : string) (c : control_t) : result sqlerr (product * product_version) :=
  a ← owned_app appID (principal rq) c;
  p ← select (product_is (da_product a)) (products (shop c));
  v ← select (λ v, version_of versionID (da_product a) v && deployable v) (versions (shop c));
  Ok (p, v).
Definition set_mapping (appID : string) (b : bool) : deploy_t → result sqlerr deploy_t := write_app appID (with_mapping b).
Definition with_access (access : app_access) (p : app_profile) : app_profile :=
  {| ap_id := ap_id p; ap_slug := ap_slug p; ap_access := access; ap_refresh_days := ap_refresh_days p;
     ap_next_refresh := ap_next_refresh p; ap_deleted := ap_deleted p |}.
Definition set_access (appID : string) (access : app_access) (c : control_t) : result sqlerr control_t :=
  Ok (upd_profiles (update (profile_is appID) (with_access access)) c).
(** The snapshot of an update. *)
Definition update_snapshot (appID versionID : string) (current : obj) (selected : option selectedResources)
    (providedSecrets : gmap string string) (requested : option appAccessSettingsRequest) (access : app_access) : handler obj :=
  pv ← on_no_rows (query (update_template appID versionID)) (exit (RError 404 "version_not_found"));
  let '(p, v) := pv in
  runtime ← or_answer (runtimeSpecForUpdate (pv_runtime v) (snapshotRuntime current) selected) bad_configuration;
  route ← match selected with
          | None => mret (pv_route v)
          | Some s => or_answer (selectedRouteSpec (pv_route v) (route_selection current s)) bad_configuration
          end;
  or_answer (validateInternalRoutePort runtime route) bad_configuration;;
  applyReleaseSecretUpdates appID runtime providedSecrets;;
  exec (on_fleet (set_mapping appID (routeHasEnabledMapping route)));;
  (if is_some requested then exec (set_access appID access) else mret tt);;
  query (λ c, Ok (release_snapshot (pd_slug p) (pv_image v) runtime route (pv_health v) (pv_update v)
                    (latest_secrets appID (string_list (get runtime "secretKeys")) (fleet c)))).
Definition rollback_snapshot (appID source : string) : handler obj :=
  r ← on_no_rows (query (λ c, owned_app appID (principal rq) c;;
        select (λ r, release_is source appID r && bool_decide (rl_state r ∈ [RelActive; RelSuperseded])) (releases (fleet c))))
      (exit (RError 404 "release_not_found"));
  match as_obj (rl_snapshot r) with Some snapshot => mret snapshot | None => exit internal_error end.
(** The application with its profile and its current release. *)
Definition current_app (appID : string) (c : control_t) : result sqlerr (dapp * app_profile * option release) :=
  a ← owned_app appID (principal rq) c;
  p ← select (profile_is appID) (profiles c);
  Ok (a, p, last ← da_last a; match select (λ r, bool_decide (rl_id r = last)) (releases (fleet c)) with Ok r => Some r | Err _ => None end).
Definition may_update (a : dapp) : bool := bool_decide (da_status a ∈ [AppRunning; AppFailed; AppStopped]).
Definition start_update (appID : string) : deploy_t → result sqlerr deploy_t :=
  write_app appID (λ a, with_status AppUpdating (da_suspension a) (da_billing_at a) (da_last a) a).
(** The release and the job that an update or a rollback creates. *)
Definition create_release (appID versionID key operation : string) (source : option string) (snapshot : obj) (releaseID jobID : string) :
    handler response :=
  number ← query (λ c, Ok (max_release_number appID (fleet c) + 1));
  exec (on_fleet (insert_release (created_release releaseID appID versionID number (AObj snapshot) (now rq))));;
  exec (on_fleet (insert_release_job (release_job jobID appID releaseID key operation source (now rq))));;
  exec (on_fleet (start_update appID));;
  exec (control_audit rq ("app." ^+ operation)%string appID
          [("job_id", JStr jobID); ("release_id", JStr releaseID); ("product_version_id", JStr versionID);
           ("rollback_source_release_id", match source with Some s => JStr s | None => JNull end)]);;
  commit;;
  mret (RJson 202 [("appId", JStr appID); ("releaseId", JStr releaseID); ("jobId", JStr jobID); ("status", JStr "updating");
                   ("operation", JStr operation)]).
Definition existing_job (key : string) (c : control_t) : result sqlerr (deploy_job * release) :=
  j ← select (λ j, bool_decide (dj_key j = key) && is_ok (owned_app (dj_app j) (principal rq) c)) (jobs (fleet c));
  r ← select_release (dj_release j) (dj_app j) (fleet c);
  Ok (j, r).
(** What the snapshot must meet before it becomes a release. *)
Definition check_release (appID : string) (last : option release) (current snapshot : obj) : handler unit :=
  missing ← match last with
            | Some r =>
                if bool_decide (snapshotDataPolicy current = "backup_required") || bool_decide (snapshotDataPolicy snapshot = "backup_required")
                then missingRequiredBackups appID (snapshotRuntime current) (rl_created r) else mret []
            | None => mret []
            end;
  guard_exit (negb (bool_decide (missing = []))) (RError 409 "backup_required_before_update");;
  require_runtime_dependencies appID (snapshotRuntime snapshot);;
  secrets ← or_answer (missingSnapshotSecrets snapshot) internal_error;
  guard_exit (negb (bool_decide (secrets = []))) (RError 409 "required_secret_missing");;
  require_entitlements (snapshotRuntime snapshot).
(** [source]: the release that a rollback copies; without it, an update. *)
Definition createReleaseJob (appID versionID key : string) (source : option string) (selected : option selectedResources)
    (providedSecrets : gmap string string) (requested : option appAccessSettingsRequest) (releaseID jobID : string) : handler response :=
  let operation := if is_some source then "rollback" else "update" in
  begin_tx;;
  existing ← optional (query (existing_job key));
  match existing with
  | Some (job, r) =>
      guard_exit (negb (bool_decide (dj_app job = appID)) || negb (bool_decide (dj_operation job = operation))
                  || negb (bool_decide (rl_version r = versionID)) || negb (bool_decide (dj_source job = source)))
        (RError 409 "idempotency_conflict");;
      ignore commit;;
      mret (RJson 200 [("appId", JStr (dj_app job)); ("jobId", JStr (dj_id job)); ("idempotent", JBool true)])
  | None =>
    require_startup_balance;;
    enforceDeploymentConcurrency (principal rq);;
    row ← on_no_rows (query (λ c, if valid_uuid appID then current_app appID c else Err (Constraint "invalid input syntax for type uuid")))
            (exit (RError 404 "app_not_found"));
    let '(a, profile, last) := row in
    current ← match last with
              | None => mret ∅
              | Some r => match as_obj (rl_snapshot r) with Some m => mret m | None => exit internal_error end
              end;
    guard_exit (bool_decide (da_status a = AppSuspended)) (RError 409 "app_suspended");;
    guard_exit (negb (may_update a)) (RError 409 "app_invalid_status");;
    match resolveAppAccessPolicy bcrypt requested (ap_access profile) with
    | None => exit (RError 400 "invalid_access_settings")
    | Some access =>
      active ← query (λ c, Ok (job_under_way appID (fleet c)));
      guard_exit active (RError 409 "deployment_in_progress");;
      snapshot ← match source with
                 | Some s => rollback_snapshot appID s
                 | None => update_snapshot appID versionID current selected providedSecrets requested access
                 end;
      check_release appID last current snapshot;;
      create_release appID versionID key operation source snapshot releaseID jobID
    end
  end.
Record appReleaseRequest := {
  rr_VersionID : string; rr_IdempotencyKey : string; rr_Resources : option selectedResources; rr_Secrets : gmap string string;
  rr_Access : option appAccessSettingsRequest
}.
Definition createAppRelease (appID : string) (body : option appReleaseRequest) (releaseID jobID : string) : handler response :=
  match body with
  | None => exit (RError 400 "invalid_request")
  | Some req =>
      let versionID := trim_space (rr_VersionID req) in
      let key := trim_space (rr_IdempotencyKey req) in
      guard_exit (negb (valid_uuid versionID) || key_invalid key) bad;;
      createReleaseJob appID versionID key None (rr_Resources req) (rr_Secrets req) (rr_Access req) releaseID jobID
  end.
(** [body]: the release and the key; the version of the release is read before
    the transaction. *)
Definition rollbackApp (appID : string) (body : option (string * string)) (committed : control_t) (releaseID jobID : string) : handler response :=
  match body with
  | None => exit (RError 400 "invalid_request")
  | Some (source, key) =>
      let source := trim_space source in
      let key := trim_space key in
      guard_exit (negb (valid_uuid source) || key_invalid key) bad;;
      r ← on_no_rows (pool committed (λ c, if valid_uuid appID then
              select (λ r, release_is source appID r && bool_decide (rl_state r ∈ [RelActive; RelSuperseded])) (releases (fleet c))
              else Err (Constraint "invalid input syntax for type uuid"))) (exit (RError 404 "release_not_found"));
      createReleaseJob appID (rl_version r) key (Some source) None ∅ None releaseID jobID
  end.
End handlers.
