(* ===== verification/ReleaseFacts.v ===== *)
(** * Deployments that customers ask for keep the invariant

    The invariant of ControlFacts over createApp, updates and rollbacks, and
    over every interleaving of them with stops, starts and the workers. *)
From S2P Require Import Prelude GoStrings Regex GoValue GoTime Domain Tx Table Ledger Schema Http RuntimeSpec Crypto Accounts Names Health ProductSpec Graph Catalog DeployDb Triple Deploy DeployFacts Control ControlFacts Releases.
From stdpp Require Import list gmap relations.
Open Scope string_scope.
Open Scope Z_scope.
Open Scope list_scope.

#[local] Arguments update : simpl never.
#[local] Abbreviation any_answer := (λ _ : response, True).
#[local] Abbreviation kept c := (λ (_ : response) (w : control_t), control_ok w ∧ copies_kept c w).

(** ** What comes before the release *)
Definition app_key (a : dapp) := (da_id a, da_status a, da_last a).
(** The tables that the invariant is about are as they were, but for columns of
    applications that it does not look at. *)
Record prepared (c w : control_t) : Prop := {
  pr_apps : app_key <$> dapps (fleet w) = app_key <$> dapps (fleet c);
  pr_releases : releases (fleet w) = releases (fleet c);
  pr_jobs : jobs (fleet w) = jobs (fleet c);
  pr_routes : routes (fleet w) = routes (fleet c);
  pr_events : events (fleet w) = events (fleet c);
  pr_stops : stop_jobs w = stop_jobs c
}.
Lemma prepared_refl c : prepared c c.
Proof. done. Qed.
Lemma prepared_app c w a : prepared c w → a ∈ dapps (fleet w) →
  ∃ a', a' ∈ dapps (fleet c) ∧ da_id a = da_id a' ∧ da_status a = da_status a' ∧ da_last a = da_last a'.
Proof.
  intros [E _ _ _ _ _] Ha. apply (list_elem_of_fmap_2 app_key) in Ha. rewrite E in Ha.
  apply list_elem_of_fmap in Ha as (a' & [= -> -> ->] & ?). eauto.
Qed.
Lemma prepared_app_kept c w a : prepared c w → a ∈ dapps (fleet c) →
  ∃ a', a' ∈ dapps (fleet w) ∧ da_id a' = da_id a ∧ da_status a' = da_status a.
Proof.
  intros [E _ _ _ _ _] Ha. apply (list_elem_of_fmap_2 app_key) in Ha. rewrite <- E in Ha.
  apply list_elem_of_fmap in Ha as (a' & [= -> -> _] & ?). eauto.
Qed.
Lemma prepared_ids c w : prepared c w → da_id <$> dapps (fleet w) = da_id <$> dapps (fleet c).
Proof.
  intros [E _ _ _ _ _]. assert (∀ l, da_id <$> l = (λ k, k.1.1) <$> (app_key <$> l)) as F by (intros l; by rewrite <- list_fmap_compose).
  by rewrite !F, E.
Qed.
Lemma prepared_ok c w : control_ok c → prepared c w → control_ok w.
Proof.
  intros [[D1 D2 D3 D4 D5 D6 D7 D8] H2 H3 H4 H5 H6 H7 H8 H9] Hp. pose proof (prepared_ids _ _ Hp) as Hids.
  pose proof (λ a, prepared_app c w a Hp) as Ha. destruct Hp as [E1 E2 E3 E4 E5 E6].
  assert (∀ id, history id (fleet w) = history id (fleet c)) as Eh by (intros id; unfold history; by rewrite E5).
  constructor; [constructor|..]; rewrite ?Hids, ?E2, ?E3, ?E4, ?E5, ?E6; try done.
  - intros j a Hj (a' & Hin & Hid & _ & ->)%Ha Ht E. apply D5; [done..|congruence].
  - intros a r (a' & Hin & Hid & _ & ->)%Ha Hr E. apply D6; [done..|congruence].
  - intros rt a Hr (a' & Hin & Hid & _ & ->)%Ha E. apply D7; [done..|congruence].
  - intros j Hj. rewrite Eh. by apply D8.
  - intros s a Hs Ho (a' & Hin & Hid & -> & _)%Ha E. apply (H4 s); [done..|congruence].
  - intros a j (a' & Hin & Hid & Hst & _)%Ha E Hj Ej. apply (H5 a'); [done|congruence|done|congruence].
  - intros a rt (a' & Hin & Hid & Hst & _)%Ha E Hr. rewrite Hid. apply (H6 a'); [done|congruence|done].
  - apply (owned_next c); [by rewrite Hids| |done]. intros id. rewrite !mentioned_cases, E2, E3, E4, E6. auto.
  - intros a i (a' & Hin & _ & _ & ->)%Ha. by apply H9.
Qed.

Lemma prepared_trans c1 c2 c3 : prepared c1 c2 → prepared c2 c3 → prepared c1 c3.
Proof. intros [] []. constructor; congruence. Qed.

(** *** Statements that only prepare *)
Lemma prepared_apps w app f w' : (∀ a, app_key (f a) = app_key a) → on_fleet (write_app app f) w = Ok w' → prepared w w'.
Proof. intros Hf (d & [= <-] & ->)%on_fleet_inv. constructor; cbn; try done. by rewrite update_column. Qed.
Lemma prepared_mapping w app b w' : on_fleet (set_mapping app b) w = Ok w' → prepared w w'.
Proof. by apply prepared_apps. Qed.
Lemma prepared_secret w app key w' : insert_secret app key w = Ok w' → prepared w w'.
Proof. intros Hi. unfold insert_secret in Hi. case_match; [done|]. injection Hi as <-. by constructor. Qed.
Lemma prepared_version w row w' : on_fleet (insert_secret_version row) w = Ok w' → prepared w w'.
Proof.
  intros (d & Hi & ->)%on_fleet_inv. unfold insert_secret_version in Hi. case_match; [done|]. injection Hi as <-. by constructor.
Qed.
Lemma prepared_access w app access w' : set_access app access w = Ok w' → prepared w w'.
Proof. intros [= <-]. by constructor. Qed.
Lemma prepared_audit w row w' : record_audit row w = Ok w' → prepared w w'.
Proof. intros [= <-]. by constructor. Qed.
Lemma prepared_same w w' : (Ok w : result sqlerr control_t) = Ok w' → prepared w w'.
Proof. intros [= ->]. apply prepared_refl. Qed.
Create HintDb prepared.
#[local] Hint Resolve prepared_secret prepared_mapping prepared_version prepared_access prepared_audit prepared_same : prepared.

(** What such statements keep. *)
Class Lasting (Q : control_t → Prop) := lasting : ∀ w w', Q w → prepared w w' → Q w'.
#[export] Instance prepared_lasting c : Lasting (prepared c).
Proof. intros w w'. apply prepared_trans. Qed.
#[warnings="-inconsistent-scopes"]
Abbreviation prepares Q m := (triple Q m (λ _, Q) any_answer).
(** One piece of a handler at a time. *)
Ltac prepare :=
  cbv beta zeta;
  lazymatch goal with
  | |- triple ?P (mbind _ _) _ _ => apply (triple_bind _ _ _ (λ _, P)); [prepare|intros ?; prepare]
  | |- triple _ (mret _) _ _ => by apply triple_ret
  | |- triple _ (exit _) _ _ => by apply triple_exit
  | |- triple _ (guard_exit _ _) _ _ => by apply triple_guard
  | |- triple _ (query _) _ _ => by apply triple_query
  | |- triple _ (optional _) _ _ => by apply triple_optional
  | |- triple _ (on_no_rows _ _) _ _ => apply triple_no_rows_exit; prepare
  | |- triple _ (exec _) _ _ => apply triple_exec; intros ? ? ? ?; eapply lasting; [eassumption|eauto with prepared]
  | |- triple _ (match ?x with _ => _ end) _ _ => destruct x; prepare
  | |- _ => try done
  end.

Section handlers.
Context `{GoRange} `{UuidSyntax} `{UnicodeLower} `{ReleaseTrigger} (rq : request).
Context (bcrypt : string → option string) (encrypt : string → string → option string) (random : Z → string).
Context (fresh : string → string).

Section pieces.
Context (Q : control_t → Prop) `{!Lasting Q}.

Lemma or_answer_prepares {E A} (r : result E A) answer : prepares Q (or_answer r answer).
Proof. unfold or_answer. prepare. Qed.
Lemma require_startup_balance_prepares : prepares Q (require_startup_balance rq).
Proof. unfold require_startup_balance. prepare. Qed.
Lemma require_entitlements_prepares spec : prepares Q (require_entitlements spec).
Proof. unfold require_entitlements. prepare. Qed.
Lemma require_runtime_dependencies_prepares app spec : prepares Q (require_runtime_dependencies rq app spec).
Proof.
  unfold require_runtime_dependencies, missingRuntimeDependencies. destruct (RuntimeDependencies spec); [|prepare].
  apply (triple_bind _ _ _ (λ _, Q)); [|intros; prepare].
  apply (triple_bind _ _ _ (λ _, Q)); [apply missing_dependencies_keeps|intros; prepare].
Qed.
Lemma first_free_prepares (failed : response) taken candidates : prepares Q (first_free failed taken candidates).
Proof. induction candidates as [|x l IH]; cbn; [prepare|]. prepare. Qed.
Lemma allocate_label_prepares (failed : response) slug user : prepares Q (allocateRouteHostLabel failed random slug user).
Proof. unfold allocateRouteHostLabel. prepare; apply first_free_prepares. Qed.
Lemma encrypted_version_prepares app key value : prepares Q (encrypted_version encrypt fresh app key value).
Proof. unfold encrypted_version. prepare. Qed.
Lemma rotate_secrets_prepares app kvs : prepares Q (rotate_secrets encrypt fresh app kvs).
Proof.
  induction kvs as [|[key value] kvs IH]; cbn; prepare. apply encrypted_version_prepares.
Qed.
Lemma secret_updates_prepare app spec provided : prepares Q (applyReleaseSecretUpdates encrypt fresh app spec provided).
Proof. unfold applyReleaseSecretUpdates. prepare. apply rotate_secrets_prepares. Qed.
Lemma initial_secrets_prepare app kvs : prepares Q (insert_initial_secrets encrypt fresh app kvs).
Proof.
  induction kvs as [|[key value] kvs IH]; cbn; prepare. apply encrypted_version_prepares.
Qed.
Lemma missing_backups_prepares app since keys : prepares Q (missing_backups app since keys).
Proof. induction keys; cbn; prepare. Qed.
Lemma update_snapshot_prepares app version current selected provided requested access :
  prepares Q (update_snapshot rq encrypt fresh app version current selected provided requested access).
Proof. unfold update_snapshot. prepare; try apply or_answer_prepares. apply secret_updates_prepare. Qed.
Lemma rollback_snapshot_prepares app source : prepares Q (rollback_snapshot rq app source).
Proof. unfold rollback_snapshot. prepare. Qed.
Lemma check_release_prepares app last current snapshot : prepares Q (check_release rq app last current snapshot).
Proof.
  unfold check_release, missingRequiredBackups. prepare; try apply missing_backups_prepares; try apply or_answer_prepares.
  - apply require_runtime_dependencies_prepares.
  - apply require_entitlements_prepares.
Qed.

End pieces.

(** ** The release and its job *)
Context (c : control_t).
Lemma insert_release_job_inv row d d' : insert_release_job row d = Ok d' →
  (∀ j, j ∈ jobs d → dj_id j ≠ dj_id row) ∧ job_under_way (dj_app row) d = false ∧ d' = upd_jobs (λ t, t ++ [row]) d.
Proof.
  unfold insert_release_job. destruct (dj_source row) as [source|]; [by intros (_ & ? & ? & ?)%insert_start_job_inv|].
  intros Hi. refused Hi. injection Hi as <-. split_and!; try done.
  intros j Hj E. match goal with H : exists_row (λ j, bool_decide (dj_id j = _)) _ = false |- _ => eapply exists_row_false in H; [|exact Hj] end.
  cbv beta in *. by bool_hyps.
Qed.
Lemma create_release_keeps a version key operation source snapshot release job :
  control_ok c → a ∈ dapps (fleet c) → da_status a ≠ AppStopping → isRecoveryOperation operation = false →
  ends internalError (prepared c) (create_release rq (da_id a) version key operation source snapshot release job) (kept c) any_answer.
Proof.
  intros Hok Ha Hst Hop. unfold create_release. apply ends_query; [done|]. intros w n Hw _.
  pose proof (prepared_ok _ _ Hok Hw) as Hokw. destruct (prepared_app_kept _ _ _ Hw Ha) as (a' & Ha' & Hid & Hst').
  do 4 (eapply ends_bind; [apply sp_exec|done|intros []]).
  apply (ends_commit _ _ _ any_answer); [done|by apply closing_ret|].
  intros r w' _ (w4 & (w3 & (w2 & (w1 & -> & Hr) & Hj) & Hs) & [= <-]).
  apply on_fleet_inv in Hr as (d1 & (Hrf & ->)%insert_release_inv & ->).
  apply on_fleet_inv in Hj as (d2 & (Hjf & Hno & ->)%insert_release_job_inv & ->).
  apply on_fleet_inv in Hs as (d3 & [= <-] & ->). cbn in *.
  split; [|eapply copies_snoc; cbn; by rewrite (pr_releases _ _ Hw)].
  apply (control_start w _ (λ a, with_status AppUpdating (da_suspension a) (da_billing_at a) (da_last a) a) a'
    (created_release release (da_id a) version n (AObj snapshot) (now rq))
    (release_job job (da_id a) release key operation source (now rq))); try done; [by rewrite Hst'|cbn; by rewrite Hid].
Qed.
Lemma createReleaseJob_keeps app version key source selected provided requested release job :
  control_ok c →
  ends internalError (λ w, w = c)
    (createReleaseJob rq bcrypt encrypt fresh app version key source selected provided requested release job) (kept c) any_answer.
Proof.
  intros Hok. unfold createReleaseJob. set (operation := if is_some source then "rollback" else "update").
  assert (isRecoveryOperation operation = false) as Hop by (subst operation; by destruct source).
  eapply ends_bind; [apply triple_begin|done|intros []]. cbv beta.
  apply ends_optional; [done| |].
  { intros w [j r] -> _. cbv beta iota. apply ends_guard; [done|intros _]. by apply answered_commit. }
  intros w -> _. cbv beta iota. apply (ends_pre _ (prepared c)); [intros ? ->; apply prepared_refl|].
  eapply ends_bind; [apply require_startup_balance_prepares|done|intros []].
  apply (ends_bind _ _ _ _ (λ _, prepared c)); [by apply triple_ret|done|intros []].
  apply ends_claim; [done..|]. intros w [[a profile] last] Hw Hrow.
  apply (ends_pre _ (prepared c)); [by intros ? ->|].
  assert (∃ a', a' ∈ dapps (fleet c) ∧ app = da_id a' ∧ da_status a = da_status a') as (a' & Ha' & -> & Hst).
  { destruct (valid_uuid app); [|done]. apply bind_ok_inv in Hrow as (b & [Hb <-]%owned_app_spec & Hrow).
    apply bind_ok_inv in Hrow as (p & _ & [= -> _ _]). destruct (prepared_app _ _ _ Hw Hb) as (a' & ? & ? & ? & _). eauto. }
  eapply (ends_bind _ _ _ _ (λ _, prepared c)); [prepare|done|intros current].
  apply ends_guard; [done|intros _]. apply ends_guard; [done|intros Hmay].
  assert (da_status a' ≠ AppStopping) as Hns.
  { rewrite <- Hst. unfold may_update in Hmay. bool_hyps. intros E. rewrite E in Hmay. vm_compute in Hmay. set_solver. }
  destruct (resolveAppAccessPolicy _ _ _) as [access|]; [|by apply ends_exit].
  eapply (ends_bind _ _ _ _ (λ _, prepared c)); [prepare|done|intros active].
  apply ends_guard; [done|intros _].
  eapply (ends_bind _ _ _ _ (λ _, prepared c)); [|done|intros snapshot].
  { destruct source; [apply rollback_snapshot_prepares|apply update_snapshot_prepares, _]. }
  eapply ends_bind; [apply check_release_prepares|done|intros []]. by apply create_release_keeps.
Qed.

(** ** A new application *)
Lemma fresh_mention w id : control_ok w → exists_row (app_is id) (dapps (fleet w)) = false → id ∉ mentioned w.
Proof.
  intros Hok Hno Hin. apply (co_owned _ Hok), list_elem_of_fmap in Hin as (a & -> & Ha).
  eapply exists_row_false in Hno; [|exact Ha]. unfold app_is in Hno. by bool_hyps.
Qed.
Lemma control_new_app w w' a :
  control_ok w → exists_row (app_is (da_id a)) (dapps (fleet w)) = false → da_last a = None →
  stop_jobs w' = stop_jobs w → fleet w' = upd_dapps (λ t, t ++ [a]) (fleet w) → control_ok w'.
Proof.
  intros Hok Hno Hlast Hstops Hfleet. pose proof (fresh_mention _ _ Hok Hno) as Hfree. rewrite mentioned_cases in Hfree.
  assert (∀ b, b ∈ dapps (fleet w) → da_id b ≠ da_id a) as Hne.
  { intros b Hb E. eapply exists_row_false in Hno; [|exact Hb]. unfold app_is in Hno. by bool_hyps. }
  destruct Hok as [[D1 D2 D3 D4 D5 D6 D7 D8] G2 G3 G4 G5 G6 G7 G8 G9].
  assert ((∀ r, r ∈ releases (fleet w) → rl_app r ≠ da_id a) ∧ (∀ j, j ∈ jobs (fleet w) → dj_app j ≠ da_id a) ∧
    (∀ rt, rt ∈ routes (fleet w) → dr_app rt ≠ da_id a) ∧ ∀ s, s ∈ stop_jobs w → sj_app s ≠ da_id a) as (F1 & F2 & F3 & F4).
  { split_and!; intros x Hx E; apply Hfree; [left|right; left|do 2 right; left|do 3 right];
      apply list_elem_of_fmap; eauto. }
  constructor; [constructor|..]; rewrite ?Hstops, ?Hfleet; cbn; try done.
  - apply NoDup_snoc; [done|]. exact Hne.
  - intros j b Hj [Hb| ->%list_elem_of_singleton]%elem_of_app Ht E; [by apply D5|]. by destruct (F2 j).
  - intros b r [Hb| ->%list_elem_of_singleton]%elem_of_app Hr E; [by apply D6|]. by destruct (F1 r).
  - intros rt b Hr [Hb| ->%list_elem_of_singleton]%elem_of_app E; [by apply D7|]. by destruct (F3 rt).
  - intros s b Hs Ho [Hb| ->%list_elem_of_singleton]%elem_of_app E; [by apply (G4 s)|]. by destruct (F4 s).
  - intros b j [Hb| ->%list_elem_of_singleton]%elem_of_app E Hj Ej; [by apply (G5 b)|]. by destruct (F2 j).
  - intros b rt [Hb| ->%list_elem_of_singleton]%elem_of_app E Hr; [by apply G6|by apply F3].
  - apply (owned_next w); rewrite ?Hfleet; cbn.
    + intros id Hid. rewrite fmap_app. apply elem_of_app. by left.
    + intros id. rewrite !mentioned_cases, Hstops, Hfleet. auto.
    + exact G8.
  - intros b i [Hb| ->%list_elem_of_singleton]%elem_of_app Hl; [by apply (G9 b)|]. congruence.
Qed.
(** The application is there, and nothing else happened to the tables. *)
Definition created (id : string) (w : control_t) : Prop :=
  control_ok w ∧ copies_kept c w ∧ ∃ a, a ∈ dapps (fleet w) ∧ da_id a = id ∧ da_status a ≠ AppStopping.
#[local] Instance created_lasting id : Lasting (created id).
Proof.
  intros w w' (Hok & Hc & a & Ha & Hid & Hst) Hp. split_and!.
  - by eapply prepared_ok.
  - eapply copies_trans; [exact Hc|]. apply copies_refl, Hp.
  - destruct (prepared_app_kept _ _ _ Hp Ha) as (a' & ? & ? & ?). exists a'. split_and!; [done|congruence..].
Qed.
Lemma insert_user_app_created a p w w' :
  control_ok c → prepared c w → da_last a = None → da_status a ≠ AppStopping → insert_user_app a p w = Ok w' → created (da_id a) w'.
Proof.
  intros Hok Hp Hlast Hst Hi. pose proof (prepared_ok _ _ Hok Hp) as Hokw. unfold insert_user_app in Hi. refused Hi. injection Hi as <-.
  split_and!.
  - by eapply (control_new_app w _ a).
  - apply copies_refl, Hp.
  - exists a. split; [|done]. cbn. apply elem_of_app. right. by apply list_elem_of_singleton.
Qed.
Lemma insert_everything_keeps req product version key p v runtime route slug label access app instance release job :
  control_ok c →
  ends internalError (prepared c)
    (insert_everything rq encrypt fresh req product version key p v runtime route slug label access app instance release job)
    (kept c) any_answer.
Proof.
  intros Hok. unfold insert_everything. apply (ends_bind _ _ _ _ (λ _, created app)); [|done|intros []].
  { apply triple_handle_exit.
    - apply triple_exec. intros w w' Hw Hi. by eapply insert_user_app_created in Hi.
    - intros e. destruct (slug_contention e); [by apply triple_exit|apply triple_throw]. }
  eapply (ends_bind _ _ _ _ (λ _, created app)); [apply initial_secrets_prepare, _|done|intros secrets].
  do 3 (eapply ends_bind; [apply sp_exec|done|intros []]).
  apply (ends_commit _ _ _ any_answer); [done|by apply closing_ret|].
  intros r w' _ (w3 & (w2 & (w1 & (Hok1 & Hc & a & Ha & Hid & Hst) & Hr) & [= <-]) & Hj).
  apply on_fleet_inv in Hr as (d1 & (Hrf & ->)%insert_release_inv & ->).
  apply on_fleet_inv in Hj as (d2 & (Hjf & Hno & ->)%insert_release_job_inv & ->). cbn in *.
  split; [|eapply copies_trans; [exact Hc|]; by eapply copies_snoc].
  eapply (control_release w1 _ Hok1 a); [exact Ha|exact Hst|..|reflexivity]; done.
Qed.
Lemma createApp_keeps body app instance release job :
  control_ok c →
  ends internalError (λ w, w = c) (createApp rq bcrypt encrypt random fresh body app instance release job) (kept c) any_answer.
Proof.
  intros Hok. unfold createApp. destruct body as [req|]; [|by apply ends_exit]. cbv zeta.
  do 2 (apply ends_guard; [done|intros _]). eapply ends_bind; [apply triple_begin|done|intros []]. cbv beta.
  apply ends_optional; [done|intros w job' -> _; by apply answered_commit|]. intros w -> _. cbv beta iota.
  apply (ends_pre _ (prepared c)); [intros ? ->; apply prepared_refl|].
  eapply ends_bind; [apply require_startup_balance_prepares|done|intros []].
  apply (ends_bind _ _ _ _ (λ _, prepared c)); [by apply triple_ret|done|intros []].
  apply ends_query_or; [done|]. intros w [p v] Hw _. apply (ends_pre _ (prepared c)); [by intros ? ->|].
  eapply ends_bind; [apply or_answer_prepares|done|intros runtime].
  eapply ends_bind; [apply or_answer_prepares|done|intros route].
  eapply ends_bind; [apply or_answer_prepares|done|intros []].
  eapply ends_bind; [apply require_entitlements_prepares|done|intros []].
  eapply ends_bind; [apply require_runtime_dependencies_prepares|done|intros []].
  apply ends_guard; [done|intros _].
  eapply ends_bind; [apply first_free_prepares|done|intros slug].
  apply ends_query; [done|]. intros w' userSlug Hw' _. apply (ends_pre _ (prepared c)); [by intros ? ->|].
  eapply ends_bind; [apply allocate_label_prepares|done|intros label].
  destruct (resolveAppAccessPolicy _ _ _) as [access|]; [|by apply ends_exit]. by apply insert_everything_keeps.
Qed.
End handlers.

(** ** Every interleaving *)
Section history.
Context `{GoRange} `{Secrets} `{UnicodeLower} `{UuidSyntax} `{ReleaseTrigger} (cfg : worker_config).
Context (bcrypt : string → option string) (encrypt : string → string → option string).

(** The steps of ControlFacts, and one transaction of a handler of releases,
    with any faults. *)
Inductive application_step (c : control_t) : control_t → Prop :=
  | step_control c' : control_step cfg c c' → application_step c c'
  | step_create rq random fresh body app instance release job orc :
      application_step c (run internalError (createApp rq bcrypt encrypt random fresh body app instance release job) orc c).2
  | step_update rq fresh app body release job orc :
      application_step c (run internalError (createAppRelease rq bcrypt encrypt fresh app body release job) orc c).2
  | step_rollback rq fresh app body committed release job orc :
      application_step c (run internalError (rollbackApp rq bcrypt encrypt fresh app body committed release job) orc c).2.

Lemma createAppRelease_keeps rq fresh app body release job c : control_ok c →
  ends internalError (λ w, w = c) (createAppRelease rq bcrypt encrypt fresh app body release job) (kept c) any_answer.
Proof.
  intros Hok. unfold createAppRelease. destruct body as [req|]; [|by apply ends_exit].
  apply ends_guard; [done|intros _]. by apply createReleaseJob_keeps.
Qed.
Lemma rollbackApp_keeps rq fresh app body committed release job c : control_ok c →
  ends internalError (λ w, w = c) (rollbackApp rq bcrypt encrypt fresh app body committed release job) (kept c) any_answer.
Proof.
  intros Hok. unfold rollbackApp. destruct body as [[source key]|]; [|by apply ends_exit].
  apply ends_guard; [done|intros _]. eapply (ends_bind _ _ _ _ (λ _ w, w = c)); [|done|intros r; by apply createReleaseJob_keeps].
  apply triple_no_rows_exit; [by apply triple_pool|by apply triple_exit].
Qed.
Lemma application_step_keeps c c' : application_step c c' → control_ok c → control_ok c' ∧ copies_kept c c'.
Proof.
  intros [] Hok; [by eapply control_step_keeps|apply ends_keep; [done|]..].
  - by apply createApp_keeps.
  - by apply createAppRelease_keeps.
  - by apply rollbackApp_keeps.
Qed.

End history.
