(* ===== verification/ReleaseRuns.v ===== *)
(** * Runs of the handlers of releases

    An application is created from the catalog of CatalogRuns, deployed,
    updated and rolled back. *)
From S2P Require Import Prelude GoStrings Regex GoValue GoTime Domain Tx Table Ledger Schema Http RuntimeSpec Crypto Accounts PaymentFacts Names Health ProductSpec Graph Catalog DeployDb Triple Deploy DeployFacts DeployRuns CatalogRuns Control ControlFacts ControlRuns Releases ReleaseFacts.
From stdpp Require Import list gmap relations.
Open Scope string_scope.
Open Scope Z_scope.
Open Scope list_scope.
#[local] Existing Instances Fleet.range Fleet.lower Fleet.clear Sample.any_uuid Desk.admits.

Module Customer.
Definition nothing : deploy_t :=
  {| dapps := []; releases := []; jobs := []; routes := []; port_mappings := []; events := []; unit_events := [];
     recovered_notices := []; prices := []; secret_versions := []; settings := settings Fleet.switching |}.
Definition shop_of (c : catalog_t) : control_t :=
  {| fleet := nothing; books := Sample.empty; stop_jobs := []; restores := []; control_audits := []; shop := c;
     profiles := []; app_secrets := []; backups := []; user_slugs := {["u-1" := "ann"]} |}.
(** The database, with the options that customers may change. *)
Definition spec : obj :=
  <["editableOptions" := AObj {["cpu" := ABool true; "memory" := ABool true; "dataVolume" := ABool true]}]> Store.db_spec.
Definition start : control_t :=
  shop_of (Store.publish Store.db_id "v-1" (Store.passes (Store.start_test Store.db_id "v-1" "t-1"
    (Store.add_version Store.db_id "v-1" spec (Store.create Store.db_id "postgres" Store.empty))))).
Definition bcrypt (p : string) : option string := Some ("$" ^+ p)%string.
Definition encrypt (_ v : string) : option string := Some v.
Definition random (n : Z) : string := format_int (1000 + n).
Definition fresh (id key : string) : string := id.
Definition rq (n : Z) : request := {| principal := "u-1"; actor := None; request_id := "r-1"; now := n; origin := "https://c.example" |}.
Definition no_choice : selectedResources :=
  {| sr_CPUCores := None; sr_MemoryMiB := None; sr_DataVolumeGiB := None; sr_VolumeSizes := ∅; sr_Command := None;
     sr_Environment := None; sr_Dependencies := None; sr_PortMappingEnabled := None; sr_ContainerPort := None; sr_ListenerPorts := None |}.
Definition order (slug key : string) : createAppRequest :=
  {| cr_ProductID := Store.db_id; cr_VersionID := "v-1"; cr_Slug := slug; cr_DomainRefreshDays := None; cr_IdempotencyKey := key;
     cr_Secrets := {["TOKEN" := "secret"]}; cr_Resources := no_choice;
     cr_Access := {| aq_PasswordEnabled := false; aq_Username := ""; aq_Password := "" |} |}.
Definition answer (m : tx control_t response response) (c : control_t) : response * control_t := run internalError m no_faults c.
Definition deploy (n : Z) (c : control_t) : control_t :=
  upd_fleet (λ d, (deploy_pass Fleet.config {| p_now := n * second; p_unlocked := λ _, true; p_docker := Some Fleet.engine |}
                     no_faults no_faults d).2) c.
Definition create (slug app : string) (c : control_t) : response * control_t :=
  answer (createApp (rq 7) bcrypt encrypt random (fresh app) (Some (order slug app)) app app ("rel-" ^+ app)%string ("job-" ^+ app)%string) c.
Definition deployed (c : control_t) : control_t := deploy 500 (deploy 400 (deploy 300 (deploy 200 (deploy 100 c)))).
Definition change : appReleaseRequest :=
  {| rr_VersionID := "v-1"; rr_IdempotencyKey := "k-2"; rr_Resources := Some no_choice; rr_Secrets := {["TOKEN" := "other"]}; rr_Access := None |}.
Definition update (app : string) (c : control_t) : response * control_t :=
  answer (createAppRelease (rq 9) bcrypt encrypt (fresh "6f2c9a10-5555-4aaa-8bbb-000000000009") app (Some change) "rel-2" "job-2") c.
Definition rollback (app source : string) (c : control_t) : response * control_t :=
  answer (rollbackApp (rq 10) bcrypt encrypt (fresh "old") app (Some (source, "k-3")) c "rel-3" "job-3") c.
Definition app : string := "6f2c9a10-1111-4aaa-8bbb-000000000009".
Definition first : control_t := deployed (create "Data" app start).2.
Definition updated : control_t := deployed (update app first).2.
Definition back : control_t := (rollback app ("rel-" ^+ app)%string updated).2.

Example accepted : ((da_status <$> dapps (fleet first)), (rl_state <$> releases (fleet updated)), (dj_operation <$> jobs (fleet back)))
  = ([AppRunning], [RelSuperseded; RelActive], ["deploy"; "update"; "rollback"]).
Proof. vm_compute. reflexivity. Qed.
(** The next free name, and the secret that the update brought. *)
Example second_name : (create "data" "a2" first).1
  = RJson 201 [("appId", JStr "a2"); ("releaseId", JStr "rel-a2"); ("jobId", JStr "job-a2"); ("status", JStr "deploying"); ("slug", JStr "data-2")].
Proof. vm_compute. reflexivity. Qed.
Example rotated : (sv_encrypted <$> secret_versions (fleet updated)) = ["secret"; "other"].
Proof. vm_compute. reflexivity. Qed.

Lemma start_ok : control_ok start.
Proof.
  constructor; [constructor|..]; cbn; try apply NoDup_nil_2; try (by intros ? ?%elem_of_nil); try (by intros ? ? ?%elem_of_nil).
Qed.
End Customer.
#[local] Abbreviation customer_step := (application_step Fleet.config Customer.bcrypt Customer.encrypt).
Lemma deploy_step n c : customer_step c (Customer.deploy n c).
Proof. apply step_control. unfold Customer.deploy. apply step_deploy. Qed.
Lemma create_step slug app c : customer_step c (Customer.create slug app c).2.
Proof. unfold Customer.create, Customer.answer. apply step_create. Qed.
Lemma update_step app c : customer_step c (Customer.update app c).2.
Proof. unfold Customer.update, Customer.answer. apply step_update. Qed.
Lemma rollback_step app source c : customer_step c (Customer.rollback app source c).2.
Proof. unfold Customer.rollback, Customer.answer. apply step_rollback. Qed.
Lemma customer_deployed c : rtc customer_step c (Customer.deployed c).
Proof. unfold Customer.deployed. do 5 (eapply rtc_r; [|apply deploy_step]). apply rtc_refl. Qed.
Lemma customer_created slug app c : rtc customer_step c (Customer.deployed (Customer.create slug app c).2).
Proof. eapply rtc_l; [apply create_step|apply customer_deployed]. Qed.
Lemma customer_returned app source c :
  rtc customer_step c (Customer.rollback app source (Customer.deployed (Customer.update app c).2)).2.
Proof. eapply rtc_r; [|apply rollback_step]. eapply rtc_l; [apply update_step|apply customer_deployed]. Qed.
Lemma customer_first : rtc customer_step Customer.start Customer.first.
Proof. unfold Customer.first. apply customer_created. Qed.
Lemma customer_back : rtc customer_step Customer.first Customer.back.
Proof. unfold Customer.back, Customer.updated. apply customer_returned. Qed.
